(* ===== verification/_CoqProject ===== *)
-Q . S2P
Prelude.v
CxxString.v
CString.v
WebBench.v
BenchCore.v
HttpTypes.v
HttpParser.v
RequestSpec.v
HttpServer.v
HttpConnection.v
WebBenchSpec.v
LogQueue.v
AsyncLogger.v
Uring.v
UringTasks.v
UringTime.v
UringServer.v
CoroServer.v
Util.v
HttpData.v
Timer.v
Epoll.v
EpollServer.v
LoopLife.v
EventLoop.v
LogStream.v
AsyncLogging.v
LogSystem.v
ThreadPool.v
Unique.v
Ownership.v
TaskHandle.v
Memory.v
Startup.v
ServerLoops.v
Latch.v
Threads.v
ThreadStart.v
Lifecycle.v
Program.v
