(* ===== verification/Prelude.v ===== *)
(** * CorioWebServer: a verification development

    The repository holds two web servers that share no code: an epoll server
    with one event loop per thread (src/WebServer and src/WebServer/base) and a
    server of C++20 coroutines over io_uring
    (src/WebServer/coroutineWebServer), and the load generator that measures
    them (src/WebBench).  Each server has its own HTTP parser, its own
    asynchronous log and its own life cycle.  Every definition below is a
    translation of C++ or C functions of these directories; the file and
    function names are given where the definition stands, and definitions keep
    the names of the source.

    ** The coroutine server

    [main] reads the command line and builds an [HttpServer] (Startup.v), whose
    [start] creates one scheduler per worker and one for accepting, each with a
    thread in [UringScheduler::run]; [stop] and [wait] end them (Lifecycle.v).
    A scheduler resumes coroutines and hands the completions of its ring to
    them (Uring.v).  The accept coroutine posts each descriptor to a worker,
    where [handle_connection] reads requests and writes answers
    (HttpConnection.v), with the parser of HttpParser.v and the responses of
    HttpServer.v, over the data of HttpTypes.v.  HttpConnection.v has each
    coroutine on its own; UringTasks.v shows that a scheduler runs every task as
    it runs on its own, UringServer.v has the connections as tasks of a worker,
    and CoroServer.v the acceptor with its workers.  Descriptors are held by
    [UniqueFd] objects (Ownership.v) and coroutine frames by [Task] objects
    (TaskHandle.v), whose memory comes from the pool of a thread (Memory.v).
    Program.v is the run of [main] as a whole.  All of them log through [AsyncLogger]
    (AsyncLogger.v) and its lock-free queue (LogQueue.v).

    ** The epoll server

    [main] builds a [Server] (Startup.v), which starts a pool of loop threads
    (ThreadStart.v) and accepts connections (Epoll.v).  A loop (EventLoop.v)
    waits in its poller (Epoll.v), calls the handlers of the connections that
    have events (HttpData.v, with the I/O helpers of Util.v), closes those whose
    timer has expired (Timer.v) and runs the functors other threads queued.
    EpollServer.v puts one loop together, LoopLife.v follows its connections
    through the handlers of a turn, and ServerLoops.v is the server with its
    accepting loop and all loops of the pool.  Log lines are formatted by LogStream.v
    and written by AsyncLogging.v; LogSystem.v is a LOG statement from its
    pieces to the file.  Threads are started with a latch (Threads.v, Latch.v).
    ThreadPool.v is the pool of the repository that the servers do not use.

    ** WebBench

    [main] of webbench.c reads the options and builds one request in fixed
    arrays (WebBench.v, over the C string functions of CString.v); [bench] forks
    children that send it until an alarm, and adds up their reports
    (BenchCore.v).  WebBenchSpec.v sends its request to the coroutine server.

    ** The files

    - Prelude.v: integers at their width ([u64], [i32], ...), the [outcome] of a
      C++ call (value, exception, undefined behaviour, model out of fuel) and
      its monad, tactics, lemmas on loops.
    - CxxString.v: [std::string] as a list of characters, with [size_t]
      positions, [npos], [substr], [find], decimal conversions.  CString.v: C
      strings in arrays of fixed size.
    - WebBench.v, BenchCore.v: webbench.c and socket.c.  WebBenchSpec.v:
      webbench against HttpConnection.v.
    - HttpTypes.v: Types.h.  HttpParser.v: [try_parse_request] and its parts in
      HttpServer.cpp.  RequestSpec.v: a reference printer of requests and the
      laws of the parser against it.  HttpServer.v: [resolve_path],
      [load_file], [build_response], [detect_docroot].  HttpConnection.v: the
      coroutines of HttpServer.cpp.
    - LogQueue.v, AsyncLogger.v: AsyncLogger.{h,cpp}, the queue one access at a
      time, and the logger whose threads make these accesses.
    - Uring.v: UringScheduler.{h,cpp} and Task.h.  UringTasks.v: the trace of a
      scheduler, a coroutine alone ([replay]) and the invariant [Agree] that
      links them.  UringTime.v: the time at which timeout entries complete, and
      that runs shorter than every timeout complete none.  UringServer.v: [read_request], [write_all] and
      [handle_connection] as bodies of tasks, against HttpConnection.v.
      CoroServer.v: [accept_loop] as a task, and the threads of the server, each
      with its scheduler, in any order of their rounds.
    - Util.v, HttpData.v, Timer.v, Epoll.v (with Channel, EventLoopThreadPool
      and Server::handNewConn), EventLoop.v: the files of these names; the
      timers are proved against the class [TimerQueue], implemented by an
      ordered list.  EpollServer.v: a loop with its poller, connections,
      functors and timers.  LoopLife.v: the same in steps of one handler.
      ServerLoops.v: Server.cpp and EventLoopThreadPool.cpp over these loops.
    - LogStream.v (LogStream, Logging), AsyncLogging.v (AsyncLogging, LogFile,
      FileUtil), LogSystem.v (Logging over both), ThreadPool.v.
    - Latch.v (CountDownLatch, MutexLock, Condition, for any number of threads),
      Threads.v (Thread, CurrentThread), ThreadStart.v (Thread and
      EventLoopThread: the two threads of [startLoop]).
    - Unique.v (the accounting of owned resources), Ownership.v ([UniqueFd]),
      TaskHandle.v ([Task]), Memory.v (MemoryResource.cpp).
    - Startup.v (CoroutineMain.cpp, Main.cpp, the constructors), Lifecycle.v
      (HttpServer::start, stop, wait), Program.v (the run of CoroutineMain.cpp).

    ** How state and concurrency are modelled

    Sequential code is a function on the object's record, or a program of the
    [outcome] monad or of the coroutine monad of HttpConnection.v.  Shared
    state is a record with the position of every thread in it; a step is one
    atomic access (LogQueue, AsyncLogger, EventLoop) or one critical section
    (AsyncLogging, ThreadPool, ThreadStart) or one call of a mutex (Latch), and properties quantify over every
    sequence of steps, with spurious wakeups and spurious failures of
    compare-exchange.  Loads of the lock-free queue may return any value the
    counter had, which covers the memory orders of the source.  What the
    kernel answers (reads, writes, completions, epoll events, clocks, results
    of system calls) is an argument.  Objects that are shared by address
    (channels, timer nodes, coroutine frames, operations) live in a store, so
    that a use after the lifetime is the outcome [UB].

    ** What is shown

    - Parsing: the parser of the coroutine server returns on every buffer,
      inverts the printer, and gives the same request however the stream is cut
      (RequestSpec.v, HttpConnection.v); [parseHeaders] reads rendered header
      lines back (HttpData.v); command line options are parsed back
      (Startup.v); numbers are printed in decimal (LogStream.v).
    - Serving: a connection answers exactly the requests of its stream in order
      and ends; responses are framed by their length; HEAD is GET without a
      body; a resolved path stays in the document root; a GET request is served
      the named file (HttpConnection.v, HttpServer.v, HttpData.v).
    - Composition: every task of a scheduler, whatever the others are and in
      whatever order the completions come, is where its body alone is after the
      completions it heard, if the kernel completes one entry of each operation
      and no task reads a destroyed frame (UringTasks.v); so in a run shorter
      than the timeout of a receive, in which no receive and no send fails, a
      connection of a worker does what [handle_connection] does alone; while the
      acceptor and the workers run in any order, and posts reach their worker at
      any time, the descriptors the accept loop takes go round robin to the
      workers, where each client is sent exactly the answers to its requests
      (UringServer.v, CoroServer.v); the connections of the epoll server go
      round robin to its loops, where each is registered and answered for every
      request that arrives alone in a turn, over any steps of all threads in
      which other connections do anything, and the server keeps listening
      (EpollServer.v, ServerLoops.v); the request webbench builds is answered by
      the coroutine server as often as it is sent (WebBenchSpec.v); a LOG
      statement reaches the file as one line when its pieces fit (LogSystem.v); a
      signal ends the program (Program.v).
    - Queues and logs: the lock-free queue delivers each entry once, in order
      for one consumer; every line pushed by the coroutine server's logger is
      written, in hand or in its slot, in order, and [stop] flushes the lines
      whose pushes have stored them, while a line behind an unfinished push can
      be lost ([accepted_line_lost]); every byte given to the other log is in the
      file, in a buffer, in a batch it dropped on purpose, or in an append it
      gave up when [fwrite] took nothing; the pool takes tasks first in, first
      out (LogQueue.v, AsyncLogger.v, AsyncLogging.v, ThreadPool.v).
    - Progress: no wakeup is lost; functors run; a connection whose handlers
      have run is watched again or closed, but for two cases that
      [handleEvents_rearms] names; workers do not get stuck; the
      start of a loop thread ends and returns a loop that exists; a latch
      opens after its count and lets every caller go; a stopped server ends;
      handlers terminate (EventLoop.v, ThreadPool.v, ThreadStart.v, Latch.v,
      Lifecycle.v, HttpData.v).
    - Memory and descriptors: in a loop of the epoll server every handler,
      functor and timer finds its connection alive (LoopLife.v); schedulers without timed receives and escaping
      exceptions use nothing after its lifetime; a descriptor is closed once and
      a coroutine frame destroyed once, into the pool that gave its memory; the
      threads a Thread object made are joined or detached once; a constructor
      that throws has closed its socket; the server's life cycle is safe when
      it is waited for before a restart (UringTasks.v, Ownership.v, TaskHandle.v,
      Memory.v, Threads.v, Startup.v, Lifecycle.v).
    - WebBench: the request is printed without overflow for URLs that fit; a
      child counts every round once, up to the failure it takes back at its
      alarm, leaks no descriptor without kept connections and ends after its
      alarm; the parent adds up the reports
      (WebBench.v, BenchCore.v).
    - The poller: the kernel watches what a channel asks for, expired
      connections are closed, connections are distributed round robin (Epoll.v,
      Timer.v, HttpConnection.v).
    - Defects: theorems that state what the code does where it goes wrong, among
      them the use after free of a receive with a timeout, of an exception that
      leaves an awaited task, the wrap of a declared length, a document root
      escaped by two slashes, headers cut in two reads, a stop that comes too
      early, a line lost behind an unfinished push, a frame whose memory changes
      threads, a load test that never ends.

    ** Fuel and bounds

    Loops whose end depends on data have fuel, and each has a theorem that a
    stated amount is enough: the length of the buffer for the header loops
    ([try_parse_request_total], [handleRead_terminates]), the loads and
    completions to come for the coroutines ([handle_connection_ends]), the
    nodes for [handleExpiredEvent], a turn per character for the reports of
    webbench.  Other loops recurse on the list of the
    kernel's answers.  A task of a scheduler needs the fuel of its coroutine
    alone: more than the loads and completions of its run
    ([connections_run_alone]), or than its chunks, requests and answers
    ([client_ok]).  A [std::string] is shorter than 2^63 bytes ([fits]).
    Fewer than 2^63 entries, less the capacity, are pushed into a lock-free
    queue in a run, which the hypotheses state ([bounded]).

    ** Assumptions

    Allocation succeeds; pthread mutexes do not fail; [io_uring_submit]
    succeeds, and the kernel reads the [__kernel_timespec] of a timeout with the
    value it was given; a timeout entry whose receive did not fail completes when
    its time has passed ([kernel_clock]); [fopen] of a log file succeeds, and
    [fflush] writes what its stream holds; a thread that has read what another
    released sees what it stored before ([worker_may_load]); [fs::exists] does
    not throw; [localtime] and [strftime] are arguments; epoll and eventfd behave as documented (edge-triggered reports,
    EPOLLONESHOT disarms, a write to an eventfd adds to its counter).  Where the
    standard library's behaviour is used, it is modelled: [std::filesystem::path]
    on generic POSIX paths, [stoi], [stoul], [atoi], [isspace], [tolower].

    ** Not modelled

    What libraries do behind their contract: the pmr pools and mimalloc, [std::format], [getopt] and [getopt_long], glibc's file
    buffering.  The end of a thread, which releases its pool;
    MimeType's [pthread_once]; the texts webbench prints and its
    rates in floating point; the test programs.

    ** Limits

    The theorems on the tasks of a scheduler assume that the kernel completes
    one entry of each operation: the timeout entry of a receive carries the
    operation of the receive, and its completion is a use after free
    ([timed_receive_use_after_free]), so that those of the server end before the
    timeout of a receive, 30 seconds by default, and no stronger statement holds
    of a connection that outlives it.  In the same way an exception that
    leaves [read_request] or [write_all] is a use after free
    ([connection_reset_use_after_free]), and the connections that are served
    are those whose receives and sends do not fail.  In CoroServer.v a
    step is a round of one scheduler or the arrival of one post.  A round is one
    step: all that other threads see of it are the calls of the accept loop,
    which are recorded as they are made ([effects]) and reach the worker in any
    later step.  The loads of [running_] are arguments of a coroutine, and the
    log lines are recorded, not given to AsyncLogger.v.  The loops of the
    epoll server take whole turns in ServerLoops.v; LoopLife.v has the steps of
    a turn for one loop. *)

From Stdlib Require Export ZArith Lia.
From Stdlib Require Export Ascii.
From stdpp Require Export gmap strings option.
From stdpp Require Export list.
#[global] Open Scope Z_scope.

(** ** Machine-width integers

    A C++ integer is a [Z]; the wrap-around of its type is written out. *)

(** [std::size_t], [uint64_t]: reduction modulo 2^64. *)
Definition u64 (z : Z) : Z := z mod 2 ^ 64.

(** [int]: two's complement reduction to 32 bits. *)
Definition i32 (z : Z) : Z := (z + 2 ^ 31) mod 2 ^ 32 - 2 ^ 31.

(** [std::intptr_t], [ssize_t], [long]: two's complement reduction to 64 bits. *)
Definition i64 (z : Z) : Z := (z + 2 ^ 63) mod 2 ^ 64 - 2 ^ 63.

(** [__uint32_t]. *)
Definition u32 (z : Z) : Z := z mod 2 ^ 32.

(** [uint16_t]. *)
Definition u16 (z : Z) : Z := z mod 2 ^ 16.

Lemma u64_range z : 0 <= u64 z < 2 ^ 64.
Proof. apply Z.mod_pos_bound. lia. Qed.

Lemma u64_small z : 0 <= z < 2 ^ 64 -> u64 z = z.
Proof. apply Z.mod_small. Qed.

Lemma i64_small z : - 2 ^ 63 <= z < 2 ^ 63 -> i64 z = z.
Proof. intros H. unfold i64. rewrite Z.mod_small; lia. Qed.

Lemma i32_small z : - 2 ^ 31 <= z < 2 ^ 31 -> i32 z = z.
Proof. intros H. unfold i32. rewrite Z.mod_small; lia. Qed.

Lemma i32_range z : - 2 ^ 31 <= i32 z < 2 ^ 31.
Proof. unfold i32. pose proof (Z.mod_pos_bound (z + 2 ^ 31) (2 ^ 32)). lia. Qed.

(** ** Outcomes of a C++ function

    A call returns a value, throws an exception, has undefined behaviour, or
    (in the model only) runs out of the fuel its loop was given. *)

Inductive exn : Type :=
  | out_of_range
  | invalid_argument
  | runtime_error
  | system_error (code : Z).

Inductive outcome (A : Type) : Type :=
  | Ret (a : A)
  | Throw (e : exn)
  | UB
  | OutOfFuel.
Arguments Ret {A} a.
Arguments Throw {A} e.
Arguments UB {A}.
Arguments OutOfFuel {A}.

#[export] Instance outcome_ret : MRet outcome := @Ret.
#[export] Instance outcome_bind : MBind outcome := fun A B f m =>
  match m with
  | Ret a => f a
  | Throw e => Throw e
  | UB => UB
  | OutOfFuel => OutOfFuel
  end.

#[export] Instance exn_eq_dec : EqDecision exn.
Proof. solve_decision. Defined.

(** A call that neither throws, nor is undefined, nor runs out of fuel. *)
Definition returns {A} (m : outcome A) : Prop := exists a, m = Ret a.

Lemma bind_ret {A B} (a : A) (f : A -> outcome B) : (Ret a ≫= f) = f a.
Proof. reflexivity. Qed.

Lemma bind_Ret_inv {A B} (m : outcome A) (f : A -> outcome B) b :
  (m ≫= f) = Ret b -> exists a, m = Ret a /\ f a = Ret b.
Proof. destruct m; simpl; try discriminate. eauto. Qed.

Lemma returns_Ret {A} (a : A) : returns (Ret a).
Proof. by exists a. Qed.

Lemma returns_bind {A B} (m : outcome A) (f : A -> outcome B) :
  returns m -> (forall a, m = Ret a -> returns (f a)) -> returns (m ≫= f).
Proof. intros [a ->] H. simpl. by apply H. Qed.

Create HintDb corio.
Create Rewrite HintDb corio.
#[export] Hint Resolve returns_Ret : corio.
#[export] Hint Rewrite @bind_ret : corio.

(** ** Tactics *)

(** Invert a monadic bind that returned. *)
Ltac inv_bind H :=
  let a := fresh "a" in let Ha := fresh "Ha" in
  apply bind_Ret_inv in H; destruct H as (a & Ha & H).

(** Turn boolean comparisons on [Z] into propositions. *)
Ltac zbool :=
  repeat match goal with
  | H : (_ <? _) = true |- _ => apply Z.ltb_lt in H
  | H : (_ <? _) = false |- _ => apply Z.ltb_ge in H
  | H : (_ <=? _) = true |- _ => apply Z.leb_le in H
  | H : (_ <=? _) = false |- _ => apply Z.leb_gt in H
  | H : (_ =? _) = true |- _ => apply Z.eqb_eq in H
  | H : (_ =? _) = false |- _ => apply Z.eqb_neq in H
  | H : (_ >? _) = true |- _ => rewrite Z.gtb_ltb in H
  | H : (_ >? _) = false |- _ => rewrite Z.gtb_ltb in H
  | H : (_ >=? _) = true |- _ => rewrite Z.geb_leb in H
  | H : (_ >=? _) = false |- _ => rewrite Z.geb_leb in H
  | H : (_ || _)%bool = true |- _ => apply orb_true_iff in H
  | H : (_ || _)%bool = false |- _ => apply orb_false_iff in H; destruct H
  | H : (_ && _)%bool = true |- _ => apply andb_true_iff in H; destruct H
  | H : (_ && _)%bool = false |- _ => apply andb_false_iff in H
  | H : negb _ = true |- _ => apply negb_true_iff in H
  | H : negb _ = false |- _ => apply negb_false_iff in H
  end.

(** Split on the boolean tested by the first [if] of the goal. *)
Ltac case_if :=
  match goal with
  | |- context [if ?b then _ else _] =>
      let E := fresh "E" in destruct b eqn:E
  end.

(** The same in a hypothesis. *)
Ltac case_if_in H :=
  match type of H with
  | context [if ?b then _ else _] =>
      let E := fresh "E" in destruct b eqn:E
  end.

(** A loop whose body returns an outcome. *)
Lemma foldl_outcome {S X} (f : S -> X -> outcome S) l (m : outcome S) :
  foldl (fun acc x => s ← acc; f s x) m l = (s ← m; foldl (fun acc x => s ← acc; f s x) (Ret s) l).
Proof.
  revert m; induction l as [|x l IH]; intros m; cbn; [by destruct m|].
  rewrite IH. destruct m; cbn; [by rewrite <- IH|done..].
Qed.

(** An invariant of such a loop. *)
Lemma foldl_outcome_inv {S X} (f : S -> X -> outcome S) (P : S -> list X -> Prop) l s s' :
  (forall s x l s', P s (x :: l) -> f s x = Ret s' -> P s' l) ->
  P s l -> foldl (fun acc x => s ← acc; f s x) (Ret s) l = Ret s' -> P s' [].
Proof.
  intros Hf. revert s; induction l as [|x l IH]; intros s Hp; cbn; [by intros [= <-]|].
  rewrite foldl_outcome. intros (s1 & H1 & H2)%bind_Ret_inv. eapply IH; [by eapply Hf|done].
Qed.

(** Such a loop does not fail when its body does not. *)
Lemma foldl_outcome_returns {S X} (f : S -> X -> outcome S) (P : S -> list X -> Prop) l s :
  (forall s x l, P s (x :: l) -> exists s', f s x = Ret s' /\ P s' l) ->
  P s l -> exists s', foldl (fun acc x => s ← acc; f s x) (Ret s) l = Ret s' /\ P s' [].
Proof.
  intros Hf. revert s; induction l as [|x l IH]; intros s Hp; cbn; [by exists s|].
  destruct (Hf _ _ _ Hp) as (s1 & H1 & Hp1). destruct (IH _ Hp1) as (s' & H2 & Hp2).
  exists s'. rewrite foldl_outcome. cbn. by rewrite H1.
Qed.

(** ** Lists *)

Section list_lemmas.
Context {A : Type}.
Implicit Types l k : list A.

Lemma drop_app_le' l k n : (n <= length l)%nat -> drop n (l ++ k) = drop n l ++ k.
Proof. apply drop_app_le. Qed.

Lemma take_drop_app l k n m :
  (n + m <= length l)%nat -> take m (drop n (l ++ k)) = take m (drop n l).
Proof.
  intros H. rewrite drop_app_le by lia. rewrite take_app_le; [done|].
  rewrite length_drop. lia.
Qed.
End list_lemmas.
