(* ===== verification/CxxString.v ===== *)
(** * CxxString: the operations of [std::string] the program uses

    A C++ string is a list of 8-bit characters; positions and sizes are
    [std::size_t] values in [Z], and [std::string::npos] is 2^64 - 1.  The
    operations here are the C++ standard library's (and the C library's
    [strtoul], [isspace], [tolower]): they model what the language gives to the
    source and map to no line of it.  The lemmas say where a search can land,
    that a search or a [substr] inside a string is not changed by appending to
    it, and that decimal printing and parsing are inverse. *)

From S2P Require Export Prelude.
From Stdlib Require Strings.String.

Abbreviation bytes := (list ascii).

(** A C string literal. *)
Definition lit (s : string) : bytes := Stdlib.Strings.String.list_ascii_of_string s.

Definition CR : ascii := "013"%char.
Definition LF : ascii := "010"%char.
Definition NUL : ascii := "000"%char.
Definition SP : ascii := " "%char.
Definition crlf : bytes := [CR; LF].

Definition npos : Z := 2 ^ 64 - 1.

(** [std::string::size]. *)
Definition size (s : bytes) : Z := Z.of_nat (length s).

(** Every string a C++ program holds is at most [max_size] long. *)
Definition fits (s : bytes) : Prop := size s < 2 ^ 63.

Fixpoint starts_with (p s : bytes) : bool :=
  match p, s with
  | [], _ => true
  | c :: p', d :: s' => Ascii.eqb c d && starts_with p' s'
  | _ :: _, [] => false
  end.

(** Index of the first occurrence of [p] in [s]. *)
Fixpoint find_sub (p s : bytes) : option nat :=
  if starts_with p s then Some O
  else match s with
       | [] => None
       | _ :: s' => S <$> find_sub p s'
       end.

(** [s.find(p, pos)]. *)
Definition find (p s : bytes) (pos : Z) : Z :=
  if size s <? pos then npos
  else match find_sub p (drop (Z.to_nat pos) s) with
       | Some i => pos + Z.of_nat i
       | None => npos
       end.

(** [s.find(c, pos)] for one character. *)
Definition find_char (c : ascii) (s : bytes) (pos : Z) : Z := find [c] s pos.

(** [s.find_last_of(c)]. *)
Fixpoint last_index (c : ascii) (s : bytes) : option nat :=
  match s with
  | [] => None
  | d :: s' =>
      match last_index c s' with
      | Some i => Some (S i)
      | None => if Ascii.eqb c d then Some O else None
      end
  end.

Definition find_last_of (c : ascii) (s : bytes) : Z :=
  match last_index c s with Some i => Z.of_nat i | None => npos end.

(** [s.substr(pos, n)]: throws when [pos] is past the end. *)
Definition substr (s : bytes) (pos n : Z) : outcome bytes :=
  if size s <? pos then Throw out_of_range
  else Ret (take (Z.to_nat (Z.min n (size s - pos))) (drop (Z.to_nat pos) s)).

(** [s[i]] for an index in range or equal to the size (where it is NUL). *)
Definition char_at (s : bytes) (i : Z) : ascii :=
  match s !! Z.to_nat i with Some c => c | None => NUL end.

(** A [while (pos < s.size() && f(s[pos])) ++pos;] scan. *)
Fixpoint count_while (f : ascii -> bool) (s : bytes) : nat :=
  match s with
  | [] => O
  | c :: s' => if f c then S (count_while f s') else O
  end.

Definition skip_while (f : ascii -> bool) (s : bytes) (pos : Z) : Z :=
  pos + Z.of_nat (count_while f (drop (Z.to_nat pos) s)).

(** [std::isspace] and [std::tolower] in the C locale. *)
Definition code (c : ascii) : Z := Z.of_N (N_of_ascii c).

Definition isspace (c : ascii) : bool :=
  (code c =? 32) || ((9 <=? code c) && (code c <=? 13)).

Definition tolower (c : ascii) : ascii :=
  if (65 <=? code c) && (code c <=? 90)
  then ascii_of_N (Z.to_N (code c + 32)) else c.

Definition isdigit (c : ascii) : bool := (48 <=? code c) && (code c <=? 57).

Definition bytes_eqb (s t : bytes) : bool := bool_decide (s = t).

(** ** Decimal conversions *)

Definition digit_char (d : Z) : ascii := ascii_of_N (Z.to_N (48 + d)).

Fixpoint dec_digits (fuel : nat) (n : Z) (acc : bytes) : bytes :=
  match fuel with
  | O => acc
  | S fuel' =>
      let acc' := digit_char (n mod 10) :: acc in
      if n / 10 =? 0 then acc' else dec_digits fuel' (n / 10) acc'
  end.

(** [std::to_string] of an integer of at most 64 bits (20 digits). *)
Definition to_string (z : Z) : bytes :=
  if z <? 0 then "-"%char :: dec_digits 20 (- z) [] else dec_digits 20 z [].

(** The value of a run of digits, most significant first. *)
Definition digits_value (l : bytes) : Z :=
  fold_left (fun acc c => acc * 10 + (code c - 48)) l 0.

(** What [strtoul]/[strtol] in base 10 read: optional white space, an optional
    sign and digits; [None] when there is no digit. *)
Definition parse_num (s : bytes) : option (bool * Z) :=
  let s1 := drop (count_while isspace s) s in
  let '(neg, s2) :=
    match s1 with
    | c :: r => if Ascii.eqb c "-" then (true, r)
                else if Ascii.eqb c "+" then (false, r) else (false, s1)
    | [] => (false, s1)
    end in
  let n := count_while isdigit s2 in
  if Nat.eqb n 0 then None else Some (neg, digits_value (take n s2)).

(** [std::stoul]: a minus sign negates modulo 2^64. *)
Definition stoul (s : bytes) : outcome Z :=
  match parse_num s with
  | None => Throw invalid_argument
  | Some (neg, m) =>
      if 2 ^ 64 - 1 <? m then Throw out_of_range
      else Ret (if neg then u64 (- m) else m)
  end.

(** [std::stoi]. *)
Definition stoi (s : bytes) : outcome Z :=
  match parse_num s with
  | None => Throw invalid_argument
  | Some (neg, m) =>
      let v := if neg then - m else m in
      if (v <? - 2 ^ 31) || (2 ^ 31 - 1 <? v) then Throw out_of_range else Ret v
  end.

(** [atoi]: undefined when the value is not an [int]. *)
Definition atoi (s : bytes) : outcome Z :=
  match parse_num s with
  | None => Ret 0
  | Some (neg, m) =>
      let v := if neg then - m else m in
      if (v <? - 2 ^ 31) || (2 ^ 31 - 1 <? v) then UB else Ret v
  end.

(** ** Sizes *)

Implicit Types p s t pre : bytes.

Lemma size_nonneg s : 0 <= size s.
Proof. unfold size. lia. Qed.

Lemma size_app s t : size (s ++ t) = size s + size t.
Proof. unfold size. rewrite length_app. lia. Qed.

Lemma size_cons c s : size (c :: s) = 1 + size s.
Proof. unfold size. simpl. lia. Qed.

Lemma size_nil : size [] = 0.
Proof. reflexivity. Qed.

Lemma take_size_app s t : take (Z.to_nat (size s)) (s ++ t) = s.
Proof. unfold size. by rewrite Nat2Z.id, take_app_length. Qed.

Lemma drop_size_app s t : drop (Z.to_nat (size s)) (s ++ t) = t.
Proof. unfold size. by rewrite Nat2Z.id, drop_app_length. Qed.

#[export] Hint Resolve size_nonneg : corio.
#[export] Hint Rewrite size_app size_cons size_nil : corio.

(** ** Searching *)

Lemma starts_with_prefix p s : starts_with p s = true <-> p `prefix_of` s.
Proof.
  revert s; induction p as [|c p IH]; intros [|d s]; simpl.
  - split; auto using prefix_nil.
  - split; auto using prefix_nil.
  - split; [done|]. intros [k Hk]. done.
  - rewrite andb_true_iff, Ascii.eqb_eq, IH. split.
    + intros [-> ?]. by apply prefix_cons.
    + intros Hp. split; [by apply prefix_cons_inv_1 in Hp|by apply prefix_cons_inv_2 in Hp].
Qed.

Lemma starts_with_app p s t : starts_with p s = true -> starts_with p (s ++ t) = true.
Proof. rewrite !starts_with_prefix. intros H. by apply prefix_app_r. Qed.

Lemma starts_with_self p s : starts_with p (p ++ s) = true.
Proof. apply starts_with_prefix. by exists s. Qed.

Lemma find_sub_spec p s i :
  find_sub p s = Some i -> p `prefix_of` drop i s /\ (i + length p <= length s)%nat.
Proof.
  revert i; induction s as [|c s IH]; intros i; simpl.
  - destruct p; [|done]. intros [= <-]. split; [apply prefix_nil|simpl; lia].
  - destruct (starts_with p (c :: s)) eqn:E.
    + intros [= <-]. apply starts_with_prefix in E. split; [done|].
      apply prefix_length in E. simpl in *. lia.
    + destruct (find_sub p s) as [j|] eqn:Ej; [|done]. intros [= <-].
      destruct (IH _ eq_refl) as [H1 H2]. split; [done|simpl; lia].
Qed.

Lemma prefix_app_short p s t :
  p `prefix_of` s ++ t -> (length p <= length s)%nat -> p `prefix_of` s.
Proof.
  intros [k Hk] Hl. exists (drop (length p) s).
  rewrite <- (take_drop (length p) s) at 1. f_equal.
  by rewrite <- (take_app_le s t), Hk, take_app_length.
Qed.

Lemma find_sub_app p s t i : find_sub p s = Some i -> find_sub p (s ++ t) = Some i.
Proof.
  revert i; induction s as [|c s IH]; intros i.
  - destruct p as [|d p]; simpl; [|done]. intros [= <-]. by destruct t.
  - change ((c :: s) ++ t) with (c :: s ++ t). cbn [find_sub].
    destruct (starts_with p (c :: s)) eqn:E.
    + intros [= <-]. change (c :: s ++ t) with ((c :: s) ++ t).
      by rewrite starts_with_app.
    + destruct (find_sub p s) as [j|] eqn:Ej; [|done]. intros [= <-].
      rewrite (IH j) by done.
      destruct (starts_with p (c :: s ++ t)) eqn:E'; [|done]. exfalso.
      apply starts_with_prefix, (prefix_app_short p (c :: s) t) in E'.
      * apply starts_with_prefix in E'. congruence.
      * apply find_sub_spec in Ej as [_ ?]. simpl. lia.
Qed.

Lemma find_sub_first p s i j :
  find_sub p s = Some i -> (j < i)%nat -> ~ p `prefix_of` drop j s.
Proof.
  revert i j; induction s as [|c s IH]; intros i j; simpl.
  - destruct p; [|done]. intros [= <-]. lia.
  - destruct (starts_with p (c :: s)) eqn:E; [intros [= <-]; lia|].
    destruct (find_sub p s) as [k|] eqn:Ek; [|done]. intros [= <-] Hj Hp.
    destruct j as [|j]; simpl in Hp.
    + apply starts_with_prefix in Hp. congruence.
    + eapply (IH k j); [done|lia|done].
Qed.

Lemma find_sub_None p s j :
  find_sub p s = None -> (j <= length s)%nat -> ~ p `prefix_of` drop j s.
Proof.
  revert j; induction s as [|c s IH]; intros j; simpl.
  - destruct p; [done|]. intros _ _ Hp. rewrite drop_nil in Hp. by destruct Hp.
  - destruct (starts_with p (c :: s)) eqn:E; [done|].
    destruct (find_sub p s) eqn:Es; [done|]. intros _ Hj Hp.
    destruct j as [|j]; simpl in Hp.
    + apply starts_with_prefix in Hp. congruence.
    + eapply (IH j); [done|lia|done].
Qed.

(** A search for a string that begins with [c] skips a prefix without [c]. *)
Lemma find_sub_skip c p pre s :
  c ∉ pre -> find_sub (c :: p) (pre ++ s) = Nat.add (length pre) <$> find_sub (c :: p) s.
Proof.
  induction pre as [|d pre IH]; intros Hc.
  - simpl. by destruct (find_sub (c :: p) s).
  - apply not_elem_of_cons in Hc as [Hd Hc]. cbn [app length find_sub starts_with].
    assert (Ascii.eqb c d = false) as -> by (by apply Ascii.eqb_neq).
    cbn [andb]. rewrite (IH Hc). by destruct (find_sub (c :: p) s).
Qed.

Lemma find_sub_here p s : find_sub p (p ++ s) = Some O.
Proof.
  destruct (p ++ s) as [|c r] eqn:E; simpl.
  - by destruct p.
  - by rewrite <- E, starts_with_self.
Qed.

(** ** Searching with positions *)

Lemma find_cases p s pos :
  0 <= pos ->
  find p s pos = npos \/ (pos <= find p s pos /\ find p s pos + size p <= size s).
Proof.
  intros H0. unfold find. case_if; [by left|]. zbool.
  destruct (find_sub p _) as [i|] eqn:Ei; [|by left]. right.
  apply find_sub_spec in Ei as [_ Hi]. rewrite length_drop in Hi. unfold size in *. lia.
Qed.

Lemma find_app p s t pos :
  0 <= pos -> find p s pos <> npos -> find p (s ++ t) pos = find p s pos.
Proof.
  unfold find. intros H0. autorewrite with corio.
  destruct (size s <? pos) eqn:E; [done|]. zbool. pose proof (size_nonneg t).
  destruct (size s + size t <? pos) eqn:E'; zbool; [lia|].
  rewrite drop_app_le by (unfold size in *; lia).
  destruct (find_sub p (drop _ s)) as [i|] eqn:Ei; [|done]. intros _.
  by rewrite (find_sub_app _ _ _ _ Ei).
Qed.

Lemma find_lt_npos p s pos : fits s -> 0 <= pos -> find p s pos <> npos -> 0 <= find p s pos < 2 ^ 63.
Proof.
  unfold fits. intros Hf H0 Hn. pose proof (size_nonneg p).
  destruct (find_cases p s pos H0); [done|lia].
Qed.

(** A search starting [size pre] into [pre ++ s], for a string not found in
    the characters of a gap [gap]. *)
Lemma find_at c p pre gap s :
  c ∉ gap -> find (c :: p) (pre ++ gap ++ (c :: p) ++ s) (size pre) = size pre + size gap.
Proof.
  intros Hc. unfold find.
  assert ((size (pre ++ gap ++ (c :: p) ++ s) <? size pre) = false) as ->.
  { apply Z.ltb_ge. autorewrite with corio. pose proof (size_nonneg gap).
    pose proof (size_nonneg (p ++ s)). autorewrite with corio in *. lia. }
  unfold size at 1. rewrite Nat2Z.id, drop_app_length, find_sub_skip by done.
  rewrite find_sub_here. simpl. unfold size. lia.
Qed.

Lemma find_char_absent c s pos : c ∉ s -> find_char c s pos = npos.
Proof.
  intros Hc. unfold find_char, find. case_if; [done|].
  destruct (find_sub [c] _) as [i|] eqn:Ei; [|done].
  apply find_sub_spec in Ei as [[k Hk] _]. destruct Hc.
  apply (subseteq_drop (Z.to_nat pos + i)). rewrite <- drop_drop. rewrite Hk. left.
Qed.

Lemma find_char_absent_from c pre s : c ∉ s -> find_char c (pre ++ s) (size pre) = npos.
Proof.
  intros Hc. unfold find_char, find. case_if; [done|].
  rewrite drop_size_app. destruct (find_sub [c] s) as [i|] eqn:Ei; [|done].
  apply find_sub_spec in Ei as [[k Hk] _]. destruct Hc.
  apply (subseteq_drop i). rewrite Hk. left.
Qed.

Lemma find_beyond p s pos : size s < pos -> find p s pos = npos.
Proof. intros H. unfold find. by rewrite (proj2 (Z.ltb_lt _ _)). Qed.

(** ** Substrings *)

Lemma substr_ok s pos n :
  pos <= size s ->
  substr s pos n = Ret (take (Z.to_nat (Z.min n (size s - pos))) (drop (Z.to_nat pos) s)).
Proof. intros H. unfold substr. by rewrite (proj2 (Z.ltb_ge _ _)). Qed.

Lemma substr_returns s pos n : pos <= size s -> returns (substr s pos n).
Proof. intros H. rewrite substr_ok by done. apply returns_Ret. Qed.

Lemma substr_app s t pos n :
  0 <= pos -> 0 <= n -> pos + n <= size s -> substr (s ++ t) pos n = substr s pos n.
Proof.
  intros H0 Hn Hs. pose proof (size_nonneg t).
  rewrite !substr_ok by (autorewrite with corio; lia). f_equal. autorewrite with corio.
  rewrite !Z.min_l by lia. apply take_drop_app. unfold size in *. lia.
Qed.

Lemma substr_middle pre m s :
  substr (pre ++ m ++ s) (size pre) (size m) = Ret m.
Proof.
  rewrite substr_ok by (autorewrite with corio; pose proof (size_nonneg m);
    pose proof (size_nonneg s); lia).
  autorewrite with corio. rewrite Z.min_l by (pose proof (size_nonneg s); lia).
  unfold size. rewrite !Nat2Z.id, drop_app_length, take_app_length. done.
Qed.

Lemma substr_prefix m s : substr (m ++ s) 0 (size m) = Ret m.
Proof. exact (substr_middle [] m s). Qed.

Lemma substr_suffix pre s n :
  size s <= n -> substr (pre ++ s) (size pre) n = Ret s.
Proof.
  intros Hn. rewrite substr_ok by (autorewrite with corio; pose proof (size_nonneg s); lia).
  autorewrite with corio. rewrite Z.min_r by lia.
  replace (size pre + size s - size pre) with (size s) by lia.
  unfold size. rewrite !Nat2Z.id, drop_app_length. by rewrite take_ge.
Qed.

Lemma substr_size s pos n t :
  0 <= pos -> 0 <= n -> substr s pos n = Ret t -> size t = Z.min n (size s - pos).
Proof.
  unfold substr. intros H0 Hn. case_if; [done|]. zbool. intros [= <-].
  unfold size in *. rewrite length_take, length_drop. lia.
Qed.

#[export] Hint Resolve substr_returns : corio.

(** ** Scans *)

Lemma count_while_le f s : (count_while f s <= length s)%nat.
Proof. induction s as [|c s IH]; simpl; [lia|]. case_if; lia. Qed.

Lemma count_while_app f s t :
  Forall (fun c => f c = true) s -> count_while f (s ++ t) = (length s + count_while f t)%nat.
Proof. induction 1 as [|c s Hc _ IH]; simpl; [done|]. by rewrite Hc, IH. Qed.

Lemma count_while_all f s : Forall (fun c => f c = true) (take (count_while f s) s).
Proof.
  induction s as [|c s IH]; simpl; [constructor|]. destruct (f c) eqn:E; by constructor.
Qed.

Lemma count_while_stop f s :
  match s with c :: _ => f c = false | [] => True end -> count_while f s = O.
Proof. destruct s; simpl; [done|]. by intros ->. Qed.

Lemma skip_while_bounds f s pos :
  0 <= pos <= size s -> pos <= skip_while f s pos <= size s.
Proof.
  intros H. unfold skip_while. pose proof (count_while_le f (drop (Z.to_nat pos) s)) as Hc.
  rewrite length_drop in Hc. unfold size in *. lia.
Qed.

Lemma skip_while_at f pre run rest :
  Forall (fun c => f c = true) run ->
  match rest with c :: _ => f c = false | [] => True end ->
  skip_while f (pre ++ run ++ rest) (size pre) = size (pre ++ run).
Proof.
  intros Hrun Hrest. unfold skip_while, size. rewrite Nat2Z.id, drop_app_length.
  rewrite count_while_app, (count_while_stop f rest) by done. rewrite length_app. lia.
Qed.

(** ** Decimal round trip *)

Lemma code_range c : 0 <= code c < 256.
Proof. unfold code. pose proof (N_ascii_bounded c). lia. Qed.

Lemma code_ascii_of n : 0 <= n < 256 -> code (ascii_of_N (Z.to_N n)) = n.
Proof. intros H. unfold code. rewrite N_ascii_embedding; lia. Qed.

Lemma digit_char_code d : 0 <= d < 10 -> code (digit_char d) = 48 + d.
Proof. intros H. apply code_ascii_of. lia. Qed.

Definition is_digit_list (l : bytes) : Prop := Forall (fun c => isdigit c = true) l.

Lemma digit_char_isdigit d : 0 <= d < 10 -> isdigit (digit_char d) = true.
Proof. intros H. unfold isdigit. rewrite digit_char_code by done. lia. Qed.

Lemma dec_digits_spec fuel n acc :
  0 <= n < 10 ^ Z.of_nat fuel -> (0 < fuel)%nat ->
  exists l, dec_digits fuel n acc = l ++ acc /\ l <> [] /\ is_digit_list l /\
            forall v, fold_left (fun a c => a * 10 + (code c - 48)) l v
                      = v * 10 ^ Z.of_nat (length l) + n.
Proof.
  revert n acc; induction fuel as [|fuel IH]; intros n acc Hn Hf; [lia|].
  cbn [dec_digits]. pose proof (Z.mod_pos_bound n 10 ltac:(lia)) as Hm.
  pose proof (digit_char_isdigit _ Hm) as Hd. pose proof (digit_char_code _ Hm) as Hc.
  pose proof (Z.div_mod n 10 ltac:(lia)) as Hdm. case_if; zbool.
  - exists [digit_char (n mod 10)]. repeat split; [done|by repeat constructor|].
    intros v. simpl. rewrite Hc. lia.
  - rewrite Nat2Z.inj_succ, Z.pow_succ_r in Hn by lia.
    assert (0 <= n / 10 < 10 ^ Z.of_nat fuel) as Hq
      by (split; [apply Z.div_pos|apply Z.div_lt_upper_bound]; lia).
    destruct fuel as [|fuel]; [simpl in Hq; lia|].
    destruct (IH (n / 10) (digit_char (n mod 10) :: acc) Hq ltac:(lia))
      as (l & -> & _ & Hl & Hv).
    exists (l ++ [digit_char (n mod 10)]). repeat split.
    + by rewrite <- app_assoc.
    + by destruct l.
    + apply Forall_app; split; [done|by repeat constructor].
    + intros v. rewrite fold_left_app, Hv. simpl.
      rewrite Hc, length_app, Nat2Z.inj_add, Z.pow_add_r by lia. simpl. lia.
Qed.

(** The digits [to_string] prints for a nonnegative 64-bit value. *)
Lemma to_string_spec n :
  0 <= n < 2 ^ 64 ->
  to_string n <> [] /\ is_digit_list (to_string n) /\ digits_value (to_string n) = n.
Proof.
  intros H. unfold to_string. destruct (n <? 0) eqn:E; zbool; [lia|].
  destruct (dec_digits_spec 20 n []) as (l & -> & Hne & Hd & Hv); [lia|lia|].
  rewrite app_nil_r. repeat split; [done..|]. unfold digits_value. rewrite Hv. lia.
Qed.

Lemma isdigit_not_space c : isdigit c = true -> isspace c = false.
Proof. unfold isdigit, isspace. intros. zbool. lia. Qed.

Lemma isdigit_not_sign c :
  isdigit c = true -> Ascii.eqb c "-" = false /\ Ascii.eqb c "+" = false.
Proof.
  intros Hd. split; apply Ascii.eqb_neq; intros ->; by vm_compute in Hd.
Qed.

Lemma parse_num_digits l rest :
  is_digit_list l -> l <> [] ->
  match rest with c :: _ => isdigit c = false | [] => True end ->
  parse_num (l ++ rest) = Some (false, digits_value l).
Proof.
  intros Hl Hne Hr. unfold parse_num. destruct l as [|c l]; [done|].
  assert (isdigit c = true) as Hc by by inversion Hl.
  destruct (isdigit_not_sign c Hc) as [Hm Hp].
  rewrite (count_while_stop isspace ((c :: l) ++ rest)) by (by apply isdigit_not_space).
  cbn [drop app]. rewrite Hm, Hp.
  change (c :: l ++ rest) with ((c :: l) ++ rest).
  rewrite count_while_app, (count_while_stop isdigit rest), Nat.add_0_r by done.
  rewrite take_app_length. done.
Qed.

Lemma stoul_to_string n : 0 <= n < 2 ^ 64 -> stoul (to_string n) = Ret n.
Proof.
  intros H. destruct (to_string_spec n H) as (Hne & Hd & Hv).
  unfold stoul. rewrite <- (app_nil_r (to_string n)), parse_num_digits, Hv by done.
  destruct (2 ^ 64 - 1 <? n) eqn:E; zbool; [lia|done].
Qed.

(** A search finds an occurrence at or before any known one. *)
Lemma find_le p s pos j :
  fits s -> 0 <= pos <= Z.of_nat j -> (j <= length s)%nat -> p `prefix_of` drop j s ->
  find p s pos <> npos /\ pos <= find p s pos <= Z.of_nat j.
Proof.
  intros Hf Hpos Hj Hp. unfold find.
  destruct (size s <? pos) eqn:E; zbool; [unfold size in *; lia|].
  destruct (find_sub p (drop (Z.to_nat pos) s)) as [i|] eqn:Ei.
  - assert (i <= j - Z.to_nat pos)%nat as Hi.
    { destruct (decide (i <= j - Z.to_nat pos)%nat) as [|Hn]; [done|]. exfalso.
      eapply (find_sub_first _ _ _ (j - Z.to_nat pos)) in Ei; [|lia].
      apply Ei. rewrite drop_drop. by replace (Z.to_nat pos + (j - Z.to_nat pos))%nat with j by lia. }
    unfold fits, npos, size in *. lia.
  - exfalso. eapply (find_sub_None _ _ (j - Z.to_nat pos)) in Ei; [apply Ei|].
    + rewrite drop_drop. by replace (Z.to_nat pos + (j - Z.to_nat pos))%nat with j by lia.
    + rewrite length_drop. lia.
Qed.

(** What a successful search says. *)
Lemma find_prefix p s pos :
  0 <= pos -> find p s pos <> npos ->
  p `prefix_of` drop (Z.to_nat (find p s pos)) s.
Proof.
  unfold find. intros H0. case_if; [done|]. zbool.
  destruct (find_sub p _) as [i|] eqn:Ei; [|done]. intros _.
  apply find_sub_spec in Ei as [Hp _]. rewrite drop_drop in Hp.
  by replace (Z.to_nat (pos + Z.of_nat i)) with (Z.to_nat pos + i)%nat by lia.
Qed.

Lemma fits_app_l s t : fits (s ++ t) -> fits s.
Proof. unfold fits. autorewrite with corio. pose proof (size_nonneg t). lia. Qed.

Lemma fits_app_r s t : fits (s ++ t) -> fits t.
Proof. unfold fits. autorewrite with corio. pose proof (size_nonneg s). lia. Qed.

Lemma fits_take n s : fits s -> fits (take n s).
Proof. unfold fits, size. rewrite length_take. lia. Qed.

Lemma size_take n s : 0 <= n <= size s -> size (take (Z.to_nat n) s) = n.
Proof. unfold size. intros. rewrite length_take. lia. Qed.

Lemma digits_value_nonneg l : is_digit_list l -> 0 <= digits_value l.
Proof.
  intros Hl. unfold digits_value.
  cut (forall a, 0 <= a -> 0 <= fold_left (fun acc c => acc * 10 + (code c - 48)) l a);
    [intros H; apply H; lia|].
  induction Hl as [|c l Hc _ IH]; simpl; intros a Ha; [done|].
  apply IH. unfold isdigit in Hc. zbool. lia.
Qed.

Lemma parse_num_nonneg s neg m : parse_num s = Some (neg, m) -> 0 <= m.
Proof.
  unfold parse_num. destruct (match drop _ s with [] => _ | _ :: _ => _ end) as [neg' s2].
  destruct (Nat.eqb _ 0); [done|]. intros [= _ <-].
  apply digits_value_nonneg, count_while_all.
Qed.

Lemma stoul_range s n : stoul s = Ret n -> 0 <= n < 2 ^ 64.
Proof.
  unfold stoul. destruct (parse_num s) as [[neg m]|] eqn:E; [|done].
  apply parse_num_nonneg in E. destruct (2 ^ 64 - 1 <? m) eqn:Em; [done|]. zbool.
  destruct neg; intros [= <-]; [apply u64_range|lia].
Qed.
