(* ===== verification/CString.v ===== *)
(** * CString: the C string functions on arrays of fixed size

    The load generator keeps its strings in [char] arrays.  An array is the
    list of its characters, whose length is the size of the array and never
    changes; a C string is a list without the terminating NUL.  Writing past
    the end of an array, or reading one that holds no NUL as a string, is [UB].
    The functions are the C library's and map to no line of the source. *)

From S2P Require Export CxxString.

(** What [strlen] and [%s] see in an array. *)
Definition c_str (b : bytes) : outcome bytes :=
  match find_sub [NUL] b with Some n => Ret (take n b) | None => UB end.

(** The characters [s] written from index [off] on. *)
Definition store (b : bytes) (off : nat) (s : bytes) : outcome bytes :=
  if Nat.leb (off + length s) (length b)
  then Ret (take off b ++ s ++ drop (off + length s) b) else UB.

(** [memset(b, 0, n)] for an array of [n] characters. *)
Definition zeroed (n : nat) : bytes := replicate n NUL.

Definition strcpy (b s : bytes) : outcome bytes := store b 0 (s ++ [NUL]).

(** [strcat(b + off, s)]: [s] goes after the string that begins at [off]. *)
Definition strcat_from (b : bytes) (off : nat) (s : bytes) : outcome bytes :=
  t ← c_str (drop off b);
  store b (off + length t) (s ++ [NUL]).

Definition strcat (b s : bytes) : outcome bytes := strcat_from b 0 s.

(** [strncpy(b, s, n)] writes [n] characters: no NUL when [s] is not shorter. *)
Definition strncpy (b s : bytes) (n : nat) : outcome bytes :=
  store b 0 (take n s ++ replicate (n - length s) NUL).

(** [strstr], [strchr] and [strrchr] as offsets, [strcspn] for one character. *)
Definition strstr (s p : bytes) : option nat := find_sub p s.
Definition strchr (s : bytes) (c : ascii) : option nat := find_sub [c] s.
Definition strrchr (s : bytes) (c : ascii) : option nat := last_index c s.
Definition strcspn (s : bytes) (c : ascii) : nat := count_while (fun d => negb (Ascii.eqb d c)) s.

(** [strncasecmp(p, s, strlen(p)) == 0]. *)
Definition has_prefix_nocase (p s : bytes) : bool :=
  bytes_eqb (tolower <$> p) (tolower <$> take (length p) s).

(** * Lemmas *)

(** [b] is an array of [n] characters that holds the string [s], followed by
    zeros. *)
Definition holds (n : nat) (b s : bytes) : Prop :=
  (NUL ∉ s) /\ (length s < n)%nat /\ b = s ++ zeroed (n - length s).

Lemma holds_length n b s : holds n b s -> length b = n.
Proof. intros (_ & H & ->). rewrite length_app. unfold zeroed. rewrite length_replicate. lia. Qed.

Lemma zeroed_S n : zeroed (S n) = NUL :: zeroed n.
Proof. reflexivity. Qed.

Lemma zeroed_split n m : (m <= n)%nat -> zeroed n = zeroed m ++ zeroed (n - m).
Proof. intros H. unfold zeroed. rewrite <- replicate_add. f_equal. lia. Qed.

Lemma drop_zeroed n m : drop m (zeroed n) = zeroed (n - m).
Proof. apply drop_replicate. Qed.

Lemma NUL_zeroed n : [NUL] ++ zeroed n = zeroed (S n).
Proof. reflexivity. Qed.

Lemma zeroed_length n : length (zeroed n) = n.
Proof. apply length_replicate. Qed.

Lemma zeroed_holds n : (0 < n)%nat -> holds n (zeroed n) [].
Proof. intros H. split_and!; [set_solver|done|]. cbn. f_equal. lia. Qed.

Lemma find_sub_absent c s : c ∉ s -> find_sub [c] s = None.
Proof.
  intros H. rewrite <- (app_nil_r s), find_sub_skip by done. done.
Qed.

Lemma find_sub_char c pre s : c ∉ pre -> find_sub [c] (pre ++ c :: s) = Some (length pre).
Proof.
  intros H. rewrite find_sub_skip by done. cbn [find_sub starts_with]. rewrite Ascii.eqb_refl. cbn. by rewrite Nat.add_0_r.
Qed.

Lemma holds_c_str n b s : holds n b s -> c_str b = Ret s.
Proof.
  intros (Hn & Hl & ->). unfold c_str. destruct (n - length s)%nat as [|m] eqn:E; [lia|].
  rewrite zeroed_S, find_sub_char by done. by rewrite take_app_length.
Qed.

(** An array without a NUL is not a string. *)
Lemma c_str_full b : NUL ∉ b -> c_str b = UB.
Proof. intros H. unfold c_str. by rewrite find_sub_absent. Qed.

(** [strcat] on an array that has room. *)
Lemma strcat_holds n b s t :
  holds n b s -> NUL ∉ t -> (length s + length t < n)%nat ->
  exists b', strcat b t = Ret b' /\ holds n b' (s ++ t).
Proof.
  intros Hb Ht Hl. pose proof (holds_length _ _ _ Hb) as Hlen.
  unfold strcat, strcat_from. change (drop 0 b) with b.
  rewrite (holds_c_str _ _ _ Hb). destruct Hb as (Hs & _ & ->).
  cbn [mbind outcome_bind Nat.add]. unfold store. rewrite Hlen, length_app. cbn [length].
  rewrite (proj2 (Nat.leb_le _ _)) by lia.
  eexists; split; [reflexivity|]. split_and!.
  - by apply not_elem_of_app.
  - rewrite length_app. lia.
  - rewrite take_app_length, <- !app_assoc, length_app. do 2 f_equal.
    rewrite drop_app_ge by lia. rewrite drop_zeroed, NUL_zeroed. f_equal. lia.
Qed.

(** [strcat] on an array that has none. *)
Lemma strcat_overflow n b s t :
  holds n b s -> (n <= length s + length t)%nat -> strcat b t = UB.
Proof.
  intros Hb Hl. pose proof (holds_length _ _ _ Hb) as Hlen.
  unfold strcat, strcat_from. change (drop 0 b) with b.
  rewrite (holds_c_str _ _ _ Hb). cbn [mbind outcome_bind Nat.add]. unfold store.
  rewrite Hlen, length_app. cbn [length]. by rewrite (proj2 (Nat.leb_gt _ _)) by lia.
Qed.

Lemma strcpy_zeroed n s :
  NUL ∉ s -> (length s < n)%nat -> exists b, strcpy (zeroed n) s = Ret b /\ holds n b s.
Proof.
  intros Hs Hl. unfold strcpy, store. unfold zeroed at 1. rewrite length_replicate, length_app.
  cbn [length Nat.add]. rewrite (proj2 (Nat.leb_le _ _)) by lia.
  eexists; split; [reflexivity|]. split_and!; [done..|]. rewrite firstn_O, app_nil_l.
  rewrite <- app_assoc. f_equal. rewrite drop_zeroed, NUL_zeroed. f_equal. lia.
Qed.

(** [strncpy] of the first [m] characters of a longer string into zeros. *)
Lemma strncpy_zeroed n s m :
  NUL ∉ s -> (m <= length s)%nat -> (m < n)%nat ->
  exists b, strncpy (zeroed n) s m = Ret b /\ holds n b (take m s).
Proof.
  intros Hs Hm Hl. unfold strncpy, store.
  replace (m - length s)%nat with 0%nat by lia. cbn [replicate]. rewrite app_nil_r.
  cbn [Nat.add]. rewrite length_take, zeroed_length.
  rewrite (proj2 (Nat.leb_le _ _)) by lia. eexists; split; [reflexivity|]. split_and!.
  - intros H. apply Hs. by apply (subseteq_take m).
  - rewrite length_take. lia.
  - rewrite firstn_O, app_nil_l. f_equal. by rewrite length_take, drop_zeroed.
Qed.

Lemma strncpy_overflow n s m :
  (n < m)%nat -> strncpy (zeroed n) s m = UB.
Proof.
  intros H. unfold strncpy, store. rewrite length_app, length_take, length_replicate.
  by rewrite zeroed_length, (proj2 (Nat.leb_gt _ _)) by lia.
Qed.

(** [strcspn] stops where [strchr] points. *)
Lemma strcspn_app pre c s : c ∉ pre -> strcspn (pre ++ c :: s) c = length pre.
Proof.
  intros H. unfold strcspn. induction pre as [|d pre IH]; cbn [app count_while length].
  - by rewrite Ascii.eqb_refl.
  - apply not_elem_of_cons in H as [Hd H]. rewrite (proj2 (Ascii.eqb_neq d c)) by done.
    cbn [negb]. by rewrite IH.
Qed.

(** ** [atoi] *)

Lemma digits_value_bound l acc :
  is_digit_list l -> 0 <= acc ->
  0 <= fold_left (fun acc c => acc * 10 + (code c - 48)) l acc < (acc + 1) * 10 ^ Z.of_nat (length l).
Proof.
  revert acc; induction l as [|c l IH]; intros acc Hl Ha; cbn [fold_left length].
  - rewrite Z.pow_0_r. lia.
  - apply Forall_cons in Hl as [Hc Hl]. unfold isdigit in Hc. zbool.
    pose proof (IH (acc * 10 + (code c - 48)) Hl ltac:(lia)) as Hb.
    rewrite Nat2Z.inj_succ, Z.pow_succ_r by lia.
    assert (0 < 10 ^ Z.of_nat (length l)) by (apply Z.pow_pos_nonneg; lia). nia.
Qed.

(** Nine characters hold no number that overflows. *)
Lemma atoi_short s : (length s <= 9)%nat -> exists n, atoi s = Ret n /\ - 10 ^ 9 < n < 10 ^ 9.
Proof.
  intros Hl. unfold atoi. destruct (parse_num s) as [[neg m]|] eqn:E; [|exists 0; by split].
  assert (Hm : 0 <= m < 10 ^ 9).
  { revert E. unfold parse_num.
    set (s1 := drop _ s). assert (Hl1 : (length s1 <= 9)%nat) by (unfold s1; rewrite length_drop; lia).
    match goal with |- (let '(_, _) := ?x in _) = _ -> _ => set (p := x) end.
    assert (Hl2 : (length p.2 <= 9)%nat).
    { unfold p. destruct s1 as [|c r]; [cbn; lia|]. cbn [length] in Hl1. repeat case_if; cbn; lia. }
    destruct p as [neg' s2]. case_if; [done|]. intros [= -> <-]. unfold digits_value.
    pose proof (digits_value_bound (take (count_while isdigit s2) s2) 0
      (count_while_all isdigit s2) ltac:(lia)) as Hb.
    rewrite length_take in Hb. cbn [snd] in Hl2.
    assert (10 ^ Z.of_nat (count_while isdigit s2 `min` length s2) <= 10 ^ 9)
      by (apply Z.pow_le_mono_r; lia). lia. }
  set (v := if neg then - m else m). assert (Hv : - 10 ^ 9 < v < 10 ^ 9) by (unfold v; case_if; lia).
  rewrite (proj2 (Z.ltb_ge _ _)), (proj2 (Z.ltb_ge _ _)) by lia. by exists v.
Qed.
