(* ===== verification/WebBench.v ===== *)
(** * WebBench: src/WebBench/webbench.c, its options and the request it builds

    The globals of the program are the record [globals]; [host] and [request]
    are arrays of fixed size.  [main] and [build_request] may leave the process
    with a code ([Exits]) and may write or read past an array ([UB]).  What
    [getopt_long] reports, one option at a time, is an argument: a short option
    with its [optarg], or the full name of a long one, looked up in
    [long_options].  What is printed is not modelled. *)

From S2P Require Export CString.

(** * Globals *)

(** MAXHOSTNAMELEN is 64 in the <sys/param.h> of Linux. *)
Definition MAXHOSTNAMELEN : nat := 64.
Definition REQUEST_SIZE : nat := 2048.

Definition METHOD_GET : Z := 0.
Definition METHOD_HEAD : Z := 1.
Definition METHOD_OPTIONS : Z := 2.
Definition METHOD_TRACE : Z := 3.

Definition PROGRAM_VERSION : bytes := lit "1.5".

Record globals := mkGlobals {
  http10 : Z;
  method : Z;
  clients : Z;
  force : Z;
  force_reload : Z;
  proxyport : Z;
  proxyhost : option bytes;
  benchtime : Z;
  keep_alive : bool;
  host : bytes;
  request : bytes
}.

#[export] Instance globals_eq_dec : EqDecision globals.
Proof. solve_decision. Defined.

Definition initial_globals : globals :=
  mkGlobals 1 METHOD_GET 1 0 0 80 None 30 false (zeroed MAXHOSTNAMELEN) (zeroed REQUEST_SIZE).

Definition set_http10 (v : Z) (g : globals) := mkGlobals v (method g) (clients g) (force g)
  (force_reload g) (proxyport g) (proxyhost g) (benchtime g) (keep_alive g) (host g) (request g).
Definition set_method (v : Z) (g : globals) := mkGlobals (http10 g) v (clients g) (force g)
  (force_reload g) (proxyport g) (proxyhost g) (benchtime g) (keep_alive g) (host g) (request g).
Definition set_clients (v : Z) (g : globals) := mkGlobals (http10 g) (method g) v (force g)
  (force_reload g) (proxyport g) (proxyhost g) (benchtime g) (keep_alive g) (host g) (request g).
Definition set_force (v : Z) (g : globals) := mkGlobals (http10 g) (method g) (clients g) v
  (force_reload g) (proxyport g) (proxyhost g) (benchtime g) (keep_alive g) (host g) (request g).
Definition set_force_reload (v : Z) (g : globals) := mkGlobals (http10 g) (method g) (clients g)
  (force g) v (proxyport g) (proxyhost g) (benchtime g) (keep_alive g) (host g) (request g).
Definition set_proxyport (v : Z) (g : globals) := mkGlobals (http10 g) (method g) (clients g)
  (force g) (force_reload g) v (proxyhost g) (benchtime g) (keep_alive g) (host g) (request g).
Definition set_proxyhost (v : option bytes) (g : globals) := mkGlobals (http10 g) (method g)
  (clients g) (force g) (force_reload g) (proxyport g) v (benchtime g) (keep_alive g) (host g)
  (request g).
Definition set_benchtime (v : Z) (g : globals) := mkGlobals (http10 g) (method g) (clients g)
  (force g) (force_reload g) (proxyport g) (proxyhost g) v (keep_alive g) (host g) (request g).
Definition set_keep_alive (v : bool) (g : globals) := mkGlobals (http10 g) (method g) (clients g)
  (force g) (force_reload g) (proxyport g) (proxyhost g) (benchtime g) v (host g) (request g).
Definition set_host (v : bytes) (g : globals) := mkGlobals (http10 g) (method g) (clients g)
  (force g) (force_reload g) (proxyport g) (proxyhost g) (benchtime g) (keep_alive g) v (request g).
Definition set_request (v : bytes) (g : globals) := mkGlobals (http10 g) (method g) (clients g)
  (force g) (force_reload g) (proxyport g) (proxyhost g) (benchtime g) (keep_alive g) (host g) v.

(** ** Leaving the process *)

Inductive exits (A : Type) : Type :=
  | Goes (a : A)
  | Exits (code : Z).
Arguments Goes {A} a.
Arguments Exits {A} code.

Abbreviation prog A := (outcome (exits A)).

(** Go on unless the process was left. *)
Definition and_then {A B} (m : prog A) (f : A -> prog B) : prog B :=
  r ← m; match r with Goes a => f a | Exits c => Ret (Exits c) end.

(** * Options *)

(** A row of [long_options]: the variable its [flag] points to, if any, with
    the value stored there, or the value [getopt_long] returns. *)
Inductive option_effect :=
  | Stores (set : Z -> globals -> globals) (v : Z)
  | Returns (c : ascii).

Definition long_options : list (bytes * option_effect) :=
  [(lit "force", Stores set_force 1);
   (lit "reload", Stores set_force_reload 1);
   (lit "time", Returns "t");
   (lit "help", Returns "?");
   (lit "http09", Returns "9");
   (lit "http10", Returns "1");
   (lit "http11", Returns "2");
   (lit "get", Stores set_method METHOD_GET);
   (lit "head", Stores set_method METHOD_HEAD);
   (lit "options", Stores set_method METHOD_OPTIONS);
   (lit "trace", Stores set_method METHOD_TRACE);
   (lit "version", Returns "V");
   (lit "proxy", Returns "p");
   (lit "clients", Returns "c")].

Inductive getopt_item :=
  | Short (c : ascii) (optarg : bytes)
  | Long (name optarg : bytes).

Fixpoint lookup_long (name : bytes) (table : list (bytes * option_effect)) : option option_effect :=
  match table with
  | [] => None
  | (n, e) :: rest => if bytes_eqb n name then Some e else lookup_long name rest
  end.

(** [case 'p']: [strrchr] finds the port, the colon is overwritten with NUL. *)
Definition proxy_option (optarg : bytes) (g : globals) : prog globals :=
  match strrchr optarg ":" with
  | None => Ret (Goes (set_proxyhost (Some optarg) g))
  | Some tmp =>
      if Nat.eqb tmp 0 then Ret (Exits 2)
      else if Nat.eqb tmp (length optarg - 1) then Ret (Exits 2)
      else
        port ← atoi (drop (tmp + 1) optarg);
        Ret (Goes (set_proxyport port (set_proxyhost (Some (take tmp optarg)) g)))
  end.

(** The [switch] on a character [getopt_long] returned. *)
Definition short_option (c : ascii) (optarg : bytes) (g : globals) : prog globals :=
  if Ascii.eqb c "f" then Ret (Goes (set_force 1 g))
  else if Ascii.eqb c "r" then Ret (Goes (set_force_reload 1 g))
  else if Ascii.eqb c "9" then Ret (Goes (set_http10 0 g))
  else if Ascii.eqb c "1" then Ret (Goes (set_http10 1 g))
  else if Ascii.eqb c "2" then Ret (Goes (set_http10 2 g))
  else if Ascii.eqb c "V" then Ret (Exits 0)
  else if Ascii.eqb c "t" then n ← atoi optarg; Ret (Goes (set_benchtime n g))
  else if Ascii.eqb c "k" then Ret (Goes (set_keep_alive true g))
  else if Ascii.eqb c "p" then proxy_option optarg g
  else if Ascii.eqb c ":" || Ascii.eqb c "h" || Ascii.eqb c "?" then Ret (Exits 2)
  else if Ascii.eqb c "c" then n ← atoi optarg; Ret (Goes (set_clients n g))
  else Ret (Goes g).

(** One turn of the option loop. An unknown long option is reported as '?'. *)
Definition option_turn (g : globals) (item : getopt_item) : prog globals :=
  match item with
  | Short c optarg => short_option c optarg g
  | Long name optarg =>
      match lookup_long name long_options with
      | Some (Stores set v) => Ret (Goes (set v g))
      | Some (Returns c) => short_option c optarg g
      | None => short_option "?" optarg g
      end
  end.

Fixpoint option_loop (g : globals) (items : list getopt_item) : prog globals :=
  match items with
  | [] => Ret (Goes g)
  | item :: rest => and_then (option_turn g item) (fun g => option_loop g rest)
  end.

(** The defaults after the loop. *)
Definition option_defaults (g : globals) : globals :=
  let g := if clients g =? 0 then set_clients 1 g else g in
  if benchtime g =? 0 then set_benchtime 30 g else g.

(** * The request *)

(** [if(cond && http10<v) http10=v;], the four adjustments at the start of
    [build_request]. *)
Definition raise_version (cond : bool) (v : Z) (g : globals) : globals :=
  if cond && (http10 g <? v) then set_http10 v g else g.

Definition adjust_version (g : globals) : globals :=
  let g := raise_version (negb (force_reload g =? 0) && bool_decide (is_Some (proxyhost g))) 1 g in
  let g := raise_version (method g =? METHOD_HEAD) 1 g in
  let g := raise_version (method g =? METHOD_OPTIONS) 2 g in
  raise_version (method g =? METHOD_TRACE) 2 g.

Definition method_name (m : Z) : bytes :=
  if m =? METHOD_HEAD then lit "HEAD"
  else if m =? METHOD_OPTIONS then lit "OPTIONS"
  else if m =? METHOD_TRACE then lit "TRACE"
  else lit "GET".

(** The checks on the URL: the offset [i] of the host name. *)
Definition check_url (url : bytes) : exits nat :=
  match strstr url (lit "://") with
  | None => Exits 2
  | Some p =>
      if Nat.ltb 1500 (length url) then Exits 2
      else if negb (has_prefix_nocase (lit "http://") url) then Exits 2
      else match strchr (drop (p + 3) url) "/" with
           | None => Exits 2
           | Some _ => Goes (p + 3)%nat
           end
  end.

(** [index(url+i,':') != NULL && index(url+i,':') < index(url+i,'/')]; the
    slash was checked before. *)
Definition explicit_port (rest : bytes) : option (nat * nat) :=
  match strchr rest ":", strchr rest "/" with
  | Some colon, Some slash => if Nat.ltb colon slash then Some (colon, slash) else None
  | _, _ => None
  end.

(** [host] and [proxyport] from the URL. *)
Definition split_host (rest : bytes) (g : globals) : outcome globals :=
  match explicit_port rest with
  | Some (colon, slash) =>
      host ← strncpy (host g) rest colon;
      tmp ← strncpy (zeroed 10) (drop (colon + 1) rest) (slash - colon - 1);
      port ← c_str tmp;
      n ← atoi port;
      Ret (set_proxyport (if n =? 0 then 80 else n) (set_host host g))
  | None =>
      host ← strncpy (host g) rest (strcspn rest "/");
      Ret (set_host host g)
  end.

(** The target: the path, or the whole URL for a proxy. *)
Definition add_target (url : bytes) (i : nat) (g : globals) : outcome globals :=
  match proxyhost g with
  | None =>
      g ← split_host (drop i url) g;
      len ← c_str (request g);
      request ← strcat_from (request g) (length len) (drop (i + strcspn (drop i url) "/") url);
      Ret (set_request request g)
  | Some _ =>
      request ← strcat (request g) url;
      Ret (set_request request g)
  end.

(** [if(cond) strcat(request,s)] *)
Definition append_if (cond : bool) (s : bytes) (g : globals) : outcome globals :=
  if cond then request ← strcat (request g) s; Ret (set_request request g) else Ret g.

Definition add_version (g : globals) : outcome globals :=
  g ← append_if (http10 g =? 1) (lit " HTTP/1.0") g;
  g ← append_if (negb (http10 g =? 1) && (http10 g =? 2)) (lit " HTTP/1.1") g;
  append_if true crlf g.

(** [strcat(request, host)] reads the array [host] as a string. *)
Definition add_host (g : globals) : outcome globals :=
  if bool_decide (proxyhost g = None) && (0 <? http10 g) then
    g ← append_if true (lit "Host: ") g;
    h ← c_str (host g);
    g ← append_if true h g;
    append_if true crlf g
  else Ret g.

Definition add_headers (g : globals) : outcome globals :=
  g ← append_if (0 <? http10 g) (lit "User-Agent: WebBench " ++ PROGRAM_VERSION ++ crlf) g;
  g ← add_host g;
  g ← append_if (negb (force_reload g =? 0) && bool_decide (is_Some (proxyhost g)))
        (lit "Pragma: no-cache" ++ crlf) g;
  g ← append_if ((1 <? http10 g) && negb (keep_alive g)) (lit "Connection: close" ++ crlf) g;
  g ← append_if ((1 <? http10 g) && keep_alive g) (lit "Connection: Keep-Alive" ++ crlf) g;
  append_if (0 <? http10 g) crlf g.

Definition build_request (url : bytes) (g : globals) : prog globals :=
  let g := set_request (zeroed REQUEST_SIZE) (set_host (zeroed MAXHOSTNAMELEN) g) in
  let g := adjust_version g in
  request ← strcpy (request g) (method_name (method g));
  g ← append_if true (lit " ") (set_request request g);
  match check_url url with
  | Exits code => Ret (Exits code)
  | Goes i =>
      g ← add_target url i g;
      g ← add_version g;
      g ← add_headers g;
      Ret (Goes g)
  end.

(** [main] up to the call of [bench]; [argc] counts the program's name. *)
Definition webbench_main (argc : Z) (items : list getopt_item) (url : option bytes) : prog globals :=
  if argc =? 1 then Ret (Exits 2)
  else
    and_then (option_loop initial_globals items) (fun g =>
      match url with
      | None => Ret (Exits 2)
      | Some url => build_request url (option_defaults g)
      end).

(** ** Examples *)

Definition request_of (m : prog globals) : option bytes :=
  match m with
  | Ret (Goes g) => match c_str (request g) with Ret s => Some s | _ => None end
  | _ => None
  end.

Example webbench_sample :
  request_of (webbench_main 4 [Short "2" []; Short "k" []] (Some (lit "http://localhost:8080/a?b")))
  = Some (lit "GET /a?b HTTP/1.1" ++ crlf ++ lit "User-Agent: WebBench 1.5" ++ crlf ++
          lit "Host: localhost" ++ crlf ++ lit "Connection: Keep-Alive" ++ crlf ++ crlf).
Proof. vm_compute. reflexivity. Qed.

Example webbench_proxy_sample :
  request_of (webbench_main 4 [Long (lit "proxy") (lit "p:3128"); Long (lit "reload") []]
    (Some (lit "HTTP://h/")))
  = Some (lit "GET HTTP://h/ HTTP/1.0" ++ crlf ++ lit "User-Agent: WebBench 1.5" ++ crlf ++
          lit "Pragma: no-cache" ++ crlf ++ crlf).
Proof. vm_compute. reflexivity. Qed.

(** * Lemmas *)

Implicit Types (g : globals) (s t h : bytes).

(** ** URLs *)

(** An accepted URL, cut at the places [build_request] looks for. *)
Record url_parts := mkUrl { url_scheme : bytes; url_host : bytes; url_port : option bytes; url_path : bytes }.

Definition url_rest (u : url_parts) : bytes :=
  url_host u ++ match url_port u with Some p => ":"%char :: p | None => [] end ++ url_path u.

Definition url_text (u : url_parts) : bytes := url_scheme u ++ lit "://" ++ url_rest u.

Definition url_ok (u : url_parts) : Prop :=
  tolower <$> url_scheme u = lit "http" /\
  (":"%char ∉ url_host u) /\ ("/"%char ∉ url_host u) /\
  match url_port u with Some p => "/"%char ∉ p | None => True end /\
  (exists path, url_path u = "/"%char :: path) /\
  (NUL ∉ url_text u) /\ (length (url_text u) <= 1500)%nat.

(** What fits in the arrays [host] and [tmp]. *)
Definition url_fits (u : url_parts) : Prop :=
  (length (url_host u) < MAXHOSTNAMELEN)%nat /\
  match url_port u with Some p => (length p <= 9)%nat | None => True end.

Lemma tolower_inv c d : tolower c = d -> code d < 97 -> c = d.
Proof.
  unfold tolower. case_if; [|done]. zbool. intros Heq Hd. exfalso.
  apply (f_equal code) in Heq. rewrite code_ascii_of in Heq by lia. lia.
Qed.

Lemma scheme_no_colon sch : tolower <$> sch = lit "http" -> ":"%char ∉ sch.
Proof.
  intros H Hin. apply (list_elem_of_fmap_2 tolower) in Hin. rewrite H in Hin.
  revert Hin. by apply (bool_decide_unpack _).
Qed.

Section url.
Context (u : url_parts).
Hypothesis Hu : url_ok u.

Lemma scheme_length : length (url_scheme u) = 4%nat.
Proof. destruct Hu as [H _]. by rewrite <- (length_fmap tolower), H. Qed.

Lemma url_text_drop : drop 7 (url_text u) = url_rest u.
Proof.
  unfold url_text. rewrite app_assoc.
  rewrite (drop_app_length' _ _ 7); [done|]. rewrite length_app, scheme_length. done.
Qed.

Lemma slash_in_rest : exists pre path,
  url_rest u = pre ++ "/"%char :: path /\ ("/"%char ∉ pre) /\ url_path u = "/"%char :: path.
Proof.
  destruct Hu as (_ & _ & Hh & Hp & (path & Hpath) & _).
  exists (url_host u ++ match url_port u with Some p => ":"%char :: p | None => [] end), path.
  unfold url_rest. rewrite Hpath, app_assoc. split_and!; [done| |done].
  apply not_elem_of_app. split; [done|]. destruct (url_port u); [|set_solver].
  apply not_elem_of_cons. done.
Qed.

Lemma check_url_ok : check_url (url_text u) = Goes 7%nat.
Proof.
  destruct slash_in_rest as (pre & path & Hr & Hpre & _). pose proof scheme_length as Hl.
  pose proof url_text_drop as Hdrop.
  destruct Hu as (Hs & _ & _ & _ & _ & _ & Hlen). unfold check_url, strstr.
  assert (Hfind : find_sub (lit "://") (url_text u) = Some 4%nat).
  { unfold url_text. change (lit "://") with (":"%char :: lit "//").
    rewrite find_sub_skip by (by apply scheme_no_colon).
    rewrite find_sub_here. cbn. by rewrite Hl. }
  rewrite Hfind, (proj2 (Nat.ltb_ge _ _)) by done.
  assert (Hpx : has_prefix_nocase (lit "http://") (url_text u) = true).
  { unfold has_prefix_nocase, url_text. rewrite app_assoc.
    change (length (lit "http://")) with 7%nat.
    rewrite (take_app_length' _ _ 7) by (by rewrite length_app, Hl).
    rewrite fmap_app, Hs. reflexivity. }
  rewrite Hpx. cbn [negb Nat.add]. unfold strchr. rewrite Hdrop, Hr.
  by rewrite find_sub_char.
Qed.

Lemma target_ok : drop (7 + strcspn (drop 7 (url_text u)) "/") (url_text u) = url_path u.
Proof.
  destruct slash_in_rest as (pre & path & Hr & Hpre & Hpath).
  rewrite <- drop_drop, url_text_drop, Hr, strcspn_app by done.
  by rewrite drop_app_length.
Qed.
End url.

(** ** Appending to [request] *)

Definition when (c : bool) (s : bytes) : bytes := if c then s else [].

Lemma when_length c s : (length (when c s) <= length s)%nat.
Proof. destruct c; cbn; lia. Qed.

Lemma when_NUL c s : NUL ∉ s -> NUL ∉ when c s.
Proof. destruct c; [done|set_solver]. Qed.

Lemma append_if_holds c t g s :
  holds REQUEST_SIZE (request g) s -> NUL ∉ t -> (length s + length t < REQUEST_SIZE)%nat ->
  exists b, append_if c t g = Ret (set_request b g) /\ holds REQUEST_SIZE b (s ++ when c t).
Proof.
  intros Hh Ht Hl. destruct c; cbn [append_if when].
  - destruct (strcat_holds _ _ _ t Hh Ht Hl) as (b & -> & Hb). by exists b.
  - exists (request g). rewrite app_nil_r. split; [by destruct g|done].
Qed.

Definition version_text (g : globals) : bytes :=
  when (http10 g =? 1) (lit " HTTP/1.0") ++
  when (negb (http10 g =? 1) && (http10 g =? 2)) (lit " HTTP/1.1") ++ crlf.

Definition host_text (h : bytes) (g : globals) : bytes :=
  when (bool_decide (proxyhost g = None) && (0 <? http10 g)) (lit "Host: " ++ h ++ crlf).

Definition headers_text (h : bytes) (g : globals) : bytes :=
  when (0 <? http10 g) (lit "User-Agent: WebBench " ++ PROGRAM_VERSION ++ crlf) ++
  host_text h g ++
  when (negb (force_reload g =? 0) && bool_decide (is_Some (proxyhost g)))
    (lit "Pragma: no-cache" ++ crlf) ++
  when ((1 <? http10 g) && negb (keep_alive g)) (lit "Connection: close" ++ crlf) ++
  when ((1 <? http10 g) && keep_alive g) (lit "Connection: Keep-Alive" ++ crlf) ++
  when (0 <? http10 g) crlf.

(** One [append_if] of a literal: its room and its characters are computed. *)
Ltac append_step :=
  match goal with
  | Hh : holds REQUEST_SIZE (request ?g) ?s |- context [append_if ?c ?t ?g] =>
      let b := fresh "b" in let Hb := fresh "Hb" in let E := fresh "E" in
      destruct (append_if_holds c t g s Hh) as (b & E & Hb);
      [try done; by apply (bool_decide_unpack _)
      |rewrite ?length_app in *;
       repeat match goal with |- context [length (when ?c ?t)] =>
         let Hw := fresh "Hw" in pose proof (when_length c t) as Hw;
         let n := fresh "n" in set (n := length (when c t)) in *; clearbody n;
         cbn [length app lit crlf Stdlib.Strings.String.list_ascii_of_string PROGRAM_VERSION] in Hw
       end;
       cbn [length lit crlf Stdlib.Strings.String.list_ascii_of_string PROGRAM_VERSION] in *;
       unfold REQUEST_SIZE, MAXHOSTNAMELEN in *; lia
      |];
      rewrite E; cbn [mbind outcome_bind]; clear E Hh;
      change b with (request (set_request b g)) in Hb
  end.

Lemma add_version_holds g s :
  holds REQUEST_SIZE (request g) s -> (length s <= 1600)%nat ->
  exists b, add_version g = Ret (set_request b g) /\ holds REQUEST_SIZE b (s ++ version_text g).
Proof.
  intros Hh Hl. unfold add_version, version_text. append_step. append_step. append_step.
  eexists. split; [reflexivity|]. cbn in *. by rewrite <- !app_assoc in *.
Qed.

Lemma add_host_holds g s h :
  holds REQUEST_SIZE (request g) s -> (length s <= 1700)%nat ->
  (proxyhost g = None -> holds MAXHOSTNAMELEN (host g) h) ->
  exists b, add_host g = Ret (set_request b g) /\ holds REQUEST_SIZE b (s ++ host_text h g) /\
            (length (s ++ host_text h g) <= length s + 71)%nat.
Proof.
  intros Hh Hl Hhost. unfold add_host, host_text.
  destruct (bool_decide (proxyhost g = None) && (0 <? http10 g)) eqn:E; cbn [when].
  - apply andb_true_iff in E as [E _]. apply bool_decide_eq_true in E. specialize (Hhost E).
    destruct Hhost as (Hn & Hlh & Hb') eqn:Ehost. clear Ehost.
    append_step. change (host (set_request b g)) with (host g).
    rewrite (holds_c_str MAXHOSTNAMELEN (host g) h) by done. cbn [mbind outcome_bind].
    append_step. append_step.
    eexists. split; [reflexivity|]. cbn [when request set_request] in *.
    rewrite <- !app_assoc in *. split; [done|].
    rewrite !length_app. cbn [length lit crlf Stdlib.Strings.String.list_ascii_of_string].
    unfold MAXHOSTNAMELEN in *. lia.
  - exists (request g). rewrite app_nil_r. split; [by destruct g|]. split; [done|lia].
Qed.

Lemma add_headers_holds g s h :
  holds REQUEST_SIZE (request g) s -> (length s <= 1600)%nat ->
  (proxyhost g = None -> holds MAXHOSTNAMELEN (host g) h) ->
  exists b, add_headers g = Ret (set_request b g) /\ holds REQUEST_SIZE b (s ++ headers_text h g).
Proof.
  intros Hh Hl Hhost. unfold add_headers, headers_text. append_step.
  destruct (add_host_holds (set_request b g) _ h Hb) as (b1 & E1 & Hb1 & Hl1); [|done|].
  { rewrite length_app. pose proof (when_length (0 <? http10 g)
      (lit "User-Agent: WebBench " ++ PROGRAM_VERSION ++ crlf)) as Hw. cbn in Hw |- *. lia. }
  rewrite E1. cbn [mbind outcome_bind].
  match type of Hb1 with holds _ _ ?t => remember t as s1 eqn:Es1 end.
  assert (Hs1 : (length s1 <= 1700)%nat).
  { etrans; [exact Hl1|]. rewrite length_app. pose proof (when_length (0 <? http10 g)
      (lit "User-Agent: WebBench " ++ PROGRAM_VERSION ++ crlf)) as Hw. cbn in Hw |- *. lia. }
  change b1 with (request (set_request b1 (set_request b g))) in Hb1. clear E1 Hb Hl1.
  do 4 append_step.
  eexists. split; [reflexivity|]. cbn in *. subst s1.
  by rewrite <- !app_assoc in *.
Qed.

(** ** The host name and the port *)

Definition url_proxyport (u : url_parts) (before : Z) : Z :=
  match url_port u with
  | None => before
  | Some p => match atoi p with Ret n => if n =? 0 then 80 else n | _ => before end
  end.

Lemma find_sub_char_None_or c pre d s :
  c ∉ pre -> c <> d ->
  match find_sub [c] (pre ++ d :: s) with Some i => (length pre < i)%nat | None => True end.
Proof.
  intros Hp Hd. rewrite find_sub_skip by done. cbn [find_sub starts_with].
  rewrite (proj2 (Ascii.eqb_neq c d)) by done. cbn [andb].
  destruct (find_sub [c] s) as [i|]; cbn; [lia|done].
Qed.

Lemma explicit_port_ok u :
  url_ok u ->
  explicit_port (url_rest u)
  = match url_port u with
    | Some p => Some (length (url_host u), length (url_host u) + 1 + length p)%nat
    | None => None
    end.
Proof.
  intros Hu. destruct Hu as (_ & Hc & Hh & Hp & (path & Hpath) & _). unfold explicit_port, strchr, url_rest.
  rewrite Hpath. destruct (url_port u) as [p|].
  - cbn [app]. rewrite find_sub_char by done.
    change (url_host u ++ ":"%char :: p ++ "/"%char :: path)
      with (url_host u ++ (":"%char :: p) ++ "/"%char :: path).
    rewrite app_assoc, find_sub_char.
    + rewrite length_app. cbn [length]. rewrite (proj2 (Nat.ltb_lt _ _)) by lia. do 2 f_equal. lia.
    + rewrite not_elem_of_app, not_elem_of_cons. done.
  - rewrite app_nil_l, (find_sub_char "/"%char) by done.
    pose proof (find_sub_char_None_or ":"%char (url_host u) "/"%char path Hc ltac:(done)) as Hf.
    destruct (find_sub _ _) as [i|]; [|done]. by rewrite (proj2 (Nat.ltb_ge _ _)) by lia.
Qed.

Lemma url_part_NUL u s : url_ok u -> s ⊆ url_text u -> NUL ∉ s.
Proof. intros (_ & _ & _ & _ & _ & Hn & _) Hs Hin. by apply Hn, Hs. Qed.

Lemma split_host_ok u g :
  url_ok u -> url_fits u -> host g = zeroed MAXHOSTNAMELEN ->
  exists b, split_host (url_rest u) g
            = Ret (set_proxyport (url_proxyport u (proxyport g)) (set_host b g)) /\
            holds MAXHOSTNAMELEN b (url_host u).
Proof.
  intros Hu [Hlh Hlp] Hz. unfold split_host. rewrite (explicit_port_ok u Hu), Hz.
  assert (Hn : NUL ∉ url_rest u)
    by (apply (url_part_NUL u); [done|unfold url_text; intros x Hx; rewrite !elem_of_app; auto]).
  destruct (strncpy_zeroed MAXHOSTNAMELEN (url_rest u) (length (url_host u)) Hn) as (b & Eb & Hb).
  { unfold url_rest. rewrite length_app. lia. }
  { done. }
  assert (Ht : take (length (url_host u)) (url_rest u) = url_host u)
    by (unfold url_rest; apply take_app_length).
  rewrite Ht in Hb. exists b. unfold url_proxyport. destruct (url_port u) as [p|] eqn:Ep.
  - rewrite Eb. cbn [mbind outcome_bind].
    assert (Hd : drop (length (url_host u) + 1) (url_rest u) = p ++ url_path u).
    { unfold url_rest. rewrite Ep. cbn [app].
      rewrite <- drop_drop, drop_app_length. done. }
    rewrite Hd. replace (length (url_host u) + 1 + length p - length (url_host u) - 1)%nat
      with (length p) by lia.
    assert (Hnp : NUL ∉ p ++ url_path u).
    { rewrite <- Hd. intros Hin. apply Hn. by apply (subseteq_drop (length (url_host u) + 1)). }
    destruct (strncpy_zeroed 10 (p ++ url_path u) (length p) Hnp) as (tmp & Et & Htmp).
    { rewrite length_app. lia. }
    { lia. }
    rewrite take_app_length in Htmp. rewrite Et. cbn [mbind outcome_bind].
    rewrite (holds_c_str _ _ _ Htmp). cbn [mbind outcome_bind].
    destruct (atoi_short p Hlp) as (n & -> & _). cbn [mbind outcome_bind]. done.
  - destruct Hu as (_ & _ & Hh & _ & (path & Hpath) & _).
    assert (Hcs : strcspn (url_rest u) "/" = length (url_host u)).
    { unfold url_rest. rewrite Ep, Hpath. cbn [app]. by apply strcspn_app. }
    rewrite Hcs, Eb. cbn [mbind outcome_bind]. split; [by destruct g|done].
Qed.

(** ** The whole request *)

Definition request_target (u : url_parts) (g : globals) : bytes :=
  match proxyhost g with None => url_path u | Some _ => url_text u end.

Definition request_text (u : url_parts) (g : globals) : bytes :=
  method_name (method g) ++ lit " " ++ request_target u g ++ version_text g ++
  headers_text (url_host u) g.

Lemma raise_version_set c v r h g :
  raise_version c v (set_request r (set_host h g)) = set_request r (set_host h (raise_version c v g)).
Proof. unfold raise_version. cbn [http10 set_request set_host]. by case_if. Qed.

(** Only [http10] changes. *)
Lemma raise_version_id c v g : exists w, raise_version c v g = set_http10 w g.
Proof. unfold raise_version. case_if; [by exists v|]. exists (http10 g). by destruct g. Qed.

Lemma adjust_version_id g : exists w, adjust_version g = set_http10 w g.
Proof.
  unfold adjust_version.
  repeat match goal with |- context [raise_version ?c ?v ?g] =>
    let w := fresh "w" in destruct (raise_version_id c v g) as [w ->] end.
  by eexists.
Qed.

Lemma adjust_version_set r h g :
  adjust_version (set_request r (set_host h g)) = set_request r (set_host h (adjust_version g)).
Proof. unfold adjust_version. by rewrite !raise_version_set. Qed.

Lemma method_name_ok m : (NUL ∉ method_name m) /\ (length (method_name m) <= 7)%nat.
Proof. unfold method_name. repeat case_if; split; first [by apply (bool_decide_unpack _)|cbn; lia]. Qed.

(** What comes before the checks on the URL. *)
Lemma build_request_start url g0 :
  let g := adjust_version g0 in
  exists b, holds REQUEST_SIZE b (method_name (method g) ++ lit " ") /\
    build_request url g0
    = match check_url url with
      | Exits code => Ret (Exits code)
      | Goes i =>
          g ← add_target url i (set_request b (set_host (zeroed MAXHOSTNAMELEN) g));
          g ← add_version g; g ← add_headers g; Ret (Goes g)
      end.
Proof.
  intros g. unfold build_request. rewrite adjust_version_set. fold g.
  set (g1 := set_host (zeroed MAXHOSTNAMELEN) g).
  change (request (set_request (zeroed REQUEST_SIZE) g1)) with (zeroed REQUEST_SIZE).
  change (method (set_request (zeroed REQUEST_SIZE) g1)) with (method g).
  destruct (method_name_ok (method g)) as [Hmn Hml].
  destruct (strcpy_zeroed REQUEST_SIZE _ Hmn) as (b0 & -> & Hb0); [unfold REQUEST_SIZE; lia|].
  cbn [mbind outcome_bind].
  destruct (append_if_holds true (lit " ") (set_request b0 (set_request (zeroed REQUEST_SIZE) g1))
    _ Hb0) as (b1 & -> & Hb1);
    [by apply (bool_decide_unpack _)|cbn; unfold REQUEST_SIZE; lia|].
  cbn [mbind outcome_bind when] in *. by exists b1.
Qed.

Section build.
Context (u : url_parts) (g0 : globals).
Hypothesis Hu : url_ok u.
Hypothesis Hfit : proxyhost g0 = None -> url_fits u.

Let g := adjust_version g0.

(** The state [build_request] ends in. *)
Definition built (req hst : bytes) : globals :=
  set_request req (set_host hst
    (set_proxyport (match proxyhost g0 with None => url_proxyport u (proxyport g0) | Some _ => proxyport g0 end) g)).

Lemma adjusted_proxyhost : proxyhost g = proxyhost g0.
Proof. unfold g. destruct (adjust_version_id g0) as [w ->]. done. Qed.

Lemma adjusted_proxyport : proxyport g = proxyport g0.
Proof. unfold g. destruct (adjust_version_id g0) as [w ->]. done. Qed.

Lemma target_length : (length (request_target u g) <= 1500)%nat /\ (NUL ∉ request_target u g).
Proof.
  unfold request_target. assert (Hl : (length (url_text u) <= 1500)%nat) by apply Hu.
  destruct (proxyhost g); (split; [|apply (url_part_NUL u); [done|]]); try done.
  - unfold url_text, url_rest in Hl. rewrite !length_app in Hl. lia.
  - unfold url_text, url_rest. intros x Hx. rewrite !elem_of_app. auto.
Qed.

Lemma add_target_ok req s :
  holds REQUEST_SIZE req s -> (length s <= 8)%nat ->
  exists b hst,
    add_target (url_text u) 7 (set_request req (set_host (zeroed MAXHOSTNAMELEN) g))
    = Ret (built b hst) /\
    holds REQUEST_SIZE b (s ++ request_target u g) /\
    (proxyhost g0 = None -> holds MAXHOSTNAMELEN hst (url_host u)).
Proof.
  intros Hreq Hs. destruct target_length as [Hl Hn]. unfold add_target, built, request_target in *.
  cbn [proxyhost set_request set_host]. rewrite adjusted_proxyhost in *.
  destruct (strcat_holds _ _ _ _ Hreq Hn) as (b & Eb & Hb); [unfold REQUEST_SIZE; lia|].
  destruct (proxyhost g0) as [p|].
  - cbn [request set_request set_host]. rewrite Eb. cbn [mbind outcome_bind].
    exists b, (zeroed MAXHOSTNAMELEN). split_and!; [|done|done].
    rewrite <- adjusted_proxyport. by destruct g.
  - rewrite (url_text_drop u Hu), <- (url_text_drop u Hu), (target_ok u Hu), (url_text_drop u Hu).
    destruct (split_host_ok u (set_request req (set_host (zeroed MAXHOSTNAMELEN) g)))
      as (hst & Eh & Hh); [done|by apply Hfit|done|].
    rewrite Eh. cbn [mbind outcome_bind request set_request set_host set_proxyport].
    rewrite (holds_c_str _ _ _ Hreq). cbn [mbind outcome_bind].
    assert (Ecat : strcat_from req (length s) (url_path u) = Ret b).
    { rewrite <- Eb. unfold strcat, strcat_from. change (drop 0 req) with req.
      rewrite (holds_c_str _ _ _ Hreq). destruct Hreq as (Hsn & Hsl & Hreq).
      rewrite Hreq at 1. rewrite drop_app_length.
      rewrite (holds_c_str (REQUEST_SIZE - length s) _ []) by (split_and!; [set_solver|cbn; lia|cbn; f_equal; lia]).
      cbn [mbind outcome_bind length]. by rewrite Nat.add_0_r. }
    rewrite Ecat. cbn [mbind outcome_bind]. exists b, hst. rewrite <- adjusted_proxyport.
    split_and!; [done|done|by intros _].
Qed.

Lemma build_request_ok :
  exists req hst,
    build_request (url_text u) g0 = Ret (Goes (built req hst)) /\
    holds REQUEST_SIZE req (request_text u g) /\
    (proxyhost g0 = None -> holds MAXHOSTNAMELEN hst (url_host u)).
Proof.
  destruct (build_request_start (url_text u) g0) as (b1 & Hb1 & ->). fold g in Hb1 |- *.
  rewrite (check_url_ok u Hu). destruct (method_name_ok (method g)) as [_ Hml].
  destruct (add_target_ok b1 _ Hb1) as (b2 & hst & E2 & Hb2 & Hhst); [rewrite length_app; cbn; lia|].
  rewrite E2. cbn [mbind outcome_bind]. destruct target_length as [Htl _].
  destruct (add_version_holds (built b2 hst) _ Hb2) as (b3 & -> & Hb3);
    [rewrite !length_app; cbn; lia|]. cbn [mbind outcome_bind].
  destruct (add_headers_holds (set_request b3 (built b2 hst)) _ (url_host u) Hb3) as (b4 & -> & Hb4).
  { rewrite !length_app. pose proof (when_length (http10 (built b2 hst) =? 1) (lit " HTTP/1.0")).
    pose proof (when_length (negb (http10 (built b2 hst) =? 1) && (http10 (built b2 hst) =? 2)) (lit " HTTP/1.1")).
    unfold version_text. rewrite !length_app. cbn in *. lia. }
  { intros Hp. apply Hhst. rewrite <- adjusted_proxyhost. exact Hp. }
  cbn [mbind outcome_bind]. exists b4, hst. split_and!; [done| |done].
  unfold request_text. by rewrite <- !app_assoc in Hb4.
Qed.
End build.

(** ** Which URLs are refused *)

Lemma first_char c s i : find_sub [c] s = Some i ->
  exists pre post, s = pre ++ c :: post /\ (c ∉ pre) /\ length pre = i.
Proof.
  intros Hf. destruct (find_sub_spec _ _ _ Hf) as [[post Hp] Hi].
  exists (take i s), post. split_and!.
  - rewrite <- (take_drop i s) at 1. by rewrite Hp.
  - intros Hin. apply list_elem_of_lookup in Hin as (j & Hj).
    pose proof (lookup_lt_Some _ _ _ Hj) as Hjl. rewrite length_take in Hjl.
    eapply (find_sub_first [c] s i j Hf); [lia|].
    rewrite lookup_take_lt in Hj by lia. exists (drop (S j) s). by rewrite (drop_S _ _ _ Hj).
  - rewrite length_take. cbn in Hi. lia.
Qed.

Lemma has_scheme url :
  has_prefix_nocase (lit "http://") url = true ->
  exists sch rest, url = sch ++ lit "://" ++ rest /\ tolower <$> sch = lit "http".
Proof.
  unfold has_prefix_nocase, bytes_eqb. intros H%bool_decide_eq_true.
  change (length (lit "http://")) with 7%nat in H.
  change (tolower <$> lit "http://") with (lit "http" ++ lit "://") in H.
  destruct url as [|c0 [|c1 [|c2 [|c3 [|c4 [|c5 [|c6 rest]]]]]]]; try discriminate H.
  cbn in H. injection H as H0 H1 H2 H3 H4 H5 H6. symmetry in H0, H1, H2, H3, H4, H5, H6.
  apply tolower_inv in H4, H5, H6; [|done..]. subst.
  exists [c0; c1; c2; c3], rest. split; [done|]. cbn. congruence.
Qed.

Lemma check_url_complete url i :
  NUL ∉ url -> check_url url = Goes i -> exists u, url_ok u /\ url = url_text u.
Proof.
  unfold check_url, strstr, strchr. intros Hn.
  destruct (find_sub (lit "://") url) as [p|] eqn:Ef; [|done].
  destruct (Nat.ltb 1500 (length url)) eqn:El; [done|]. apply Nat.ltb_ge in El.
  destruct (has_prefix_nocase _ url) eqn:Eh; [|done]. cbn [negb].
  apply has_scheme in Eh as (sch & rest & -> & Hs).
  assert (Hl : length sch = 4%nat) by (by rewrite <- (length_fmap tolower), Hs).
  assert (p = 4%nat) as ->.
  { change (lit "://") with (":"%char :: lit "//") in Ef.
    rewrite find_sub_skip, find_sub_here in Ef by (by apply scheme_no_colon).
    cbn in Ef. rewrite Hl in Ef. by injection Ef as <-. }
  rewrite app_assoc. change (4 + 3)%nat with 7%nat.
  rewrite (drop_app_length' _ _ 7) by (rewrite length_app, Hl; done).
  destruct (find_sub ["/"%char] rest) as [j|] eqn:Ej; [|done]. intros _.
  apply first_char in Ej as (pre & path & -> & Hpre & _).
  destruct (find_sub [":"%char] pre) as [k|] eqn:Ek.
  - apply first_char in Ek as (h & port & -> & Hh & _).
    exists (mkUrl sch h (Some port) ("/"%char :: path)).
    apply not_elem_of_app in Hpre as [Hpre [_ Hport]%not_elem_of_cons].
    assert (Heq : (sch ++ lit "://") ++ (h ++ ":"%char :: port) ++ "/"%char :: path
            = url_text (mkUrl sch h (Some port) ("/"%char :: path)))
      by (unfold url_text, url_rest; cbn; by rewrite <- !app_assoc).
    split; [|exact Heq]. unfold url_ok. rewrite <- Heq, <- app_assoc.
    cbn [url_scheme url_host url_port url_path]. split_and!; try done. by exists path.
  - exists (mkUrl sch pre None ("/"%char :: path)).
    assert (Heq : (sch ++ lit "://") ++ pre ++ "/"%char :: path
            = url_text (mkUrl sch pre None ("/"%char :: path)))
      by (unfold url_text, url_rest; cbn; by rewrite <- !app_assoc).
    split; [|exact Heq]. unfold url_ok. rewrite <- Heq, <- app_assoc.
    cbn [url_scheme url_host url_port url_path]. split_and!; try done; [|by exists path].
    intros Hin. apply list_elem_of_lookup in Hin as (j' & Hj').
    eapply (find_sub_None [":"%char] pre j' Ek).
    + apply lookup_lt_Some in Hj'. lia.
    + exists (drop (S j') pre). by rewrite (drop_S _ _ _ Hj').
Qed.

Lemma build_request_refuses url g code :
  check_url url = Exits code -> build_request url g = Ret (Exits 2).
Proof.
  intros Hc. destruct (build_request_start url g) as (b & _ & ->). rewrite Hc.
  revert Hc. unfold check_url. destruct (strstr _ _); [|by intros [= <-]].
  repeat (case_if; [by intros [= <-]|]). destruct (strchr _ _); [done|by intros [= <-]].
Qed.

(** ** Overflows *)

Lemma split_host_overflow u g :
  url_ok u -> host g = zeroed MAXHOSTNAMELEN ->
  (MAXHOSTNAMELEN < length (url_host u))%nat \/ (exists p, url_port u = Some p /\ (10 <= length p)%nat) ->
  split_host (url_rest u) g = UB.
Proof.
  intros Hu Hz Hover. unfold split_host. rewrite (explicit_port_ok u Hu), Hz.
  assert (Hn : NUL ∉ url_rest u)
    by (apply (url_part_NUL u); [done|unfold url_text; intros x Hx; rewrite !elem_of_app; auto]).
  assert (Hcopy : forall b s m, (exists b', strncpy b s m = Ret b') \/ strncpy b s m = UB)
    by (intros; unfold strncpy, store; case_if; eauto).
  destruct (url_port u) as [p|] eqn:Ep.
  - destruct (Hcopy (zeroed MAXHOSTNAMELEN) (url_rest u) (length (url_host u))) as [[b Eb]|Eb];
      rewrite Eb; [|done].
    cbn [mbind outcome_bind]. destruct Hover as [Hl|(p' & [= <-] & Hl)].
    { rewrite strncpy_overflow in Eb by done. discriminate. }
    replace (length (url_host u) + 1 + length p - length (url_host u) - 1)%nat
      with (length p) by lia.
    assert (Hd : drop (length (url_host u) + 1) (url_rest u) = p ++ url_path u).
    { unfold url_rest. rewrite Ep. cbn [app]. rewrite <- drop_drop, drop_app_length. done. }
    rewrite Hd. destruct (decide (length p = 10%nat)) as [H10|].
    + unfold strncpy. rewrite take_app_length, length_app.
      replace (length p - (length p + length (url_path u)))%nat with 0%nat by lia.
      cbn [replicate]. rewrite app_nil_r. unfold store. cbn [Nat.add].
      rewrite zeroed_length, H10. cbn [Nat.leb mbind outcome_bind].
      rewrite firstn_O, app_nil_l, (drop_ge (zeroed 10)), app_nil_r by (rewrite zeroed_length; lia).
      rewrite c_str_full; [done|]. intros Hin. apply Hn.
      apply (subseteq_drop (length (url_host u) + 1)). rewrite Hd, elem_of_app. by left.
    + by rewrite strncpy_overflow by lia.
  - destruct Hover as [Hl|(p & [=] & _)].
    destruct Hu as (_ & _ & Hh & _ & (path & Hpath) & _).
    assert (Hcs : strcspn (url_rest u) "/" = length (url_host u)).
    { unfold url_rest. rewrite Ep, Hpath. cbn [app]. by apply strcspn_app. }
    by rewrite Hcs, strncpy_overflow by done.
Qed.

(** A host name of exactly [MAXHOSTNAMELEN] characters leaves [host] without
    its NUL, and [strcat(request,host)] reads past the array. *)
Example host_name_boundary :
  build_request (lit "http://" ++ replicate 63 "h"%char ++ lit "/") initial_globals <> UB /\
  build_request (lit "http://" ++ replicate 64 "h"%char ++ lit "/") initial_globals = UB.
Proof. split; [by vm_compute|]. by vm_compute. Qed.

(** The usage text offers [--keep]; [long_options] has no such row. *)
Theorem keep_option_missing g items : option_loop g (Long (lit "keep") [] :: items) = Ret (Exits 2).
Proof. reflexivity. Qed.

(** * Properties *)

(** Functional behaviour and bounds of [build_request]. For every URL of
    the accepted form that fits [host] and the port buffer (or any accepted URL
    when a proxy is set), the function returns, without writing or reading past
    an array, with exactly the request text of the reference printer in
    [request] and, without a proxy, the URL's host name in [host] and its port,
    80 for a port that is 0, in [proxyport]. *)
Theorem build_request_prints u g :
  url_ok u -> (proxyhost g = None -> url_fits u) ->
  exists req hst,
    build_request (url_text u) g = Ret (Goes (built u g req hst)) /\
    length req = REQUEST_SIZE /\
    c_str req = Ret (request_text u (adjust_version g)) /\
    (proxyhost g = None -> c_str hst = Ret (url_host u)).
Proof.
  intros Hu Hf. destruct (build_request_ok u g Hu Hf) as (req & hst & E & Hr & Hh).
  exists req, hst. split_and!; [done|by eapply holds_length|by eapply holds_c_str|].
  intros Hp. by eapply holds_c_str, Hh.
Qed.

Definition sample_url : url_parts := mkUrl (lit "http") (lit "localhost") (Some (lit "8080")) (lit "/a?b").

Lemma build_request_prints_witness :
  exists req hst,
    build_request (url_text sample_url) initial_globals
    = Ret (Goes (built sample_url initial_globals req hst)) /\
    length req = REQUEST_SIZE /\
    c_str req = Ret (request_text sample_url (adjust_version initial_globals)) /\
    (proxyhost initial_globals = None -> c_str hst = Ret (url_host sample_url)).
Proof.
  apply (build_request_prints sample_url initial_globals).
  - unfold url_ok. split_and!; try by apply (bool_decide_unpack _). by exists (lit "a?b").
  - intros _. split; cbn; unfold MAXHOSTNAMELEN; lia.
Defined.

(** Error behaviour of [build_request]: every C string is either refused with
    exit code 2 or is a URL of the accepted form; without a proxy, an accepted
    URL whose host name is longer than [host] or whose port has ten characters
    or more overflows an array. *)
Theorem build_request_refuses_or_overflows url g :
  NUL ∉ url ->
  build_request url g = Ret (Exits 2) \/
  exists u, url_ok u /\ url = url_text u /\
    (proxyhost g = None ->
     (MAXHOSTNAMELEN < length (url_host u))%nat \/
     (exists p, url_port u = Some p /\ (10 <= length p)%nat) ->
     build_request url g = UB).
Proof.
  intros Hn. destruct (check_url url) as [i|code] eqn:E; [|left; by eapply build_request_refuses].
  right. destruct (check_url_complete url i Hn E) as (u & Hu & ->). exists u.
  split_and!; [done|done|]. intros Hp Hover.
  destruct (build_request_start (url_text u) g) as (b & _ & ->).
  rewrite (check_url_ok u Hu). unfold add_target. cbn [proxyhost set_request set_host].
  rewrite (adjusted_proxyhost g), Hp, (url_text_drop u Hu).
  by rewrite (split_host_overflow u) by done.
Qed.
