(* ===== verification/BenchCore.v ===== *)
(** * BenchCore: the processes of src/WebBench/webbench.c

    [Socket] of socket.c, [benchcore] (the loop of a child), [alarm_handler],
    and [bench] (the forks, the report a child writes to the pipe, the loop of
    the parent).  A child is a state machine: [Alarm] runs the signal handler,
    [Test] evaluates a test of [timerexpired], and [Answer] is what the call
    the child is in returns.  A signed overflow of a counter ends the model in
    [Overflowed].  The rates [bench] prints, in floating point, are not
    modelled. *)

From S2P Require Export CString.

(** * Socket *)

(** What [inet_addr] and [gethostbyname] (together), [socket] and [connect]
    return: the result and the descriptors closed. *)
Definition Socket (resolved : bool) (sock connect_rc : Z) : Z * list Z :=
  if negb resolved then (-1, [])
  else if sock <? 0 then (sock, [])
  else if connect_rc <? 0 then (-1, [sock])
  else (sock, []).

(** * A child *)

Inductive bench_pc :=
  | KeepConnect           (* while ((s = Socket(host,port)) == -1); *)
  | Top                   (* the test at the head of the outer loop *)
  | Connecting            (* s=Socket(host,port) *)
  | Writing
  | Shutting
  | ReadTop               (* the test at the head of the inner loop *)
  | Reading
  | Dropping (next : bench_pc)  (* close(s) after a failure *)
  | Closing               (* if(close(s)) *)
  | Finished
  | Overflowed.

#[export] Instance bench_pc_eq_dec : EqDecision bench_pc.
Proof. solve_decision. Defined.

(** The globals [benchcore] reads, and [rlen]. *)
Record bench_config := mkConfig { cf_keep_alive : bool; cf_http10 : Z; cf_force : Z; cf_rlen : Z }.

Record child := mkChild {
  pc : bench_pc;
  timerexpired : bool;
  speed : Z;
  failed : Z;
  bytes_in : Z;
  s : Z
}.

#[export] Instance child_eq_dec : EqDecision child.
Proof. solve_decision. Defined.

Definition go (p : bench_pc) (c : child) : child :=
  mkChild p (timerexpired c) (speed c) (failed c) (bytes_in c) (s c).
Definition set_s (v : Z) (c : child) : child :=
  mkChild (pc c) (timerexpired c) (speed c) (failed c) (bytes_in c) v.

Definition INT_MAX : Z := 2 ^ 31 - 1.

(** [failed++], [speed++] and [bytes+=i], then on to [p]. *)
Definition fail_to (p : bench_pc) (c : child) : child :=
  if failed c =? INT_MAX then go Overflowed c
  else mkChild p (timerexpired c) (speed c) (failed c + 1) (bytes_in c) (s c).
Definition succeed (c : child) : child :=
  if speed c =? INT_MAX then go Overflowed c
  else mkChild Top (timerexpired c) (speed c + 1) (failed c) (bytes_in c) (s c).
Definition receive (i : Z) (p : bench_pc) (c : child) : child :=
  if INT_MAX <? bytes_in c + i then go Overflowed c
  else mkChild p (timerexpired c) (speed c) (failed c) (bytes_in c + i) (s c).

(** [if(failed>0) failed--; return;] *)
Definition finish (c : child) : child :=
  mkChild Finished (timerexpired c) (speed c)
    (if 0 <? failed c then failed c - 1 else failed c) (bytes_in c) (s c).

Inductive bench_event := Alarm | Test | Answer (v : Z).

Section child.
Context (cf : bench_config).

Definition start_child : child :=
  mkChild (if cf_keep_alive cf then KeepConnect else Top) false 0 0 0 0.

(** After the inner loop: [speed++] at once, or after [close]. *)
Definition after_read (c : child) : child :=
  if cf_keep_alive cf then succeed c else go Closing c.

Definition after_write (c : child) : child :=
  if cf_force cf =? 0 then go ReadTop c else after_read c.

Definition on_test (c : child) : option child :=
  match pc c with
  | Top =>
      Some (if timerexpired c then finish c
            else if cf_keep_alive cf then
              if s c <? 0 then fail_to Top c else go Writing c
            else go Connecting c)
  | ReadTop => Some (if timerexpired c then after_read c else go Reading c)
  | _ => None
  end.

Definition on_write (v : Z) (c : child) : child :=
  if negb (cf_rlen cf =? v) then fail_to (Dropping (if cf_keep_alive cf then KeepConnect else Top)) c
  else if negb (cf_keep_alive cf) && (cf_http10 cf =? 0) then go Shutting c
  else after_write c.

Definition on_read (i : Z) (c : child) : child :=
  if i <? 0 then fail_to (Dropping Top) c
  else if i =? 0 then after_read c
  else if cf_keep_alive cf then
    let c := receive i ReadTop c in
    if bool_decide (pc c = Overflowed) then c else after_read c
  else receive i ReadTop c.

Definition on_answer (v : Z) (c : child) : option child :=
  match pc c with
  | KeepConnect => Some (go (if v =? -1 then KeepConnect else Top) (set_s v c))
  | Connecting =>
      let c := set_s v c in
      Some (if v <? 0 then fail_to Top c else go Writing c)
  | Writing => Some (on_write v c)
  | Shutting => Some (if v =? 0 then after_write c else fail_to (Dropping Top) c)
  | Reading => Some (on_read v c)
  | Dropping next => Some (go next c)
  | Closing => Some (if v =? 0 then succeed c else fail_to Top c)
  | Top | ReadTop | Finished | Overflowed => None
  end.

(** [alarm_handler]. *)
Definition on_alarm (c : child) : option child :=
  match pc c with
  | Finished | Overflowed => None
  | _ => Some (mkChild (pc c) true (speed c) (failed c) (bytes_in c) (s c))
  end.

(** [None]: the event cannot happen in this state. *)
Definition child_step (c : child) (e : bench_event) : option child :=
  match e with
  | Alarm => on_alarm c
  | Test => on_test c
  | Answer v => on_answer v c
  end.

Fixpoint child_run (c : child) (es : list bench_event) : option child :=
  match es with
  | [] => Some c
  | e :: es => c ← child_step c e; child_run c es
  end.

(** ** What a run did, seen from outside

    Rounds begun (a connection, or a write when connections are kept), bytes
    received, the open sockets, and whether a descriptor was closed that was
    not open. *)
Record tally := mkTally { rounds : Z; received : Z; open_sockets : list Z; stray_close : bool }.

Definition no_tally : tally := mkTally 0 0 [] false.

Definition tally_open (v : Z) (t : tally) : tally :=
  mkTally (rounds t) (received t) (if 0 <=? v then v :: open_sockets t else open_sockets t) (stray_close t).
Definition tally_close (v : Z) (t : tally) : tally :=
  mkTally (rounds t) (received t) (filter (fun w => w <> v) (open_sockets t))
    (stray_close t || negb (bool_decide (v ∈ open_sockets t))).

Definition tally_step (t : tally) (c : child) (e : bench_event) : tally :=
  match e, pc c with
  | Answer v, KeepConnect => tally_open v t
  | Answer v, Connecting =>
      tally_open v (mkTally (rounds t + 1) (received t) (open_sockets t) (stray_close t))
  | Answer _, Writing =>
      if cf_keep_alive cf then mkTally (rounds t + 1) (received t) (open_sockets t) (stray_close t) else t
  | Answer i, Reading =>
      if 0 <? i then mkTally (rounds t) (received t + i) (open_sockets t) (stray_close t) else t
  | Answer _, (Dropping _ | Closing) => tally_close (s c) t
  | _, _ => t
  end.

Fixpoint tally_run (t : tally) (c : child) (es : list bench_event) : tally :=
  match es with
  | [] => t
  | e :: es =>
      match child_step c e with
      | Some c' => tally_run (tally_step t c e) c' es
      | None => t
      end
  end.
End child.

(** * The report of a child and the parent *)

Definition report_line (speed failed bytes_in : Z) : bytes :=
  to_string speed ++ lit " " ++ to_string failed ++ lit " " ++ to_string bytes_in ++ [LF].

(** One [%d] of [fscanf] on the text that is in the pipe: [More] when the text
    ends before the conversion does. *)
Inductive scanned := More | Mismatch | Got (v : Z) (rest : bytes).

Definition scan_d (text : bytes) : scanned :=
  let t := drop (count_while isspace text) text in
  let '(neg, t) :=
    match t with
    | c :: r => if Ascii.eqb c "-" then (true, r) else if Ascii.eqb c "+" then (false, r) else (false, t)
    | [] => (false, t)
    end in
  let n := count_while isdigit t in
  if Nat.eqb n (length t) then More
  else if Nat.eqb n 0 then Mismatch
  else let m := digits_value (take n t) in Got (if neg then - m else m) (drop n t).

(** [fscanf(f,"%d %d %d",&i,&j,&k)]: how many were read, and the variables. *)
Definition scan_report (text : bytes) (i j k : Z) : option (Z * (Z * Z * Z) * bytes) :=
  match scan_d text with
  | More => None
  | Mismatch => Some (0, (i, j, k), text)
  | Got i text =>
      match scan_d text with
      | More => None
      | Mismatch => Some (1, (i, j, k), text)
      | Got j text =>
          match scan_d text with
          | More => None
          | Mismatch => Some (2, (i, j, k), text)
          | Got k text => Some (3, (i, j, k), text)
          end
      end
  end.

Definition int_add (a b : Z) : outcome Z :=
  if (a + b <? - 2 ^ 31) || (INT_MAX <? a + b) then UB else Ret (a + b).

(** How the parent's loop ends: with its totals and the value [i] that [bench]
    returns; early because a report was malformed; or never, because the text
    is used up while [mypipe[1]] is still open, in the parent itself. *)
Inductive parent_end :=
  | Totals (speed failed bytes_in : Z) (i : Z)
  | ChildrenDied (speed failed bytes_in : Z) (i : Z)
  | Blocked.

Fixpoint parent_loop (fuel : nat) (clients speed failed bytes_in i j k : Z) (text : bytes)
    : outcome parent_end :=
  match fuel with
  | O => OutOfFuel
  | S fuel =>
      match scan_report text i j k with
      | None => Ret Blocked
      | Some (n, (i, j, k), text) =>
          if n <? 2 then Ret (ChildrenDied speed failed bytes_in i)
          else
            speed ← int_add speed i;
            failed ← int_add failed j;
            bytes_in ← int_add bytes_in k;
            if clients - 1 =? 0 then Ret (Totals speed failed bytes_in i)
            else parent_loop fuel (clients - 1) speed failed bytes_in i j k text
      end
  end.

(** The fork loop: [fork n] is what the call for worker [n] returns. *)
Fixpoint fork_loop (fork : nat -> Z) (todo i : nat) (pid : Z) : Z :=
  match todo with
  | O => pid
  | S todo =>
      let pid := fork i in
      if pid <=? 0 then pid else fork_loop fork todo (S i) pid
  end.

Inductive bench_role := ReturnsCode (code : Z) | ActsAsChild | ActsAsParent.

(** [bench] up to the point where the process knows its role: the probe
    connection, the pipe and the forks. *)
Definition bench_start (probe pipe_rc : Z) (fork : nat -> Z) (clients : Z) : bench_role :=
  if probe <? 0 then ReturnsCode 1
  else if negb (pipe_rc =? 0) then ReturnsCode 3
  else
    let pid := fork_loop fork (Z.to_nat clients) 0 0 in
    if pid <? 0 then ReturnsCode 3
    else if pid =? 0 then ActsAsChild
    else ActsAsParent.

(** The end of a child: the report in the pipe and the value returned. *)
Definition child_reports (fdopen_ok : bool) (c : child) : option bytes * Z :=
  if fdopen_ok then (Some (report_line (speed c) (failed c) (bytes_in c)), 0) else (None, 3).

(** The parent on the text of the pipe: [speed], [failed] and [bytes] are reset;
    [i], [j], [k] are not initialised by it. The fuel is one turn per character
    and one more. *)
Definition parent_reads (fdopen_ok : bool) (clients i j k : Z) (text : bytes) : outcome (option parent_end) :=
  if fdopen_ok then
    e ← parent_loop (S (length text)) clients 0 0 0 i j k text; Ret (Some e)
  else Ret None.

(** ** Examples *)

Definition plain : bench_config := mkConfig false 1 0 18.
Definition kept : bench_config := mkConfig true 2 0 18.

Example one_page :
  child_run plain (start_child plain)
    [Test; Answer 7; Answer 18; Test; Answer 1500; Test; Answer 40; Test; Answer 0; Answer 0;
     Alarm; Test]
  = Some (mkChild Finished true 1 0 1540 7).
Proof. reflexivity. Qed.

(** With kept connections, a failed read closes the socket but does not open
    another: the next round writes to the closed descriptor and closes it again. *)
Example keep_alive_double_close :
  let es := [Answer 7; Test; Answer 18; Test; Answer (-1); Answer 0; Test; Answer (-1); Answer (-1)] in
  is_Some (child_run kept (start_child kept) es) /\
  stray_close (tally_run kept no_tally (start_child kept) es) = true.
Proof. split; [by eexists|reflexivity]. Qed.

(** * Lemmas *)

(** ** A run step by step *)

Section runs.
Context (cf : bench_config).

(** An invariant of the child with its tally. *)
Lemma child_run_inv (P : child -> tally -> Prop) (ok : bench_event -> Prop) es :
  (forall c t e c', ok e -> P c t -> child_step cf c e = Some c' -> P c' (tally_step cf t c e)) ->
  forall c t c', Forall ok es -> P c t -> child_run cf c es = Some c' -> P c' (tally_run cf t c es).
Proof.
  intros Hstep. induction es as [|e es IH]; intros c t c' Hok Hp; cbn.
  - by intros [= <-].
  - apply Forall_cons in Hok as [He Hes].
    destruct (child_step cf c e) as [c1|] eqn:E; cbn; [|done].
    intros Hr. eapply IH; [done| |done]. by eapply Hstep.
Qed.

(** Rounds begun and not yet counted. *)
Definition inflight (p : bench_pc) : Z :=
  match p with
  | Writing | Shutting => if cf_keep_alive cf then 0 else 1
  | ReadTop | Reading | Closing => 1
  | _ => 0
  end.

(** What [benchcore] relies on: [Socket] returns a descriptor or -1. *)
Definition answer_ok (e : bench_event) : Prop :=
  match e with Answer v => -1 <= v | _ => True end.

(** Where the socket of a child stands. *)
Definition shape (c : child) : Prop :=
  match pc c with
  | KeepConnect => cf_keep_alive cf = true
  | Top => cf_keep_alive cf = true -> 0 <= s c
  | Connecting => cf_keep_alive cf = false
  | Shutting | Closing => cf_keep_alive cf = false /\ 0 <= s c
  | Writing | ReadTop | Reading => 0 <= s c
  | Dropping next =>
      0 <= s c /\ (next = Top \/ next = KeepConnect /\ cf_keep_alive cf = true)
  | Finished | Overflowed => True
  end.

(** While the child runs, every round is counted once, as a success or a failure
    or in flight. At its end it reports all successes, and one failure less than
    there were, if there was any. *)
Definition counts (c : child) (t : tally) : Prop :=
  match pc c with
  | Overflowed => True
  | Finished =>
      received t = bytes_in c /\ 0 <= rounds t - speed c /\ failed c = Z.max 0 (rounds t - speed c - 1)
  | p => 0 <= failed c /\ received t = bytes_in c /\ rounds t = speed c + failed c + inflight p
  end.

(** Unfold one step of the child, splitting on every test. *)
Ltac child_cases Hs :=
  unfold on_write, on_read, after_write, after_read, fail_to, succeed, receive, finish in Hs;
  cbn in Hs;
  repeat (case_if_in Hs; cbn in Hs);
  try discriminate Hs; injection Hs as <-; cbn in *.

Lemma shape_step c e c' : answer_ok e -> shape c -> child_step cf c e = Some c' -> shape c'.
Proof.
  intros Hok Hp Hs. destruct c as [p te sp fa bi so], e, p; cbn in Hs; try discriminate Hs;
    cbn in *; destruct (cf_keep_alive cf) eqn:Eka; child_cases Hs; unfold shape; cbn; zbool;
    rewrite ?Eka; destruct_and?; destruct_or?; destruct_and?; simplify_eq/=;
    first [congruence|auto with lia].
Qed.

Lemma counts_step c t e c' :
  shape c -> counts c t -> child_step cf c e = Some c' -> counts c' (tally_step cf t c e).
Proof.
  intros Hsh Hp Hs. destruct c as [p te sp fa bi so], e, p; cbn in Hs; try discriminate Hs;
    cbn in *; unfold inflight in *; destruct (cf_keep_alive cf) eqn:Eka;
    child_cases Hs; zbool; unfold counts, inflight; cbn;
    rewrite ?Eka; destruct_and?; destruct_or?; destruct_and?; simplify_eq/=;
    try congruence; repeat split; repeat case_if; zbool; cbn; lia.
Qed.

(** Without kept connections: the open sockets are the one in use. *)
Definition clean (c : child) (t : tally) : Prop :=
  stray_close t = false /\
  match pc c with
  | Top | Connecting | Finished => open_sockets t = []
  | Writing | Shutting | ReadTop | Reading | Closing => open_sockets t = [s c]
  | Dropping next => next = Top /\ open_sockets t = [s c]
  | KeepConnect => False
  | Overflowed => True
  end.

Lemma tally_close_one (v : Z) : filter (fun w => w <> v) [v] = [].
Proof. rewrite filter_cons_False, filter_nil; [done|]. intros []; done. Qed.

Lemma clean_step c t e c' :
  cf_keep_alive cf = false -> clean c t -> child_step cf c e = Some c' -> clean c' (tally_step cf t c e).
Proof.
  intros Eka Hp Hs. destruct c as [p te sp fa bi so], e, p; cbn in Hs; try discriminate Hs;
    destruct t as [tr tv to ts];
    unfold clean in *; cbn in *; rewrite ?Eka in *; destruct_and?; subst; try done;
    unfold after_write, after_read in *; try rewrite Eka in *; child_cases Hs; rewrite ?Eka in *; try congruence; zbool;
    unfold clean; cbn; rewrite ?tally_close_one, ?bool_decide_eq_true_2 by set_solver; cbn;
    repeat case_if; zbool; first [done|lia|by split_and!].
Qed.

(** ** After the alarm *)

(** Steps to the end once the timer has expired. *)
Fixpoint steps_left (p : bench_pc) : nat :=
  match p with
  | Finished | Overflowed => 0
  | Top => 1
  | KeepConnect => 2
  | Closing => 2
  | ReadTop => 3
  | Dropping next => S (steps_left next)
  | Reading | Shutting => 4
  | Writing => 5
  | Connecting => 6
  end.

(** The events of a run after the alarm: the handler does not run again, and
    [Socket] connects. *)
Definition after_alarm (e : bench_event) : Prop :=
  match e with
  | Alarm => False
  | Answer v => cf_keep_alive cf = true -> v <> -1
  | Test => True
  end.

Definition stopped (c : child) : Prop := pc c = Finished \/ pc c = Overflowed.

Lemma steps_left_decreases c e c' :
  shape c -> timerexpired c = true -> after_alarm e -> child_step cf c e = Some c' ->
  timerexpired c' = true /\ (steps_left (pc c') < steps_left (pc c))%nat.
Proof.
  intros Hsh Ht He Hs. destruct c as [p te sp fa bi so], e, p; cbn in Ht, He, Hs; try discriminate Hs;
    subst te; try done; cbn in *; destruct (cf_keep_alive cf) eqn:Eka; child_cases Hs; zbool;
    destruct_and?; destruct_or?; destruct_and?; simplify_eq/=; try congruence;
    try (by exfalso; apply He); split; first [done|lia].
Qed.

Lemma can_step c :
  stopped c \/ is_Some (child_step cf c Test) \/ forall v, is_Some (child_step cf c (Answer v)).
Proof. destruct c as [p te sp fa bi so], p; cbn; unfold stopped; cbn; eauto. Qed.
End runs.

(** ** Reports *)

Lemma scan_d_number ws v c rest :
  Forall (fun c => isspace c = true) ws -> 0 <= v < 2 ^ 64 -> isdigit c = false ->
  scan_d (ws ++ to_string v ++ c :: rest) = Got v (c :: rest).
Proof.
  intros Hws Hv Hc. destruct (to_string_spec v Hv) as (Hne & Hd & Hval). unfold scan_d.
  destruct (to_string v) as [|d l] eqn:E; [done|]. assert (Hdd : isdigit d = true) by by inversion Hd.
  destruct (isdigit_not_sign d Hdd) as [Hm Hp].
  rewrite count_while_app, (count_while_stop isspace ((d :: l) ++ _)), Nat.add_0_r
    by (try done; by apply isdigit_not_space).
  rewrite drop_app_length. cbn [app]. rewrite Hm, Hp.
  change (d :: l ++ c :: rest) with ((d :: l) ++ c :: rest).
  rewrite count_while_app, (count_while_stop isdigit (c :: rest)), Nat.add_0_r by done.
  rewrite length_app. cbn [length].
  destruct (Nat.eqb_spec (S (length l)) (S (length l) + S (length rest))); [lia|].
  cbn [Nat.eqb]. change (S (length l)) with (length (d :: l)).
  by rewrite take_app_length, drop_app_length, Hval.
Qed.

(** A child's counters. *)
Record report := mkReport { r_speed : Z; r_failed : Z; r_bytes : Z }.

Definition report_ok (r : report) : Prop :=
  0 <= r_speed r <= INT_MAX /\ 0 <= r_failed r <= INT_MAX /\ 0 <= r_bytes r <= INT_MAX.

Definition report_text (r : report) : bytes := report_line (r_speed r) (r_failed r) (r_bytes r).

Lemma scan_report_line ws r rest i j k :
  Forall (fun c => isspace c = true) ws -> report_ok r ->
  scan_report (ws ++ report_text r ++ rest) i j k
  = Some (3, (r_speed r, r_failed r, r_bytes r), [LF] ++ rest).
Proof.
  intros Hws (H1 & H2 & H3). unfold INT_MAX in *. unfold scan_report, report_text, report_line.
  rewrite <- !app_assoc. change (lit " ") with [SP]. cbn [app].
  rewrite (scan_d_number ws) by (done || lia).
  match goal with |- context [SP :: ?t] => change (SP :: t) with ([SP] ++ t) end.
  rewrite (scan_d_number [SP]) by first [done|by repeat constructor|lia].
  match goal with |- context [SP :: ?t] => change (SP :: t) with ([SP] ++ t) end.
  rewrite (scan_d_number [SP]) by first [done|by repeat constructor|lia]. done.
Qed.

Definition sum_of (f : report -> Z) (rs : list report) : Z := foldr (fun r a => f r + a) 0 rs.

Lemma sum_of_perm f rs rs' : rs ≡ₚ rs' -> sum_of f rs = sum_of f rs'.
Proof. unfold sum_of. induction 1; cbn; lia. Qed.

Lemma sum_of_nonneg f rs : (forall r, report_ok r -> 0 <= f r) -> Forall report_ok rs -> 0 <= sum_of f rs.
Proof. intros Hf. unfold sum_of. induction 1; cbn; [done|]. specialize (Hf x). intuition lia. Qed.

Lemma int_add_ok a b : 0 <= a -> 0 <= b -> a + b <= INT_MAX -> int_add a b = Ret (a + b).
Proof.
  intros. unfold int_add. by rewrite (proj2 (Z.ltb_ge _ _)), (proj2 (Z.ltb_ge _ _)) by lia.
Qed.

(** The parent on the reports [rs], [more] being still to come. *)
Lemma parent_loop_reports rs ws fuel sp fa by_ i j k :
  Forall report_ok rs -> Forall (fun c => isspace c = true) ws -> (length rs < fuel)%nat ->
  0 <= sp -> 0 <= fa -> 0 <= by_ ->
  sp + sum_of r_speed rs <= INT_MAX -> fa + sum_of r_failed rs <= INT_MAX ->
  by_ + sum_of r_bytes rs <= INT_MAX ->
  forall more, (0 <= more)%nat ->
  rs <> [] \/ more <> 0%nat ->
  parent_loop fuel (Z.of_nat (length rs + more)) sp fa by_ i j k (ws ++ concat (report_text <$> rs))
  = Ret (if Nat.eqb more 0
         then Totals (sp + sum_of r_speed rs) (fa + sum_of r_failed rs) (by_ + sum_of r_bytes rs)
                (default i (r_speed <$> list.last rs))
         else Blocked).
Proof.
  intros Hrs. revert ws fuel sp fa by_ i j k.
  induction Hrs as [|r rs Hr Hrs IH]; intros ws fuel sp fa by_ i j k Hws Hfuel Hsp Hfa Hby Hs1 Hs2 Hs3 more _ Hne;
    (destruct fuel as [|fuel]; [cbn in Hfuel; lia|]); cbn [parent_loop].
  - destruct Hne as [|Hne]; [done|]. cbn [fmap list_fmap concat]. rewrite app_nil_r.
    assert (Hscan : scan_d ws = More).
    { unfold scan_d. rewrite <- (app_nil_r ws), count_while_app by done.
      rewrite drop_ge by (rewrite length_app; cbn; lia). done. }
    unfold scan_report. rewrite Hscan. by rewrite (proj2 (Nat.eqb_neq more 0)).
  - cbn [fmap list_fmap concat]. rewrite (scan_report_line ws r) by done.
    change (3 <? 2) with false. cbv iota.
    pose proof (sum_of_nonneg r_speed rs ltac:(unfold report_ok; lia) Hrs).
    pose proof (sum_of_nonneg r_failed rs ltac:(unfold report_ok; lia) Hrs).
    pose proof (sum_of_nonneg r_bytes rs ltac:(unfold report_ok; lia) Hrs).
    unfold sum_of in *. cbn [foldr] in *. destruct Hr as ([? ?] & [? ?] & [? ?]).
    rewrite !int_add_ok by lia. cbn [mbind outcome_bind length].
    destruct (Z.of_nat (S (length rs) + more) - 1 =? 0) eqn:E; zbool.
    + destruct rs; [|cbn in E; lia]. assert (more = 0%nat) as -> by (cbn in E; lia).
      cbn. f_equal. f_equal; lia.
    + replace (Z.of_nat (S (length rs) + more) - 1) with (Z.of_nat (length rs + more)) by lia.
      rewrite (IH [LF]); [|by repeat constructor|cbn in Hfuel; lia|lia..|].
      * f_equal. destruct (Nat.eqb more 0) eqn:Em; [|done]. apply Nat.eqb_eq in Em. subst more.
        destruct rs as [|r' rs]; [cbn in E; lia|]. rewrite (list.last_cons_cons r).
        f_equal; [lia..|]. destruct (list.last (r' :: rs)) eqn:El; [done|].
        by apply last_None in El.
      * destruct rs; [right; cbn in E; lia|by left].
Qed.

(** * Properties *)

(** C38: invariant of a load-generating child. While a child runs, every round
    it began is counted exactly once, as a success or a failure or in flight. A
    child that has returned counts no round in flight and reports all its
    successes, but one failure less than it had, if it had any: the "correction"
    for the alarm takes back a failure that the alarm need not have caused. In
    every state [bytes] is the number of bytes received, and, when connections
    are not kept, exactly the socket in use is open and no descriptor is closed
    twice. *)
Theorem child_accounts cf es c :
  Forall answer_ok es -> child_run cf (start_child cf) es = Some c ->
  let t := tally_run cf no_tally (start_child cf) es in
  counts cf c t /\ (cf_keep_alive cf = false -> clean c t).
Proof.
  intros Hok Hr t. unfold t. split.
  - apply (child_run_inv cf (fun c t => shape cf c /\ counts cf c t) answer_ok es) with (t := no_tally) in Hr;
      [by destruct Hr| |done|].
    + intros c0 t0 e c1 He [Hs Hc] Hst. split; [by eapply shape_step|by eapply counts_step].
    + unfold start_child, shape, counts. by destruct (cf_keep_alive cf).
  - intros Hka. apply (child_run_inv cf (clean) (fun _ => True) es) with (t := no_tally) in Hr; [done| |by apply Forall_true|].
    + intros c0 t0 e c1 _ Hc Hst. by eapply clean_step.
    + unfold start_child, clean. by rewrite Hka.
Qed.

Definition one_page_events : list bench_event :=
  [Test; Answer 7; Answer 18; Test; Answer 1500; Test; Answer 0; Answer 0; Alarm; Test].

(** The one round failed before the alarm, and no failure is reported. *)
Example correction_hides_failure :
  child_run plain (start_child plain) [Test; Answer (-1); Alarm; Test] = Some (mkChild Finished true 0 0 0 (-1)) /\
  rounds (tally_run plain no_tally (start_child plain) [Test; Answer (-1); Alarm; Test]) = 1.
Proof. split; reflexivity. Qed.

Lemma child_accounts_witness :
  child_run plain (start_child plain) one_page_events = Some (mkChild Finished true 1 0 1500 7) /\
  let t := tally_run plain no_tally (start_child plain) one_page_events in
  counts plain (mkChild Finished true 1 0 1500 7) t /\
  (cf_keep_alive plain = false -> clean (mkChild Finished true 1 0 1500 7) t).
Proof.
  split; [reflexivity|]. apply child_accounts; [|reflexivity].
  repeat constructor; unfold answer_ok; lia.
Defined.

(** Termination of a child. Once the alarm has set [timerexpired], every
    run of a reachable child has at most six steps, provided that, when
    connections are kept, [Socket] succeeds; and a child that has not stopped
    can always make a step. *)
Theorem child_stops_after_alarm cf es c es' c' :
  Forall answer_ok es -> child_run cf (start_child cf) es = Some c ->
  timerexpired c = true ->
  Forall (after_alarm cf) es' -> Forall answer_ok es' -> child_run cf c es' = Some c' ->
  (length es' <= 6)%nat /\
  (stopped c' \/ is_Some (child_step cf c' Test) \/ forall v, is_Some (child_step cf c' (Answer v))).
Proof.
  intros Hok Hr Ht Ha Hok' Hr'. split; [|apply can_step].
  assert (Hs : shape cf c).
  { apply (child_run_inv cf (fun c _ => shape cf c) answer_ok es) with (t := no_tally) in Hr; [done| |done|].
    - intros c0 t0 e c1 He Hs Hst. by eapply shape_step.
    - unfold start_child, shape. by destruct (cf_keep_alive cf). }
  assert (H6 : (steps_left (pc c) <= 6)%nat).
  { destruct c as [p ? ? ? ? ?], p; cbn in *; try lia.
    destruct Hs as [_ [->|[-> _]]]; cbn; lia. }
  cut (forall c, shape cf c -> timerexpired c = true -> child_run cf c es' = Some c' ->
    (length es' <= steps_left (pc c))%nat); [intros Hcut; etrans; [by apply Hcut|done]|].
  clear -Ha Hok'. induction es' as [|e es' IH]; intros c Hs Ht; cbn; [lia|].
  apply Forall_cons in Ha as [He Ha]. apply Forall_cons in Hok' as [Hoe Hok'].
  destruct (child_step cf c e) as [c1|] eqn:E; cbn; [|done]. intros Hr.
  destruct (steps_left_decreases cf c e c1 Hs Ht He E) as [Ht1 Hl].
  assert (Hs1 : shape cf c1) by by eapply shape_step.
  specialize (IH Ha Hok' c1 Hs1 Ht1 Hr). lia.
Qed.

Lemma child_stops_after_alarm_witness :
  (length [Answer (-1); Answer 0; Test] <= 6)%nat /\
  (stopped (mkChild Finished true 0 0 0 7) \/
   is_Some (child_step plain (mkChild Finished true 0 0 0 7) Test) \/
   forall v, is_Some (child_step plain (mkChild Finished true 0 0 0 7) (Answer v))).
Proof.
  apply (child_stops_after_alarm plain [Test; Answer 7; Answer 18; Test; Alarm]
           (mkChild Reading true 0 0 0 7)).
  - repeat constructor; unfold answer_ok; lia.
  - reflexivity.
  - reflexivity.
  - repeat constructor; cbn; discriminate.
  - repeat constructor; unfold answer_ok; lia.
  - reflexivity.
Defined.

(** With kept connections and a server that is gone, the loop around [Socket]
    never looks at the timer: a child runs for ever after the alarm. *)
Theorem keep_alive_never_stops cf n :
  cf_keep_alive cf = true ->
  exists c, child_run cf (start_child cf) (Alarm :: replicate n (Answer (-1))) = Some c /\
            pc c = KeepConnect /\ timerexpired c = true.
Proof.
  intros Hk. unfold start_child. rewrite Hk. cbn.
  set (c := mkChild KeepConnect true 0 0 0 0).
  assert (Hc : pc c = KeepConnect /\ timerexpired c = true) by done. clearbody c.
  revert c Hc; induction n as [|n IH]; intros [p te sp fa bi so] [Hp Ht]; cbn in *; subst; cbn.
  - by eexists.
  - by apply IH.
Qed.

(** Functional behaviour of the parent of [bench]. When the reports of all
    the children are in the pipe, in any order, the parent reads every one of
    them, prints the sums of their counters, and [bench] returns the [speed] of
    the report that came last. *)
Theorem bench_totals rs rs' i j k :
  rs ≡ₚ rs' -> rs <> [] -> Forall report_ok rs ->
  sum_of r_speed rs <= INT_MAX -> sum_of r_failed rs <= INT_MAX -> sum_of r_bytes rs <= INT_MAX ->
  parent_reads true (Z.of_nat (length rs)) i j k (concat (report_text <$> rs'))
  = Ret (Some (Totals (sum_of r_speed rs) (sum_of r_failed rs) (sum_of r_bytes rs)
                 (default i (r_speed <$> list.last rs')))).
Proof.
  intros Hp Hne Hok H1 H2 H3. unfold parent_reads.
  rewrite (sum_of_perm r_speed _ _ Hp) in H1 |- *. rewrite (sum_of_perm r_failed _ _ Hp) in H2 |- *.
  rewrite (sum_of_perm r_bytes _ _ Hp) in H3 |- *.
  rewrite Hp in Hok. rewrite (Permutation_length Hp), <- (Nat.add_0_r (length rs')).
  assert (Hne' : rs' <> []) by (intros ->; apply Hne; by apply Permutation_nil_r).
  pose proof (parent_loop_reports rs' [] (S (length (concat (report_text <$> rs')))) 0 0 0 i j k
    Hok ltac:(constructor)) as Hl. cbn [app] in Hl. rewrite Hl; try lia; [done| |by left].
  clear. induction rs' as [|r rs IH]; cbn; [lia|]. rewrite length_app.
  unfold report_text at 1, report_line. rewrite !length_app. cbn. lia.
Qed.

Lemma bench_totals_witness :
  parent_reads true 2 0 0 0 (concat (report_text <$> [mkReport 5 0 70; mkReport 3 1 40]))
  = Ret (Some (Totals 8 1 110 3)).
Proof.
  apply (bench_totals [mkReport 3 1 40; mkReport 5 0 70] [mkReport 5 0 70; mkReport 3 1 40]).
  - apply Permutation_swap.
  - done.
  - repeat constructor; cbn; unfold INT_MAX; lia.
  - cbn. unfold INT_MAX. lia.
  - cbn. unfold INT_MAX. lia.
  - cbn. unfold INT_MAX. lia.
Defined.

(** When a child dies without a report, the parent waits for ever: it holds
    the write end of the pipe itself, so [fscanf] never sees the end of it. *)
Theorem parent_waits_for_dead_child rs dead i j k :
  Forall report_ok rs -> (0 < dead)%nat ->
  sum_of r_speed rs <= INT_MAX -> sum_of r_failed rs <= INT_MAX -> sum_of r_bytes rs <= INT_MAX ->
  parent_reads true (Z.of_nat (length rs + dead)) i j k (concat (report_text <$> rs)) = Ret (Some Blocked).
Proof.
  intros Hok Hd H1 H2 H3. unfold parent_reads.
  pose proof (parent_loop_reports rs [] (S (length (concat (report_text <$> rs)))) 0 0 0 i j k
    Hok ltac:(constructor)) as Hl. cbn [app] in Hl. rewrite Hl; try lia.
  - by rewrite (proj2 (Nat.eqb_neq dead 0)) by lia.
  - clear. induction rs as [|r rs IH]; cbn; [lia|]. rewrite length_app.
    unfold report_text at 1, report_line. rewrite !length_app. cbn. lia.
Qed.

(** A negative number of clients forks nobody: the process runs the child's
    loop itself and leaves the report in a pipe no one reads. *)
Theorem negative_clients_act_as_child probe fork clients :
  0 <= probe -> clients < 0 -> bench_start probe 0 fork clients = ActsAsChild.
Proof.
  intros Hp Hc. unfold bench_start. rewrite (proj2 (Z.ltb_ge _ _)) by done.
  by replace (Z.to_nat clients) with 0%nat by lia.
Qed.

(** With at least one client and no failed [fork], the process is the parent. *)
Theorem bench_becomes_parent probe fork clients :
  0 <= probe -> 0 < clients -> (forall n, 0 < fork n) ->
  bench_start probe 0 fork clients = ActsAsParent.
Proof.
  intros Hp Hc Hf. unfold bench_start. rewrite (proj2 (Z.ltb_ge _ _)) by done. cbn [Z.eqb negb].
  assert (Hl : forall todo i pid, 0 < pid \/ (0 < todo)%nat -> 0 < fork_loop fork todo i pid).
  { induction todo as [|todo IH]; intros i pid Hpid; cbn; [lia|].
    rewrite (proj2 (Z.leb_gt _ _)) by apply Hf. apply IH. left. apply Hf. }
  specialize (Hl (Z.to_nat clients) 0%nat 0 ltac:(lia)).
  by rewrite (proj2 (Z.ltb_ge _ _)), (proj2 (Z.eqb_neq _ _)) by lia.
Qed.
