(* ===== verification/HttpTypes.v ===== *)
(** * HttpTypes: src/WebServer/coroutineWebServer/Types.h

    [to_lower], [trim], [HttpRequest] with [keep_alive], [HttpResponse] with
    [to_wire], [mime_type_for], [path_is_safe] and the owning descriptor
    [UniqueFd].  [std::filesystem::path] (POSIX, generic format) is the
    standard library's: [path_append] is [operator/], [path_parts] the
    iteration, [lexically_normal] the normal form of [fs.path.generic]. *)

From S2P Require Export CxxString.

(** ** Strings *)

Definition to_lower (input : bytes) : bytes := tolower <$> input.

(** The second loop of [trim]: how many of the [n] characters from [begin_]
    are left once trailing white space is removed. *)
Fixpoint trim_end (input : bytes) (begin_ n : nat) : nat :=
  match n with
  | O => O
  | S n' =>
      if isspace (char_at input (Z.of_nat (begin_ + n'))) then trim_end input begin_ n'
      else S n'
  end.

Definition trim (input : bytes) : bytes :=
  let begin_ := count_while isspace input in
  take (trim_end input begin_ (length input - begin_)) (drop begin_ input).

(** ** Requests *)

Record HttpRequest := mkRequest {
  method : bytes;
  target : bytes;
  version : bytes;
  headers : gmap bytes bytes;
  body : bytes
}.

Definition is_get (r : HttpRequest) : bool := bytes_eqb (method r) (lit "GET").
Definition is_head (r : HttpRequest) : bool := bytes_eqb (method r) (lit "HEAD").
Definition is_post (r : HttpRequest) : bool := bytes_eqb (method r) (lit "POST").

Definition keep_alive (r : HttpRequest) : bool :=
  let by_version := bytes_eqb (version r) (lit "HTTP/1.1") in
  match headers r !! lit "connection" with
  | Some v =>
      let value := to_lower v in
      if negb (find (lit "close") value 0 =? npos) then false
      else if negb (find (lit "keep-alive") value 0 =? npos) then true
      else by_version
  | None => by_version
  end.

(** [std::unordered_map::emplace]: the first value of a key stays. *)
Definition emplace (k v : bytes) (m : gmap bytes bytes) : gmap bytes bytes :=
  match m !! k with Some _ => m | None => <[k := v]> m end.

(** ** Responses *)

Record HttpResponse := mkResponse {
  status : Z;
  reason : bytes;
  resp_headers : list (bytes * bytes);
  resp_body : bytes;
  head_only : bool
}.

Definition default_response : HttpResponse := mkResponse 200 (lit "OK") [] [] false.

Definition header_line (h : bytes * bytes) : bytes := h.1 ++ lit ": " ++ h.2 ++ crlf.

(** The loop of [to_wire] over the headers: the wire so far and
    [has_content_length]. *)
Definition to_wire_step (acc : bytes * bool) (h : bytes * bytes) : bytes * bool :=
  let '(wire, has_content_length) := acc in
  (wire ++ header_line h,
   if bytes_eqb (to_lower h.1) (lit "content-length") then true else has_content_length).

Definition to_wire (r : HttpResponse) : bytes :=
  let wire0 := lit "HTTP/1.1 " ++ to_string (status r) ++ lit " " ++ reason r ++ crlf in
  let '(wire1, has_content_length) := fold_left to_wire_step (resp_headers r) (wire0, false) in
  let wire2 :=
    if has_content_length then wire1
    else wire1 ++ lit "Content-Length: " ++ to_string (size (resp_body r)) ++ crlf in
  let wire3 := wire2 ++ crlf in
  if head_only r then wire3 else wire3 ++ resp_body r.

Definition mime_type_for (path : bytes) : outcome bytes :=
  let dot := find_last_of "." path in
  if dot =? npos then Ret (lit "text/plain; charset=utf-8")
  else
    sub ← substr path dot npos;
    let ext := to_lower sub in
    Ret (if bytes_eqb ext (lit ".html") || bytes_eqb ext (lit ".htm")
         then lit "text/html; charset=utf-8"
         else if bytes_eqb ext (lit ".css") then lit "text/css; charset=utf-8"
         else if bytes_eqb ext (lit ".js") then lit "application/javascript; charset=utf-8"
         else if bytes_eqb ext (lit ".json") then lit "application/json; charset=utf-8"
         else if bytes_eqb ext (lit ".png") then lit "image/png"
         else if bytes_eqb ext (lit ".jpg") || bytes_eqb ext (lit ".jpeg")
         then lit "image/jpeg"
         else if bytes_eqb ext (lit ".gif") then lit "image/gif"
         else if bytes_eqb ext (lit ".ico") then lit "image/x-icon"
         else lit "application/octet-stream").

(** ** [std::filesystem::path] *)

Definition slash : ascii := "/"%char.
Definition dot_name : bytes := lit ".".
Definition dotdot_name : bytes := lit "..".

Definition is_absolute (p : bytes) : bool := starts_with [slash] p.

Definition ends_with_slash (p : bytes) : bool :=
  match list.last p with Some c => Ascii.eqb c slash | None => false end.

(** [a / b] *)
Definition path_append (a b : bytes) : bytes :=
  if is_absolute b || bytes_eqb a [] then b
  else if ends_with_slash a then a ++ b else a ++ [slash] ++ b.

(** The text between slashes, empty pieces included. *)
Fixpoint split_slash (cur : bytes) (s : bytes) : list bytes :=
  match s with
  | [] => [cur]
  | c :: s' => if Ascii.eqb c slash then cur :: split_slash [] s'
               else split_slash (cur ++ [c]) s'
  end.

(** The file names of a path, in order. *)
Definition path_names (p : bytes) : list bytes :=
  filter (fun n => n <> []) (split_slash [] p).

(** What iterating over a path yields: the root directory, the names, and an
    empty element after a trailing slash. *)
Definition path_parts (p : bytes) : list bytes :=
  (if is_absolute p then [[slash]] else []) ++ path_names p ++
  (if ends_with_slash p && negb (bytes_eqb p [] || bool_decide (path_names p = []))
   then [[]] else []).

(** One name of a path pushed on the reversed normal form. *)
Definition normal_step (abs : bool) (st : list bytes) (n : bytes) : list bytes :=
  if bytes_eqb n dot_name then st
  else if bytes_eqb n dotdot_name then
    match st with
    | top :: st' => if bytes_eqb top dotdot_name then n :: st else st'
    | [] => if abs then [] else [n]
    end
  else n :: st.

Definition normal_names (p : bytes) : list bytes :=
  rev (fold_left (normal_step (is_absolute p)) (path_names p) []).

Fixpoint join_slash (l : list bytes) : bytes :=
  match l with
  | [] => []
  | [n] => n
  | n :: l' => n ++ [slash] ++ join_slash l'
  end.

Definition last_is (n : bytes) (l : list bytes) : bool :=
  match list.last l with Some m => bytes_eqb m n | None => false end.

Definition lexically_normal (p : bytes) : bytes :=
  if bytes_eqb p [] then []
  else
    let names := normal_names p in
    let dirlike := ends_with_slash p || last_is dot_name (path_names p)
                   || last_is dotdot_name (path_names p) in
    match names with
    | [] => if is_absolute p then [slash] else dot_name
    | _ :: _ =>
        (if is_absolute p then [slash] else []) ++ join_slash names ++
        (if dirlike && negb (last_is dotdot_name names) then [slash] else [])
    end.

(** [path_is_safe]: no part of the path is [..]. *)
Definition path_is_safe (path : bytes) : bool :=
  forallb (fun part => negb (bytes_eqb part dotdot_name)) (path_parts path).

(** ** [UniqueFd]

    Operations return the new value of the objects they change and the list
    of descriptors passed to [::close]. *)

Record UniqueFd := mkUniqueFd { fd_ : Z; direct_ : bool }.

Definition empty_fd : UniqueFd := mkUniqueFd (-1) false.
Definition fd_valid (u : UniqueFd) : bool := 0 <=? fd_ u.

Definition fd_reset (u : UniqueFd) (fd : Z) (direct : bool) : UniqueFd * list Z :=
  (mkUniqueFd fd direct, if 0 <=? fd_ u then [fd_ u] else []).

(** The moved-to and the moved-from object. *)
Definition fd_move_construct (other : UniqueFd) : UniqueFd * UniqueFd :=
  (mkUniqueFd (fd_ other) (direct_ other), mkUniqueFd (-1) (direct_ other)).

(** [this = std::move(other)] for two different objects. *)
Definition fd_move_assign (this other : UniqueFd) : UniqueFd * UniqueFd * list Z :=
  let '(_, closed) := fd_reset this (-1) false in
  (mkUniqueFd (fd_ other) (direct_ other), mkUniqueFd (-1) (direct_ other), closed).

Definition fd_release (u : UniqueFd) : Z * UniqueFd := (fd_ u, mkUniqueFd (-1) false).

Definition fd_destroy (u : UniqueFd) : list Z := (fd_reset u (-1) false).2.

(** * Lemmas *)

(** ** [to_lower] and [trim] *)

Lemma tolower_idemp c : tolower (tolower c) = tolower c.
Proof.
  unfold tolower at 2. destruct ((65 <=? code c) && (code c <=? 90)) eqn:E.
  - zbool. unfold tolower at 1. rewrite code_ascii_of by lia. case_if; [zbool; lia|].
    unfold tolower. by rewrite (proj2 (Z.leb_le 65 _)), (proj2 (Z.leb_le _ 90)) by lia.
  - done.
Qed.

Lemma to_lower_idemp s : to_lower (to_lower s) = to_lower s.
Proof. unfold to_lower. rewrite <- list_fmap_compose. apply list_fmap_ext; intros. apply tolower_idemp. Qed.

Lemma to_lower_length s : length (to_lower s) = length s.
Proof. apply length_fmap. Qed.

(** No white space at either end. *)
Definition trimmed (s : bytes) : Prop :=
  (forall c r, s = c :: r -> isspace c = false) /\
  (forall c r, s = r ++ [c] -> isspace c = false).

Definition all_space (s : bytes) : Prop := Forall (fun c => isspace c = true) s.

Lemma trim_end_spec input b n :
  let k := trim_end input b n in
  (k <= n)%nat /\
  (forall i, (k <= i < n)%nat -> isspace (char_at input (Z.of_nat (b + i))) = true) /\
  (forall k', k = S k' -> isspace (char_at input (Z.of_nat (b + k'))) = false).
Proof.
  simpl. induction n as [|n (IH1 & IH2 & IH3)]; cbn [trim_end].
  - split; [lia|]. split; intros; [lia|done].
  - destruct (isspace (char_at input (Z.of_nat (b + n)))) eqn:E.
    + split; [lia|]. split; [|done]. intros i Hi.
      destruct (decide (i = n)) as [->|]; [done|]. apply IH2. lia.
    + split; [lia|]. split; [lia|]. by intros k' [= <-].
Qed.

Lemma char_at_drop s b i c :
  drop b s !! i = Some c -> char_at s (Z.of_nat (b + i)) = c.
Proof. unfold char_at. rewrite Nat2Z.id, lookup_drop. by intros ->. Qed.

Lemma count_while_head f s c r : drop (count_while f s) s = c :: r -> f c = false.
Proof.
  induction s as [|d s IH]; simpl; [done|]. destruct (f d) eqn:E; simpl; [done|].
  by intros [= -> _].
Qed.

(** [trim] removes exactly the white space around its argument. *)
Lemma trim_pad lead core post :
  all_space lead -> all_space post -> trimmed core -> trim (lead ++ core ++ post) = core.
Proof.
  intros Hl Hp [Hhead Hlast]. unfold trim. rewrite count_while_app by done.
  destruct core as [|c core].
  { cbn [app]. rewrite drop_ge, take_nil; [done|].
    pose proof (count_while_app isspace post [] Hp) as E. rewrite app_nil_r in E.
    rewrite E, length_app. simpl. lia. }
  rewrite (count_while_stop isspace ((c :: core) ++ post)) by (by eapply Hhead).
  rewrite Nat.add_0_r, drop_app_length. rewrite !length_app.
  replace (length lead + (length (c :: core) + length post) - length lead)%nat
    with (length (c :: core) + length post)%nat by lia.
  set (input := lead ++ (c :: core) ++ post).
  destruct (trim_end_spec input (length lead) (length (c :: core) + length post))
    as (H1 & H2 & H3).
  set (k := trim_end _ _ _) in *.
  assert (Hin : forall i x, ((c :: core) ++ post) !! i = Some x ->
    char_at input (Z.of_nat (length lead + i)) = x).
  { intros i x Hx. apply char_at_drop. by unfold input; rewrite drop_app_length. }
  assert (k = length (c :: core)) as ->; [|by rewrite take_app_length].
  destruct (exists_last (l := c :: core)) as (r & z & Hr); [done|].
  assert (Hz : ((c :: core) ++ post) !! (length (c :: core) - 1)%nat = Some z).
  { rewrite Hr, <- app_assoc, length_app. apply list_lookup_middle. simpl. lia. }
  destruct (Nat.lt_trichotomy k (length (c :: core))) as [Hk|[Hk|Hk]]; [|done|].
  - specialize (H2 (length (c :: core) - 1)%nat). rewrite (Hin _ _ Hz) in H2.
    rewrite (Hlast _ _ Hr) in H2. simpl in *. discriminate H2. lia.
  - destruct k as [|k']; [lia|]. specialize (H3 k' eq_refl).
    destruct (lookup_lt_is_Some_2 ((c :: core) ++ post) k') as [x Hx];
      [rewrite length_app; lia|].
    rewrite (Hin _ _ Hx) in H3. rewrite lookup_app_r in Hx by lia.
    pose proof (Forall_lookup_1 _ _ _ _ Hp Hx). congruence.
Qed.

(** Every string is white space, its [trim], white space. *)
Lemma trim_spec s :
  exists lead post, s = lead ++ trim s ++ post /\ all_space lead /\ all_space post /\
                    trimmed (trim s).
Proof.
  set (b := count_while isspace s). unfold trim. fold b.
  pose proof (count_while_le isspace s) as Hb. fold b in Hb.
  destruct (trim_end_spec s b (length s - b)) as (H1 & H2 & H3).
  set (k := trim_end s b (length s - b)) in *.
  exists (take b s), (drop k (drop b s)). repeat split.
  - by rewrite take_drop, take_drop.
  - apply count_while_all.
  - apply Forall_lookup_2. intros i x Hx. rewrite lookup_drop in Hx.
    rewrite <- (char_at_drop _ _ _ _ Hx). apply H2.
    apply lookup_lt_Some in Hx. rewrite length_drop in Hx. lia.
  - intros c r Hc. destruct (drop b s) as [|d r'] eqn:Ed; [by rewrite take_nil in Hc|].
    destruct k; [done|]. injection Hc as -> _. by apply count_while_head in Ed.
  - intros c r Hc. assert (k = S (length r)) as Hk.
    { pose proof (f_equal length Hc) as El.
      rewrite length_take, length_drop, length_app in El. simpl in El. lia. }
    rewrite <- (H3 _ Hk). f_equal. symmetry. apply char_at_drop.
    rewrite <- (lookup_take_lt _ k) by lia. rewrite Hc. by apply list_lookup_middle.
Qed.
