(* ===== verification/HttpParser.v ===== *)
(** * HttpParser: request parsing of coroutineWebServer/HttpServer.cpp

    [strip_query], the [next_token] lambda, the header loop and
    [try_parse_request].  The loop over header lines has fuel; the number of
    characters before the end of the headers is enough, since every iteration
    moves past a line end ([try_parse_request_total]). *)

From S2P Require Export HttpTypes.

Definition header_terminator : bytes := [CR; LF; CR; LF].

(** [HttpServer::strip_query]: [resize] to the position of the first ['?']. *)
Definition strip_query (target : bytes) : bytes :=
  let pos := find_char "?" target 0 in
  if negb (pos =? npos) then take (Z.to_nat pos) target else target.

(** The lambda [next_token]: the token and the new [pos]. *)
Definition next_token (request_line : bytes) (pos : Z) : outcome (bytes * Z) :=
  let begin_ := skip_while (fun c => Ascii.eqb c SP) request_line pos in
  let end_ := skip_while (fun c => negb (Ascii.eqb c SP)) request_line begin_ in
  token ← substr request_line begin_ (end_ - begin_);
  Ret (token, end_).

Record ParsedRequest := mkParsed {
  request : HttpRequest;
  consumed : Z
}.

(** One header line: the key and value [emplace]d when it holds a colon. *)
Definition parse_header_line (line : bytes) (hs : gmap bytes bytes)
    : outcome (gmap bytes bytes) :=
  let colon := find_char ":" line 0 in
  if negb (colon =? npos) then
    k ← substr line 0 colon;
    v ← substr line (colon + 1) npos;
    Ret (emplace (to_lower (trim k)) (trim v) hs)
  else Ret hs.

(** The [while (line_begin < header_end)] loop. *)
Fixpoint parse_header_lines (fuel : nat) (buffer : bytes) (header_end line_begin : Z)
    (hs : gmap bytes bytes) : outcome (gmap bytes bytes) :=
  match fuel with
  | O => OutOfFuel
  | S fuel' =>
      if line_begin <? header_end then
        let line_end := find crlf buffer line_begin in
        if (line_end =? npos) || (header_end <? line_end) then Ret hs
        else if line_end =? line_begin then Ret hs
        else
          line ← substr buffer line_begin (line_end - line_begin);
          hs' ← parse_header_line line hs;
          parse_header_lines fuel' buffer header_end (line_end + 2) hs'
      else Ret hs
  end.

(** The [content-length] lookup: [None] when [std::stoul] throws. *)
Definition content_length (hs : gmap bytes bytes) : option Z :=
  match hs !! lit "content-length" with
  | Some v => match stoul v with Ret n => Some n | _ => None end
  | None => Some 0
  end.

(** The part of [try_parse_request] after the headers. [body_begin +
    body_length] is computed in [std::size_t]. *)
Definition parse_body (buffer : bytes) (header_end : Z) (m t v : bytes)
    (hs : gmap bytes bytes) : outcome (option ParsedRequest) :=
  match content_length hs with
  | None => Ret None
  | Some body_length =>
      let body_begin := header_end + 4 in
      let body_end := u64 (body_begin + body_length) in
      if size buffer <? body_end then Ret None
      else
        b ← substr buffer body_begin body_length;
        Ret (Some (mkParsed (mkRequest m t v hs b) body_end))
  end.

(** The request line and the headers of a buffer whose header block ends at
    [header_end]; [None] where the source returns [std::nullopt]. *)
Definition parse_head (buffer : bytes) (header_end : Z)
    : outcome (option (bytes * bytes * bytes * gmap bytes bytes)) :=
  let header_block := take (Z.to_nat (header_end + 2)) buffer in
  let first_line_end := find crlf header_block 0 in
  if first_line_end =? npos then Ret None
  else
    request_line ← substr header_block 0 first_line_end;
    '(m, pos1) ← next_token request_line 0;
    '(t, pos2) ← next_token request_line pos1;
    '(v, pos3) ← next_token request_line pos2;
    if bytes_eqb m [] || bytes_eqb t [] || bytes_eqb v [] then Ret None
    else
      hs ← parse_header_lines (S (Z.to_nat header_end)) buffer header_end
             (first_line_end + 2) ∅;
      Ret (Some (m, strip_query t, v, hs)).

Definition try_parse_request (buffer : bytes) : outcome (option ParsedRequest) :=
  let header_end := find header_terminator buffer 0 in
  if header_end =? npos then Ret None
  else
    head ← parse_head buffer header_end;
    match head with
    | None => Ret None
    | Some (m, t, v, hs) => parse_body buffer header_end m t v hs
    end.

(** ** Examples *)

Definition sample_request : bytes :=
  lit "POST /echo?x=1 HTTP/1.1" ++ crlf ++ lit "Content-Length:  3 " ++ crlf ++
  lit "X: y" ++ crlf ++ crlf ++ lit "abcGET".

Example sample_request_parses :
  try_parse_request sample_request =
    Ret (Some (mkParsed
      (mkRequest (lit "POST") (lit "/echo") (lit "HTTP/1.1")
         {[ lit "content-length" := lit "3"; lit "x" := lit "y" ]} (lit "abc"))
      (size sample_request - 3))).
Proof. vm_compute. reflexivity. Qed.

(** * Lemmas *)

(** ** The header block *)

Lemma header_block_facts buffer :
  fits buffer ->
  let h := find header_terminator buffer 0 in
  h <> npos ->
  0 <= h /\ h + 4 <= size buffer /\ crlf `prefix_of` drop (Z.to_nat h) buffer /\
  find crlf (take (Z.to_nat (h + 2)) buffer) 0 <> npos /\
  0 <= find crlf (take (Z.to_nat (h + 2)) buffer) 0 <= h.
Proof.
  intros Hf h Hn. destruct (find_cases header_terminator buffer 0) as [|[H1 H2]]; [lia|done|].
  fold h in H1, H2. change (size header_terminator) with 4 in H2.
  assert (Hp : header_terminator `prefix_of` drop (Z.to_nat h) buffer)
    by (by apply find_prefix).
  assert (Hc : crlf `prefix_of` drop (Z.to_nat h) buffer)
    by (etrans; [|exact Hp]; by exists crlf).
  repeat split; [lia|lia|done|..];
    (destruct (find_le crlf (take (Z.to_nat (h + 2)) buffer) 0 (Z.to_nat h)) as [? ?];
     [by apply fits_take|lia|rewrite length_take; unfold size in *; lia| |lia || done]).
  all: destruct Hc as [k Hk]; exists []; rewrite app_nil_r.
  all: replace (Z.to_nat (h + 2)) with (Z.to_nat h + 2)%nat by lia.
  all: rewrite <- take_drop_commute, Hk; reflexivity.
Qed.

(** ** Tokens *)

Lemma next_token_spec line pos :
  0 <= pos <= size line ->
  exists t e, next_token line pos = Ret (t, e) /\ pos <= e <= size line.
Proof.
  intros H. unfold next_token.
  set (b := skip_while _ line pos). set (e := skip_while _ line b).
  assert (pos <= b <= size line) by (by apply skip_while_bounds).
  assert (b <= e <= size line) by (apply skip_while_bounds; lia).
  rewrite substr_ok by lia. eexists _, e. split; [reflexivity|lia].
Qed.

Ltac step_token line pos :=
  let t := fresh "t" in let e := fresh "e" in let E := fresh "E" in
  destruct (next_token_spec line pos ltac:(lia)) as (t & e & E & ?); rewrite E; cbn [mbind outcome_bind].

(** ** Header lines *)

Lemma parse_header_line_returns line hs : fits line -> returns (parse_header_line line hs).
Proof.
  intros Hf. unfold parse_header_line. case_if; [|apply returns_Ret]. zbool.
  destruct (find_cases [":"%char] line 0) as [|[? Hs]]; [lia|done|].
  unfold find_char in *. change (size [":"%char]) with 1 in Hs.
  rewrite !substr_ok by lia. apply returns_Ret.
Qed.

Section header_loop.
Context (buffer : bytes) (header_end : Z).
Hypothesis Hfits : fits buffer.
Hypothesis Hend : 0 <= header_end /\ header_end + 4 <= size buffer.
Hypothesis Hcrlf : crlf `prefix_of` drop (Z.to_nat header_end) buffer.

(** Inside the loop the search for a line end succeeds, at most at the end of
    the headers. *)
Lemma line_end_found line_begin :
  0 <= line_begin < header_end ->
  find crlf buffer line_begin <> npos /\
  line_begin <= find crlf buffer line_begin <= header_end.
Proof.
  intros H. pose proof (find_le crlf buffer line_begin (Z.to_nat header_end) Hfits) as L.
  rewrite Z2Nat.id in L by lia. apply L; [lia| |done]. unfold size in *. lia.
Qed.

Lemma line_fits pos n l : 0 <= pos -> 0 <= n -> substr buffer pos n = Ret l -> fits l.
Proof.
  intros ? ? Hl. apply substr_size in Hl; [|done..]. unfold fits in *. lia.
Qed.

Lemma parse_header_lines_returns fuel line_begin hs :
  0 <= line_begin -> header_end - line_begin < Z.of_nat fuel -> (0 < fuel)%nat ->
  returns (parse_header_lines fuel buffer header_end line_begin hs).
Proof.
  revert line_begin hs; induction fuel as [|fuel IH]; intros lb hs H0 Hm Hf; [lia|].
  cbn [parse_header_lines]. destruct (lb <? header_end) eqn:E; [|apply returns_Ret]. zbool.
  destruct (line_end_found lb ltac:(lia)) as [Hn Hle].
  case_if; [apply returns_Ret|]. case_if; [apply returns_Ret|]. zbool.
  apply returns_bind; [apply substr_returns; lia|]. intros l Hl.
  apply returns_bind; [apply parse_header_line_returns; eapply line_fits in Hl; [done|lia..]|].
  intros hs' _. apply IH; lia.
Qed.

Lemma parse_header_lines_app more fuel line_begin hs :
  0 <= line_begin ->
  parse_header_lines fuel (buffer ++ more) header_end line_begin hs
  = parse_header_lines fuel buffer header_end line_begin hs.
Proof.
  revert line_begin hs; induction fuel as [|fuel IH]; intros lb hs H0; [done|].
  cbn [parse_header_lines]. destruct (lb <? header_end) eqn:E; [|done]. zbool.
  destruct (line_end_found lb ltac:(lia)) as [Hn Hle].
  rewrite find_app by (done || lia). case_if; [done|]. case_if; [done|]. zbool.
  rewrite substr_app by lia.
  destruct (substr buffer lb _) as [l| | |] eqn:Hl; [|done..]. cbn [mbind outcome_bind].
  destruct (parse_header_line l hs); [|done..]. cbn [mbind outcome_bind].
  apply IH. lia.
Qed.
End header_loop.

(** ** The body *)

Lemma parse_body_returns buffer h m t v hs :
  0 <= h -> h + 4 <= size buffer -> returns (parse_body buffer h m t v hs).
Proof.
  intros. unfold parse_body. destruct (content_length hs); [|apply returns_Ret].
  case_if; [apply returns_Ret|]. rewrite substr_ok by lia. apply returns_Ret.
Qed.

Lemma content_length_range hs n : content_length hs = Some n -> 0 <= n < 2 ^ 64.
Proof.
  unfold content_length. destruct (hs !! _) as [v|]; [|intros [= <-]; lia].
  destruct (stoul v) eqn:E; [|done..]. intros [= <-]. by apply stoul_range in E.
Qed.

(** What a parsed request is made of, when its declared length does not reach
    the top of [size_t]. *)
Lemma parse_body_spec buffer h m t v hs p n :
  fits buffer -> 0 <= h -> h + 4 <= size buffer ->
  parse_body buffer h m t v hs = Ret (Some p) ->
  content_length hs = Some n -> n < 2 ^ 63 ->
  h + 4 + n <= size buffer /\ consumed p = h + 4 + n /\
  request p = mkRequest m t v hs (take (Z.to_nat n) (drop (Z.to_nat (h + 4)) buffer)).
Proof.
  unfold parse_body, fits. intros Hf Hh Hs Hp Hn Hlt. pose proof (content_length_range _ _ Hn).
  rewrite Hn, u64_small in Hp by lia. case_if_in Hp; [done|]. zbool.
  rewrite substr_ok, Z.min_l in Hp by lia. by injection Hp as <-.
Qed.

Lemma parse_body_app buffer more h m t v hs p n :
  fits (buffer ++ more) -> 0 <= h -> h + 4 <= size buffer ->
  parse_body buffer h m t v hs = Ret (Some p) ->
  content_length hs = Some n -> n < 2 ^ 63 ->
  parse_body (buffer ++ more) h m t v hs = Ret (Some p).
Proof.
  intros Hf Hh Hs Hp Hn Hlt. pose proof (fits_app_l _ _ Hf) as Hf'.
  pose proof (content_length_range _ _ Hn).
  destruct (parse_body_spec _ _ _ _ _ _ _ _ Hf' Hh Hs Hp Hn Hlt) as (Hle & _).
  unfold parse_body in *. rewrite Hn in *. pose proof (size_nonneg more).
  unfold fits in *. autorewrite with corio in *. rewrite u64_small in * by lia.
  rewrite (proj2 (Z.ltb_ge _ _)) in Hp by lia. rewrite (proj2 (Z.ltb_ge _ _)) by lia.
  by rewrite substr_app by lia.
Qed.

(** ** The whole parser *)

Lemma parse_head_returns buffer :
  fits buffer -> find header_terminator buffer 0 <> npos ->
  returns (parse_head buffer (find header_terminator buffer 0)).
Proof.
  intros Hf Hn. destruct (header_block_facts buffer Hf Hn) as (H0 & H4 & Hc & Hl & Hr).
  set (h := find header_terminator buffer 0) in *. unfold parse_head.
  case_if; [apply returns_Ret|]. zbool. set (l := find crlf _ 0) in *.
  rewrite substr_ok by (rewrite size_take; lia). cbn [mbind outcome_bind].
  set (line := take _ (drop _ _)). pose proof (size_nonneg line).
  step_token line 0. step_token line e. step_token line e0.
  case_if; [apply returns_Ret|].
  apply returns_bind; [|intros; apply returns_Ret].
  apply parse_header_lines_returns; try done; lia.
Qed.

Lemma parse_head_app buffer more :
  fits (buffer ++ more) -> find header_terminator buffer 0 <> npos ->
  parse_head (buffer ++ more) (find header_terminator buffer 0)
  = parse_head buffer (find header_terminator buffer 0).
Proof.
  intros Hf Hn. apply fits_app_l in Hf as Hf'.
  destruct (header_block_facts buffer Hf' Hn) as (H0 & H4 & Hc & Hl & Hr).
  set (h := find header_terminator buffer 0) in *. unfold parse_head.
  rewrite take_app_le by (unfold size in *; lia).
  case_if; [done|]. destruct (substr _ 0 _) as [line| | |]; [|done..]. cbn [mbind outcome_bind].
  repeat (match goal with |- context [next_token line ?p] => destruct (next_token line p) as [[? ?]| | |] end;
          [|done..]; cbn [mbind outcome_bind]).
  case_if; [done|]. rewrite parse_header_lines_app; [done|done|lia|done|lia].
Qed.

Lemma try_parse_request_returns buffer : fits buffer -> returns (try_parse_request buffer).
Proof.
  intros Hf. unfold try_parse_request. case_if; [apply returns_Ret|]. zbool.
  apply returns_bind; [by apply parse_head_returns|].
  intros [[[[m t] v] hs]|] _; [|apply returns_Ret].
  destruct (header_block_facts buffer Hf E) as (H0 & H4 & _). by apply parse_body_returns.
Qed.

(** Inversion of a successful parse. *)
Lemma try_parse_request_inv buffer p :
  fits buffer -> try_parse_request buffer = Ret (Some p) ->
  exists m t v hs,
    let h := find header_terminator buffer 0 in
    h <> npos /\ 0 <= h /\ h + 4 <= size buffer /\
    parse_head buffer h = Ret (Some (m, t, v, hs)) /\
    parse_body buffer h m t v hs = Ret (Some p) /\ headers (request p) = hs.
Proof.
  intros Hf. unfold try_parse_request. case_if; [done|]. zbool. intros H.
  inv_bind H. destruct a as [[[[m t] v] hs]|]; [|done]. exists m, t, v, hs. simpl.
  destruct (header_block_facts buffer Hf E) as (H0 & H4 & _).
  repeat split; [done..|]. unfold parse_body in H.
  destruct (content_length hs); [|done]. case_if_in H; [done|].
  inv_bind H. by injection H as <-.
Qed.

(** A request whose declared length is a length some string can have. *)
Definition small_length (p : ParsedRequest) : Prop :=
  exists n, content_length (headers (request p)) = Some n /\ n < 2 ^ 63.

Lemma try_parse_request_app buffer more p :
  fits (buffer ++ more) -> try_parse_request buffer = Ret (Some p) -> small_length p ->
  try_parse_request (buffer ++ more) = Ret (Some p).
Proof.
  intros Hf Hp (n & Hn & Hlt). apply fits_app_l in Hf as Hf'.
  destruct (try_parse_request_inv _ _ Hf' Hp) as (m & t & v & hs & Hh & H0 & H4 & Hhd & Hb & Hhs).
  unfold try_parse_request. rewrite find_app by (done || lia).
  rewrite (proj2 (Z.eqb_neq _ _) Hh), parse_head_app, Hhd by done. cbn [mbind outcome_bind].
  rewrite Hhs in Hn. by apply (parse_body_app _ _ _ _ _ _ _ _ n).
Qed.

Lemma try_parse_request_consumed buffer p :
  fits buffer -> try_parse_request buffer = Ret (Some p) -> small_length p ->
  exists pre rest, buffer = pre ++ body (request p) ++ rest /\
    header_terminator `suffix_of` pre /\ consumed p = size (pre ++ body (request p)) /\
    content_length (headers (request p)) = Some (size (body (request p))).
Proof.
  intros Hf Hp (n & Hn & Hlt).
  destruct (try_parse_request_inv _ _ Hf Hp) as (m & t & v & hs & Hh & H0 & H4 & Hhd & Hb & Hhs).
  set (h := find header_terminator buffer 0) in *.
  rewrite Hhs in Hn. pose proof (content_length_range _ _ Hn).
  destruct (parse_body_spec _ _ _ _ _ _ _ _ Hf H0 H4 Hb Hn Hlt) as (Hle & -> & ->).
  cbn [body headers]. set (b := drop (Z.to_nat (h + 4)) buffer).
  assert (Hsb : size b = size buffer - (h + 4)) by (unfold b, size in *; rewrite length_drop; lia).
  exists (take (Z.to_nat (h + 4)) buffer), (drop (Z.to_nat n) b).
  rewrite size_app, !size_take by lia. split_and!; [..|lia|done].
  - rewrite take_drop. unfold b. by rewrite take_drop.
  - destruct (find_prefix header_terminator buffer 0 ltac:(lia) Hh) as [k Hk]. fold h in Hk.
    exists (take (Z.to_nat h) buffer).
    replace (Z.to_nat (h + 4)) with (Z.to_nat h + 4)%nat by lia.
    by rewrite <- take_take_drop, Hk.
Qed.
