(* ===== verification/RequestSpec.v ===== *)
(** * RequestSpec: what [try_parse_request] promises

    A reference printer of HTTP requests and the properties of the parser:
    it is total, inverts the printer, does not depend on how the byte stream
    is cut, and what it does when a declared length wraps [size_t]. *)

From S2P Require Export HttpParser.

(** ** A reference printer *)

Definition request_line_of (m t v : bytes) : bytes := m ++ [SP] ++ t ++ [SP] ++ v.

Definition header_text (h : bytes * bytes) : bytes := h.1 ++ lit ": " ++ h.2.

(** Lines, each with its line end. *)
Definition lines_block (ls : list bytes) : bytes := concat ((fun l => l ++ crlf) <$> ls).

Definition render_request (m t v : bytes) (hs : list (bytes * bytes)) (b : bytes) : bytes :=
  lines_block (request_line_of m t v :: (header_text <$> hs)) ++ crlf ++ b.

(** The header map a list of printed headers stands for. *)
Definition add_header (acc : gmap bytes bytes) (h : bytes * bytes) : gmap bytes bytes :=
  emplace (to_lower (trim h.1)) (trim h.2) acc.

Definition header_map (hs : list (bytes * bytes)) : gmap bytes bytes :=
  fold_left add_header hs ∅.

Definition token (s : bytes) : Prop := s <> [] /\ (SP ∉ s) /\ (CR ∉ s).
Definition header_ok (h : bytes * bytes) : Prop := (CR ∉ h.1) /\ (CR ∉ h.2) /\ (":"%char ∉ h.1).

(** ** Lines *)

Lemma lines_block_cons l ls : lines_block (l :: ls) = l ++ crlf ++ lines_block ls.
Proof. unfold lines_block. simpl. by rewrite <- app_assoc. Qed.

Lemma lines_block_app ls ks : lines_block (ls ++ ks) = lines_block ls ++ lines_block ks.
Proof. unfold lines_block. by rewrite fmap_app, concat_app. Qed.

Lemma lines_block_length ls : (2 * length ls <= length (lines_block ls))%nat.
Proof.
  induction ls as [|l ls IH]; [done|]. rewrite lines_block_cons, !length_app. simpl. lia.
Qed.

(** The first blank line of a block of lines is at its end. *)
Lemma find_terminator ls rest :
  ls <> [] -> Forall (fun l => CR ∉ l) ls -> Forall (fun l => l <> []) (tail ls) ->
  find_sub header_terminator (lines_block ls ++ crlf ++ rest)
  = Some (length (lines_block ls) - 2)%nat.
Proof.
  induction ls as [|l ls IH]; [done|]. intros _ Hcr Hne. simpl in Hne.
  inversion Hcr as [|? ? Hl Hls]; subst. rewrite lines_block_cons, <- !app_assoc.
  unfold header_terminator. rewrite find_sub_skip by done. destruct ls as [|l' ls].
  - cbn [lines_block concat fmap list_fmap app].
    change (crlf ++ crlf ++ rest) with ([CR; LF; CR; LF] ++ rest).
    rewrite find_sub_here, !length_app. cbn. f_equal. clear; lia.
  - inversion Hne as [|? ? Hl' Hne']; subst. specialize (IH ltac:(done) Hls Hne').
    fold header_terminator.
    assert (Hstep : forall s, match s with c :: _ => c <> CR | [] => True end ->
      find_sub header_terminator (crlf ++ s) = Nat.add 2 <$> find_sub header_terminator s).
    { intros s Hs. cbn [crlf app find_sub header_terminator starts_with].
      destruct s as [|c s]; [done|]. rewrite (proj2 (Ascii.eqb_neq CR c)) by congruence.
      fold header_terminator. cbn [andb Ascii.eqb Bool.eqb].
      by destruct (find_sub header_terminator (c :: s)). }
    rewrite Hstep, IH.
    + pose proof (lines_block_length (l' :: ls)) as Hlb. cbn [length] in Hlb.
      cbn [fmap option_fmap option_map]. rewrite !length_app. cbn [length crlf]. f_equal. lia.
    + rewrite lines_block_cons. destruct l' as [|c l']; [done|]. cbn.
      intros ->. inversion Hls as [|? ? Hx _]. apply Hx. left.
Qed.

(** ** Tokens *)

Lemma next_token_app pre gap tok rest :
  Forall (fun c => c = SP) gap -> tok <> [] -> SP ∉ tok ->
  match rest with c :: _ => c = SP | [] => True end ->
  next_token (pre ++ gap ++ tok ++ rest) (size pre) = Ret (tok, size (pre ++ gap ++ tok)).
Proof.
  intros Hgap Hne Hsp Hr. unfold next_token. rewrite skip_while_at.
  - rewrite (app_assoc pre), skip_while_at.
    + replace (size ((pre ++ gap) ++ tok) - size (pre ++ gap)) with (size tok)
        by (rewrite (size_app (pre ++ gap) tok); lia).
      rewrite substr_middle. cbn [mbind outcome_bind]. by rewrite <- app_assoc.
    + apply Forall_forall. intros c Hc. apply negb_true_iff, Ascii.eqb_neq. by intros ->.
    + destruct rest; [done|by subst].
  - eapply Forall_impl; [exact Hgap|]. by intros c ->.
  - destruct tok as [|c tok]; [done|]. apply Ascii.eqb_neq. intros ->. apply Hsp. left.
Qed.

Lemma request_line_tokens m t v :
  token m -> token t -> token v ->
  let line := request_line_of m t v in
  exists e1 e2 e3, next_token line 0 = Ret (m, e1) /\ next_token line e1 = Ret (t, e2) /\
                   next_token line e2 = Ret (v, e3).
Proof.
  intros (Hm & Hm' & _) (Ht & Ht' & _) (Hv & Hv' & _) line. unfold line, request_line_of.
  eexists _, _, _. split_and!.
  - by apply (next_token_app [] [] m).
  - apply (next_token_app m [SP] t ([SP] ++ v)); [by repeat constructor|done..].
  - assert (Hl : m ++ [SP] ++ t ++ [SP] ++ v = (m ++ [SP] ++ t) ++ [SP] ++ v ++ [])
      by (by rewrite app_nil_r, <- !app_assoc).
    rewrite Hl. apply (next_token_app (m ++ [SP] ++ t) [SP] v []); [by repeat constructor|done..].
Qed.

(** ** Header lines *)

Lemma trim_space v : trim (SP :: v) = trim v.
Proof.
  destruct (trim_spec v) as (lead & post & Hv & Hl & Hp & Ht).
  rewrite Hv at 1. change (SP :: lead ++ trim v ++ post) with ((SP :: lead) ++ trim v ++ post).
  apply trim_pad; [by constructor|done..].
Qed.

Lemma parse_header_line_text h hs :
  header_ok h -> fits (header_text h) ->
  parse_header_line (header_text h) hs = Ret (add_header hs h).
Proof.
  intros (_ & _ & Hc) Hf. destruct h as [k v]. unfold parse_header_line, header_text in *.
  cbn [fst snd] in *.
  assert (Hcol : find_char ":" (k ++ lit ": " ++ v) 0 = size k).
  { change (lit ": " ++ v) with ([":"%char] ++ SP :: v).
    apply (find_at ":"%char [] [] k (SP :: v) Hc). }
  rewrite Hcol. pose proof (size_nonneg k).
  destruct (size k =? npos) eqn:E; zbool.
  - unfold fits, npos in *. autorewrite with corio in *. pose proof (size_nonneg v). 
    pose proof (size_nonneg (lit ": ")). lia.
  - cbn [negb]. change (lit ": " ++ v) with ([":"%char] ++ SP :: v).
    rewrite substr_prefix. cbn [mbind outcome_bind].
    rewrite app_assoc. replace (size k + 1) with (size (k ++ [":"%char])) by (by rewrite size_app).
    rewrite substr_suffix.
    + cbn [mbind outcome_bind]. unfold add_header. cbn [fst snd]. by rewrite trim_space.
    + unfold fits, npos in *. autorewrite with corio in *. pose proof (size_nonneg v).
      change (size (lit ": ")) with 2 in Hf. lia.
Qed.

Lemma header_text_no_CR h : header_ok h -> CR ∉ header_text h.
Proof.
  intros (H1 & H2 & _). unfold header_text. rewrite !not_elem_of_app.
  split_and!; [done| |done]. by apply (bool_decide_unpack _).
Qed.

Lemma parse_header_lines_block fuel pre hs post acc :
  Forall header_ok hs -> fits (pre ++ lines_block (header_text <$> hs)) ->
  (length hs < fuel)%nat ->
  let buffer := pre ++ lines_block (header_text <$> hs) ++ crlf ++ post in
  parse_header_lines fuel buffer (size (pre ++ lines_block (header_text <$> hs)) - 2)
    (size pre) acc
  = Ret (fold_left add_header hs acc).
Proof.
  revert pre fuel acc; induction hs as [|h hs IH]; intros pre fuel acc Hok Hf Hfuel buffer;
    (destruct fuel as [|fuel]; [simpl in Hfuel; lia|]); cbn [parse_header_lines].
  - cbn [fmap list_fmap lines_block concat]. rewrite app_nil_r.
    by rewrite (proj2 (Z.ltb_ge _ _)) by lia.
  - apply Forall_cons in Hok as [Hh Hhs]. unfold buffer. clear buffer.
    set (l := header_text h). set (ls := header_text <$> hs) in *.
    cbn [fmap list_fmap] in *. fold l ls in Hf |- *. rewrite lines_block_cons in *.
    assert (Hl : CR ∉ l) by (by apply header_text_no_CR).
    assert (Hlpos : 2 <= size l).
    { unfold l, header_text. autorewrite with corio.
      pose proof (size_nonneg h.1). pose proof (size_nonneg h.2).
      change (size (lit ": ")) with 2. lia. }
    rewrite <- !app_assoc. change (crlf ++ lines_block ls ++ crlf ++ post)
      with ((CR :: [LF]) ++ lines_block ls ++ crlf ++ post).
    fold crlf. rewrite (find_at CR [LF] pre l) by done. change (CR :: [LF]) with crlf.
    pose proof (size_nonneg pre). pose proof (size_nonneg (lines_block ls)).
    unfold fits in Hf. repeat rewrite size_app in *. change (size crlf) with 2 in *.
    rewrite (proj2 (Z.ltb_lt _ _)) by lia.
    rewrite (proj2 (Z.eqb_neq _ npos)), (proj2 (Z.ltb_ge _ _)) by (unfold npos; lia).
    cbn [orb]. rewrite (proj2 (Z.eqb_neq _ (size pre))) by lia.
    replace (size pre + size l - size pre) with (size l) by lia.
    rewrite substr_middle. cbn [mbind outcome_bind].
    assert (Hph : parse_header_line l acc = Ret (add_header acc h))
      by (apply parse_header_line_text; [done|fold l; unfold fits; lia]).
    rewrite Hph.
    cbn [mbind outcome_bind fold_left].
    specialize (IH (pre ++ l ++ crlf) fuel (add_header acc h) Hhs).
    rewrite <- !app_assoc in IH. repeat rewrite size_app in IH. change (size crlf) with 2 in IH.
    replace (size pre + size l + 2) with (size pre + (size l + 2)) by lia.
    apply IH; [|simpl in Hfuel; lia]. unfold fits. repeat rewrite size_app.
    change (size crlf) with 2. lia.
Qed.

(** ** The parser on a printed request *)

Section rendered.
Context (m t v : bytes) (hs : list (bytes * bytes)) (b rest : bytes).
Hypothesis Hm : token m.
Hypothesis Ht : token t.
Hypothesis Hv : token v.
Hypothesis Hhs : Forall header_ok hs.

Let line := request_line_of m t v.
Let block := lines_block (line :: (header_text <$> hs)).
Let buffer := block ++ crlf ++ b ++ rest.
Hypothesis Hfits : fits buffer.

Lemma line_no_CR : CR ∉ line.
Proof.
  destruct Hm as (_ & _ & ?), Ht as (_ & _ & ?), Hv as (_ & _ & ?).
  unfold line, request_line_of. rewrite !not_elem_of_app.
  split_and!; try done; by apply (bool_decide_unpack _).
Qed.

Lemma block_size : 2 * Z.of_nat (length hs) + size line + 2 <= size block.
Proof.
  unfold block. rewrite lines_block_cons. autorewrite with corio.
  pose proof (lines_block_length (header_text <$> hs)) as Hl. rewrite length_fmap in Hl.
  change (size crlf) with 2. unfold size. lia.
Qed.

Lemma rendered_header_end : find header_terminator buffer 0 = size block - 2.
Proof.
  pose proof block_size as Hb. pose proof (size_nonneg line).
  unfold find. rewrite (proj2 (Z.ltb_ge _ _)) by apply size_nonneg.
  change (drop (Z.to_nat 0) buffer) with buffer.
  unfold buffer, block. rewrite find_terminator; [fold block|done| |].
  - unfold size in *. lia.
  - constructor; [exact line_no_CR|]. rewrite Forall_fmap. eapply Forall_impl; [exact Hhs|].
    apply header_text_no_CR.
  - cbn [tail]. rewrite Forall_fmap. apply Forall_true. intros [[|] ?]; done.
Qed.

Lemma rendered_head :
  parse_head buffer (size block - 2) = Ret (Some (m, strip_query t, v, header_map hs)).
Proof.
  pose proof block_size as Hb. pose proof (size_nonneg line) as Hl0.
  assert (Hblock : block = line ++ crlf ++ lines_block (header_text <$> hs))
    by apply lines_block_cons.
  unfold parse_head. replace (size block - 2 + 2) with (size block) by lia.
  unfold buffer. rewrite take_size_app.
  assert (Hfl : find crlf block 0 = size line)
    by (rewrite Hblock; apply (find_at CR [LF] [] line), line_no_CR).
  rewrite Hfl, (proj2 (Z.eqb_neq _ _)).
  2: { pose proof (fits_app_l _ _ Hfits). unfold fits, npos in *. lia. }
  assert (Hline : substr block 0 (size line) = Ret line)
    by (rewrite Hblock; apply substr_prefix).
  rewrite Hline. cbn [mbind outcome_bind].
  destruct (request_line_tokens m t v Hm Ht Hv) as (e1 & e2 & e3 & He1 & He2 & He3).
  fold line in He1, He2, He3. rewrite He1. cbn [mbind outcome_bind].
  rewrite He2. cbn [mbind outcome_bind]. rewrite He3. cbn [mbind outcome_bind]. unfold bytes_eqb.
  rewrite !bool_decide_eq_false_2 by apply Hm || apply Ht || apply Hv. cbn [orb].
  pose proof (parse_header_lines_block (S (Z.to_nat (size block - 2))) (line ++ crlf) hs
                (b ++ rest) ∅ Hhs) as Hp.
  rewrite <- !app_assoc in Hp. rewrite <- Hblock in Hp.
  rewrite size_app in Hp. change (size crlf) with 2 in Hp.
  rewrite Hblock, <- !app_assoc, <- Hblock. rewrite Hp; [done|..|lia].
  by apply fits_app_l in Hfits.
Qed.

Lemma rendered_body :
  content_length (header_map hs) = Some (size b) ->
  parse_body buffer (size block - 2) m (strip_query t) v (header_map hs)
  = Ret (Some (mkParsed (mkRequest m (strip_query t) v (header_map hs) b)
                 (size (block ++ crlf ++ b)))).
Proof.
  intros Hcl. unfold parse_body. rewrite Hcl.
  assert (Hbuf : buffer = (block ++ crlf) ++ b ++ rest) by (unfold buffer; by rewrite <- app_assoc).
  replace (size block - 2 + 4) with (size (block ++ crlf))
    by (rewrite size_app; change (size crlf) with 2; lia).
  rewrite Hbuf in *. rewrite (app_assoc block). set (bc := block ++ crlf) in *.
  pose proof (size_nonneg bc). pose proof (size_nonneg b). pose proof (size_nonneg rest).
  assert (Hsz : size (bc ++ b ++ rest) = size bc + size b + size rest)
    by (rewrite !size_app; lia).
  unfold fits in Hfits. rewrite u64_small by lia.
  rewrite (proj2 (Z.ltb_ge _ _)), substr_middle by lia.
  cbn [mbind outcome_bind]. by rewrite (size_app bc).
Qed.

Lemma try_parse_rendered :
  content_length (header_map hs) = Some (size b) ->
  try_parse_request (render_request m t v hs b ++ rest)
  = Ret (Some (mkParsed (mkRequest m (strip_query t) v (header_map hs) b)
                 (size (render_request m t v hs b)))).
Proof.
  intros Hcl. unfold render_request. fold line block. rewrite <- !app_assoc. fold buffer.
  unfold try_parse_request. rewrite rendered_header_end, rendered_head.
  cbn [mbind outcome_bind]. rewrite rendered_body by done.
  pose proof (fits_app_l _ _ Hfits) as Hf. unfold fits, npos in *.
  by rewrite (proj2 (Z.eqb_neq _ _)) by lia.
Qed.
End rendered.

(** ** A declared length that wraps [size_t] *)

Section wrapping.
Context (m t v : bytes) (hs : list (bytes * bytes)) (rest : bytes).
Hypothesis Hm : token m.
Hypothesis Ht : token t.
Hypothesis Hv : token v.
Hypothesis Hhs : Forall header_ok hs.

Lemma try_parse_wrapping n :
  let head := render_request m t v hs [] in
  fits (head ++ rest) ->
  content_length (header_map hs) = Some n -> 2 ^ 64 <= size head + n ->
  size head + n <= 2 ^ 64 + size head + size rest ->
  try_parse_request (head ++ rest)
  = Ret (Some (mkParsed (mkRequest m (strip_query t) v (header_map hs) rest)
                 (size head + n - 2 ^ 64))).
Proof.
  intros head Hf Hcl Hlo Hhi.
  assert (Hhead : head ++ rest
    = lines_block (request_line_of m t v :: (header_text <$> hs)) ++ crlf ++ [] ++ rest)
    by (unfold head, render_request; by rewrite app_nil_r, <- app_assoc).
  rewrite Hhead in Hf |- *. unfold try_parse_request.
  rewrite rendered_header_end, rendered_head by assumption. cbn [mbind outcome_bind].
  rewrite <- Hhead. rewrite <- Hhead in Hf.
  assert (Hsz : size (lines_block (request_line_of m t v :: (header_text <$> hs))) - 2 + 4
                = size head)
    by (unfold head, render_request; rewrite app_nil_r, size_app; change (size crlf) with 2; lia).
  pose proof (content_length_range _ _ Hcl) as Hn.
  unfold fits, npos in *. rewrite size_app in Hf.
  pose proof (size_nonneg rest). pose proof (size_nonneg head).
  rewrite (proj2 (Z.eqb_neq _ _)) by lia. unfold parse_body. rewrite Hcl, Hsz.
  assert (Hu : u64 (size head + n) = size head + n - 2 ^ 64)
    by (unfold u64; rewrite <- (Z.mod_small (size head + n - 2 ^ 64) (2 ^ 64)) by lia;
        rewrite <- (Z.mod_add (size head + n - 2 ^ 64) 1) by lia; f_equal; lia).
  rewrite Hu, size_app, (proj2 (Z.ltb_ge _ _)), substr_suffix by lia. done.
Qed.
End wrapping.

(** ** A malformed request line is never rejected *)

Lemma next_token_end line : next_token line (size line) = Ret ([], size line).
Proof.
  unfold next_token, skip_while, size. rewrite Nat2Z.id, drop_all. cbn [count_while].
  rewrite Z.add_0_r, Nat2Z.id, drop_all. cbn [count_while]. rewrite Z.add_0_r.
  rewrite substr_ok by (unfold size; lia). rewrite Nat2Z.id, drop_all.
  by rewrite take_nil.
Qed.

Lemma parse_head_two_tokens m t rest :
  token m -> token t -> fits (m ++ [SP] ++ t) ->
  parse_head ((m ++ [SP] ++ t) ++ crlf ++ rest) (size (m ++ [SP] ++ t)) = Ret None.
Proof.
  intros (Hm & Hm' & Hm'') (Ht & Ht' & Ht'') Hf. set (line := m ++ [SP] ++ t) in *.
  assert (Hcr : CR ∉ line).
  { unfold line. rewrite !not_elem_of_app. split_and!; [done| |done].
    by apply (bool_decide_unpack _). }
  unfold parse_head. rewrite (app_assoc line).
  replace (size line + 2) with (size (line ++ crlf)) by (by rewrite size_app).
  rewrite take_size_app.
  assert (Hfl : find crlf (line ++ crlf) 0 = size line) by apply (find_at CR [LF] [] line []), Hcr.
  rewrite Hfl. unfold fits, npos in *. rewrite (proj2 (Z.eqb_neq _ _)) by lia.
  rewrite substr_prefix. cbn [mbind outcome_bind].
  assert (Hl1 : next_token line 0 = Ret (m, size m)) by (by apply (next_token_app [] [] m)).
  rewrite Hl1. cbn [mbind outcome_bind].
  assert (Hl2 : next_token line (size m) = Ret (t, size line)).
  { unfold line. rewrite <- (app_nil_r t) at 1.
    rewrite (next_token_app m [SP] t []); [done|by repeat constructor|done..]. }
  rewrite Hl2. cbn [mbind outcome_bind]. rewrite next_token_end. cbn [mbind outcome_bind].
  unfold bytes_eqb. by rewrite (bool_decide_eq_true_2 ([] = [])), orb_true_r by done.
Qed.

(** * Properties *)

(** C3: round trip. Parsing a printed request followed by any other bytes
    gives back the method, the target without its query, the version, the
    headers (names trimmed and lower-cased, values trimmed, the first of two
    equal names kept) and the body, and consumes exactly the printed request. *)
Theorem try_parse_request_roundtrip m t v hs b rest :
  token m -> token t -> token v -> Forall header_ok hs ->
  fits (render_request m t v hs b ++ rest) ->
  content_length (header_map hs) = Some (size b) ->
  try_parse_request (render_request m t v hs b ++ rest)
  = Ret (Some (mkParsed (mkRequest m (strip_query t) v (header_map hs) b)
                 (size (render_request m t v hs b)))).
Proof.
  intros. apply try_parse_rendered; try assumption.
  unfold render_request in *. by rewrite <- !app_assoc in *.
Qed.

Ltac solve_token := split_and!; [done|by apply (bool_decide_unpack _)..].

Lemma try_parse_request_roundtrip_witness :
  try_parse_request
    (render_request (lit "POST") (lit "/a?q") (lit "HTTP/1.1")
       [(lit "Content-Length", lit "2")] (lit "ok") ++ lit "GET")
  = Ret (Some (mkParsed
      (mkRequest (lit "POST") (strip_query (lit "/a?q")) (lit "HTTP/1.1")
         (header_map [(lit "Content-Length", lit "2")]) (lit "ok"))
      (size (render_request (lit "POST") (lit "/a?q") (lit "HTTP/1.1")
         [(lit "Content-Length", lit "2")] (lit "ok"))))).
Proof.
  apply (try_parse_request_roundtrip (lit "POST") (lit "/a?q") (lit "HTTP/1.1")
           [(lit "Content-Length", lit "2")] (lit "ok") (lit "GET"));
    [solve_token..| |vm_compute; reflexivity|vm_compute; reflexivity].
  repeat constructor; by apply (bool_decide_unpack _).
Defined.

(** C37: totality. On every buffer a C++ string can hold, [try_parse_request]
    returns: no [substr] is out of range (no exception escapes) and the header
    loop ends within its fuel. *)
Theorem try_parse_request_total buffer :
  fits buffer -> exists r, try_parse_request buffer = Ret r.
Proof. exact (try_parse_request_returns buffer). Qed.

Lemma try_parse_request_total_witness :
  fits (lit "GET /") /\ exists r, try_parse_request (lit "GET /") = Ret r.
Proof. split; [vm_compute; reflexivity|]. apply try_parse_request_total. vm_compute. reflexivity. Defined.

(** Segmentation independence. Once a request is recognised, more bytes
    from the peer do not change it, as long as the declared body length is
    below 2^63. *)
Theorem try_parse_request_stable buffer more p :
  fits (buffer ++ more) -> try_parse_request buffer = Ret (Some p) -> small_length p ->
  try_parse_request (buffer ++ more) = try_parse_request buffer.
Proof. intros Hf Hp Hs. rewrite Hp. by apply try_parse_request_app. Qed.

Definition witness_parsed : ParsedRequest :=
  mkParsed (mkRequest (lit "GET") (lit "/") (lit "HTTP/1.1") ∅ []) 18.
Definition witness_buffer : bytes := lit "GET / HTTP/1.1" ++ crlf ++ crlf.

Lemma witness_small : small_length witness_parsed.
Proof. exists 0. split; [vm_compute; reflexivity|lia]. Qed.

Lemma try_parse_request_stable_witness :
  try_parse_request (witness_buffer ++ lit "xyz") = try_parse_request witness_buffer.
Proof.
  apply (try_parse_request_stable witness_buffer (lit "xyz") witness_parsed);
    [vm_compute; reflexivity|vm_compute; reflexivity|exact witness_small].
Defined.

(** what is consumed. A recognised request ends a prefix of the buffer
    that is a header block closed by an empty line followed by the body, the
    body has exactly the declared length, and [consumed] is the size of that
    prefix (so it is positive and inside the buffer). *)
Theorem try_parse_request_consumes buffer p :
  fits buffer -> try_parse_request buffer = Ret (Some p) -> small_length p ->
  exists pre rest, buffer = pre ++ body (request p) ++ rest /\
    header_terminator `suffix_of` pre /\ consumed p = size (pre ++ body (request p)) /\
    content_length (headers (request p)) = Some (size (body (request p))).
Proof. apply try_parse_request_consumed. Qed.

Lemma try_parse_request_consumes_witness :
  exists pre rest, witness_buffer = pre ++ [] ++ rest /\
    header_terminator `suffix_of` pre /\ consumed witness_parsed = size (pre ++ []) /\
    content_length ∅ = Some 0.
Proof.
  apply (try_parse_request_consumes witness_buffer witness_parsed);
    [vm_compute; reflexivity|vm_compute; reflexivity|exact witness_small].
Defined.

(** The length check wraps. When the declared length makes [body_begin +
    body_length] wrap exactly to zero, the request is accepted with whatever
    follows as its body and [consumed] is 0, so nothing is removed from the
    connection's buffer. *)
Theorem content_length_wraps_to_zero m t v hs rest :
  let head := render_request m t v hs [] in
  token m -> token t -> token v -> Forall header_ok hs -> fits (head ++ rest) ->
  content_length (header_map hs) = Some (2 ^ 64 - size head) ->
  try_parse_request (head ++ rest)
  = Ret (Some (mkParsed (mkRequest m (strip_query t) v (header_map hs) rest) 0)).
Proof.
  intros head Hm Ht Hv Hhs Hf Hcl. pose proof (size_nonneg rest). pose proof (size_nonneg head).
  pose proof (try_parse_wrapping m t v hs rest Hm Ht Hv Hhs _ Hf Hcl) as Hp.
  fold head in Hp. rewrite Hp by lia.
  by replace (size head + (2 ^ 64 - size head) - 2 ^ 64) with 0 by lia.
Qed.

(** [Content-Length: -39], which [std::stoul] reads as 2^64 - 39. *)
Definition wrap_headers : list (bytes * bytes) := [(lit "Content-Length", lit "-39")].

Lemma content_length_wraps_to_zero_witness :
  try_parse_request (render_request (lit "GET") (lit "/") (lit "HTTP/1.1") wrap_headers [] ++ lit "x")
  = Ret (Some (mkParsed (mkRequest (lit "GET") (strip_query (lit "/")) (lit "HTTP/1.1")
                           (header_map wrap_headers) (lit "x")) 0)).
Proof.
  apply (content_length_wraps_to_zero (lit "GET") (lit "/") (lit "HTTP/1.1") wrap_headers (lit "x"));
    [solve_token..| |vm_compute; reflexivity|vm_compute; reflexivity].
  repeat constructor; by apply (bool_decide_unpack _).
Defined.

(** malformed requests are not rejected. A request line of two tokens (no
    version), although its header block is complete, is reported as an
    incomplete request whatever the peer sends next. *)
Theorem malformed_request_never_rejected m t more :
  token m -> token t -> fits ((m ++ [SP] ++ t) ++ crlf ++ crlf ++ more) ->
  try_parse_request ((m ++ [SP] ++ t) ++ crlf ++ crlf ++ more) = Ret None.
Proof.
  intros Hm Ht Hf. unfold try_parse_request.
  assert (Hend : find header_terminator ((m ++ [SP] ++ t) ++ crlf ++ crlf ++ more) 0
                 = size (m ++ [SP] ++ t)).
  { apply (find_at CR [LF; CR; LF] [] (m ++ [SP] ++ t) more).
    rewrite !not_elem_of_app. split_and!; [apply Hm| |apply Ht].
    by apply (bool_decide_unpack _). }
  apply fits_app_l in Hf as Hf'. rewrite Hend. unfold fits, npos in *.
  rewrite (proj2 (Z.eqb_neq _ _)), parse_head_two_tokens by (done || lia). done.
Qed.

Lemma malformed_request_never_rejected_witness :
  try_parse_request ((lit "GET" ++ [SP] ++ lit "/") ++ crlf ++ crlf ++ lit "more") = Ret None.
Proof.
  apply malformed_request_never_rejected; [solve_token..|vm_compute; reflexivity].
Defined.
