(* ===== verification/HttpServer.v ===== *)
(** * HttpServer: responses of coroutineWebServer/HttpServer.cpp

    [resolve_path], [load_file], [build_response], [detect_docroot] and the
    constructor's normalisation of the configuration.  The operating system's
    files are a parameter [FileSystem]: what [fs::exists], [::open], [::fstat],
    [::mmap] and [std::ifstream] answer. *)

From S2P Require Export RequestSpec.

(** An open regular or special file: [fstat]'s [S_ISREG] and [st_size] ([None]
    when [fstat] fails), and the bytes [mmap] maps for a length ([None] for
    [MAP_FAILED]). *)
Record OpenFile := mkOpenFile {
  of_fstat : option (bool * Z);
  of_mmap : Z -> option bytes
}.

Record FileSystem := mkFileSystem {
  fs_exists : bytes -> bool;
  fs_open : bytes -> option OpenFile;
  fs_ifstream : bytes -> option bytes
}.

(** [std::string::c_str()] as a C function reads it: up to the first NUL. *)
Definition c_str (s : bytes) : bytes :=
  take (count_while (fun c => negb (Ascii.eqb c NUL)) s) s.

Definition load_file (fs : FileSystem) (path : bytes) : option bytes :=
  match fs_open fs (c_str path) with
  | None => None
  | Some file =>
      match of_fstat file with
      | None => None
      | Some (isreg, st_size) =>
          if negb isreg then None
          else if st_size =? 0 then Some []
          else match of_mmap file st_size with
               | None => fs_ifstream fs path
               | Some mapped => Some mapped
               end
      end
  end.

Definition resolve_path (fs : FileSystem) (docroot target : bytes) : bytes :=
  let target := strip_query target in
  let target :=
    if bytes_eqb target [] || bytes_eqb target (lit "/") then lit "/index.html" else target in
  if bytes_eqb target (lit "/hello") then []
  else if bytes_eqb target (lit "/favicon.ico") then
    let candidate_png := path_append (path_append docroot (lit "datum")) (lit "WebServer.png") in
    if fs_exists fs candidate_png then candidate_png
    else
      let candidate_ico := path_append docroot (lit "favicon.ico") in
      if fs_exists fs candidate_ico then candidate_ico else candidate_png
  else
    let target := if starts_with [slash] target then drop 1 target else target in
    let relative := lexically_normal target in
    if negb (path_is_safe relative) then [] else path_append docroot relative.

Definition fallback_favicon : bytes := lit "favicon".

Definition text_plain : bytes * bytes := (lit "Content-Type", lit "text/plain; charset=utf-8").

(** [response] with its body, one more header and [head_only] set: what every
    branch of [build_response] ends with. *)
Definition finish_response (request : HttpRequest) (status : Z) (reason : bytes)
    (hs : list (bytes * bytes)) (content_type : bytes * bytes) (b : bytes) : HttpResponse :=
  mkResponse status reason (hs ++ [content_type]) b (is_head request).

Definition build_response (fs : FileSystem) (docroot : bytes) (request : HttpRequest)
    : outcome HttpResponse :=
  let hs := [(lit "Server", lit "CoroutineWebServer");
             (lit "Connection", if keep_alive request then lit "keep-alive" else lit "close")] in
  if is_post request then
    Ret (finish_response request 200 (lit "OK") hs text_plain (body request))
  else if bytes_eqb (target request) (lit "/hello") then
    Ret (finish_response request 200 (lit "OK") hs text_plain
           (lit "Hello from CoroutineWebServer" ++ [LF]))
  else
    let resolved := resolve_path fs docroot (target request) in
    if bytes_eqb resolved [] && negb (bytes_eqb (target request) (lit "/hello")) then
      Ret (finish_response request 400 (lit "Bad Request") hs text_plain
             (lit "Bad Request" ++ [LF]))
    else if negb (bytes_eqb resolved []) then
      match load_file fs resolved with
      | None =>
          if bytes_eqb (target request) (lit "/favicon.ico") then
            Ret (finish_response request 200 (lit "OK") hs text_plain fallback_favicon)
          else
            Ret (finish_response request 404 (lit "Not Found") hs text_plain
                   (lit "Not Found" ++ [LF]))
      | Some b =>
          mime ← mime_type_for resolved;
          Ret (finish_response request 200 (lit "OK") hs (lit "Content-Type", mime) b)
      end
    else Ret (finish_response request 200 (lit "OK") hs text_plain fallback_favicon).

(** [path::parent_path] and [path::has_parent_path]. *)
Fixpoint drop_slashes (s : bytes) : bytes :=
  match s with
  | c :: s' => if Ascii.eqb c slash then drop_slashes s' else s
  | [] => []
  end.

Definition parent_path (p : bytes) : bytes :=
  if bool_decide (path_names p = []) then p
  else match last_index slash p with
       | None => []
       | Some i =>
           let q := rev (drop_slashes (rev (take i p))) in
           if bytes_eqb q [] then [slash] else q
       end.

Definition has_parent_path (p : bytes) : bool := negb (bytes_eqb (parent_path p) []).

(** The loop of [detect_docroot] over at most [n] directories. *)
Fixpoint probe_docroot (n : nat) (fs : FileSystem) (current probe : bytes) : bytes :=
  match n with
  | O => current
  | S n' =>
      if fs_exists fs (path_append (path_append probe (lit "datum")) (lit "WebServer.png"))
      then probe
      else if negb (has_parent_path probe) then current
      else probe_docroot n' fs current (parent_path probe)
  end.

(** [detect_docroot]; [current] is [fs::current_path(ec)] ([None] when [ec] is
    set) and [retry] the outcome of the second, throwing call. *)
Definition detect_docroot (fs : FileSystem) (current : option bytes) (retry : outcome bytes)
    (configured : bytes) : outcome bytes :=
  if negb (bytes_eqb configured []) then Ret configured
  else match current with
       | None => retry
       | Some cur => Ret (probe_docroot 4 fs cur cur)
       end.

(** The constructor's correction of [worker_count]. *)
Definition normal_worker_count (worker_count : Z) : Z :=
  if worker_count =? 0 then 1 else worker_count.

(** * Lemmas *)

(** ** File names of a path *)

Lemma split_slash_app cur a b :
  split_slash cur (a ++ slash :: b) = split_slash cur a ++ split_slash [] b.
Proof.
  revert cur; induction a as [|c a IH]; intros cur; cbn [app split_slash].
  - by rewrite Ascii.eqb_refl.
  - case_if; [by rewrite IH|]. by rewrite IH.
Qed.

Lemma path_names_app a b : path_names (a ++ slash :: b) = path_names a ++ path_names b.
Proof. unfold path_names. by rewrite split_slash_app, filter_app. Qed.

Lemma ends_with_slash_inv a : ends_with_slash a = true -> exists a', a = a' ++ [slash].
Proof.
  unfold ends_with_slash. destruct (list.last a) as [c|] eqn:E; [|done].
  intros ->%Ascii.eqb_eq. apply last_Some in E as [a' ->]. by exists a'.
Qed.

Lemma path_append_names a b :
  a <> [] -> is_absolute b = false -> path_names (path_append a b) = path_names a ++ path_names b.
Proof.
  intros Ha Hb. unfold path_append, bytes_eqb. rewrite Hb, bool_decide_eq_false_2 by done.
  cbn [orb]. destruct (ends_with_slash a) eqn:E; [|apply path_names_app].
  apply ends_with_slash_inv in E as [a' ->]. rewrite <- app_assoc. cbn [app].
  rewrite (path_names_app a' b), (path_names_app a' []), <- app_assoc. done.
Qed.

(** A file name is a nonempty string without a slash. *)
Definition file_name (n : bytes) : Prop := n <> [] /\ (slash ∉ n).

Lemma path_names_file_names p : Forall file_name (path_names p).
Proof.
  unfold path_names.
  cut (forall cur, slash ∉ cur -> Forall (fun n => slash ∉ n) (split_slash cur p)).
  { intros H. specialize (H [] ltac:(apply not_elem_of_nil)). apply Forall_forall.
    intros n [Hn Hin]%list_elem_of_filter. split; [done|].
    by eapply (proj1 (Forall_forall _ _) H). }
  induction p as [|c p IH]; intros cur Hcur; cbn [split_slash]; [by repeat constructor|].
  case_if.
  - constructor; [done|]. apply IH, not_elem_of_nil.
  - apply IH. rewrite not_elem_of_app. split; [done|].
    intros Hx%list_elem_of_singleton. by rewrite <- Hx, Ascii.eqb_refl in E.
Qed.

Lemma normal_names_Forall (P : bytes -> Prop) p :
  Forall P (path_names p) -> Forall P (normal_names p).
Proof.
  intros H. unfold normal_names. apply Forall_rev.
  cut (forall st, Forall P st -> Forall P (fold_left (normal_step (is_absolute p)) (path_names p) st));
    [intros Hc; by apply Hc|].
  induction H as [|n ns Hn _ IH]; intros st Hst; cbn [fold_left]; [done|].
  apply IH. unfold normal_step.
  case_if; [done|]. case_if; [|by constructor]. destruct st as [|top st].
  - case_if; by repeat constructor.
  - case_if; [by constructor|]. by inversion Hst.
Qed.

Lemma join_slash_head n ns :
  file_name n -> starts_with [slash] (join_slash (n :: ns)) = false.
Proof.
  intros [Hne Hs]. destruct n as [|c n]; [done|].
  assert (Ascii.eqb slash c = false) as Hc
    by (apply Ascii.eqb_neq; intros Hx; apply Hs; rewrite Hx; left).
  destruct ns; cbn [join_slash app starts_with]; by rewrite Hc.
Qed.

Lemma starts_with_app_false c s t :
  s <> [] -> starts_with [c] s = false -> starts_with [c] (s ++ t) = false.
Proof. by destruct s. Qed.

Lemma join_slash_nonempty n ns : n <> [] -> join_slash (n :: ns) <> [].
Proof. destruct n, ns; done. Qed.

(** The normal form of a relative path is relative. *)
Lemma lexically_normal_relative p :
  is_absolute p = false -> is_absolute (lexically_normal p) = false.
Proof.
  intros Hp. unfold lexically_normal. case_if; [done|].
  destruct (normal_names p) as [|n ns] eqn:En; rewrite Hp; [done|].
  pose proof (normal_names_Forall _ p (path_names_file_names p)) as Hf.
  rewrite En in Hf. inversion Hf as [|? ? Hn Hns]; subst.
  unfold is_absolute. cbn [app]. apply starts_with_app_false; [by apply join_slash_nonempty, Hn|].
  by apply join_slash_head.
Qed.

Lemma path_is_safe_names p : path_is_safe p = true -> dotdot_name ∉ path_names p.
Proof.
  unfold path_is_safe. rewrite forallb_forall. intros H Hin.
  specialize (H dotdot_name). rewrite negb_true_iff in H.
  assert (bytes_eqb dotdot_name dotdot_name = false) as Hx; [|done].
  apply H. apply list_elem_of_In. unfold path_parts. rewrite !elem_of_app. auto.
Qed.

(** ** Clean absolute paths *)

(** A file name other than [.] and [..]. *)
Definition plain_name (n : bytes) : Prop :=
  file_name n /\ n <> dot_name /\ n <> dotdot_name.

Lemma split_slash_plain cur n : slash ∉ n -> split_slash cur n = [cur ++ n].
Proof.
  revert cur; induction n as [|c n IH]; intros cur Hs; cbn [split_slash].
  - by rewrite app_nil_r.
  - apply not_elem_of_cons in Hs as [Hc Hs]. rewrite (proj2 (Ascii.eqb_neq c slash)) by congruence.
    rewrite IH by done. by rewrite <- app_assoc.
Qed.

Lemma path_names_join ns : Forall file_name ns -> path_names (join_slash ns) = ns.
Proof.
  assert (Hone : forall n, file_name n -> path_names n = [n]).
  { intros n [Hne Hs]. unfold path_names. rewrite split_slash_plain by done.
    cbn [app]. by rewrite filter_cons_True. }
  induction 1 as [|n ns Hn Hns IH]; [done|].
  destruct ns as [|n' ns]; [by apply Hone|].
  change (join_slash (n :: n' :: ns)) with (n ++ slash :: join_slash (n' :: ns)).
  by rewrite path_names_app, IH, Hone.
Qed.

Lemma normal_step_plain abs ns st :
  Forall plain_name ns -> fold_left (normal_step abs) ns st = rev ns ++ st.
Proof.
  intros H. revert st. induction H as [|n ns (_ & Hd & Hdd) _ IH]; intros st; [done|].
  cbn [fold_left rev]. rewrite IH. unfold normal_step, bytes_eqb.
  rewrite !bool_decide_eq_false_2 by done. by rewrite <- app_assoc.
Qed.

Lemma join_slash_last ns n :
  exists pre, join_slash (ns ++ [n]) = pre ++ n.
Proof.
  induction ns as [|m ns [pre IH]]; [by exists []|].
  exists (m ++ [slash] ++ pre). destruct ns as [|m' ns]; cbn [app join_slash] in *.
  - rewrite <- app_assoc. cbn [app]. by rewrite <- IH.
  - rewrite IH, <- app_assoc. cbn [app]. done.
Qed.

Section clean_path.
Context (ns : list bytes) (n : bytes).
Hypothesis Hns : Forall plain_name (ns ++ [n]).

Let q := slash :: join_slash (ns ++ [n]).

Lemma clean_file_names : Forall file_name (ns ++ [n]).
Proof. eapply Forall_impl; [exact Hns|]. by intros m []. Qed.

Lemma clean_names : path_names q = ns ++ [n].
Proof.
  rewrite <- (path_names_join (ns ++ [n])) by apply clean_file_names.
  exact (path_names_app [] (join_slash (ns ++ [n]))).
Qed.

Lemma clean_last_name : plain_name n.
Proof. apply Forall_app in Hns as [_ H]. by inversion H. Qed.

Lemma clean_no_slash_end : ends_with_slash q = false.
Proof.
  unfold q, ends_with_slash. destruct (join_slash_last ns n) as [pre ->].
  destruct clean_last_name as [[Hne Hs] _].
  destruct (exists_last (l := n)) as (n' & c & ->); [done|].
  rewrite app_comm_cons, app_assoc, last_snoc. apply Ascii.eqb_neq. intros ->.
  apply Hs. rewrite elem_of_app. right. left.
Qed.

Lemma last_is_false m (l : list bytes) k : k <> m -> last_is m (l ++ [k]) = false.
Proof. intros H. unfold last_is, bytes_eqb. by rewrite last_snoc, bool_decide_eq_false_2. Qed.

(** A clean absolute path is its own normal form. *)
Lemma clean_normal : lexically_normal q = q.
Proof.
  destruct clean_last_name as (_ & Hd & Hdd).
  assert (Hnn : normal_names q = ns ++ [n]).
  { unfold normal_names. rewrite clean_names, normal_step_plain, app_nil_r by done.
    apply rev_involutive. }
  unfold lexically_normal. rewrite Hnn, clean_names, clean_no_slash_end.
  rewrite !last_is_false by done. cbn [orb andb].
  destruct (ns ++ [n]) as [|m ms] eqn:E; [by destruct ns|]. unfold q.
  by rewrite app_nil_r.
Qed.

Lemma clean_is_safe : path_is_safe q = true.
Proof.
  unfold path_is_safe, path_parts. rewrite clean_names, clean_no_slash_end. cbn [andb].
  rewrite app_nil_r, forallb_app. apply andb_true_iff; split; [done|].
  apply forallb_forall. intros m Hm%list_elem_of_In.
  destruct (proj1 (Forall_forall _ _) Hns m Hm) as (_ & _ & Hdd).
  unfold bytes_eqb. by rewrite bool_decide_eq_false_2.
Qed.
End clean_path.

(** ** [resolve_path] *)

(** [p] lies below [docroot]: its names are those of [docroot] followed by
    names none of which is [..]. *)
Definition inside (docroot p : bytes) : Prop :=
  exists ns, path_names p = path_names docroot ++ ns /\ (dotdot_name ∉ ns).

Lemma path_append_inside docroot rel :
  docroot <> [] -> is_absolute rel = false -> dotdot_name ∉ path_names rel ->
  inside docroot (path_append docroot rel).
Proof. intros Hd Hr Hs. exists (path_names rel). by rewrite path_append_names. Qed.

Lemma inside_append docroot p rel :
  p <> [] -> inside docroot p -> is_absolute rel = false -> dotdot_name ∉ path_names rel ->
  inside docroot (path_append p rel).
Proof.
  intros Hp (ns & Hns & Hdd) Hr Hs. exists (ns ++ path_names rel). split.
  - by rewrite path_append_names, Hns, <- app_assoc by done.
  - by rewrite not_elem_of_app.
Qed.

Lemma path_append_nonempty a b : a <> [] -> path_append a b <> [].
Proof.
  intros Ha. unfold path_append, bytes_eqb. rewrite (bool_decide_eq_false_2 _ Ha), orb_false_r.
  case_if; [by destruct b|]. by case_if; destruct a.
Qed.

Lemma single_slash_drop target :
  starts_with (lit "//") target = false ->
  is_absolute (if starts_with [slash] target then drop 1 target else target) = false.
Proof.
  change (lit "//") with [slash; slash]. intros H. case_if; [|done].
  destruct target as [|c [|d t]]; [done..|]. unfold is_absolute.
  cbn [starts_with drop] in *. rewrite andb_true_r in *. by rewrite E in H.
Qed.

Lemma resolve_path_inside fs docroot target :
  docroot <> [] -> starts_with (lit "//") (strip_query target) = false ->
  resolve_path fs docroot target = [] \/ inside docroot (resolve_path fs docroot target).
Proof.
  intros Hd Ht. unfold resolve_path.
  set (t := if _ || _ then lit "/index.html" else strip_query target).
  assert (Ht' : starts_with (lit "//") t = false) by (unfold t; by case_if).
  case_if; [by left|]. case_if.
  - right. assert (Hdatum : inside docroot (path_append docroot (lit "datum")))
      by (apply path_append_inside; [done..|]; by apply (bool_decide_unpack _)).
    assert (Hpng : inside docroot
      (path_append (path_append docroot (lit "datum")) (lit "WebServer.png"))).
    { apply inside_append; [by apply path_append_nonempty|done..|].
      by apply (bool_decide_unpack _). }
    case_if; [done|]. case_if; [|done].
    apply path_append_inside; [done..|]. by apply (bool_decide_unpack _).
  - set (u := if starts_with [slash] t then drop 1 t else t).
    case_if; [by left|]. right. zbool.
    apply path_append_inside; [done| |by apply path_is_safe_names].
    by apply lexically_normal_relative, single_slash_drop.
Qed.

(** ** [mime_type_for] *)

Lemma last_index_lt c s i : last_index c s = Some i -> (i < length s)%nat.
Proof.
  revert i; induction s as [|d s IH]; intros i; simpl; [done|].
  destruct (last_index c s) as [j|] eqn:E; [intros [= <-]; specialize (IH j eq_refl); lia|].
  case_if; [|done]. intros [= <-]. lia.
Qed.

Lemma mime_type_for_spec path : exists m, mime_type_for path = Ret m /\ (CR ∉ m).
Proof.
  unfold mime_type_for. case_if; [eexists; split; [done|]; by apply (bool_decide_unpack _)|].
  zbool. unfold find_last_of in *. destruct (last_index _ path) as [i|] eqn:Ei; [|done].
  apply last_index_lt in Ei. rewrite substr_ok by (unfold size; lia).
  cbn [mbind outcome_bind]. eexists. split; [done|].
  repeat case_if; by apply (bool_decide_unpack _).
Qed.

(** ** [to_wire] *)

Definition status_line (r : HttpResponse) : bytes :=
  lit "HTTP/1.1 " ++ to_string (status r) ++ lit " " ++ reason r.

Definition is_content_length (h : bytes * bytes) : bool :=
  bytes_eqb (to_lower h.1) (lit "content-length").

Definition content_length_line (r : HttpResponse) : bytes :=
  lit "Content-Length: " ++ to_string (size (resp_body r)).

(** The lines of a response's head. *)
Definition response_lines (r : HttpResponse) : list bytes :=
  status_line r :: (header_text <$> resp_headers r) ++
  (if existsb is_content_length (resp_headers r) then [] else [content_length_line r]).

Lemma to_wire_fold hs wire b :
  fold_left to_wire_step hs (wire, b)
  = (wire ++ lines_block (header_text <$> hs), b || existsb is_content_length hs).
Proof.
  revert wire b; induction hs as [|h hs IH]; intros wire b; cbn [fold_left].
  - cbn. by rewrite app_nil_r, orb_false_r.
  - unfold to_wire_step at 2. fold (is_content_length h). rewrite IH. cbn [fmap list_fmap].
    rewrite lines_block_cons. unfold header_line, header_text.
    rewrite <- !app_assoc. cbn [existsb]. by destruct (is_content_length h), b.
Qed.

Lemma to_wire_lines r :
  to_wire r = lines_block (response_lines r) ++ crlf ++ (if head_only r then [] else resp_body r).
Proof.
  unfold to_wire, response_lines. rewrite to_wire_fold. cbn [orb].
  rewrite lines_block_cons, lines_block_app. unfold status_line, content_length_line.
  destruct (existsb is_content_length (resp_headers r)), (head_only r);
    cbn [lines_block concat fmap list_fmap]; rewrite ?app_nil_r, <- ?app_assoc; reflexivity.
Qed.

(** A line that a client reads as a [Content-Length]. *)
Definition names_content_length (l : bytes) : bool :=
  bytes_eqb (to_lower (take 15 l)) (lit "content-length:").

Definition clean_response (r : HttpResponse) : Prop :=
  (CR ∉ to_string (status r)) /\ (CR ∉ reason r) /\
  Forall (fun h => (CR ∉ h.1) /\ (CR ∉ h.2) /\ is_content_length h = false /\
            names_content_length (header_text h) = false) (resp_headers r).

Lemma clean_no_content_length r :
  clean_response r -> existsb is_content_length (resp_headers r) = false.
Proof.
  intros (_ & _ & H). induction H as [|h hs (_ & _ & Hh & _) _ IH]; simpl; [done|].
  by rewrite Hh, IH.
Qed.

Lemma digits_no_CR l : is_digit_list l -> CR ∉ l.
Proof.
  intros H Hin. pose proof (proj1 (Forall_forall _ _) H _ Hin) as Hd. by vm_compute in Hd.
Qed.

Lemma response_lines_no_CR r :
  clean_response r -> fits (resp_body r) -> Forall (fun l => CR ∉ l) (response_lines r).
Proof.
  intros Hc Hf. pose proof Hc as (Hs & Hr & Hh). unfold response_lines.
  rewrite (clean_no_content_length r Hc). apply Forall_cons; split.
  - unfold status_line. rewrite !not_elem_of_app. split_and!; try done;
      by apply (bool_decide_unpack _).
  - apply Forall_app; split.
    + rewrite Forall_fmap. eapply Forall_impl; [exact Hh|]. intros h (H1 & H2 & _). cbn beta.
      unfold compose, header_text. rewrite !not_elem_of_app. split_and!; [done| |done].
      by apply (bool_decide_unpack _).
    + constructor; [|done]. unfold content_length_line. rewrite not_elem_of_app. split.
      * by apply (bool_decide_unpack _).
      * pose proof (size_nonneg (resp_body r)). unfold fits in Hf.
        apply digits_no_CR, to_string_spec. lia.
Qed.

Lemma response_lines_nonempty r : Forall (fun l => l <> []) (tail (response_lines r)).
Proof.
  unfold response_lines. cbn [tail]. apply Forall_app; split.
  - rewrite Forall_fmap. apply Forall_true. by intros [[|] ?].
  - case_if; by repeat constructor.
Qed.

(** A client that cuts the wire at the first empty line finds the head and
    exactly the body. *)
Lemma to_wire_framing r :
  clean_response r -> fits (resp_body r) ->
  let k := find header_terminator (to_wire r) 0 in
  take (Z.to_nat (k + 2)) (to_wire r) = lines_block (response_lines r) /\
  drop (Z.to_nat (k + 4)) (to_wire r) = (if head_only r then [] else resp_body r).
Proof.
  intros Hc Hf. cbv zeta. rewrite to_wire_lines.
  set (b := if head_only r then [] else resp_body r). set (k := find _ _ 0).
  assert (Hk : k = size (lines_block (response_lines r)) - 2).
  { unfold k, find. rewrite (proj2 (Z.ltb_ge _ _)) by apply size_nonneg.
    change (drop (Z.to_nat 0) ?l) with l.
    rewrite find_terminator; [|done|by apply response_lines_no_CR|apply response_lines_nonempty].
    pose proof (lines_block_length (response_lines r)) as Hl. unfold response_lines in Hl at 1.
    cbn [length] in Hl. unfold size. lia. }
  rewrite Hk. split.
  - replace (_ - 2 + 2) with (size (lines_block (response_lines r))) by lia.
    apply take_size_app.
  - rewrite app_assoc.
    replace (_ - 2 + 4) with (size (lines_block (response_lines r) ++ crlf))
      by (rewrite size_app; change (size crlf) with 2; lia).
    apply drop_size_app.
Qed.

(** ** [build_response] *)

Lemma build_response_clean fs docroot rq r :
  build_response fs docroot rq = Ret r ->
  clean_response r /\ head_only r = is_head rq.
Proof.
  unfold build_response. set (conn := if keep_alive rq then _ else _).
  assert (Hconn : CR ∉ conn) by (unfold conn; case_if; by apply (bool_decide_unpack _)).
  assert (Hfin : forall st rs b ct,
    (CR ∉ to_string st) -> (CR ∉ rs) -> (CR ∉ ct) ->
    let r := finish_response rq st rs
               [(lit "Server", lit "CoroutineWebServer"); (lit "Connection", conn)]
               (lit "Content-Type", ct) b in
    clean_response r /\ head_only r = is_head rq).
  { intros st rs b ct Hst Hrs Hct. split; [|done]. split; [done|]. split; [done|].
    repeat constructor; cbn; try done; by apply (bool_decide_unpack _). }
  repeat match goal with
  | |- context [if ?b then _ else _] => destruct b
  | |- context [match load_file fs ?p with _ => _ end] => destruct (load_file fs p)
  end.
  all: try (intros [= <-]; apply Hfin; by apply (bool_decide_unpack _)).
  all: intros H; inv_bind H; injection H as <-.
  all: destruct (mime_type_for_spec (resolve_path fs docroot (target rq))) as (m & Hm & Hcr).
  all: rewrite Ha in Hm; injection Hm as <-.
  all: apply Hfin; [by apply (bool_decide_unpack _)..|done].
Qed.

Lemma build_response_returns fs docroot rq : returns (build_response fs docroot rq).
Proof.
  unfold build_response. repeat (case_if; [apply returns_Ret|]). case_if; [|apply returns_Ret].
  destruct (load_file _ _); [|case_if; apply returns_Ret].
  destruct (mime_type_for_spec (resolve_path fs docroot (target rq))) as (m & -> & _).
  apply returns_Ret.
Qed.

Lemma resolve_path_escape fs docroot ns n :
  let q := slash :: join_slash (ns ++ [n]) in
  Forall plain_name (ns ++ [n]) -> "?"%char ∉ q -> resolve_path fs docroot (slash :: q) = q.
Proof.
  intros q Hns Hq.
  assert (Hstrip : strip_query (slash :: q) = slash :: q).
  { unfold strip_query. rewrite find_char_absent; [done|].
    rewrite not_elem_of_cons. by split; [apply (bool_decide_unpack _)|]. }
  unfold resolve_path. rewrite Hstrip.
  assert (Hne : forall l, starts_with [slash; slash] l = false -> bytes_eqb (slash :: q) l = false).
  { intros l Hl. unfold bytes_eqb. apply bool_decide_eq_false_2. by intros <-. }
  rewrite !Hne by done. cbn [orb].
  change (if starts_with [slash] (slash :: q) then drop 1 (slash :: q) else slash :: q) with q.
  unfold q at 1 2. rewrite clean_normal by done. fold q.
  unfold q at 1. rewrite clean_is_safe by done. done.
Qed.

Definition with_method (m : bytes) (rq : HttpRequest) : HttpRequest :=
  mkRequest m (target rq) (version rq) (headers rq) (body rq).

(** * Properties *)

(** C27: directory containment. A target that does not begin with two slashes
    resolves either to the empty path (rejected) or to a path whose names are
    those of the document root followed by names none of which is [..]. *)
Theorem resolve_path_contained fs docroot target :
  docroot <> [] -> starts_with (lit "//") (strip_query target) = false ->
  resolve_path fs docroot target = [] \/
  exists ns, path_names (resolve_path fs docroot target) = path_names docroot ++ ns /\
             (dotdot_name ∉ ns).
Proof. apply resolve_path_inside. Qed.

Definition no_files : FileSystem :=
  mkFileSystem (fun _ => false) (fun _ => None) (fun _ => None).

Lemma resolve_path_contained_witness :
  resolve_path no_files (lit "/srv/www") (lit "/a/../b?x") = [] \/
  exists ns, path_names (resolve_path no_files (lit "/srv/www") (lit "/a/../b?x"))
             = path_names (lit "/srv/www") ++ ns /\ (dotdot_name ∉ ns).
Proof. apply resolve_path_contained; [done|vm_compute; reflexivity]. Defined.

(** A target with two leading slashes leaves the document root. Removing
    one slash leaves an absolute path, [operator/] then drops the document
    root, and a GET of such a target is answered with that file of the whole
    file system. *)
Theorem double_slash_escapes_docroot fs docroot ns n b t v hs :
  let q := slash :: join_slash (ns ++ [n]) in
  Forall plain_name (ns ++ [n]) -> "?"%char ∉ q -> load_file fs q = Some b ->
  resolve_path fs docroot (slash :: q) = q /\
  exists r, build_response fs docroot (mkRequest (lit "GET") (slash :: q) v hs t) = Ret r /\
            status r = 200 /\ resp_body r = b.
Proof.
  intros q Hns Hq Hb. pose proof (resolve_path_escape fs docroot ns n Hns Hq) as Hr.
  fold q in Hr. split; [done|]. unfold build_response. cbn [target].
  change (is_post _) with false. cbn iota.
  assert (bytes_eqb (slash :: q) (lit "/hello") = false) as -> by done.
  rewrite Hr, Hb. change (bytes_eqb q []) with false. cbn [andb negb].
  destruct (mime_type_for_spec q) as (m & -> & _). cbn [mbind outcome_bind].
  eexists. split; [reflexivity|done].
Qed.

(** One readable file, [/etc/passwd]. *)
Definition etc_passwd_fs : FileSystem :=
  mkFileSystem (fun _ => true)
    (fun p => if bytes_eqb p (lit "/etc/passwd")
              then Some (mkOpenFile (Some (true, 4)) (fun _ => Some (lit "root"))) else None)
    (fun _ => None).

Lemma double_slash_escapes_docroot_witness :
  resolve_path etc_passwd_fs (lit "/srv/www") (lit "//etc/passwd") = lit "/etc/passwd" /\
  exists r, build_response etc_passwd_fs (lit "/srv/www")
              (mkRequest (lit "GET") (lit "//etc/passwd") (lit "HTTP/1.1") ∅ []) = Ret r /\
            status r = 200 /\ resp_body r = lit "root".
Proof.
  apply (double_slash_escapes_docroot etc_passwd_fs (lit "/srv/www") [lit "etc"] (lit "passwd"));
    [|by apply (bool_decide_unpack _)|vm_compute; reflexivity].
  repeat constructor; by apply (bool_decide_unpack _).
Defined.

(** C28: framing of responses. Every request gets a response; cut at its first
    empty line, the wire of that response is lines without a line end in them,
    exactly one of which, the last, is a [Content-Length], in any case of its
    letters, and it gives the size of the body; then follows exactly the body
    (nothing for a HEAD request). *)
Theorem response_framing fs docroot rq :
  exists r, build_response fs docroot rq = Ret r /\
  (fits (resp_body r) ->
   let k := find header_terminator (to_wire r) 0 in
   (exists ls, take (Z.to_nat (k + 2)) (to_wire r) = lines_block (ls ++ [content_length_line r]) /\
      Forall (fun l => (CR ∉ l) /\ names_content_length l = false) ls /\
      (CR ∉ content_length_line r) /\ names_content_length (content_length_line r) = true) /\
   drop (Z.to_nat (k + 4)) (to_wire r) = (if is_head rq then [] else resp_body r)).
Proof.
  destruct (build_response_returns fs docroot rq) as [r Hr]. exists r. split; [done|].
  intros Hf. destruct (build_response_clean _ _ _ _ Hr) as [Hc <-].
  destruct (to_wire_framing r Hc Hf) as [H1 H2]. split; [|done].
  pose proof (response_lines_no_CR r Hc Hf) as Hcr. unfold response_lines in *.
  rewrite (clean_no_content_length r Hc), app_comm_cons in *.
  apply Forall_app in Hcr as [Hcr [Hcl _]%Forall_cons].
  exists (status_line r :: (header_text <$> resp_headers r)). split_and!; [done| |done|reflexivity].
  apply Forall_and. split; [done|]. apply Forall_cons. split; [reflexivity|].
  apply Forall_fmap. eapply Forall_impl; [apply Hc|]. by intros h (_ & _ & _ & Hn).
Qed.

Lemma response_framing_witness :
  exists r, build_response no_files (lit "/srv") (mkRequest (lit "HEAD") (lit "/hello") [] ∅ []) = Ret r /\
  (fits (resp_body r) ->
   let k := find header_terminator (to_wire r) 0 in
   (exists ls, take (Z.to_nat (k + 2)) (to_wire r) = lines_block (ls ++ [content_length_line r]) /\
      Forall (fun l => (CR ∉ l) /\ names_content_length l = false) ls /\
      (CR ∉ content_length_line r) /\ names_content_length (content_length_line r) = true) /\
   drop (Z.to_nat (k + 4)) (to_wire r) = []).
Proof. apply (response_framing no_files (lit "/srv")). Defined.

(** A HEAD request is answered with exactly the head of the answer to the
    same GET request. *)
Theorem head_is_get_without_body fs docroot rq :
  exists g h,
    build_response fs docroot (with_method (lit "GET") rq) = Ret g /\
    build_response fs docroot (with_method (lit "HEAD") rq) = Ret h /\
    to_wire g = to_wire h ++ resp_body g.
Proof.
  assert (Hw : forall st rs hs ct b,
    to_wire (finish_response (with_method (lit "GET") rq) st rs hs ct b)
    = to_wire (finish_response (with_method (lit "HEAD") rq) st rs hs ct b) ++ b).
  { intros. unfold to_wire, finish_response.
    change (is_head (with_method (lit "GET") rq)) with false.
    change (is_head (with_method (lit "HEAD") rq)) with true.
    cbn [status reason resp_headers resp_body head_only]. by destruct (fold_left _ _ _). }
  unfold build_response.
  change (keep_alive (with_method ?m rq)) with (keep_alive rq).
  change (target (with_method ?m rq)) with (target rq).
  change (is_post (with_method (lit "GET") rq)) with false.
  change (is_post (with_method (lit "HEAD") rq)) with false. cbn iota.
  repeat (case_if; [by eexists _, _|]).
  case_if; [|by eexists _, _].
  destruct (load_file _ _); [|case_if; by eexists _, _].
  destruct (mime_type_for_spec (resolve_path fs docroot (target rq))) as (m & -> & _).
  by eexists _, _.
Qed.

(** The status of a response: 400 exactly for a target that resolves to
    nothing, 404 exactly for a resolved file that cannot be loaded (the
    favicon excepted), 200 in every other case. *)
Theorem build_response_status fs docroot rq r :
  build_response fs docroot rq = Ret r ->
  let served := negb (is_post rq) && negb (bytes_eqb (target rq) (lit "/hello")) in
  let resolved := resolve_path fs docroot (target rq) in
  status r =
    (if served && bytes_eqb resolved [] then 400
     else if served && negb (bytes_eqb (target rq) (lit "/favicon.ico")) &&
             bool_decide (load_file fs resolved = None) then 404
     else 200).
Proof.
  unfold build_response. destruct (is_post rq); cbn [negb andb]; [by intros [= <-]|].
  destruct (bytes_eqb (target rq) (lit "/hello")); cbn [negb andb]; [by intros [= <-]|].
  rewrite andb_true_r. destruct (bytes_eqb (resolve_path _ _ _) []); cbn [negb]; [by intros [= <-]|].
  destruct (load_file _ _) as [b|].
  - rewrite bool_decide_eq_false_2, andb_false_r by done. intros H. inv_bind H. by injection H as <-.
  - rewrite bool_decide_eq_true_2, andb_true_r by done.
    destruct (bytes_eqb (target rq) (lit "/favicon.ico")); by intros [= <-].
Qed.

Lemma build_response_status_witness :
  exists r, build_response no_files (lit "/srv") (mkRequest (lit "GET") (lit "/x") [] ∅ []) = Ret r /\
            status r = 404.
Proof.
  eexists. split; [vm_compute; reflexivity|].
  rewrite (build_response_status no_files (lit "/srv")
             (mkRequest (lit "GET") (lit "/x") [] ∅ [])); vm_compute; reflexivity.
Defined.
