(* ===== verification/HttpConnection.v ===== *)
(** * HttpConnection: the coroutines of coroutineWebServer/HttpServer.cpp

    [read_request], [write_all], [handle_connection] and [accept_loop], as
    programs of a small monad over the world a coroutine sees:

    - [w_running]: what the next loads of the atomic [running_] give (another
      thread may clear it at any time); once the list is used up the server
      keeps running;
    - [w_recv], [w_send], [w_accept]: the completions of the io_uring
      operations to come, as the awaiter's [await_resume] sees them.  A
      coroutine that awaits with no completion left stays suspended
      ([CSuspended]);
    - [w_sent]: the bytes the kernel accepted for the client; [w_log]: the
      lines given to the logger; [w_posts]: what [accept_loop] posted to which
      worker.

    [CUndefined] is undefined behaviour: [co_await] of a task that has ended with
    an exception (see [co_await]). [UringScheduler::current()] is not null in
    a coroutine the scheduler resumes, so the checks for it are left out.

    The loops have fuel; [handle_connection_ends] gives enough of it. *)

From S2P Require Export HttpServer.

(** A [recv] completion: data (empty when the peer closed) or an error. *)
Inductive recv_result := RecvDone (data : bytes) | RecvFail (code : Z).

(** A [send] completion: the most bytes the kernel takes now, or an error. *)
Inductive send_result := SendUpTo (n : Z) | SendFail (code : Z).

Inductive accept_result := AcceptDone (fd : Z) | AcceptFail (code : Z).

Inductive log_line :=
  | LogRequest (m t : bytes)
  | LogConnectionError (e : exn)
  | LogAccepted (fd : Z)
  | LogAcceptError (e : exn).

Record World := mkWorld {
  w_running : list bool;
  w_recv : list recv_result;
  w_send : list send_result;
  w_accept : list accept_result;
  w_sent : bytes;
  w_log : list log_line;
  w_next_worker : Z;
  w_posts : list (Z * Z)
}.

Inductive cres (A : Type) : Type :=
  | CRet (a : A)
  | CThrow (e : exn)
  | CUndefined
  | CSuspended
  | CNoFuel.
Arguments CRet {A} a.
Arguments CThrow {A} e.
Arguments CUndefined {A}.
Arguments CSuspended {A}.
Arguments CNoFuel {A}.

Definition coro (A : Type) : Type := World -> cres A * World.

#[export] Instance coro_ret : MRet coro := fun A a w => (CRet a, w).
#[export] Instance coro_bind : MBind coro := fun A B f m w =>
  match m w with
  | (CRet a, w') => f a w'
  | (CThrow e, w') => (CThrow e, w')
  | (CUndefined, w') => (CUndefined, w')
  | (CSuspended, w') => (CSuspended, w')
  | (CNoFuel, w') => (CNoFuel, w')
  end.

Definition cthrow {A} (e : exn) : coro A := fun w => (CThrow e, w).
Definition no_fuel {A} : coro A := fun w => (CNoFuel, w).

(** A call that neither suspends nor touches the world. *)
Definition clift {A} (m : outcome A) : coro A := fun w =>
  match m with
  | Ret a => (CRet a, w)
  | Throw e => (CThrow e, w)
  | UB => (CUndefined, w)
  | OutOfFuel => (CNoFuel, w)
  end.

(** [try { m } catch (const std::exception& e) { h(e) }] *)
Definition ccatch {A} (m : coro A) (h : exn -> coro A) : coro A := fun w =>
  match m w with
  | (CThrow e, w') => h e w'
  | r => r
  end.

(** [co_await] of a task: [Awaiter::await_resume] destroys the frame of a task
    that has ended with an exception and then reads the exception from it. *)
Definition co_await {A} (m : coro A) : coro A := fun w =>
  match m w with
  | (CThrow _, w') => (CUndefined, w')
  | r => r
  end.

(** [running_.load()] *)
Definition load_running : coro bool := fun w =>
  match w_running w with
  | [] => (CRet true, w)
  | b :: l => (CRet b, mkWorld l (w_recv w) (w_send w) (w_accept w) (w_sent w) (w_log w)
                         (w_next_worker w) (w_posts w))
  end.

Definition write_log (l : log_line) : coro unit := fun w =>
  (CRet tt, mkWorld (w_running w) (w_recv w) (w_send w) (w_accept w) (w_sent w)
              (w_log w ++ [l]) (w_next_worker w) (w_posts w)).

(** [co_await scheduler->async_recv_for(...)]: [await_resume] throws for a
    negative result. *)
Definition await_recv : coro recv_result := fun w =>
  match w_recv w with
  | [] => (CSuspended, w)
  | r :: l => (CRet r, mkWorld (w_running w) l (w_send w) (w_accept w) (w_sent w) (w_log w)
                         (w_next_worker w) (w_posts w))
  end.

(** [co_await scheduler->async_send(fd, data, size, 0)]: the length is passed
    to the kernel as an [unsigned]. *)
Definition await_send (data : bytes) : coro Z := fun w =>
  match w_send w with
  | [] => (CSuspended, w)
  | SendUpTo n :: l =>
      let written := Z.min n (u32 (size data)) in
      (CRet written,
       mkWorld (w_running w) (w_recv w) l (w_accept w)
         (w_sent w ++ take (Z.to_nat written) data) (w_log w) (w_next_worker w) (w_posts w))
  | SendFail code :: l =>
      (CThrow (system_error code),
       mkWorld (w_running w) (w_recv w) l (w_accept w) (w_sent w) (w_log w)
         (w_next_worker w) (w_posts w))
  end.

Definition ETIMEDOUT : Z := 110.
Definition ECANCELED : Z := 125.

(** [read_request]: the request, if any, and what is left in [buffer]. *)
Fixpoint read_request (fuel : nat) (buffer : bytes) : coro (option HttpRequest * bytes) :=
  match fuel with
  | O => no_fuel
  | S fuel' =>
      running ← load_running;
      if negb running then mret (None, buffer)
      else
        parsed ← clift (try_parse_request buffer);
        match parsed with
        | Some p => mret (Some (request p), drop (Z.to_nat (consumed p)) buffer)
        | None =>
            received ← await_recv;
            match received with
            | RecvFail code =>
                if (code =? ETIMEDOUT) || (code =? ECANCELED) then mret (None, buffer)
                else cthrow (system_error code)
            | RecvDone data =>
                if size data <=? 0 then mret (None, buffer)
                else read_request fuel' (buffer ++ data)
            end
        end
  end.

(** [write_all] from [offset] on. *)
Fixpoint write_all (fuel : nat) (payload : bytes) (offset : Z) : coro unit :=
  match fuel with
  | O => no_fuel
  | S fuel' =>
      if offset <? size payload then
        running ← load_running;
        if negb running then mret tt
        else
          written ← await_send (drop (Z.to_nat offset) payload);
          if written <=? 0 then mret tt
          else write_all fuel' payload (offset + written)
      else mret tt
  end.

Section connection.
Context (fs : FileSystem) (docroot : bytes).

(** The [while] loop of [handle_connection] for a valid client. *)
Fixpoint connection_loop (fuel : nat) (buffer : bytes) : coro unit :=
  match fuel with
  | O => no_fuel
  | S fuel' =>
      running ← load_running;
      if negb running then mret tt
      else
        '(request, buffer') ← co_await (read_request fuel buffer);
        match request with
        | None => mret tt
        | Some rq =>
            _ ← write_log (LogRequest (method rq) (target rq));
            response ← clift (build_response fs docroot rq);
            _ ← co_await (write_all fuel (to_wire response) 0);
            if negb (keep_alive rq) then mret tt
            else connection_loop fuel' buffer'
        end
  end.

Definition handle_connection (fuel : nat) (client : UniqueFd) : coro unit :=
  ccatch (if fd_valid client then connection_loop fuel []
          else (_ ← load_running; mret tt))
         (fun e => write_log (LogConnectionError e)).
End connection.

(** [next_worker_.fetch_add(1) % workers_.size()] and the post. *)
Definition post_to_worker (workers : Z) (client_fd : Z) : coro unit := fun w =>
  let index := w_next_worker w mod workers in
  (CRet tt, mkWorld (w_running w) (w_recv w) (w_send w) (w_accept w) (w_sent w) (w_log w)
              (u64 (w_next_worker w + 1)) (w_posts w ++ [(index, client_fd)])).

Definition await_accept : coro Z := fun w =>
  match w_accept w with
  | [] => (CSuspended, w)
  | AcceptDone fd :: l =>
      (CRet fd, mkWorld (w_running w) (w_recv w) (w_send w) l (w_sent w) (w_log w)
                  (w_next_worker w) (w_posts w))
  | AcceptFail code :: l =>
      (CThrow (system_error code),
       mkWorld (w_running w) (w_recv w) (w_send w) l (w_sent w) (w_log w)
         (w_next_worker w) (w_posts w))
  end.

(** The [try] block of one iteration and its handler; [false] is [break]. *)
Definition accept_try (workers : Z) : coro bool :=
  client_fd ← await_accept;
  if client_fd <? 0 then mret true
  else
    _ ← write_log (LogAccepted client_fd);
    _ ← post_to_worker workers client_fd;
    mret true.

Definition accept_handler (e : exn) : coro bool :=
  running ← load_running;
  if negb running then mret false
  else
    _ ← write_log (LogAcceptError e);
    mret true.

Definition accept_once (workers : Z) : coro bool := ccatch (accept_try workers) accept_handler.

Fixpoint accept_loop (fuel : nat) (workers : Z) : coro unit :=
  match fuel with
  | O => no_fuel
  | S fuel' =>
      running ← load_running;
      if negb running then mret tt
      else
        go_on ← accept_once workers;
        if negb go_on then mret tt else accept_loop fuel' workers
  end.

(** * Lemmas *)

(** The world with other [w_send], [w_sent] and [w_log]. *)
Definition set_send (w : World) (l : list send_result) (sent : bytes) (log : list log_line) : World :=
  mkWorld (w_running w) (w_recv w) l (w_accept w) sent log (w_next_worker w) (w_posts w).

Definition set_recv (w : World) (l : list recv_result) : World :=
  mkWorld (w_running w) l (w_send w) (w_accept w) (w_sent w) (w_log w) (w_next_worker w) (w_posts w).

Lemma set_recv_same w l : w_recv w = l -> set_recv w l = w.
Proof. intros <-. by destruct w. Qed.

Lemma load_running_true w : w_running w = [] -> load_running w = (CRet true, w).
Proof. unfold load_running. by intros ->. Qed.

Lemma coro_bind_ret {A B} (m : coro A) (f : A -> coro B) w a w' :
  m w = (CRet a, w') -> (m ≫= f) w = f a w'.
Proof. unfold mbind, coro_bind. by intros ->. Qed.

Lemma co_await_ret {A} (m : coro A) w a w' : m w = (CRet a, w') -> co_await m w = (CRet a, w').
Proof. unfold co_await. by intros ->. Qed.

Lemma co_await_suspended {A} (m : coro A) w w' :
  m w = (CSuspended, w') -> co_await m w = (CSuspended, w').
Proof. unfold co_await. by intros ->. Qed.

Lemma coro_bind_suspended {A B} (m : coro A) (f : A -> coro B) w w' :
  m w = (CSuspended, w') -> (m ≫= f) w = (CSuspended, w').
Proof. unfold mbind, coro_bind. by intros ->. Qed.

(** ** Sending *)

Definition ready_sends (ns : list Z) : list send_result := SendUpTo <$> ns.

(** [write_all] on a running server whose sends make progress sends the
    payload completely. *)
Lemma write_all_sends payload fuel ns w offset :
  w_running w = [] -> w_send w = ready_sends ns -> Forall (fun n => 0 < n) ns ->
  size payload < 2 ^ 32 -> 0 <= offset <= size payload ->
  size payload - offset <= Z.of_nat (length ns) -> size payload - offset < Z.of_nat fuel ->
  exists ns', write_all fuel payload offset w
    = (CRet tt, set_send w (ready_sends ns') (w_sent w ++ drop (Z.to_nat offset) payload) (w_log w)) /\
    ns' `suffix_of` ns /\
    Z.of_nat (length ns) - (size payload - offset) <= Z.of_nat (length ns').
Proof.
  intros Hrun Hsend Hpos H32. revert ns w offset Hrun Hsend Hpos.
  induction fuel as [|fuel IH]; intros ns w offset Hrun Hsend Hpos Hoff Hns Hfuel; [lia|].
  cbn [write_all]. case_if; zbool.
  - rewrite (coro_bind_ret _ _ _ _ _ (load_running_true w Hrun)). cbn [negb].
    destruct ns as [|n ns]; [simpl in Hns; lia|]. apply Forall_cons in Hpos as [Hn Hpos].
    set (rem := drop (Z.to_nat offset) payload).
    assert (Hrem : size rem = size payload - offset)
      by (unfold rem, size in *; rewrite length_drop; lia).
    set (written := Z.min n (size rem)).
    set (w1 := set_send w (ready_sends ns) (w_sent w ++ take (Z.to_nat written) rem) (w_log w)).
    assert (Hsd : await_send rem w = (CRet written, w1)).
    { unfold await_send. rewrite Hsend. cbn [ready_sends fmap list_fmap].
      unfold u32. by rewrite Z.mod_small by lia. }
    rewrite (coro_bind_ret _ _ _ _ _ Hsd). rewrite (proj2 (Z.leb_gt _ _)) by lia.
    destruct (IH ns w1 (offset + written)) as (ns' & -> & Hsuf & Hlen);
      [done|done|done|lia|simpl in Hns; lia|lia|].
    exists ns'. split_and!.
    + f_equal. unfold w1, set_send. cbn. f_equal. rewrite <- app_assoc. f_equal.
      rewrite <- (take_drop (Z.to_nat written) rem) at 2. f_equal.
      unfold rem. rewrite drop_drop. f_equal. lia.
    + by apply suffix_cons_r.
    + simpl. lia.
  - exists ns. split_and!; [|done|lia]. unfold mret, coro_ret, set_send.
    rewrite drop_ge by (unfold size in *; lia). rewrite app_nil_r, <- Hsend. by destruct w.
Qed.

(** Whatever the kernel and the other threads do, [write_all] only sends a
    prefix of what is left of its payload, and leaves the rest of the world
    alone. *)
Lemma write_all_prefix fuel payload offset w r w' :
  0 <= offset <= size payload -> write_all fuel payload offset w = (r, w') ->
  exists done_, w_sent w' = w_sent w ++ done_ /\
    done_ `prefix_of` drop (Z.to_nat offset) payload /\
    w_recv w' = w_recv w /\ w_log w' = w_log w.
Proof.
  revert offset w; induction fuel as [|fuel IH]; intros offset w Hoff; cbn [write_all].
  { intros [= <- <-]. exists []. rewrite app_nil_r. split_and!; auto using prefix_nil. }
  assert (Hnil : forall x : World, w_sent x = w_sent w -> w_recv x = w_recv w -> w_log x = w_log w ->
    exists done_, w_sent x = w_sent w ++ done_ /\ done_ `prefix_of` drop (Z.to_nat offset) payload /\
      w_recv x = w_recv w /\ w_log x = w_log w)
    by (intros x ? ? ?; exists []; rewrite app_nil_r; split_and!; auto using prefix_nil).
  case_if; [|by intros [= <- <-]; apply Hnil]. zbool.
  assert (exists b w1, load_running w = (CRet b, w1) /\ w_sent w1 = w_sent w /\
            w_recv w1 = w_recv w /\ w_log w1 = w_log w) as (b & w1 & Hl & Hs1 & Hr1 & Hg1)
    by (unfold load_running; destruct (w_running w); by eexists _, _).
  rewrite (coro_bind_ret _ _ _ _ _ Hl). destruct b; cbn [negb]; [|by intros [= <- <-]; apply Hnil].
  set (rem := drop (Z.to_nat offset) payload).
  unfold mbind, coro_bind, await_send. destruct (w_send w1) as [|[n|code] l];
    [by intros [= <- <-]; apply Hnil| |by intros [= <- <-]; apply Hnil].
  set (written := Z.min n (u32 (size rem))). case_if; zbool.
  - intros [= <- <-]. apply Hnil; [|done..]. cbn.
    replace (Z.to_nat written) with O by lia. cbn. by rewrite app_nil_r.
  - assert (Hrem : size rem = size payload - offset)
      by (unfold rem, size in *; rewrite length_drop; lia).
    assert (written <= size rem).
    { unfold written, u32. pose proof (Z.mod_le (size rem) (2 ^ 32) ltac:(lia) ltac:(lia)). lia. }
    intros Hw. apply IH in Hw as (d & Hd & Hp & Hr & Hg); [|lia]. cbn in Hd, Hr, Hg.
    exists (take (Z.to_nat written) rem ++ d). split_and!; [|..|congruence|congruence].
    + by rewrite Hd, Hs1, app_assoc.
    + rewrite <- (take_drop (Z.to_nat written) rem) at 2. apply prefix_app.
      unfold rem. rewrite drop_drop.
      by replace (Z.to_nat offset + Z.to_nat written)%nat with (Z.to_nat (offset + written)) by lia.
Qed.

(** ** Reading *)

(** The header block of [s], if complete, declares a length below 2^63. *)
Definition head_small (s : bytes) : Prop :=
  let h := find header_terminator s 0 in
  forall m t v hs n, h <> npos -> parse_head s h = Ret (Some (m, t, v, hs)) ->
    content_length hs = Some n -> n < 2 ^ 63.

(** The same, computed. *)
Definition head_small_b (s : bytes) : bool :=
  match parse_head s (find header_terminator s 0) with
  | Ret (Some (m, t, v, hs)) =>
      match content_length hs with Some n => n <? 2 ^ 63 | None => true end
  | _ => true
  end.

Lemma head_small_compute s : head_small_b s = true -> head_small s.
Proof.
  unfold head_small_b. intros Hb m t v hs n _ Hp Hn. rewrite Hp, Hn in Hb.
  by apply Z.ltb_lt in Hb.
Qed.

Lemma parsed_length_known buffer p :
  fits buffer -> try_parse_request buffer = Ret (Some p) ->
  exists n, content_length (headers (request p)) = Some n.
Proof.
  intros Hf Hp. destruct (try_parse_request_inv _ _ Hf Hp) as (m & t & v & hs & _ & _ & _ & _ & Hb & ->).
  unfold parse_body in Hb. destruct (content_length hs) as [n|]; [by exists n|done].
Qed.

(** A request recognised in a part of the stream is the one the whole stream
    holds. *)
Lemma parse_part_whole b more p :
  fits (b ++ more) -> head_small (b ++ more) -> try_parse_request b = Ret (Some p) ->
  try_parse_request (b ++ more) = Ret (Some p) /\ small_length p.
Proof.
  intros Hf Hs Hp. pose proof (fits_app_l _ _ Hf) as Hf'.
  destruct (parsed_length_known _ _ Hf' Hp) as [n Hn].
  destruct (try_parse_request_inv _ _ Hf' Hp) as (m & t & v & hs & Hh & H0 & _ & Hhd & _ & Hhs).
  assert (Hsm : small_length p).
  { exists n. split; [done|]. apply (Hs m t v hs n).
    - by rewrite find_app.
    - rewrite find_app, parse_head_app by done. done.
    - by rewrite <- Hhs. }
  split; [by apply try_parse_request_app|done].
Qed.

Definition ready_recvs (chunks : list bytes) : list recv_result :=
  (RecvDone <$> chunks) ++ [RecvDone []].

(** [read_request] reads the request at the start of the stream however the
    stream is cut into chunks, and leaves the rest of the stream. *)
Lemma read_request_some fuel chunks w buffer p :
  w_running w = [] -> w_recv w = ready_recvs chunks -> Forall (fun c => c <> []) chunks ->
  fits (buffer ++ concat chunks) -> head_small (buffer ++ concat chunks) ->
  try_parse_request (buffer ++ concat chunks) = Ret (Some p) -> (length chunks < fuel)%nat ->
  exists chunks' buffer',
    read_request fuel buffer w = (CRet (Some (request p), buffer'), set_recv w (ready_recvs chunks')) /\
    buffer' ++ concat chunks' = drop (Z.to_nat (consumed p)) (buffer ++ concat chunks) /\
    chunks' `suffix_of` chunks.
Proof.
  revert chunks w buffer; induction fuel as [|fuel IH]; intros chunks w buffer Hrun Hrecv Hne Hf Hs Hp Hfuel;
    [lia|].
  cbn [read_request]. rewrite (coro_bind_ret _ _ _ _ _ (load_running_true w Hrun)). cbn [negb].
  destruct (try_parse_request_returns buffer (fits_app_l _ _ Hf)) as [x Hx].
  rewrite (coro_bind_ret _ _ w x w) by (unfold clift; by rewrite Hx).
  destruct x as [p'|].
  - destruct (parse_part_whole _ _ _ Hf Hs Hx) as [Hp' Hsm].
    rewrite Hp in Hp'. injection Hp' as <-.
    destruct (try_parse_request_consumed _ _ (fits_app_l _ _ Hf) Hx Hsm)
      as (pre & rest & Hb & _ & Hc & _).
    exists chunks, (drop (Z.to_nat (consumed p)) buffer). split_and!; [|..|done].
    + unfold mret, coro_ret, set_recv. rewrite <- Hrecv. by destruct w.
    + rewrite drop_app_le; [done|]. rewrite Hc, Hb. unfold size. rewrite !length_app. lia.
  - destruct chunks as [|c chunks]; [cbn in Hp; rewrite app_nil_r in Hp; congruence|].
    apply Forall_cons in Hne as [Hc Hne].
    set (w1 := set_recv w (ready_recvs chunks)).
    assert (Hrv : await_recv w = (CRet (RecvDone c), w1)) by (unfold await_recv; by rewrite Hrecv).
    rewrite (coro_bind_ret _ _ _ _ _ Hrv).
    rewrite (proj2 (Z.leb_gt _ _)) by (destruct c; [done|]; rewrite size_cons; pose proof (size_nonneg c); lia).
    cbn [concat] in *. rewrite app_assoc in *.
    destruct (IH chunks w1 (buffer ++ c)) as (cs & b' & -> & Hb & Hsuf);
      [done..|simpl in Hfuel; lia|].
    exists cs, b'. split_and!; [done|done|by apply suffix_cons_r].
Qed.

(** While the bytes received hold no whole request, the chunks are buffered. *)
Lemma read_request_buffers chunks rest : forall fuel w buffer,
  w_running w = [] -> w_recv w = (RecvDone <$> chunks) ++ rest -> Forall (fun c => c <> []) chunks ->
  fits (buffer ++ concat chunks) -> head_small (buffer ++ concat chunks) ->
  try_parse_request (buffer ++ concat chunks) = Ret None -> (length chunks < fuel)%nat ->
  exists fuel', read_request fuel buffer w =
    (received ← await_recv;
     match received with
     | RecvFail code =>
         if (code =? ETIMEDOUT) || (code =? ECANCELED) then mret (None, buffer ++ concat chunks)
         else cthrow (system_error code)
     | RecvDone data =>
         if size data <=? 0 then mret (None, buffer ++ concat chunks)
         else read_request fuel' ((buffer ++ concat chunks) ++ data)
     end) (set_recv w rest).
Proof.
  induction chunks as [|c chunks IH]; intros fuel w buffer Hrun Hrecv Hne Hf Hs Hp Hfuel;
    (destruct fuel as [|fuel]; [cbn in Hfuel; lia|]); cbn [read_request];
    rewrite (coro_bind_ret _ _ _ _ _ (load_running_true w Hrun)); cbn [negb];
    destruct (try_parse_request_returns buffer (fits_app_l _ _ Hf)) as [x Hx];
    rewrite (coro_bind_ret _ _ w x w) by (unfold clift; by rewrite Hx);
    (destruct x as [p'|]; [destruct (parse_part_whole _ _ _ Hf Hs Hx); congruence|]).
  - exists fuel. cbn [concat fmap list_fmap app] in *. rewrite app_nil_r. by rewrite (set_recv_same w rest).
  - apply Forall_cons in Hne as [Hc Hne]. set (w1 := set_recv w ((RecvDone <$> chunks) ++ rest)).
    assert (Hrv : await_recv w = (CRet (RecvDone c), w1)) by (unfold await_recv; by rewrite Hrecv).
    rewrite (coro_bind_ret _ _ _ _ _ Hrv).
    rewrite (proj2 (Z.leb_gt _ _)) by (destruct c; [done|]; rewrite size_cons; pose proof (size_nonneg c); lia).
    cbn [concat] in *. rewrite app_assoc in *.
    destruct (IH fuel w1 (buffer ++ c)) as [fuel' Hfl]; [done..|cbn in Hfuel; lia|].
    exists fuel'. exact Hfl.
Qed.

Lemma read_request_none fuel chunks w buffer :
  w_running w = [] -> w_recv w = ready_recvs chunks -> Forall (fun c => c <> []) chunks ->
  fits (buffer ++ concat chunks) -> head_small (buffer ++ concat chunks) ->
  try_parse_request (buffer ++ concat chunks) = Ret None -> (length chunks < fuel)%nat ->
  exists buffer', read_request fuel buffer w = (CRet (None, buffer'), set_recv w []).
Proof.
  intros. destruct (read_request_buffers chunks [RecvDone []] fuel w buffer) as [fuel' ->]; [done..|].
  by eexists.
Qed.

(** A receive that fails with an error the handler does not name. *)
Lemma read_request_throws fuel chunks code rest w buffer :
  w_running w = [] -> w_recv w = (RecvDone <$> chunks) ++ RecvFail code :: rest ->
  Forall (fun c => c <> []) chunks -> code <> ETIMEDOUT -> code <> ECANCELED ->
  fits (buffer ++ concat chunks) -> head_small (buffer ++ concat chunks) ->
  try_parse_request (buffer ++ concat chunks) = Ret None -> (length chunks < fuel)%nat ->
  read_request fuel buffer w = (CThrow (system_error code), set_recv w rest).
Proof.
  intros Hrun Hrecv Hne Ht Hc. intros.
  destruct (read_request_buffers chunks (RecvFail code :: rest) fuel w buffer) as [fuel' ->]; [done..|].
  unfold mbind, coro_bind, await_recv. cbn.
  by rewrite (proj2 (Z.eqb_neq _ _) Ht), (proj2 (Z.eqb_neq _ _) Hc).
Qed.

(** ** The connection *)

(** The requests of a byte stream, in order, up to the first that does not
    keep the connection alive. *)
Inductive serves : bytes -> list HttpRequest -> Prop :=
  | serves_end s :
      head_small s -> try_parse_request s = Ret None -> serves s []
  | serves_last s p :
      head_small s -> try_parse_request s = Ret (Some p) ->
      keep_alive (request p) = false -> serves s [request p]
  | serves_more s p l :
      head_small s -> try_parse_request s = Ret (Some p) ->
      keep_alive (request p) = true ->
      serves (drop (Z.to_nat (consumed p)) s) l -> serves s (request p :: l).

Lemma fits_drop n s : fits s -> fits (drop n s).
Proof. unfold fits, size. rewrite length_drop. lia. Qed.

Definition log_request (rq : HttpRequest) : log_line := LogRequest (method rq) (target rq).

Section connection_lemmas.
Context (fs : FileSystem) (docroot : bytes).

(** The bytes the server answers to a request. *)
Definition wire_of (rq : HttpRequest) : bytes :=
  match build_response fs docroot rq with Ret r => to_wire r | _ => [] end.

Definition answers (l : list HttpRequest) : bytes := concat (wire_of <$> l).

(** Answering one request: from the line logged to the bytes sent. *)
Lemma answer_one fuel rq ns w {A} (k : coro A) :
  w_running w = [] -> w_send w = ready_sends ns -> Forall (fun n => 0 < n) ns ->
  size (wire_of rq) < 2 ^ 32 -> size (wire_of rq) <= Z.of_nat (length ns) ->
  size (wire_of rq) < Z.of_nat fuel ->
  exists ns',
    (_ ← write_log (LogRequest (method rq) (target rq));
     response ← clift (build_response fs docroot rq);
     _ ← co_await (write_all fuel (to_wire response) 0); k) w
    = k (set_send w (ready_sends ns') (w_sent w ++ wire_of rq) (w_log w ++ [log_request rq])) /\
    ns' `suffix_of` ns /\
    Z.of_nat (length ns) - size (wire_of rq) <= Z.of_nat (length ns').
Proof.
  intros Hrun Hsend Hpos H32 Hns Hfuel. unfold wire_of in *.
  destruct (build_response_returns fs docroot rq) as [r Hr]. rewrite Hr in *.
  set (w1 := set_send w (w_send w) (w_sent w) (w_log w ++ [log_request rq])).
  destruct (write_all_sends (to_wire r) fuel ns w1 0) as (ns' & Hw & Hsuf & Hlen);
    [done..|pose proof (size_nonneg (to_wire r)); lia|lia|lia|].
  exists ns'. split_and!; [|done|lia]. cbn [Z.to_nat drop] in Hw. rewrite drop_0 in Hw.
  unfold mbind at 1, coro_bind at 1. cbn [write_log]. fold (log_request rq).
  change (mkWorld _ _ _ _ _ _ _ _) with w1.
  unfold mbind at 1, coro_bind at 1, clift.
  rewrite (coro_bind_ret _ _ _ _ _ (co_await_ret _ _ _ _ Hw)). done.
Qed.

Lemma connection_loop_serves l s : serves s l -> forall fuel chunks ns w buffer,
  s = buffer ++ concat chunks ->
  w_running w = [] -> w_recv w = ready_recvs chunks -> Forall (fun c => c <> []) chunks ->
  w_send w = ready_sends ns -> Forall (fun n => 0 < n) ns -> fits s ->
  Forall (fun rq => size (wire_of rq) < 2 ^ 32) l ->
  size (answers l) <= Z.of_nat (length ns) ->
  Z.of_nat (length chunks) + size (answers l) + Z.of_nat (length l) < Z.of_nat fuel ->
  exists w', connection_loop fs docroot fuel buffer w = (CRet tt, w') /\
    w_sent w' = w_sent w ++ answers l /\ w_log w' = w_log w ++ (log_request <$> l).
Proof.
  induction 1 as [s Hs Hp|s p Hs Hp Hka|s p l Hs Hp Hka _ IH];
    intros fuel chunks ns w buffer -> Hrun Hrecv Hne Hsend Hpos Hf H32 Hns Hfuel;
    match type of Hns with size ?x <= _ => pose proof (size_nonneg x) end;
    (destruct fuel as [|fuel]; [lia|]);
    cbn [connection_loop]; rewrite (coro_bind_ret _ _ _ _ _ (load_running_true w Hrun));
    cbn [negb].
  - destruct (read_request_none (S fuel) chunks w buffer) as (b' & Hr); [done..|lia|].
    rewrite (coro_bind_ret _ _ _ _ _ (co_await_ret _ _ _ _ Hr)). eexists. split; [reflexivity|].
    cbn. by rewrite !app_nil_r.
  - unfold answers in *. cbn [fmap list_fmap concat length] in *. rewrite app_nil_r in *.
    apply Forall_cons in H32 as [H32 _]. pose proof (size_nonneg (wire_of (request p))).
    destruct (read_request_some (S fuel) chunks w buffer p) as (cs & b' & Hr & Hb & Hsuf);
      [done..|lia|].
    rewrite (coro_bind_ret _ _ _ _ _ (co_await_ret _ _ _ _ Hr)).
    destruct (answer_one (S fuel) (request p) ns (set_recv w (ready_recvs cs))
                (if negb (keep_alive (request p)) then mret tt
                 else connection_loop fs docroot fuel b')) as (ns' & -> & _); [done..|lia|lia|].
    rewrite Hka. eexists. split; [reflexivity|done].
  - unfold answers in *. cbn [fmap list_fmap concat length] in *. rewrite size_app in *.
    apply Forall_cons in H32 as [H32 H32']. pose proof (size_nonneg (wire_of (request p))).
    pose proof (size_nonneg (concat (wire_of <$> l))).
    destruct (read_request_some (S fuel) chunks w buffer p) as (cs & b' & Hr & Hb & Hsuf);
      [done..|lia|].
    rewrite (coro_bind_ret _ _ _ _ _ (co_await_ret _ _ _ _ Hr)).
    destruct (answer_one (S fuel) (request p) ns (set_recv w (ready_recvs cs))
                (if negb (keep_alive (request p)) then mret tt
                 else connection_loop fs docroot fuel b')) as (ns' & -> & Hsn & Hln);
      [done..|lia|lia|].
    rewrite Hka. cbn [negb]. apply suffix_length in Hsuf as Hcs.
    edestruct (IH fuel cs ns') as (w' & -> & Hsent & Hlog);
      [by symmetry|done|done| |done| |by apply fits_drop|done|lia|lia|].
    + destruct Hsuf as [pre ->]. by apply Forall_app in Hne as [_ ?].
    + destruct Hsn as [pre ->]. by apply Forall_app in Hpos as [_ ?].
    + exists w'. split; [done|]. cbn in Hsent, Hlog.
      by rewrite Hsent, Hlog, <- !app_assoc.
Qed.
End connection_lemmas.

(** ** Termination *)

Definition recv_bytes (l : list recv_result) : bytes :=
  concat ((fun r => match r with RecvDone d => d | RecvFail _ => [] end) <$> l).

Definition pending (w : World) : nat := length (w_running w) + length (w_send w).

(** What bounds the bytes a connection may still buffer. *)
Definition buffered (buffer : bytes) (w : World) : Z := size buffer + size (recv_bytes (w_recv w)).

Lemma load_running_spec w :
  exists b w1, load_running w = (CRet b, w1) /\ w_send w1 = w_send w /\ w_recv w1 = w_recv w /\
    (length (w_running w1) <= length (w_running w))%nat /\
    (w_running w <> [] -> (length (w_running w1) < length (w_running w))%nat) /\
    (w_running w = [] -> b = true).
Proof.
  unfold load_running. destruct (w_running w) as [|b l] eqn:E; eexists _, _; split_and!; try done.
  - by rewrite E.
  - cbn. lia.
  - intros _. cbn. lia.
Qed.

(** The completions for which no exception leaves a child task. *)
Definition benign_recv (r : recv_result) : Prop :=
  match r with RecvFail code => code = ETIMEDOUT \/ code = ECANCELED | _ => True end.
Definition benign_send (r : send_result) : Prop :=
  match r with SendFail _ => False | _ => True end.

Definition proper {A} (r : cres A) : Prop :=
  match r with CRet _ | CSuspended => True | _ => False end.

Lemma read_request_ends fuel : forall buffer w,
  (length (w_recv w) < fuel)%nat -> buffered buffer w < 2 ^ 63 ->
  exists r w', read_request fuel buffer w = (r, w') /\ r <> CNoFuel /\
    w_send w' = w_send w /\ (pending w' <= pending w)%nat /\
    (length (w_recv w') <= length (w_recv w))%nat /\
    (Forall benign_recv (w_recv w) -> proper r /\ Forall benign_recv (w_recv w')) /\
    (forall o b', r = CRet (o, b') -> buffered b' w' <= buffered buffer w).
Proof.
  induction fuel as [|fuel IH]; intros buffer w Hfuel Hb; [lia|]. cbn [read_request].
  destruct (load_running_spec w) as (b & w1 & Hl & Hs & Hr & Hlen & _).
  rewrite (coro_bind_ret _ _ _ _ _ Hl).
  assert (Hp : (pending w1 <= pending w)%nat) by (unfold pending; rewrite Hs; lia).
  assert (Hb1 : forall b, buffered b w1 = buffered b w) by (intros; unfold buffered; by rewrite Hr).
  destruct b; cbn [negb].
  2: { eexists _, w1. split; [reflexivity|]. split_and!; [done|done|done|by rewrite Hr|by rewrite Hr|].
       intros o b' [= _ <-]. by rewrite Hb1. }
  assert (fits buffer) as Hf
    by (unfold fits, buffered in *; pose proof (size_nonneg (recv_bytes (w_recv w))); lia).
  destruct (try_parse_request_returns buffer Hf) as [x Hx].
  rewrite (coro_bind_ret _ _ w1 x w1) by (unfold clift; by rewrite Hx).
  destruct x as [p|].
  { eexists _, w1. split; [reflexivity|]. split_and!; [done|done|done|by rewrite Hr|by rewrite Hr|].
    intros o b' [= _ <-]. rewrite Hb1. unfold buffered, size. rewrite length_drop. lia. }
  unfold mbind, coro_bind, await_recv. rewrite Hr.
  destruct (w_recv w) as [|x l] eqn:Erecv.
  { eexists _, w1. split; [reflexivity|]. rewrite Hr. by split_and!. }
  set (w2 := mkWorld _ _ _ _ _ _ _ _).
  assert (Hw2 : w_send w2 = w_send w /\ (pending w2 <= pending w)%nat /\
                (length (w_recv w2) < length (x :: l))%nat)
    by (split_and!; [done|done|cbn; lia]).
  destruct Hw2 as (Hs2 & Hp2 & Hr2).
  assert (Hn2 : Forall benign_recv (x :: l) -> benign_recv x /\ Forall benign_recv (w_recv w2))
    by (intros H; by apply Forall_cons in H).
  assert (Hb2 : forall b, buffered b w2 <= buffered b w).
  { intros b. unfold buffered. rewrite Erecv. cbn. destruct x; cbn; rewrite ?size_app;
      pose proof (size_nonneg (recv_bytes l)); try pose proof (size_nonneg data); unfold recv_bytes in *; lia. }
  destruct x as [data|code].
  - case_if; zbool.
    + eexists _, w2. split; [reflexivity|]. split_and!; [done|done|done|lia|by intros []%Hn2|].
      intros o b' [= _ <-]. apply Hb2.
    + destruct (IH (buffer ++ data) w2) as (r & w' & -> & ? & ? & ? & ? & Hpr & Hc).
      * cbn in *. lia.
      * unfold buffered in *. rewrite Erecv in Hb. cbn in Hb |- *. rewrite size_app in *.
        unfold recv_bytes in *. lia.
      * exists r, w'. split_and!; [done|done|congruence|lia|lia|intros []%Hn2; auto|]. intros o b' Ho.
        specialize (Hc o b' Ho). unfold buffered in *. rewrite Erecv. cbn in Hc |- *.
        rewrite size_app in *. unfold recv_bytes in *. lia.
  - case_if.
    + eexists _, w2. split; [reflexivity|]. split_and!; [done|done|done|lia|by intros []%Hn2|].
      intros o b' [= _ <-]. apply Hb2.
    + eexists _, w2. split; [reflexivity|]. split_and!; [done|done|done|lia| |done].
      intros [Hc Hl2]%Hn2. exfalso. cbn in Hc. by destruct Hc as [-> | ->].
Qed.

Lemma write_all_ends fuel : forall payload offset w,
  (length (w_send w) < fuel)%nat ->
  exists r w', write_all fuel payload offset w = (r, w') /\ r <> CNoFuel /\
    w_recv w' = w_recv w /\ (pending w' <= pending w)%nat /\
    (Forall benign_send (w_send w) -> proper r /\ Forall benign_send (w_send w')) /\
    (offset < size payload -> r = CRet tt -> (pending w' < pending w)%nat).
Proof.
  induction fuel as [|fuel IH]; intros payload offset w Hfuel; [lia|]. cbn [write_all].
  case_if; zbool.
  2: { eexists _, w. split; [reflexivity|]. split_and!; [done|done|done|done|lia]. }
  destruct (load_running_spec w) as (b & w1 & Hl & Hs & Hr & Hlen & Hlt & Htrue).
  rewrite (coro_bind_ret _ _ _ _ _ Hl).
  assert (Hp : (pending w1 <= pending w)%nat) by (unfold pending; rewrite Hs; lia).
  destruct b; cbn [negb].
  2: { eexists _, w1. split; [reflexivity|]. split_and!; [done|done|done|by rewrite Hs|].
       intros _ _. assert (w_running w <> []) as Hne by (intros Hn; by specialize (Htrue Hn)).
       specialize (Hlt Hne). unfold pending. rewrite Hs. lia. }
  unfold mbind, coro_bind, await_send. destruct (w_send w1) as [|[n|code] l] eqn:El;
    rewrite <- Hs in Hfuel |- *.
  - eexists _, w1. split; [reflexivity|]. rewrite El. by split_and!.
  - set (w2 := mkWorld _ _ _ _ _ _ _ _).
    assert (Hp2 : (pending w2 < pending w)%nat) by (unfold pending; rewrite <- Hs; cbn in *; lia).
    case_if.
    + eexists _, w2. split; [reflexivity|]. split_and!; [done|done|lia| |done].
      by intros [_ ?]%Forall_cons.
    + edestruct (IH payload) as (r & w' & -> & ? & Hrv & ? & Hpr & _); [|exists r, w'; split_and!].
      * cbn in *. lia.
      * done.
      * done.
      * by rewrite Hrv.
      * etrans; [eassumption|]. fold w2. lia.
      * intros [_ ?]%Forall_cons. by apply Hpr.
      * intros _ _. eapply Nat.le_lt_trans; [eassumption|done].
  - eexists _, _. split; [reflexivity|]. split_and!; [done|done| |by intros [[] _]%Forall_cons|done].
    unfold pending. rewrite <- Hs. cbn. lia.
Qed.

Lemma to_wire_nonempty r : 0 < size (to_wire r).
Proof.
  rewrite to_wire_lines. unfold response_lines. rewrite lines_block_cons.
  rewrite !size_app. change (size crlf) with 2.
  repeat match goal with |- context [size ?x] =>
    lazymatch goal with H : 0 <= size x |- _ => fail | _ => pose proof (size_nonneg x) end end.
  lia.
Qed.

Lemma co_await_cases {A} (m : coro A) w r w' :
  m w = (r, w') -> r <> CNoFuel ->
  exists r', co_await m w = (r', w') /\ r' <> CNoFuel /\ (proper r -> r' = r) /\
    (forall a, r' = CRet a -> r = CRet a).
Proof.
  unfold co_await. intros ->. destruct r; intros Hr; eexists; (split; [reflexivity|]);
    split_and!; try done; intros; by cbn in *.
Qed.

Lemma connection_loop_ends fs docroot fuel : forall buffer w,
  (pending w + length (w_recv w) < fuel)%nat -> buffered buffer w < 2 ^ 63 ->
  exists r w', connection_loop fs docroot fuel buffer w = (r, w') /\ r <> CNoFuel /\
    (Forall benign_recv (w_recv w) -> Forall benign_send (w_send w) -> proper r).
Proof.
  induction fuel as [|fuel IH]; intros buffer w Hfuel Hb; [lia|]. cbn [connection_loop].
  destruct (load_running_spec w) as (b & w1 & Hl & Hs & Hr & Hlen & _).
  rewrite (coro_bind_ret _ _ _ _ _ Hl).
  assert (Hp1 : (pending w1 <= pending w)%nat) by (unfold pending; rewrite Hs; lia).
  destruct b; cbn [negb]; [|by eexists _, w1].
  destruct (read_request_ends (S fuel) buffer w1) as (r2 & w2 & H2 & Hn2 & Hs2 & Hp2 & Hr2 & Hpr2 & Hb2);
    [rewrite Hr; lia|unfold buffered in *; by rewrite Hr|].
  destruct (co_await_cases _ _ _ _ H2 Hn2) as (r2' & H2' & Hn2' & He2 & Hv2).
  unfold mbind at 1, coro_bind at 1. rewrite H2'.
  assert (Hpr : Forall benign_recv (w_recv w) -> proper r2' /\ Forall benign_recv (w_recv w2)).
  { rewrite <- Hr. intros [Hq ?]%Hpr2. by rewrite (He2 Hq). }
  destruct r2' as [[[rq|] b']|e| | |]; [|by eexists _, w2|..];
    try (eexists _, w2; split; [reflexivity|]; split; [done|]; by intros [? _]%Hpr _).
  specialize (Hv2 _ eq_refl). subst r2.
  unfold mbind at 1, coro_bind at 1. cbn [write_log]. set (w3 := mkWorld _ _ _ _ _ _ _ _).
  destruct (build_response_returns fs docroot rq) as [resp Hresp].
  unfold mbind at 1, coro_bind at 1, clift. rewrite Hresp.
  destruct (write_all_ends (S fuel) (to_wire resp) 0 w3) as (r4 & w4 & H4 & Hn4 & Hr4 & Hp4 & Hpr4 & Hlt4);
    [change (w_send w3) with (w_send w2); rewrite Hs2, Hs; unfold pending in *; lia|].
  destruct (co_await_cases _ _ _ _ H4 Hn4) as (r4' & H4' & Hn4' & He4 & Hv4).
  unfold mbind at 1, coro_bind at 1. rewrite H4'.
  assert (Hpq : Forall benign_send (w_send w) -> proper r4' /\ Forall benign_send (w_send w4)).
  { change (w_send w3) with (w_send w2) in Hpr4. rewrite Hs2, Hs in Hpr4.
    intros [Hq ?]%Hpr4. by rewrite (He4 Hq). }
  destruct r4' as [[]|e| | |]; [|eexists _, w4; split; [reflexivity|]; split; [done|]; by intros _ [? _]%Hpq..].
  specialize (Hv4 _ eq_refl). subst r4.
  case_if; [by eexists _, w4|]. pose proof (to_wire_nonempty resp) as Hpos.
  specialize (Hlt4 Hpos eq_refl). change (pending w3) with (pending w2) in Hlt4.
  change (w_recv w3) with (w_recv w2) in Hr4.
  destruct (IH b' w4) as (r & w' & Hc & Hn & Hq).
  - rewrite Hr4. rewrite Hr in Hr2. lia.
  - specialize (Hb2 _ _ eq_refl). unfold buffered in *. rewrite Hr in Hb2. rewrite Hr4. lia.
  - exists r, w'. split_and!; [done|done|]. rewrite Hr4 in Hq. intros [_ H3]%Hpr [_ H5]%Hpq. auto.
Qed.

(** ** A declared length that wraps to zero *)

Lemma connection_loop_repeats fs docroot head rest rq ns fuel w :
  fits (head ++ rest) -> try_parse_request (head ++ rest) = Ret (Some (mkParsed rq 0)) ->
  keep_alive rq = true -> size (wire_of fs docroot rq) < 2 ^ 32 ->
  w_running w = [] -> Forall (fun n => n = 2 ^ 32) ns -> w_send w = ready_sends ns ->
  Z.of_nat (length ns) + 2 + size (wire_of fs docroot rq) < Z.of_nat fuel ->
  exists w', connection_loop fs docroot fuel (head ++ rest) w = (CSuspended, w') /\
    w_recv w' = w_recv w /\
    w_sent w' = w_sent w ++ concat (replicate (length ns) (wire_of fs docroot rq)).
Proof.
  intros Hf Hp Hka H32. unfold wire_of in *.
  destruct (build_response_returns fs docroot rq) as [resp Hresp]. rewrite Hresp in *.
  pose proof (to_wire_nonempty resp) as Hpos.
  revert fuel w; induction ns as [|n ns IH]; intros fuel w Hrun Hns Hsend Hfuel;
    (destruct fuel as [|fuel]; [lia|]); cbn [connection_loop];
    rewrite (coro_bind_ret _ _ _ _ _ (load_running_true w Hrun)); cbn [negb];
    (rewrite (coro_bind_ret (co_await (read_request _ _)) _ w (Some rq, head ++ rest) w);
     [|apply co_await_ret; cbn [read_request];
       rewrite (coro_bind_ret _ _ _ _ _ (load_running_true w Hrun));
       cbn [negb]; unfold mbind, coro_bind, clift; by rewrite Hp]);
    unfold mbind at 1, coro_bind at 1; cbn [write_log]; set (w1 := mkWorld _ _ _ _ _ _ _ _);
    unfold mbind at 1, coro_bind at 1, clift; rewrite Hresp.
  - assert (Hsd : await_send (drop (Z.to_nat 0) (to_wire resp)) w1 = (CSuspended, w1))
      by (unfold await_send; change (w_send w1) with (w_send w); by rewrite Hsend).
    assert (Hwr : write_all (S fuel) (to_wire resp) 0 w1 = (CSuspended, w1)).
    { cbn [write_all]. rewrite (proj2 (Z.ltb_lt 0 _) Hpos).
      rewrite (coro_bind_ret _ _ _ _ _ (load_running_true w1 Hrun)). by apply coro_bind_suspended. }
    rewrite (coro_bind_suspended _ _ _ _ (co_await_suspended _ _ _ Hwr)).
    eexists. split; [reflexivity|]. cbn. by rewrite app_nil_r.
  - apply Forall_cons in Hns as [-> Hns].
    set (w2 := set_send w1 (ready_sends ns) (w_sent w ++ to_wire resp) (w_log w1)).
    assert (Hsd : await_send (drop (Z.to_nat 0) (to_wire resp)) w1 = (CRet (size (to_wire resp)), w2)).
    { unfold await_send. change (w_send w1) with (w_send w). rewrite Hsend. cbn [ready_sends fmap list_fmap].
      change (drop (Z.to_nat 0) ?l) with l. unfold u32. rewrite Z.mod_small, Z.min_r by lia.
      unfold w2, set_send. do 2 f_equal. unfold size. by rewrite Nat2Z.id, take_ge by lia. }
    destruct fuel as [|fuel]; [lia|].
    assert (Hwr : write_all (S (S fuel)) (to_wire resp) 0 w1 = (CRet tt, w2)).
    { cbn [write_all]. rewrite (proj2 (Z.ltb_lt 0 _) Hpos).
      rewrite (coro_bind_ret _ _ _ _ _ (load_running_true w1 Hrun)). cbn [negb].
      rewrite (coro_bind_ret _ _ _ _ _ Hsd), (proj2 (Z.leb_gt _ _)) by lia.
      by rewrite (proj2 (Z.ltb_ge _ _)) by lia. }
    rewrite (coro_bind_ret _ _ _ _ _ (co_await_ret _ _ _ _ Hwr)). rewrite Hka. cbn [negb].
    destruct (IH (S fuel) w2) as (w' & -> & Hrv & Hst);
      [done..|cbn [length] in Hfuel; lia|].
    exists w'. split_and!; [done|done|]. rewrite Hst. cbn. by rewrite <- app_assoc.
Qed.

(** ** Accepting *)

Lemma accept_loop_round_robin workers fds fuel w :
  w_running w = [] -> w_accept w = AcceptDone <$> fds -> Forall (fun fd => 0 <= fd) fds ->
  (length fds < fuel)%nat -> 0 <= w_next_worker w < 2 ^ 64 ->
  exists w', accept_loop fuel workers w = (CSuspended, w') /\
    w_next_worker w' = u64 (w_next_worker w + Z.of_nat (length fds)) /\
    w_posts w' = w_posts w ++
      imap (fun i fd => (u64 (w_next_worker w + Z.of_nat i) mod workers, fd)) fds.
Proof.
  revert fuel w; induction fds as [|fd fds IH]; intros fuel w Hrun Hacc Hpos Hfuel Hn;
    (destruct fuel as [|fuel]; [lia|]); cbn [accept_loop];
    rewrite (coro_bind_ret _ _ _ _ _ (load_running_true w Hrun)); cbn [negb];
    unfold accept_once, accept_try, ccatch; unfold mbind at 1, coro_bind at 1;
    unfold mbind at 1, coro_bind at 1, await_accept; rewrite Hacc; cbn [fmap list_fmap].
  - exists w. cbn. rewrite Z.add_0_r, u64_small, app_nil_r by done. done.
  - apply Forall_cons in Hpos as [Hfd Hpos]. rewrite (proj2 (Z.ltb_ge _ _)) by lia.
    unfold mbind, coro_bind, write_log, post_to_worker. cbn -[accept_loop u64].
    match goal with |- context [accept_loop fuel workers ?x] => set (w1 := x) end.
    destruct (IH fuel w1) as (w' & -> & Hnw & Hps);
      [done|done|done|cbn in Hfuel; lia|apply u64_range|].
    exists w'. split_and!; [done|..].
    + rewrite Hnw. cbn [w_next_worker w1 length]. unfold u64.
      rewrite Zplus_mod_idemp_l. f_equal. lia.
    + rewrite Hps. cbn [w_posts w_next_worker w1 imap]. rewrite <- app_assoc. cbn [app].
      rewrite Z.add_0_r, (u64_small (w_next_worker w)) by done. do 2 f_equal.
      apply imap_ext. intros i x _. cbn. f_equal. f_equal. unfold u64.
      rewrite Zplus_mod_idemp_l. f_equal. lia.
Qed.

(** * Properties *)

(** C4: a connection answers its byte stream. On a running server whose sends
    make progress, whatever chunks the peer's bytes arrive in, the connection
    coroutine ends normally (when the peer closes or a request does not keep
    the connection alive) and has sent exactly the answers to the requests of
    the stream, in order, and logged each of them once. *)
Theorem connection_answers_stream fs docroot l chunks ns fuel fd w :
  serves (concat chunks) l -> 0 <= fd ->
  w_running w = [] -> w_recv w = ready_recvs chunks -> Forall (fun c => c <> []) chunks ->
  w_send w = ready_sends ns -> Forall (fun n => 0 < n) ns -> fits (concat chunks) ->
  Forall (fun rq => size (wire_of fs docroot rq) < 2 ^ 32) l ->
  size (answers fs docroot l) <= Z.of_nat (length ns) ->
  Z.of_nat (length chunks) + size (answers fs docroot l) + Z.of_nat (length l) < Z.of_nat fuel ->
  exists w', handle_connection fs docroot fuel (mkUniqueFd fd false) w = (CRet tt, w') /\
    w_sent w' = w_sent w ++ answers fs docroot l /\
    w_log w' = w_log w ++ (log_request <$> l).
Proof.
  intros Hl Hfd Hrun Hrecv Hne Hsend Hpos Hf H32 Hns Hfuel.
  destruct (connection_loop_serves fs docroot l _ Hl fuel chunks ns w [])
    as (w' & Hw & H); [done..|].
  exists w'. split; [|done]. unfold handle_connection, ccatch, fd_valid. cbn [fd_].
  by rewrite (proj2 (Z.leb_le _ _) Hfd), Hw.
Qed.

(** Two chunks that cut a request in its header name, then the peer closes. *)
Definition two_chunks : list bytes :=
  [lit "GET /hello HTTP/1.0" ++ crlf ++ lit "Ho"; lit "st: a" ++ crlf ++ crlf].
Definition hello_request : HttpRequest :=
  mkRequest (lit "GET") (lit "/hello") (lit "HTTP/1.0") {[ lit "host" := lit "a" ]} [].
Definition two_chunk_world : World :=
  mkWorld [] (ready_recvs two_chunks) (ready_sends (replicate 200 100)) [] [] [] 0 [].

Lemma two_chunks_serve : serves (concat two_chunks) [hello_request].
Proof.
  apply (serves_last _ (mkParsed hello_request 32)).
  - apply head_small_compute. vm_compute. reflexivity.
  - vm_compute. reflexivity.
  - vm_compute. reflexivity.
Qed.

Lemma connection_answers_stream_witness :
  exists w', handle_connection no_files (lit "/srv") 400 (mkUniqueFd 7 false) two_chunk_world
             = (CRet tt, w') /\
    w_sent w' = [] ++ answers no_files (lit "/srv") [hello_request] /\
    w_log w' = [] ++ (log_request <$> [hello_request]).
Proof.
  apply (connection_answers_stream no_files (lit "/srv") [hello_request] two_chunks
           (replicate 200 100) 400 7 two_chunk_world two_chunks_serve);
    [lia|reflexivity|reflexivity|by repeat constructor|reflexivity|by apply Forall_replicate
    |vm_compute; reflexivity|by repeat constructor|vm_compute; discriminate|vm_compute; reflexivity].
Defined.

(** C29: termination. While no receive fails with an error other than a
    timeout or a cancellation and no send fails, [handle_connection] returns or
    stays suspended on an awaited operation, however [running_] changes, the
    bytes are cut and the sends are shortened; the number of loads of
    [running_] and of completions to come is enough fuel. *)
Theorem handle_connection_ends fs docroot client fuel w :
  (length (w_running w) + length (w_send w) + length (w_recv w) < fuel)%nat ->
  size (recv_bytes (w_recv w)) < 2 ^ 63 ->
  Forall benign_recv (w_recv w) -> Forall benign_send (w_send w) ->
  (exists w', handle_connection fs docroot fuel client w = (CRet tt, w')) \/
  (exists w', handle_connection fs docroot fuel client w = (CSuspended, w')).
Proof.
  intros Hfuel Hb Hrb Hsb. unfold handle_connection, ccatch.
  destruct (fd_valid client).
  2: { left. unfold mbind, coro_bind, load_running. destruct (w_running w); by eexists. }
  destruct (connection_loop_ends fs docroot fuel [] w) as (r & w' & -> & _ & Hr);
    [unfold pending; lia|by unfold buffered|].
  specialize (Hr Hrb Hsb). destruct r as [[]|e| | |]; [left; by eexists|done|done|right; by eexists|done].
Qed.

Definition stopping_world : World :=
  mkWorld [true; true; false] [RecvDone (lit "GET"); RecvFail 110] [SendUpTo 4] [] [] [] 0 [].

Lemma handle_connection_ends_witness :
  (exists w', handle_connection no_files (lit "/srv") 7 (mkUniqueFd 7 false) stopping_world = (CRet tt, w')) \/
  (exists w', handle_connection no_files (lit "/srv") 7 (mkUniqueFd 7 false) stopping_world = (CSuspended, w')).
Proof.
  apply handle_connection_ends; [cbn; lia|vm_compute; reflexivity| |by repeat constructor].
  repeat constructor.
Defined.

(** C39: a reset connection is a use after free. When a receive fails with any
    error but a timeout or a cancellation (a peer that resets the connection)
    before a whole request was received, the exception leaves [read_request]
    and [handle_connection] reads it from the frame it has just destroyed; the
    handler of [handle_connection] is not reached and nothing is logged. *)
Theorem connection_reset_use_after_free fs docroot chunks code rest fuel fd w :
  0 <= fd -> w_running w = [] -> w_recv w = (RecvDone <$> chunks) ++ RecvFail code :: rest ->
  Forall (fun c => c <> []) chunks -> fits (concat chunks) -> head_small (concat chunks) ->
  try_parse_request (concat chunks) = Ret None ->
  code <> ETIMEDOUT -> code <> ECANCELED -> (length chunks < fuel)%nat ->
  exists w', handle_connection fs docroot fuel (mkUniqueFd fd false) w = (CUndefined, w') /\
    w_log w' = w_log w.
Proof.
  intros Hfd Hrun Hrecv Hne Hf Hs Hp Ht Hc Hfuel. exists (set_recv w rest). split; [|done].
  unfold handle_connection, ccatch, fd_valid. cbn [fd_]. rewrite (proj2 (Z.leb_le _ _) Hfd).
  destruct fuel as [|fuel]; [lia|]. cbn [connection_loop].
  rewrite (coro_bind_ret _ _ _ _ _ (load_running_true w Hrun)). cbn [negb].
  unfold mbind at 1, coro_bind at 1, co_await at 1.
  by rewrite (read_request_throws (S fuel) chunks code rest w []) by done.
Qed.

(** A part of a request, then ECONNRESET. *)
Lemma connection_reset_use_after_free_witness :
  exists w', handle_connection no_files (lit "/srv") 3 (mkUniqueFd 7 false)
      (mkWorld [] [RecvDone (lit "GET / HT"); RecvFail 104] [] [] [] [] 0 []) = (CUndefined, w') /\
    w_log w' = [].
Proof.
  apply (connection_reset_use_after_free no_files (lit "/srv") [lit "GET / HT"] 104 [] 3 7); cycle 5.
  - intros m t v hs n Hh. exfalso. apply Hh. vm_compute. reflexivity.
  - vm_compute. reflexivity.
  - done.
  - done.
  - cbn. lia.
  - lia.
  - done.
  - done.
  - by apply Forall_singleton.
  - vm_compute. reflexivity.
Defined.

(** [write_all] never sends anything but a prefix of its payload, whatever
    the completions (partial sends, failures, a server being stopped). *)
Theorem write_all_sends_prefix fuel payload w r w' :
  write_all fuel payload 0 w = (r, w') ->
  exists done_, w_sent w' = w_sent w ++ done_ /\ done_ `prefix_of` payload.
Proof.
  intros Hw. apply write_all_prefix in Hw as (d & Hd & Hp & _); [by exists d|].
  pose proof (size_nonneg payload). lia.
Qed.

Lemma write_all_sends_prefix_witness :
  exists r w', write_all 5 (lit "abc") 0 (mkWorld [] [] [SendUpTo 2; SendFail 32] [] [] [] 0 []) = (r, w') /\
  exists done_, w_sent w' = [] ++ done_ /\ done_ `prefix_of` lit "abc".
Proof.
  eexists _, _. split; [reflexivity|].
  eapply (write_all_sends_prefix 5 (lit "abc") (mkWorld [] [] [SendUpTo 2; SendFail 32] [] [] [] 0 [])).
  reflexivity.
Defined.

(** One request, unbounded answers. When the declared length wraps so that
    a request consumes nothing, a keep-alive connection answers that same
    request once per completed send, for as long as the kernel takes bytes and
    without receiving anything more. *)
Theorem wrapped_length_answers_forever fs docroot m t v hs rest n fuel w :
  let head := render_request m t v hs [] in
  let rq := mkRequest m (strip_query t) v (header_map hs) rest in
  token m -> token t -> token v -> Forall header_ok hs -> fits (head ++ rest) ->
  content_length (header_map hs) = Some (2 ^ 64 - size head) -> keep_alive rq = true ->
  size (wire_of fs docroot rq) < 2 ^ 32 ->
  w_running w = [] -> w_send w = ready_sends (replicate n (2 ^ 32)) ->
  Z.of_nat n + 2 + size (wire_of fs docroot rq) < Z.of_nat fuel ->
  exists w', connection_loop fs docroot fuel (head ++ rest) w = (CSuspended, w') /\
    w_recv w' = w_recv w /\
    w_sent w' = w_sent w ++ concat (replicate n (wire_of fs docroot rq)).
Proof.
  intros head rq Hm Ht Hv Hhs Hf Hcl Hka H32 Hrun Hsend Hfuel.
  pose proof (try_parse_wrapping m t v hs rest Hm Ht Hv Hhs _ Hf Hcl) as Hp. fold head in Hp.
  pose proof (size_nonneg head). pose proof (size_nonneg rest).
  replace (size head + (2 ^ 64 - size head) - 2 ^ 64) with 0 in Hp by lia.
  destruct (connection_loop_repeats fs docroot head rest rq (replicate n (2 ^ 32)) fuel w)
    as (w' & Hw & Hr & Hs); try done.
  - apply Hp; lia.
  - by apply Forall_replicate.
  - by rewrite length_replicate.
  - exists w'. by rewrite length_replicate in Hs.
Qed.

Lemma wrapped_length_answers_forever_witness :
  exists w', connection_loop no_files (lit "/srv") 300
      (render_request (lit "GET") (lit "/") (lit "HTTP/1.1") wrap_headers [] ++ lit "x")
      (mkWorld [] [] (ready_sends (replicate 3 (2 ^ 32))) [] [] [] 0 []) = (CSuspended, w') /\
    w_recv w' = [] /\
    w_sent w' = [] ++ concat (replicate 3 (wire_of no_files (lit "/srv")
      (mkRequest (lit "GET") (strip_query (lit "/")) (lit "HTTP/1.1") (header_map wrap_headers) (lit "x")))).
Proof.
  apply (wrapped_length_answers_forever no_files (lit "/srv") (lit "GET") (lit "/") (lit "HTTP/1.1")
           wrap_headers (lit "x") 3);
    [solve_token..| |vm_compute; reflexivity|vm_compute; reflexivity|vm_compute; reflexivity|
     vm_compute; reflexivity|reflexivity|reflexivity|vm_compute; reflexivity].
  repeat constructor; by apply (bool_decide_unpack _).
Defined.

(** Round robin. The accept loop posts the [i]-th accepted descriptor to
    worker [(next_worker + i) mod 2^64 mod workers], each exactly once and in
    order, and waits for the next connection. *)
Theorem accept_loop_distributes workers fds fuel w :
  w_running w = [] -> w_accept w = AcceptDone <$> fds -> Forall (fun fd => 0 <= fd) fds ->
  (length fds < fuel)%nat -> 0 <= w_next_worker w < 2 ^ 64 ->
  exists w', accept_loop fuel workers w = (CSuspended, w') /\
    w_posts w' = w_posts w ++
      imap (fun i fd => (u64 (w_next_worker w + Z.of_nat i) mod workers, fd)) fds.
Proof.
  intros. destruct (accept_loop_round_robin workers fds fuel w) as (w' & ? & ? & ?); [done..|].
  by exists w'.
Qed.

Lemma accept_loop_distributes_witness :
  exists w', accept_loop 5 2 (mkWorld [] [] [] (AcceptDone <$> [5; 6; 7]) [] [] 0 []) = (CSuspended, w') /\
    w_posts w' = [] ++ imap (fun i fd => (u64 (0 + Z.of_nat i) mod 2, fd)) [5; 6; 7].
Proof.
  apply (accept_loop_distributes 2 [5; 6; 7]); [done|done|repeat constructor; lia|cbn; lia|cbn; lia].
Defined.
