(* ===== verification/WebBenchSpec.v ===== *)
(** * WebBenchSpec: the load generator against the coroutine server

    The request [build_request] of webbench.c writes is, for HTTP/1.0 and
    HTTP/1.1 without a proxy, what the reference printer of RequestSpec prints,
    so [try_parse_request] reads it back, and a connection of the server answers
    every round of a child.  In this file [method], [keep_alive] and [request]
    are the server's; those of the load generator are qualified. *)

From S2P Require Import WebBench BenchCore HttpConnection.

(** ** What the load generator means to ask *)

Definition client_version (g : globals) : bytes :=
  if http10 g =? 2 then lit "HTTP/1.1" else lit "HTTP/1.0".

Definition connection_value (g : globals) : bytes :=
  if WebBench.keep_alive g then lit "Keep-Alive" else lit "close".

Definition client_headers (h : bytes) (g : globals) : list (bytes * bytes) :=
  [(lit "User-Agent", lit "WebBench 1.5"); (lit "Host", h)] ++
  (if http10 g =? 2 then [(lit "Connection", connection_value g)] else []).

Definition client_request (u : url_parts) (g : globals) : HttpRequest :=
  mkRequest (method_name (WebBench.method g)) (strip_query (url_path u)) (client_version g)
    (header_map (client_headers (url_host u) g)) [].

(** The URLs whose path is one token and whose host name is a header value. *)
Definition url_plain (u : url_parts) : Prop :=
  (SP ∉ url_path u) /\ (CR ∉ url_path u) /\ (CR ∉ url_host u).

Definition versioned (g : globals) : Prop := http10 g = 1 \/ http10 g = 2.

(** * Lemmas *)

Lemma request_text_renders u g :
  versioned g -> proxyhost g = None ->
  request_text u g
  = render_request (method_name (WebBench.method g)) (url_path u) (client_version g)
      (client_headers (url_host u) g) [].
Proof.
  intros Hv Hp. unfold request_text, request_target, version_text, headers_text, host_text,
    client_version, client_headers, connection_value, render_request, request_line_of.
  rewrite Hp. cbn [bool_decide decide_rel]. rewrite !bool_decide_eq_true_2 by done.
  rewrite (bool_decide_eq_false_2 (is_Some None)) by (by intros []). rewrite andb_false_r.
  destruct Hv as [-> | ->]; [|destruct (WebBench.keep_alive g)]; cbn;
    rewrite <- ?app_assoc; cbn; rewrite <- ?app_assoc; reflexivity.
Qed.

Lemma method_token m : token (method_name m).
Proof. unfold method_name, token. repeat case_if; split_and!; try done; by apply (bool_decide_unpack _). Qed.

Lemma version_token g : token (client_version g).
Proof. unfold client_version, token. case_if; split_and!; try done; by apply (bool_decide_unpack _). Qed.

Lemma path_token u : url_ok u -> url_plain u -> token (url_path u).
Proof.
  intros (_ & _ & _ & _ & (path & Hp) & _) (Hs & Hc & _). split_and!; [by rewrite Hp|done|done].
Qed.

Lemma client_headers_ok u g : url_plain u -> Forall header_ok (client_headers (url_host u) g).
Proof.
  intros (_ & _ & Hc). unfold client_headers, connection_value.
  repeat constructor; cbn; try done; try (by apply (bool_decide_unpack _)).
  destruct (http10 g =? 2); repeat constructor; cbn; try case_if; by apply (bool_decide_unpack _).
Qed.

Lemma client_header_map h g :
  header_map (client_headers h g)
  = (if http10 g =? 2 then <[lit "connection" := connection_value g]> else id)
      (<[lit "host" := trim h]> {[lit "user-agent" := lit "WebBench 1.5"]}).
Proof.
  unfold header_map, client_headers, add_header. cbn [fold_left app fst snd].
  change (to_lower (trim (lit "User-Agent"))) with (lit "user-agent").
  change (to_lower (trim (lit "Host"))) with (lit "host").
  change (trim (lit "WebBench 1.5")) with (lit "WebBench 1.5").
  unfold emplace at 2 3. rewrite lookup_empty. rewrite lookup_insert_ne, lookup_empty by done.
  destruct (http10 g =? 2); cbn [fold_left fst snd]; [|done].
  change (to_lower (trim (lit "Connection"))) with (lit "connection").
  assert (Ht : trim (connection_value g) = connection_value g)
    by (unfold connection_value; by case_if).
  rewrite Ht. unfold emplace. rewrite !lookup_insert_ne, lookup_empty by done. done.
Qed.

Lemma client_content_length h g : content_length (header_map (client_headers h g)) = Some 0.
Proof.
  unfold content_length. rewrite client_header_map.
  assert (Hl : forall m : gmap bytes bytes, m !! lit "content-length" = None ->
    ((if http10 g =? 2 then <[lit "connection" := connection_value g]> else id) m) !! lit "content-length" = None).
  { intros m Hm. case_if; [|done]. by rewrite lookup_insert_ne. }
  rewrite Hl; [done|]. rewrite !lookup_insert_ne by done. by rewrite lookup_singleton_ne.
Qed.

(** The server keeps the connection exactly when [-k] was given with HTTP/1.1. *)
Lemma client_request_keep_alive u g :
  keep_alive (client_request u g) = (http10 g =? 2) && WebBench.keep_alive g.
Proof.
  unfold keep_alive, client_request. cbn [headers version]. rewrite client_header_map.
  unfold client_version, connection_value. destruct (http10 g =? 2).
  - rewrite lookup_insert_eq. by destruct (WebBench.keep_alive g).
  - unfold id. rewrite lookup_insert_ne, lookup_singleton_ne by done. done.
Qed.

Section client.
Context (u : url_parts) (g : globals).
Hypothesis Hu : url_ok u.
Hypothesis Hplain : url_plain u.
Hypothesis Hv : versioned g.
Hypothesis Hp : proxyhost g = None.

Lemma client_text_parses rest :
  fits (request_text u g ++ rest) ->
  try_parse_request (request_text u g ++ rest)
  = Ret (Some (mkParsed (client_request u g) (size (request_text u g)))).
Proof.
  rewrite request_text_renders by done. intros Hf. apply try_parse_rendered.
  - apply method_token.
  - by apply path_token.
  - apply version_token.
  - by apply client_headers_ok.
  - unfold render_request in Hf. by rewrite <- !app_assoc in Hf.
  - apply client_content_length.
Qed.

Lemma client_text_small rest : fits (request_text u g ++ rest) -> head_small (request_text u g ++ rest).
Proof.
  rewrite request_text_renders by done. unfold render_request. rewrite <- !app_assoc.
  intros Hf m t v hs n Hn.
  pose proof (rendered_header_end (method_name (WebBench.method g)) (url_path u) (client_version g)
    (client_headers (url_host u) g) [] rest (method_token _) (path_token u Hu Hplain)
    (version_token g) (client_headers_ok u g Hplain)) as He.
  pose proof (rendered_head (method_name (WebBench.method g)) (url_path u) (client_version g)
    (client_headers (url_host u) g) [] rest (method_token _) (path_token u Hu Hplain)
    (version_token g) (client_headers_ok u g Hplain) Hf) as Hh.
  rewrite He, Hh. intros [= <- <- <- <-]. rewrite client_content_length. intros [= <-]. lia.
Qed.

(** The stream of [n] rounds of a child that keeps its connection. *)
Lemma client_rounds_serve n :
  keep_alive (client_request u g) = true \/ n = 1%nat ->
  fits (concat (replicate n (request_text u g))) ->
  serves (concat (replicate n (request_text u g))) (replicate n (client_request u g)).
Proof.
  intros Hk. destruct (keep_alive (client_request u g)) eqn:Eka.
  - clear Hk. induction n as [|n IH]; cbn [replicate concat]; intros Hf.
    + apply serves_end; [|by vm_compute]. intros m t v hs k Hn. by destruct Hn.
    + pose proof (client_text_parses _ Hf) as Hpar.
      apply (serves_more _ _ _ (client_text_small _ Hf) Hpar Eka).
      cbn [consumed]. rewrite drop_size_app. apply IH. by eapply fits_app_r.
  - destruct Hk as [Hk| ->]; [done|]. cbn [replicate concat]. intros Hf.
    apply (serves_last _ _ (client_text_small _ Hf) (client_text_parses _ Hf) Eka).
Qed.
End client.

Lemma concat_wires fs docroot n rq :
  answers fs docroot (replicate n rq) = concat (replicate n (wire_of fs docroot rq)).
Proof. unfold answers. by rewrite fmap_replicate. Qed.

(** * Properties *)

(** C7: composition of the load generator with the coroutine server. For every
    plain URL that fits the buffers, without a proxy and with HTTP/1.0 or 1.1,
    [build_request] succeeds, and a connection that carries [n] copies of the
    string it left in [request] (one copy unless the child asked to keep the
    connection), cut into chunks in any way, is answered by the server with
    exactly [n] times its response to the request the user asked for. *)
Theorem webbench_rounds_answered u g0 fs docroot :
  url_ok u -> url_fits u -> url_plain u -> proxyhost g0 = None ->
  let g := adjust_version g0 in
  let rq := client_request u g in
  versioned g ->
  exists req hst text,
    build_request (url_text u) g0 = Ret (Goes (built u g0 req hst)) /\ CString.c_str req = Ret text /\
    forall n chunks ns fuel fd w,
      (http10 g = 2 /\ WebBench.keep_alive g = true) \/ n = 1%nat ->
      concat chunks = concat (replicate n text) -> fits (concat chunks) -> 0 <= fd ->
      w_running w = [] -> w_recv w = ready_recvs chunks -> Forall (fun c => c <> []) chunks ->
      w_send w = ready_sends ns -> Forall (fun n => 0 < n) ns ->
      size (wire_of fs docroot rq) < 2 ^ 32 ->
      Z.of_nat n * size (wire_of fs docroot rq) <= Z.of_nat (length ns) ->
      Z.of_nat (length chunks) + Z.of_nat n * size (wire_of fs docroot rq) + Z.of_nat n < Z.of_nat fuel ->
      exists w', handle_connection fs docroot fuel (mkUniqueFd fd false) w = (CRet tt, w') /\
        w_sent w' = w_sent w ++ concat (replicate n (wire_of fs docroot rq)) /\
        w_log w' = w_log w ++ replicate n (log_request rq).
Proof.
  intros Hu Hf Hpl Hp g rq Hv.
  destruct (build_request_ok u g0 Hu ltac:(by intros _)) as (req & hst & E & Hr & _). fold g in Hr.
  exists req, hst, (request_text u g). split_and!; [done|by eapply holds_c_str|].
  intros n chunks ns fuel fd w Hk Hc Hfit Hfd Hrun Hrecv Hne Hsend Hpos H32 Hns Hfuel.
  assert (Hp' : proxyhost g = None) by (unfold g; by rewrite adjusted_proxyhost).
  assert (Hserves : serves (concat chunks) (replicate n rq)).
  { rewrite Hc in Hfit |- *. apply client_rounds_serve; try done.
    destruct Hk as [[H2 Hka]|]; [left|by right].
    by rewrite client_request_keep_alive, H2, Hka. }
  assert (Hsz : size (answers fs docroot (replicate n rq)) = Z.of_nat n * size (wire_of fs docroot rq)).
  { rewrite concat_wires. clear. induction n as [|n IH]; [done|].
    cbn [replicate concat]. rewrite size_app, IH. lia. }
  destruct (connection_loop_serves fs docroot _ _ Hserves fuel chunks ns w [])
    as (w' & Hw & Hs & Hl); [done..|by apply Forall_replicate|by rewrite Hsz| |].
  { rewrite Hsz, length_replicate. lia. }
  exists w'. rewrite concat_wires in Hs. rewrite fmap_replicate in Hl. split; [|done].
  unfold handle_connection, ccatch, fd_valid. cbn [fd_].
  by rewrite (proj2 (Z.leb_le _ _) Hfd), Hw.
Qed.

Definition kept_globals : globals := set_keep_alive true (set_http10 2 initial_globals).

Lemma webbench_rounds_answered_witness :
  let rq := client_request sample_url (adjust_version kept_globals) in
  exists req hst text,
    build_request (url_text sample_url) kept_globals = Ret (Goes (built sample_url kept_globals req hst)) /\
    CString.c_str req = Ret text /\
    forall n chunks ns fuel fd w,
      (http10 (adjust_version kept_globals) = 2 /\ WebBench.keep_alive (adjust_version kept_globals) = true)
        \/ n = 1%nat ->
      concat chunks = concat (replicate n text) -> fits (concat chunks) -> 0 <= fd ->
      w_running w = [] -> w_recv w = ready_recvs chunks -> Forall (fun c => c <> []) chunks ->
      w_send w = ready_sends ns -> Forall (fun n => 0 < n) ns ->
      size (wire_of no_files (lit "/srv") rq) < 2 ^ 32 ->
      Z.of_nat n * size (wire_of no_files (lit "/srv") rq) <= Z.of_nat (length ns) ->
      Z.of_nat (length chunks) + Z.of_nat n * size (wire_of no_files (lit "/srv") rq) + Z.of_nat n
        < Z.of_nat fuel ->
      exists w', handle_connection no_files (lit "/srv") fuel (mkUniqueFd fd false) w = (CRet tt, w') /\
        w_sent w' = w_sent w ++ concat (replicate n (wire_of no_files (lit "/srv") rq)) /\
        w_log w' = w_log w ++ replicate n (log_request rq).
Proof.
  apply (webbench_rounds_answered sample_url kept_globals no_files (lit "/srv")).
  - unfold url_ok. split_and!; try by apply (bool_decide_unpack _). by exists (lit "a?b").
  - split; cbn; unfold MAXHOSTNAMELEN; lia.
  - split_and!; by apply (bool_decide_unpack _).
  - reflexivity.
  - right. reflexivity.
Defined.

(** A request in the style of HTTP/0.9 has no empty line: neither a request nor
    an error to the coroutine server, which waits for more. *)
Theorem http09_is_never_a_request u g :
  url_ok u -> url_plain u -> proxyhost g = None -> http10 g = 0 ->
  try_parse_request (request_text u g) = Ret None.
Proof.
  intros Hu (_ & Hc & _) Hp H0. unfold try_parse_request.
  assert (Ht : request_text u g = (method_name (WebBench.method g) ++ lit " " ++ url_path u) ++ crlf).
  { unfold request_text, request_target, version_text, headers_text, host_text.
    rewrite Hp, H0. rewrite (bool_decide_eq_false_2 (is_Some None)) by (by intros []).
    rewrite !andb_false_r. cbn -[method_name].
    by rewrite ?app_nil_r, <- app_assoc. }
  rewrite Ht. set (line := method_name _ ++ _ ++ _).
  assert (Hl : CR ∉ line).
  { unfold line. rewrite !not_elem_of_app. split_and!; [apply method_token| |done].
    by apply (bool_decide_unpack _). }
  assert (Hn : find header_terminator (line ++ crlf) 0 = npos).
  { unfold find. rewrite (proj2 (Z.ltb_ge _ _)) by apply size_nonneg.
    change (drop (Z.to_nat 0) (line ++ crlf)) with (line ++ crlf). unfold header_terminator.
    rewrite find_sub_skip by done. done. }
  rewrite Hn. by rewrite Z.eqb_refl.
Qed.
