(* ===== verification/LogQueue.v ===== *)
(** * LogQueue: the bounded queue of coroutineWebServer/AsyncLogger.cpp

    [LogQueue::push] and [LogQueue::pop] as one atomic access per step, run by
    any number of threads.  A load returns some value the counter has had
    ([may_load]), which covers the relaxed and acquire orders of the source:
    the counters only grow, and the read-modify-write operations act on the
    last value.  Counters are [std::size_t] with their wrap-around; the
    difference of two counters is a signed subtraction that can overflow. *)

From stdpp Require Import functions.
From S2P Require Export CxxString.

(** ** Data *)

(** A [std::shared_ptr<std::string>] is [None] when it is null. *)
Abbreviation entry_ptr := (option bytes).

Record Slot := mkSlot { sequence : Z; payload : entry_ptr }.

Record LogQueue := mkQueue {
  slots : list Slot;
  mask : Z;
  head : Z;
  tail : Z
}.

(** The constructor; allocation is assumed to succeed. *)
Definition new_queue (capacity : Z) : outcome LogQueue :=
  if (capacity =? 0) || negb (Z.land capacity (u64 (capacity - 1)) =? 0) then
    Throw invalid_argument
  else
    Ret (mkQueue ((fun i => mkSlot (Z.of_nat i) None) <$> seq 0 (Z.to_nat capacity))
                 (u64 (capacity - 1)) 0 0).

(** [slots_[pos & mask_]] *)
Definition slot_index (q : LogQueue) (pos : Z) : nat := Z.to_nat (Z.land pos (mask q)).
Definition slot_of (q : LogQueue) (pos : Z) : option Slot := slots q !! slot_index q pos.

(** [static_cast<intptr_t>(seq) - static_cast<intptr_t>(pos)]; [None] when the
    subtraction overflows. *)
Definition distance (seq pos : Z) : option Z :=
  let d := i64 seq - i64 pos in
  if (- 2 ^ 63 <=? d) && (d <? 2 ^ 63) then Some d else None.

Definition set_tail (q : LogQueue) (v : Z) : LogQueue :=
  mkQueue (slots q) (mask q) (head q) v.
Definition set_head (q : LogQueue) (v : Z) : LogQueue :=
  mkQueue (slots q) (mask q) v (tail q).
Definition set_slot (q : LogQueue) (pos : Z) (s : Slot) : LogQueue :=
  mkQueue (<[slot_index q pos := s]> (slots q)) (mask q) (head q) (tail q).

(** ** The program counter of a thread inside [push] or [pop] *)

Inductive pc :=
  | Idle
  | PushTop (entry : entry_ptr) (pos : Z)      (** at the top of the loop *)
  | PushCas (entry : entry_ptr) (pos : Z)      (** [diff == 0] *)
  | PushReload (entry : entry_ptr)             (** [diff > 0] *)
  | PushPayload (entry : entry_ptr) (pos : Z)  (** before [payload.store] *)
  | PushSequence (pos : Z)                     (** before [sequence.store] *)
  | PushReturned (result : bool)
  | PopTop (pos : Z)
  | PopCas (pos : Z)
  | PopReload
  | PopPayload (pos : Z)                       (** before [payload.exchange] *)
  | PopSequence (entry : entry_ptr) (pos : Z)  (** before [sequence.store] *)
  | PopReturned (result : bool) (entry : entry_ptr)
  | Undefined.

(** The counter the next step of [c] loads, if it loads one. *)
Definition loaded_counter (q : LogQueue) (c : pc) : Z :=
  match c with
  | PushTop _ pos | PopTop pos => from_option sequence 0 (slot_of q pos)
  | PushCas _ _ | PushReload _ => tail q
  | PopCas _ | PopReload => head q
  | _ => 0
  end.

(** One atomic step inside [push] or [pop]: [v] is the value of the load,
    [spurious] that [compare_exchange_weak] fails on equal values. *)
Definition thread_step (q : LogQueue) (c : pc) (v : Z) (spurious : bool) : LogQueue * pc :=
  match c with
  | PushTop e pos =>
      match slot_of q pos, distance v pos with
      | Some _, Some diff =>
          (q, if diff =? 0 then PushCas e pos
              else if diff <? 0 then PushReturned false else PushReload e)
      | _, _ => (q, Undefined)
      end
  | PushCas e pos =>
      if (tail q =? pos) && negb spurious then (set_tail q (u64 (pos + 1)), PushPayload e pos)
      else (q, PushTop e v)
  | PushReload e => (q, PushTop e v)
  | PushPayload e pos =>
      match slot_of q pos with
      | Some s => (set_slot q pos (mkSlot (sequence s) e), PushSequence pos)
      | None => (q, Undefined)
      end
  | PushSequence pos =>
      match slot_of q pos with
      | Some s => (set_slot q pos (mkSlot (u64 (pos + 1)) (payload s)), PushReturned true)
      | None => (q, Undefined)
      end
  | PopTop pos =>
      match slot_of q pos, distance v (u64 (pos + 1)) with
      | Some _, Some diff =>
          (q, if diff =? 0 then PopCas pos
              else if diff <? 0 then PopReturned false None else PopReload)
      | _, _ => (q, Undefined)
      end
  | PopCas pos =>
      if (head q =? pos) && negb spurious then (set_head q (u64 (pos + 1)), PopPayload pos)
      else (q, PopTop v)
  | PopReload => (q, PopTop v)
  | PopPayload pos =>
      match slot_of q pos with
      | Some s => (set_slot q pos (mkSlot (sequence s) None), PopSequence (payload s) pos)
      | None => (q, Undefined)
      end
  | PopSequence e pos =>
      match slot_of q pos with
      | Some s => (set_slot q pos (mkSlot (u64 (u64 (pos + mask q) + 1)) (payload s)),
                   PopReturned (bool_decide (is_Some e)) e)
      | None => (q, Undefined)
      end
  | c => (q, c)
  end.

Definition outside (c : pc) : bool :=
  match c with Idle | PushReturned _ | PopReturned _ _ => true | _ => false end.

(** ** A call run alone

    Loads are fresh and the exchange does not fail spuriously. *)
Fixpoint run_thread (fuel : nat) (q : LogQueue) (c : pc) : LogQueue * pc :=
  match fuel with
  | O => (q, c)
  | S fuel' =>
      if outside c then (q, c)
      else let '(q', c') := thread_step q c (loaded_counter q c) false in
           run_thread fuel' q' c'
  end.

Definition push (fuel : nat) (q : LogQueue) (entry : entry_ptr) : LogQueue * pc :=
  run_thread fuel q (PushTop entry (tail q)).
Definition pop (fuel : nat) (q : LogQueue) : LogQueue * pc :=
  run_thread fuel q (PopTop (head q)).

(** ** Concurrent executions

    [enqueued] lists the entries in the order of the exchanges on [tail_],
    [dequeued] the positions and entries taken out of the slots. *)
Record system := mkSystem {
  queue : LogQueue;
  threads : nat -> pc;
  enqueued : list entry_ptr;
  dequeued : list (Z * entry_ptr)
}.

(** What a step adds to the two histories. *)
Definition enqueue_event (before after : pc) : list entry_ptr :=
  match before, after with PushCas e _, PushPayload _ _ => [e] | _, _ => [] end.
Definition dequeue_event (before after : pc) : list (Z * entry_ptr) :=
  match before, after with PopPayload pos, PopSequence e _ => [(pos, e)] | _, _ => [] end.

(** A value a load may return: any the counter has had, and more. *)
Definition may_load (current v : Z) : Prop := 0 <= v <= current.

(** [consumer t]: thread [t] calls [pop]. *)
Inductive step (consumer : nat -> Prop) (s : system) : system -> Prop :=
  | step_push t entry v :
      outside (threads s t) = true -> may_load (tail (queue s)) v ->
      step consumer s (mkSystem (queue s) (<[t := PushTop entry v]> (threads s))
                         (enqueued s) (dequeued s))
  | step_pop t v :
      outside (threads s t) = true -> consumer t -> may_load (head (queue s)) v ->
      step consumer s (mkSystem (queue s) (<[t := PopTop v]> (threads s))
                         (enqueued s) (dequeued s))
  | step_inside t v spurious q' c' :
      outside (threads s t) = false -> may_load (loaded_counter (queue s) (threads s t)) v ->
      thread_step (queue s) (threads s t) v spurious = (q', c') ->
      step consumer s (mkSystem q' (<[t := c']> (threads s))
                         (enqueued s ++ enqueue_event (threads s t) c')
                         (dequeued s ++ dequeue_event (threads s t) c')).

(** The steps as functions: thread [t] enters a call, or makes its next access. *)
Definition call (s : system) (t : nat) (c : pc) : system :=
  mkSystem (queue s) (<[t := c]> (threads s)) (enqueued s) (dequeued s).
Definition advance (s : system) (t : nat) (v : Z) (spurious : bool) : system :=
  let '(q', c') := thread_step (queue s) (threads s t) v spurious in
  mkSystem q' (<[t := c']> (threads s)) (enqueued s ++ enqueue_event (threads s t) c')
    (dequeued s ++ dequeue_event (threads s t) c').

Definition initial_system (q : LogQueue) : system := mkSystem q (fun _ => Idle) [] [].

Definition reachable (consumer : nat -> Prop) (q : LogQueue) : system -> Prop :=
  rtc (step consumer) (initial_system q).

(** ** Executable schedules *)

Inductive action :=
  | APush (t : nat) (entry : entry_ptr) (v : Z)
  | APop (t : nat) (v : Z)
  | AStep (t : nat) (v : Z) (spurious : bool).

Definition may_load_b (current v : Z) : bool := (0 <=? v) && (v <=? current).

Definition run_action (consumer : nat -> bool) (s : system) (a : action) : option system :=
  match a with
  | APush t e v =>
      if outside (threads s t) && may_load_b (tail (queue s)) v then
        Some (mkSystem (queue s) (<[t := PushTop e v]> (threads s)) (enqueued s) (dequeued s))
      else None
  | APop t v =>
      if outside (threads s t) && consumer t && may_load_b (head (queue s)) v then
        Some (mkSystem (queue s) (<[t := PopTop v]> (threads s)) (enqueued s) (dequeued s))
      else None
  | AStep t v spurious =>
      if negb (outside (threads s t)) && may_load_b (loaded_counter (queue s) (threads s t)) v then
        let '(q', c') := thread_step (queue s) (threads s t) v spurious in
        Some (mkSystem q' (<[t := c']> (threads s))
                (enqueued s ++ enqueue_event (threads s t) c')
                (dequeued s ++ dequeue_event (threads s t) c'))
      else None
  end.

Fixpoint run_schedule (consumer : nat -> bool) (s : system) (l : list action) : option system :=
  match l with
  | [] => Some s
  | a :: l' => s' ← run_action consumer s a; run_schedule consumer s' l'
  end.

(** [n] steps of thread [t] with fresh loads of [v]. *)
Definition steps (t : nat) (l : list Z) : list action := (fun v => AStep t v false) <$> l.

Lemma run_schedule_reaches (consumer : nat -> bool) l s s' :
  run_schedule consumer s l = Some s' -> rtc (step (fun t => consumer t = true)) s s'.
Proof.
  revert s; induction l as [|a l IH]; intros s; cbn; [by intros [= ->]|].
  intros (s1 & Ha & Hl)%bind_Some. eapply rtc_l; [|by apply IH]. clear IH Hl.
  destruct a as [t e v|t v|t v sp]; cbn in Ha; unfold may_load_b in Ha;
    case_if_in Ha; try done; zbool.
  - simplify_eq. apply step_push; [done|unfold may_load; zbool; lia].
  - simplify_eq. apply step_pop; [done..|unfold may_load; zbool; lia].
  - destruct (thread_step _ _ _ _) as [q' c'] eqn:Et. simplify_eq.
    apply (step_inside _ _ t v sp); [done|unfold may_load; zbool; lia|done].
Qed.

(** * Lemmas *)

(** The cases of [thread_step]. *)
Ltac step_cases H :=
  cbn in H; simplify_eq; try done; repeat (case_match; simplify_eq; try done).

(** ** Powers of two and masks *)

Lemma pow2_of_land c : 0 < c -> Z.land c (c - 1) = 0 -> c = 2 ^ Z.log2 c.
Proof.
  intros Hc Hl. destruct (Z.log2_spec c Hc) as [Hlo Hhi].
  destruct (decide (c = 2 ^ Z.log2 c)) as [|Hne]; [done|exfalso].
  assert (Hlog : Z.log2 (c - 1) = Z.log2 c).
  { apply Z.log2_unique; [apply Z.log2_nonneg|lia]. }
  pose proof (Z.pow_pos_nonneg 2 (Z.log2 c) ltac:(lia) (Z.log2_nonneg c)) as Hp.
  assert (H1 : Z.testbit (Z.land c (c - 1)) (Z.log2 c) = true).
  { rewrite Z.land_spec, Z.bit_log2 by lia. rewrite <- Hlog. apply Z.bit_log2. lia. }
  by rewrite Hl, Z.testbit_0_l in H1.
Qed.

Lemma land_mask p k : 0 <= k -> Z.land p (2 ^ k - 1) = p mod 2 ^ k.
Proof. intros Hk. rewrite <- Z.land_ones by done. by rewrite Z.ones_equiv, Z.sub_1_r. Qed.

Lemma distance_small a b : 0 <= a < 2 ^ 63 -> 0 <= b < 2 ^ 63 -> distance a b = Some (a - b).
Proof.
  intros. unfold distance. rewrite !i64_small by lia.
  rewrite (proj2 (Z.leb_le _ _)), (proj2 (Z.ltb_lt _ _)) by lia. done.
Qed.

Lemma mod_eq_window c p q : 0 < c -> p mod c = q mod c -> q <= p < q + c -> p = q.
Proof.
  intros Hc Hm Hw. pose proof (Z.div_mod p c). pose proof (Z.div_mod q c).
  assert (p / c = q / c) by nia. lia.
Qed.

Lemma mod_eq_below c p q : 0 < c -> p mod c = q mod c -> p < q -> p <= q - c.
Proof.
  intros Hc Hm Hw. pose proof (Z.div_mod p c). pose proof (Z.div_mod q c).
  assert (p / c < q / c) by nia. nia.
Qed.

(** ** The invariant

    A slot is in one of six phases with respect to a position that it holds. *)

Inductive phase := Free | Claimed | Written | Full | Taken | Emptied.

Section invariant.
Context (cap k : Z) (Hcap : 2 <= cap) (Hk : 0 <= k) (Hpow : cap = 2 ^ k).

Definition idx (p : Z) : nat := Z.to_nat (p mod cap).

(** Phase of a slot that holds position [p] when [head_ = h], [tail_ = t]. *)
Definition phase_ok (h t : Z) (enq : list entry_ptr) (p : Z) (ph : phase) (sl : Slot) : Prop :=
  match ph with
  | Free => sequence sl = p /\ t <= p < h + cap
  | Claimed => sequence sl = p /\ h <= p < t
  | Written => sequence sl = p /\ h <= p < t /\ enq !! Z.to_nat p = Some (payload sl)
  | Full => sequence sl = p + 1 /\ h <= p < t /\ enq !! Z.to_nat p = Some (payload sl)
  | Taken => sequence sl = p + 1 /\ t - cap <= p < h /\ enq !! Z.to_nat p = Some (payload sl)
  | Emptied => sequence sl = p + 1 /\ t - cap <= p < h
  end.

(** The position a thread has claimed, and the phase of its slot. *)
Definition owner (c : pc) : option (Z * phase) :=
  match c with
  | PushPayload _ p => Some (p, Claimed)
  | PushSequence p => Some (p, Written)
  | PopPayload p => Some (p, Taken)
  | PopSequence _ p => Some (p, Emptied)
  | _ => None
  end.

Definition seq_at_least (q : LogQueue) (pos v : Z) : Prop :=
  exists sl, slots q !! idx pos = Some sl /\ v <= sequence sl.

Definition thread_ok (q : LogQueue) (enq : list entry_ptr) (c : pc) : Prop :=
  (forall p ph, owner c = Some (p, ph) ->
     0 <= p /\ exists sl, slots q !! idx p = Some sl /\
       phase_ok (head q) (tail q) enq p ph sl) /\
  match c with
  | PushTop _ pos => 0 <= pos <= tail q
  | PushCas _ pos => 0 <= pos <= tail q /\ seq_at_least q pos pos
  | PushPayload e p => enq !! Z.to_nat p = Some e
  | PopTop pos => 0 <= pos <= head q
  | PopCas pos => 0 <= pos <= head q /\ seq_at_least q pos (pos + 1)
  | Undefined => False
  | _ => True
  end.

Record Inv (s : system) : Prop := mkInv {
  inv_mask : mask (queue s) = cap - 1;
  inv_len : Z.of_nat (length (slots (queue s))) = cap;
  inv_tail : tail (queue s) = Z.of_nat (length (enqueued s));
  inv_head : 0 <= head (queue s) <= tail (queue s);
  inv_window : tail (queue s) <= head (queue s) + cap;
  inv_slots : forall i sl, slots (queue s) !! i = Some sl ->
    exists p ph, 0 <= p /\ idx p = i /\
      phase_ok (head (queue s)) (tail (queue s)) (enqueued s) p ph sl;
  inv_threads : forall t, thread_ok (queue s) (enqueued s) (threads s t);
  inv_disjoint : forall t1 t2 p1 ph1 p2 ph2, t1 <> t2 ->
    owner (threads s t1) = Some (p1, ph1) -> owner (threads s t2) = Some (p2, ph2) ->
    idx p1 <> idx p2
}.

Lemma slot_index_idx q pos : mask q = cap - 1 -> slot_index q pos = idx pos.
Proof. intros Hm. unfold slot_index, idx. by rewrite Hm, Hpow, land_mask. Qed.

Lemma slot_of_idx q pos : mask q = cap - 1 -> slot_of q pos = slots q !! idx pos.
Proof. intros Hm. unfold slot_of. by rewrite slot_index_idx. Qed.

Lemma idx_inj_mod p q : idx p = idx q -> p mod cap = q mod cap.
Proof.
  unfold idx. intros H. pose proof (Z.mod_pos_bound p cap). pose proof (Z.mod_pos_bound q cap). lia.
Qed.

Lemma slot_exists s pos : Inv s -> exists sl, slots (queue s) !! idx pos = Some sl.
Proof.
  intros Hi. apply lookup_lt_is_Some. unfold idx.
  pose proof (Z.mod_pos_bound pos cap). pose proof (inv_len s Hi). lia.
Qed.

(** A step that changes no counter and no slot. *)
Lemma inv_local s t c deq :
  Inv s -> thread_ok (queue s) (enqueued s) c -> owner c = None ->
  Inv (mkSystem (queue s) (<[t := c]> (threads s)) (enqueued s) deq).
Proof.
  intros Hi Hc Ho. destruct Hi. constructor; cbn; try done.
  - intros t'. destruct (decide (t = t')) as [<-|]; [by rewrite fn_lookup_insert|].
    by rewrite fn_lookup_insert_ne.
  - intros t1 t2 p1 ph1 p2 ph2 Hne. destruct (decide (t = t1)) as [<-|].
    { rewrite fn_lookup_insert. congruence. }
    destruct (decide (t = t2)) as [<-|].
    { rewrite fn_lookup_insert. congruence. }
    rewrite !fn_lookup_insert_ne by done. by eauto.
Qed.

(** A thread that owns a slot writes it. *)
Lemma inv_write s t c p ph sl sl' p' ph' deq :
  Inv s -> owner (threads s t) = Some (p, ph) ->
  slots (queue s) !! idx p = Some sl -> sequence sl <= sequence sl' ->
  0 <= p' -> idx p' = idx p ->
  phase_ok (head (queue s)) (tail (queue s)) (enqueued s) p' ph' sl' ->
  (owner c = None \/ owner c = Some (p', ph') /\ p' = p) ->
  match c with PushSequence _ | PopSequence _ _ | PushReturned _ | PopReturned _ _ => True
  | _ => False end ->
  Inv (mkSystem (set_slot (queue s) p sl') (<[t := c]> (threads s)) (enqueued s) deq).
Proof.
  intros Hi Ho Hsl Hseq Hp' Hidx Hph Hc Hshape. pose proof (slot_index_idx (queue s) p (inv_mask s Hi)) as Hx.
  assert (Hlk : forall i, (<[idx p:=sl']> (slots (queue s))) !! i =
    if decide (idx p = i) then Some sl' else slots (queue s) !! i).
  { intros i. case_decide as E; [|by rewrite list_lookup_insert_ne].
    rewrite <- E. apply list_lookup_insert_eq. by eapply lookup_lt_Some. }
  destruct Hi as [Hm Hl Ht Hh Hw Hs Hth Hd]. constructor; cbn; rewrite ?Hx; try done.
  - by rewrite length_insert.
  - intros i sl0. rewrite Hlk. case_decide as E; [intros [= <-]; exists p', ph'; by rewrite <- E|apply Hs].
  - intros t'. destruct (decide (t = t')) as [<-|Hne].
    + rewrite fn_lookup_insert. split.
      * intros p0 ph0 Hc0. destruct Hc as [Hc|[Hc ->]]; [congruence|].
        rewrite Hc in Hc0. injection Hc0 as <- <-. split; [done|].
        exists sl'. cbn. by rewrite Hx, Hlk, decide_True.
      * by destruct c.
    + rewrite fn_lookup_insert_ne by done. destruct (Hth t') as [Hown Hpc]. split.
      * intros p0 ph0 Hc0. destruct (Hown _ _ Hc0) as (? & sl0 & Hsl0 & ?). split; [done|].
        exists sl0. cbn. rewrite Hx, Hlk, decide_False by eauto. done.
      * assert (Hge : forall pos v, seq_at_least (queue s) pos v ->
          seq_at_least (set_slot (queue s) p sl') pos v).
        { intros pos v (sl0 & Hsl0 & Hv). unfold seq_at_least. cbn.
          rewrite Hx, Hlk. case_decide as E; [|by exists sl0].
          exists sl'. split; [done|]. rewrite <- E in Hsl0. simplify_eq. lia. }
        destruct (threads s t') eqn:Et; cbn in *; try done; try (split; [tauto|apply Hge; tauto]).
  - intros t1 t2 p1 ph1 p2 ph2 Hne. destruct (decide (t = t1)) as [<-|].
    + rewrite fn_lookup_insert, fn_lookup_insert_ne by done.
      intros Ho1 Ho2. destruct Hc as [Hc|[Hc ->]]; [congruence|]. simplify_eq. by eauto.
    + rewrite fn_lookup_insert_ne by done. destruct (decide (t = t2)) as [<-|].
      * rewrite fn_lookup_insert. intros Ho1 Ho2.
        destruct Hc as [Hc|[Hc ->]]; [congruence|]. simplify_eq. by eauto.
      * rewrite fn_lookup_insert_ne by done. by eauto.
Qed.

Lemma idx_add p : idx (p + cap) = idx p.
Proof.
  unfold idx. f_equal. rewrite <- (Z.mul_1_l cap) at 1. by rewrite Z.mod_add by lia.
Qed.

Lemma phase_ok_tail h t enq e p ph sl :
  idx p <> idx t -> phase_ok h t enq p ph sl -> phase_ok h (t + 1) (enq ++ [e]) p ph sl.
Proof.
  intros Hne Hph. assert (p <> t) by congruence.
  assert (p + cap <> t) by (intros <-; by rewrite idx_add in Hne).
  destruct ph; cbn in *; intuition (try lia); by apply lookup_app_l_Some.
Qed.

Lemma phase_ok_head h t enq p ph sl :
  idx p <> idx h -> phase_ok h t enq p ph sl -> phase_ok (h + 1) t enq p ph sl.
Proof.
  intros Hne Hph. assert (p <> h) by congruence. destruct ph; cbn in *; intuition lia.
Qed.

Ltac mod_facts p q :=
  match goal with
  | H : idx p = idx q |- _ =>
      let Hm := fresh "Hm" in
      pose proof (idx_inj_mod _ _ H) as Hm;
      pose proof (mod_eq_window cap p q ltac:(lia) Hm);
      pose proof (mod_eq_below cap p q ltac:(lia) Hm);
      pose proof (mod_eq_below cap q p ltac:(lia) (eq_sym Hm)); clear Hm
  end.

(** The slot of [tail_] when the exchange of [push] succeeds. *)
Lemma slot_at_tail s :
  Inv s -> seq_at_least (queue s) (tail (queue s)) (tail (queue s)) ->
  exists sl, slots (queue s) !! idx (tail (queue s)) = Some sl /\
    sequence sl = tail (queue s) /\ tail (queue s) < head (queue s) + cap /\
    forall t p ph, owner (threads s t) = Some (p, ph) -> idx p <> idx (tail (queue s)).
Proof.
  intros Hi (sl & Hsl & Hge). exists sl. split; [done|].
  destruct (inv_slots s Hi _ _ Hsl) as (p & ph & Hp & Hidx & Hph).
  pose proof (inv_head s Hi). pose proof (inv_window s Hi).
  assert (sequence sl = tail (queue s) /\ tail (queue s) < head (queue s) + cap) as [Hseq Hroom].
  { mod_facts p (tail (queue s)). destruct ph; cbn in Hph; lia. }
  split_and!; [done|done|]. intros t p0 ph0 Ho Heq.
  destruct (proj1 (inv_threads s Hi t) _ _ Ho) as (? & sl0 & Hsl0 & Hph0).
  rewrite Heq in Hsl0. simplify_eq. mod_facts p0 (tail (queue s)).
  destruct (threads s t); cbn in Ho; simplify_eq; cbn in Hph0; lia.
Qed.

(** The slot of [head_] when the exchange of [pop] succeeds. *)
Lemma slot_at_head s :
  Inv s -> seq_at_least (queue s) (head (queue s)) (head (queue s) + 1) ->
  exists sl, slots (queue s) !! idx (head (queue s)) = Some sl /\
    sequence sl = head (queue s) + 1 /\ head (queue s) < tail (queue s) /\
    enqueued s !! Z.to_nat (head (queue s)) = Some (payload sl) /\
    forall t p ph, owner (threads s t) = Some (p, ph) -> idx p <> idx (head (queue s)).
Proof.
  intros Hi (sl & Hsl & Hge). exists sl. split; [done|].
  destruct (inv_slots s Hi _ _ Hsl) as (p & ph & Hp & Hidx & Hph).
  pose proof (inv_head s Hi). pose proof (inv_window s Hi).
  assert (p = head (queue s) /\ ph = Full) as [-> ->].
  { mod_facts p (head (queue s)). destruct ph; cbn in Hph; try lia. split; [lia|done]. }
  cbn in Hph. destruct Hph as (Hseq & Hr & Henq).
  split_and!; [done|lia|done|]. intros t p0 ph0 Ho Heq.
  destruct (proj1 (inv_threads s Hi t) _ _ Ho) as (? & sl0 & Hsl0 & Hph0).
  rewrite Heq in Hsl0. simplify_eq. mod_facts p0 (head (queue s)).
  destruct (threads s t); cbn in Ho; simplify_eq; cbn in Hph0; lia.
Qed.
Lemma inv_push_claim s t e deq :
  Inv s -> seq_at_least (queue s) (tail (queue s)) (tail (queue s)) ->
  Inv (mkSystem (set_tail (queue s) (tail (queue s) + 1))
         (<[t := PushPayload e (tail (queue s))]> (threads s)) (enqueued s ++ [e]) deq).
Proof.
  intros Hi Hge. destruct (slot_at_tail s Hi Hge) as (sl & Hsl & Hseq & Hroom & Hfree).
  destruct Hi as [Hm Hl Ht Hh Hw Hs Hth Hd].
  assert (Hown : 0 <= tail (queue s) /\ exists sl0, slots (queue s) !! idx (tail (queue s)) = Some sl0 /\
    phase_ok (head (queue s)) (tail (queue s) + 1) (enqueued s ++ [e]) (tail (queue s)) Claimed sl0).
  { split; [lia|]. exists sl. split; [done|]. cbn. lia. }
  constructor; cbn; try lia; try done.
  - rewrite length_app. cbn. lia.
  - intros i sl0 Hi0. destruct (decide (i = idx (tail (queue s)))) as [->|Hne].
    { destruct Hown as (? & sl1 & ? & ?). simplify_eq. by eexists _, Claimed. }
    destruct (Hs _ _ Hi0) as (p & ph & ? & <- & ?). exists p, ph. split_and!; [done..|].
    by apply phase_ok_tail.
  - intros t'. destruct (decide (t = t')) as [<-|Hne].
    + rewrite fn_lookup_insert. split; [by intros p ph [= <- <-]|]. cbn.
      rewrite Ht, Nat2Z.id, lookup_app_r, Nat.sub_diag by lia. done.
    + rewrite fn_lookup_insert_ne by done. destruct (Hth t') as [Ho Hpc]. split.
      * intros p ph Hp. destruct (Ho _ _ Hp) as (? & sl0 & ? & ?). split; [done|].
        exists sl0. split; [done|]. apply phase_ok_tail; [by eauto|done].
      * destruct (threads s t') eqn:Et; cbn in *; try done; try lia.
        -- intuition lia.
        -- by apply lookup_app_l_Some.
  - intros t1 t2 p1 ph1 p2 ph2 Hne. destruct (decide (t = t1)) as [<-|].
    + rewrite fn_lookup_insert, fn_lookup_insert_ne by done.
      intros [= <- <-] Ho2. symmetry. by eauto.
    + rewrite fn_lookup_insert_ne by done. destruct (decide (t = t2)) as [<-|].
      * rewrite fn_lookup_insert. intros Ho1 [= <- <-]. by eauto.
      * rewrite fn_lookup_insert_ne by done. by eauto.
Qed.

Lemma inv_pop_claim s t deq :
  Inv s -> seq_at_least (queue s) (head (queue s)) (head (queue s) + 1) ->
  Inv (mkSystem (set_head (queue s) (head (queue s) + 1))
         (<[t := PopPayload (head (queue s))]> (threads s)) (enqueued s) deq).
Proof.
  intros Hi Hge. destruct (slot_at_head s Hi Hge) as (sl & Hsl & Hseq & Hlt & Henq & Hfree).
  destruct Hi as [Hm Hl Ht Hh Hw Hs Hth Hd].
  assert (Hown : 0 <= head (queue s) /\ exists sl0, slots (queue s) !! idx (head (queue s)) = Some sl0 /\
    phase_ok (head (queue s) + 1) (tail (queue s)) (enqueued s) (head (queue s)) Taken sl0).
  { split; [lia|]. exists sl. split; [done|]. cbn. intuition lia. }
  constructor; cbn; try lia; try done.
  - intros i sl0 Hi0. destruct (decide (i = idx (head (queue s)))) as [->|Hne].
    { destruct Hown as (? & sl1 & ? & ?). simplify_eq. by eexists _, Taken. }
    destruct (Hs _ _ Hi0) as (p & ph & ? & <- & ?). exists p, ph. split_and!; [done..|].
    by apply phase_ok_head.
  - intros t'. destruct (decide (t = t')) as [<-|Hne].
    + rewrite fn_lookup_insert. split; [by intros p ph [= <- <-]|done].
    + rewrite fn_lookup_insert_ne by done. destruct (Hth t') as [Ho Hpc]. split.
      * intros p ph Hp. destruct (Ho _ _ Hp) as (? & sl0 & ? & ?). split; [done|].
        exists sl0. split; [done|]. apply phase_ok_head; [by eauto|done].
      * destruct (threads s t') eqn:Et; cbn in *; try done; try lia; intuition lia.
  - intros t1 t2 p1 ph1 p2 ph2 Hne. destruct (decide (t = t1)) as [<-|].
    + rewrite fn_lookup_insert, fn_lookup_insert_ne by done.
      intros [= <- <-] Ho2. symmetry. by eauto.
    + rewrite fn_lookup_insert_ne by done. destruct (decide (t = t2)) as [<-|].
      * rewrite fn_lookup_insert. intros Ho1 [= <- <-]. by eauto.
      * rewrite fn_lookup_insert_ne by done. by eauto.
Qed.

(** The histories stay below the wrap-around of the counters. *)
Definition bounded (s : system) : Prop := Z.of_nat (length (enqueued s)) + cap < 2 ^ 63.

Lemma sequence_bound s i sl :
  Inv s -> slots (queue s) !! i = Some sl -> 0 <= sequence sl <= tail (queue s) + cap.
Proof.
  intros Hi Hsl. destruct (inv_slots s Hi _ _ Hsl) as (p & ph & Hp & _ & Hph).
  pose proof (inv_head s Hi). pose proof (inv_window s Hi).
  destruct ph; cbn in Hph; lia.
Qed.

(** Loads and failed exchanges. *)
Lemma inv_step_read s t v spurious q' c' deq :
  Inv s -> bounded s -> may_load (loaded_counter (queue s) (threads s t)) v ->
  owner (threads s t) = None -> outside (threads s t) = false ->
  thread_step (queue s) (threads s t) v spurious = (q', c') -> owner c' = None ->
  Inv (mkSystem q' (<[t := c']> (threads s)) (enqueued s) deq).
Proof.
  intros Hi Hb [Hv0 Hv] Ho Hout Hstep Hc'. unfold bounded in Hb.
  pose proof (inv_tail s Hi) as Ht. pose proof (inv_head s Hi).
  destruct (inv_threads s Hi t) as [_ Hok].
  destruct (threads s t) as [|e pos|e pos|e| | | |pos|pos| | | | |] eqn:Et;
    cbn in Hok, Hstep, Hv, Ho, Hout; try discriminate; try done.
  - destruct (slot_exists s pos Hi) as [sl Hsl].
    rewrite (slot_of_idx _ pos (inv_mask s Hi)), Hsl in Hstep, Hv. cbn in Hv.
    pose proof (sequence_bound s _ _ Hi Hsl).
    rewrite distance_small in Hstep by lia. simplify_eq. apply inv_local; [done| |done].
    split; [by intros p ph Hp; rewrite Hc' in Hp|].
    repeat case_if; cbn; try done. zbool. split; [lia|]. exists sl. split; [done|lia].
  - case_if_in Hstep; simplify_eq. apply inv_local; [done|by split; [|cbn; lia]|done].
  - simplify_eq. apply inv_local; [done|by split; [|cbn; lia]|done].
  - destruct (slot_exists s pos Hi) as [sl Hsl].
    rewrite (slot_of_idx _ pos (inv_mask s Hi)), Hsl in Hstep, Hv. cbn in Hv.
    pose proof (sequence_bound s _ _ Hi Hsl).
    rewrite u64_small, distance_small in Hstep by lia. simplify_eq. apply inv_local; [done| |done].
    split; [by intros p ph Hp; rewrite Hc' in Hp|].
    repeat case_if; cbn; try done. zbool. split; [lia|]. exists sl. split; [done|lia].
  - case_if_in Hstep; simplify_eq. apply inv_local; [done|by split; [|cbn; lia]|done].
  - simplify_eq. apply inv_local; [done|by split; [|cbn; lia]|done].
Qed.

(** Stores into the slot a thread owns. *)
Lemma inv_step_write s t v spurious q' c' deq :
  Inv s -> bounded s -> owner (threads s t) <> None ->
  thread_step (queue s) (threads s t) v spurious = (q', c') ->
  Inv (mkSystem q' (<[t := c']> (threads s)) (enqueued s) deq).
Proof.
  intros Hi Hb Ho Hstep. unfold bounded in Hb.
  pose proof (inv_tail s Hi) as Ht. pose proof (inv_head s Hi). pose proof (inv_window s Hi).
  destruct (inv_threads s Hi t) as [Hown Hok]. pose proof (inv_mask s Hi) as Hm.
  destruct (owner (threads s t)) as [[p ph]|] eqn:Eo; [|done].
  destruct (Hown _ _ eq_refl) as (Hp & sl & Hsl & Hph). pose proof (slot_of_idx _ p Hm) as Hslot.
  destruct (threads s t) eqn:Et; cbn in Eo, Hok, Hstep; try done; simplify_eq;
    rewrite Hslot, Hsl in Hstep; simplify_eq; cbn in Hph.
  - eapply (inv_write s t _ p Claimed sl _ p Written); try done.
    + by rewrite Et. + cbn. intuition lia. + cbn. auto.
  - eapply (inv_write s t _ p Written sl _ p Full); try done.
    + by rewrite Et. + cbn. rewrite u64_small by lia. lia.
    + cbn. rewrite u64_small by lia. intuition lia. + cbn. auto.
  - eapply (inv_write s t _ p Taken sl _ p Emptied); try done.
    + by rewrite Et. + cbn. intuition lia. + cbn. auto.
  - eapply (inv_write s t _ p Emptied sl _ (p + cap) Free); try done.
    + by rewrite Et.
    + cbn. rewrite Hm, !u64_small by (rewrite ?u64_small; lia). lia.
    + lia. + apply idx_add.
    + cbn. rewrite Hm, !u64_small by (rewrite ?u64_small; lia). lia.
    + cbn. auto.
Qed.

Lemma inv_step consumer s s' : Inv s -> bounded s -> step consumer s s' -> Inv s'.
Proof.
  intros Hi Hb Hstep. destruct Hstep as [t e v Ho Hv|t v Ho Hc Hv|t v sp q' c' Ho Hv Hst].
  - apply inv_local; [done|by split|done].
  - apply inv_local; [done|by split|done].
  - destruct (owner (threads s t)) as [own|] eqn:Eo.
    + assert (enqueue_event (threads s t) c' = []) as -> by (by destruct (threads s t)).
      rewrite app_nil_r. eapply inv_step_write; [done..| |done]. by rewrite Eo.
    + destruct (owner c') as [own|] eqn:Eo'.
      2: { assert (enqueue_event (threads s t) c' = []) as ->
             by (destruct (threads s t); try done; by destruct c').
           rewrite app_nil_r. by eapply inv_step_read. }
      destruct (inv_threads s Hi t) as [_ Hok]. pose proof (inv_tail s Hi). pose proof (inv_head s Hi).
      unfold bounded in Hb.
      destruct (threads s t) eqn:Et; cbn in Eo, Ho, Hst, Hok; try done;
        step_cases Hst; zbool; subst; cbn [enqueue_event dequeue_event].
      * rewrite u64_small by lia. apply inv_push_claim; tauto.
      * rewrite u64_small by lia. rewrite app_nil_r. apply inv_pop_claim; tauto.
Qed.

(** ** Histories *)

Lemma head_monotone s t v sp q' c' :
  Inv s -> bounded s -> thread_step (queue s) (threads s t) v sp = (q', c') ->
  head (queue s) <= head q'.
Proof.
  intros Hi Hb Hst. pose proof (inv_tail s Hi). pose proof (inv_head s Hi). unfold bounded in Hb.
  destruct (threads s t); step_cases Hst; cbn; zbool; subst; rewrite u64_small; lia.
Qed.

Record HistInv (s : system) : Prop := mkHist {
  hist_entry : forall p x, (p, x) ∈ dequeued s ->
    0 <= p < head (queue s) /\ enqueued s !! Z.to_nat p = Some x;
  hist_nodup : NoDup (dequeued s).*1;
  hist_pending : forall t p, threads s t = PopPayload p -> p ∉ (dequeued s).*1
}.

Lemma hist_keep s q' t c enq' :
  HistInv s -> head (queue s) <= head q' -> enqueued s `prefix_of` enq' ->
  (forall p, c = PopPayload p -> p ∉ (dequeued s).*1) ->
  HistInv (mkSystem q' (<[t := c]> (threads s)) enq' (dequeued s)).
Proof.
  intros [He Hn Hp] Hh Hpre Hc. constructor; cbn; [|done|].
  - intros p x Hin. destruct (He _ _ Hin). split; [lia|]. by eapply prefix_lookup_Some.
  - intros t' p. destruct (decide (t = t')) as [<-|]; [rewrite fn_lookup_insert; auto|].
    rewrite fn_lookup_insert_ne by done. apply Hp.
Qed.

(** The entry a thread takes out of the slot it has claimed. *)
Lemma pop_payload_step s t v sp p q' c' :
  Inv s -> threads s t = PopPayload p -> thread_step (queue s) (threads s t) v sp = (q', c') ->
  exists x, c' = PopSequence x p /\ 0 <= p < head (queue s) /\
    enqueued s !! Z.to_nat p = Some x /\ head q' = head (queue s).
Proof.
  intros Hi Et Hst. destruct (inv_threads s Hi t) as [Hown _]. rewrite Et in Hown, Hst.
  destruct (Hown _ _ eq_refl) as (Hp & sl & Hsl & Hph). cbn in Hst, Hph.
  rewrite (slot_of_idx _ p (inv_mask s Hi)), Hsl in Hst. simplify_eq.
  exists (payload sl). split_and!; try done; lia || tauto.
Qed.

Lemma hist_step consumer s s' :
  Inv s -> bounded s -> HistInv s -> step consumer s s' -> HistInv s'.
Proof.
  intros Hi Hb Hh Hstep. destruct Hstep as [t e v Ho Hv|t v Ho Hc Hv|t v sp q' c' Ho Hv Hst].
  - by apply hist_keep.
  - by apply hist_keep.
  - pose proof (head_monotone _ _ _ _ _ _ Hi Hb Hst) as Hmono.
    destruct (decide (dequeue_event (threads s t) c' = [])) as [Hev|Hev].
    + rewrite Hev, app_nil_r. apply hist_keep; [done|done|by apply prefix_app_r|].
      intros p -> Hin. apply list_elem_of_fmap in Hin as ([p' x] & -> & Hin).
      destruct (hist_entry s Hh _ _ Hin) as [Hlt _]. cbn in *.
      destruct (threads s t) eqn:Et; step_cases Hst.
      zbool. subst. lia.
    + destruct (threads s t) eqn:Et; try done. pose proof Et as Et'. rewrite <- Et in Hst.
      destruct (pop_payload_step _ _ _ _ _ _ _ Hi Et Hst) as (x & -> & Hp & Hx & Hhead).
      cbn [enqueue_event dequeue_event]. rewrite app_nil_r.
      destruct Hh as [He Hn Hpend]. constructor; cbn; rewrite ?Hhead.
      * intros p' x' Hin. rewrite elem_of_app, list_elem_of_singleton in Hin.
        destruct Hin as [Hin|[= -> ->]]; [by apply He|done].
      * rewrite fmap_app. cbn. apply NoDup_app. split_and!; [done| |apply NoDup_singleton].
        intros y Hy ->%list_elem_of_singleton. by eapply Hpend.
      * intros t' p' Ht'. rewrite fmap_app. cbn. rewrite elem_of_app, list_elem_of_singleton.
        destruct (decide (t = t')) as [<-|Hne]; [by rewrite fn_lookup_insert in Ht'|].
        rewrite fn_lookup_insert_ne in Ht' by done. intros [Hin| ->]; [by eapply Hpend|].
        eapply (inv_disjoint s Hi t t'); [done|by rewrite Et|by rewrite Ht'|done].
Qed.

(** ** One consumer *)

Definition popping (c : pc) : bool :=
  match c with
  | PopTop _ | PopCas _ | PopReload | PopPayload _ | PopSequence _ _ => true
  | _ => false
  end.

Record OneConsumer (c : nat) (s : system) : Prop := mkOne {
  one_others : forall t, t <> c -> popping (threads s t) = false;
  one_order : (dequeued s).*1 = Z.of_nat <$> seq 0 (length (dequeued s));
  one_head : match threads s c with
             | PopPayload p => p = Z.of_nat (length (dequeued s)) /\ head (queue s) = p + 1
             | _ => head (queue s) = Z.of_nat (length (dequeued s))
             end
}.

Lemma popping_step q c v sp q' c' :
  popping c = false -> thread_step q c v sp = (q', c') -> popping c' = false /\ head q' = head q.
Proof.
  intros Hp Hst. destruct c; cbn in Hp; try done; step_cases Hst.
Qed.

Lemma dequeue_event_popping c c' : popping c = false -> dequeue_event c c' = [].
Proof. by destruct c. Qed.

Lemma one_step c s s' :
  Inv s -> bounded s -> OneConsumer c s -> step (fun t => t = c) s s' -> OneConsumer c s'.
Proof.
  intros Hi Hb [Ho Hord Hh] Hstep.
  destruct Hstep as [t e v Hout Hv|t v Hout -> Hv|t v sp q' c' Hout Hv Hst].
  - constructor; cbn; [intros t' Ht'|done|].
    + destruct (decide (t = t')) as [<-|]; [by rewrite fn_lookup_insert|].
      rewrite fn_lookup_insert_ne by done. by apply Ho.
    + destruct (decide (t = c)) as [->|]; [|by rewrite fn_lookup_insert_ne].
      rewrite fn_lookup_insert. by destruct (threads s c).
  - constructor; cbn; [intros t' Ht'|done|].
    + rewrite fn_lookup_insert_ne by done. by apply Ho.
    + rewrite fn_lookup_insert. by destruct (threads s c).
  - destruct (decide (t = c)) as [->|Hne].
    2: { destruct (popping_step _ _ _ _ _ _ (Ho t Hne) Hst) as [Hp' Hhd].
      rewrite (dequeue_event_popping _ c' (Ho t Hne)), app_nil_r. constructor; cbn; [|done|].
      - intros t' Ht'. destruct (decide (t = t')) as [<-|]; [by rewrite fn_lookup_insert|].
        rewrite fn_lookup_insert_ne by done. by apply Ho.
      - rewrite fn_lookup_insert_ne by done. by rewrite Hhd. }
    constructor; cbn.
    + intros t' Ht'. rewrite fn_lookup_insert_ne by done. by apply Ho.
    + destruct (threads s c) eqn:Et; try (rewrite app_nil_r; done).
      rewrite <- Et in Hst. destruct (pop_payload_step _ _ _ _ _ _ _ Hi Et Hst) as (x & -> & _).
      cbn [dequeue_event]. rewrite fmap_app, length_app, seq_app, fmap_app, Hord. cbn.
      by destruct Hh as [-> _].
    + rewrite fn_lookup_insert, length_app. pose proof (inv_tail s Hi). pose proof (inv_head s Hi).
      unfold bounded in Hb.
      destruct (threads s c) eqn:Et; step_cases Hst; cbn; try lia.
      all: try (zbool; subst; rewrite u64_small by lia; lia).
      destruct (slot_exists s pos Hi) as [sl Hsl].
      rewrite (slot_of_idx _ _ (inv_mask s Hi)) in *. congruence.
Qed.

(** ** Reachable states *)

Definition fresh_queue : LogQueue :=
  mkQueue ((fun i => mkSlot (Z.of_nat i) None) <$> seq 0 (Z.to_nat cap)) (cap - 1) 0 0.

Lemma inv_initial : Inv (initial_system fresh_queue).
Proof.
  constructor; cbn; try done; try lia.
  - rewrite length_fmap, length_seq. lia.
  - intros i sl. rewrite list_lookup_fmap, fmap_Some. intros (j & [-> Hj]%lookup_seq & ->).
    exists (Z.of_nat i), Free. cbn. split_and!; try lia. unfold idx.
    rewrite Z.mod_small by lia. lia.
Qed.

Lemma step_grows consumer s s' : step consumer s s' -> bounded s' -> bounded s.
Proof.
  unfold bounded. destruct 1; cbn; try done. rewrite length_app. lia.
Qed.

Lemma reachable_ind_bounded consumer (P : system -> Prop) :
  P (initial_system fresh_queue) ->
  (forall s s', Inv s -> bounded s -> P s -> step consumer s s' -> P s') ->
  forall s, reachable consumer fresh_queue s -> bounded s -> Inv s /\ P s.
Proof.
  intros H0 Hstep. apply (rtc_ind_r (fun s => bounded s -> Inv s /\ P s)).
  2: intros s s' _ Hs IH Hb.
  - split; [apply inv_initial|done].
  - pose proof (step_grows _ _ _ Hs Hb) as Hb'. destruct (IH Hb') as [Hi HP].
    split; [by eapply inv_step|by eapply Hstep].
Qed.

Lemma reachable_hist consumer s :
  reachable consumer fresh_queue s -> bounded s -> Inv s /\ HistInv s.
Proof.
  apply reachable_ind_bounded; [|intros; by eapply hist_step].
  constructor; cbn; [intros p x Hin; by apply not_elem_of_nil in Hin|apply NoDup_nil_2|done].
Qed.

Lemma reachable_one c s :
  reachable (fun t => t = c) fresh_queue s -> bounded s -> Inv s /\ OneConsumer c s.
Proof.
  apply reachable_ind_bounded; [by constructor|]. intros s0 s' Hi Hb Ho Hs. by eapply one_step.
Qed.

Lemma one_consumer_prefix c s :
  HistInv s -> OneConsumer c s -> (dequeued s).*2 = take (length (dequeued s)) (enqueued s).
Proof using Type.
  clear Hpow Hk Hcap. intros Hh Ho. apply list_eq_same_length with (length (dequeued s)).
  - rewrite length_take, Nat.min_l; [done|].
    destruct (decide (length (dequeued s) = 0%nat)); [lia|].
    destruct (lookup_lt_is_Some_2 (dequeued s) (length (dequeued s) - 1)) as [[p x] Hlast]; [lia|].
    destruct (hist_entry s Hh p x) as [_ Hx]; [by eapply list_elem_of_lookup_2|].
    assert ((dequeued s).*1 !! (length (dequeued s) - 1)%nat = Some p) as Hp
      by (by rewrite list_lookup_fmap, Hlast).
    rewrite (one_order c s Ho), list_lookup_fmap, lookup_seq_lt in Hp by lia.
    cbn in Hp. simplify_eq. apply lookup_lt_Some in Hx. lia.
  - by rewrite length_fmap.
  - intros i y z Hi. rewrite list_lookup_fmap, lookup_take_lt by done.
    intros ([p x] & Hl & ->)%fmap_Some Hz.
    destruct (hist_entry s Hh p x) as [_ Hx]; [by eapply list_elem_of_lookup_2|].
    assert ((dequeued s).*1 !! i = Some p) as Hp by (by rewrite list_lookup_fmap, Hl).
    rewrite (one_order c s Ho), list_lookup_fmap, lookup_seq_lt in Hp by lia.
    cbn in Hp. simplify_eq. rewrite Nat2Z.id in Hx. cbn. congruence.
Qed.

(** ** Where the entries are

    An entry that was claimed a position is in the hands of the thread that has
    still to store it, in its slot, or taken out. *)

Definition in_slot (s : system) (p : Z) (x : entry_ptr) : Prop :=
  exists sl, slots (queue s) !! idx p = Some sl /\ payload sl = x /\
    (sequence sl = p + 1 \/ exists t, threads s t = PushSequence p).
Definition in_queue (s : system) (p : Z) (x : entry_ptr) : Prop :=
  (exists t, threads s t = PushPayload x p) \/ in_slot s p x.
Definition whereabouts (s : system) (p : Z) (x : entry_ptr) : Prop :=
  (p, x) ∈ dequeued s \/ in_queue s p x.

Record Kept (s : system) : Prop := mkKept {
  kept_where : forall p x, enqueued s !! p = Some x -> whereabouts s (Z.of_nat p) x;
  kept_emptied : forall t e p, threads s t = PopSequence e p -> (p, e) ∈ dequeued s
}.

(** A step that writes no slot, of a thread that has not claimed one. *)
Lemma whereabouts_read s q' t c enq' deq' p x :
  slots q' = slots (queue s) -> owner (threads s t) = None -> (forall y, y ∈ dequeued s -> y ∈ deq') ->
  whereabouts s p x -> whereabouts (mkSystem q' (<[t := c]> (threads s)) enq' deq') p x.
Proof.
  intros Hs Ho Hd.
  assert (Ht : forall c', owner c' <> None -> forall t', threads s t' = c' -> (<[t := c]> (threads s)) t' = c').
  { intros c' Hc t' Ht'. rewrite fn_lookup_insert_ne; [done|]. intros <-. by rewrite <- Ht' in Hc. }
  intros [H|[[t' H]|(sl & Hsl & Hp & H)]].
  - left. by apply Hd.
  - right. left. exists t'. by apply (Ht (PushPayload x p)).
  - right. right. exists sl. cbn. rewrite Hs. split_and!; [done..|]. destruct H as [H|[t' H]]; [by left|right].
    exists t'. by apply (Ht (PushSequence p)).
Qed.

(** The other positions, when the thread that has claimed [p0] writes its slot. *)
Lemma whereabouts_write s t p0 ph0 sl0 sl' c enq' deq' p x :
  Inv s -> owner (threads s t) = Some (p0, ph0) -> slots (queue s) !! idx p0 = Some sl0 -> p <> p0 ->
  (forall y, y ∈ dequeued s -> y ∈ deq') ->
  whereabouts s p x ->
  whereabouts (mkSystem (set_slot (queue s) p0 sl') (<[t := c]> (threads s)) enq' deq') p x.
Proof.
  intros Hi Ho Hsl0 Hne Hd. destruct (inv_threads s Hi t) as [Hown _].
  destruct (Hown _ _ Ho) as (Hp0 & sl1 & Hsl1 & Hph). rewrite Hsl0 in Hsl1. injection Hsl1 as <-.
  assert (Hx : slot_index (queue s) p0 = idx p0) by (apply slot_index_idx, Hi).
  assert (Ht : forall c' ph, owner c' = Some (p, ph) -> forall t', threads s t' = c' ->
    (<[t := c]> (threads s)) t' = c').
  { intros c' ph Hc t' Ht'. rewrite fn_lookup_insert_ne; [done|]. intros <-. subst c'. congruence. }
  intros [H|[[t' H]|(sl & Hsl & Hp & H)]].
  - left. by apply Hd.
  - right. left. exists t'. by apply (Ht (PushPayload x p) Claimed).
  - right. right. assert (Hidx : idx p <> idx p0).
    { intros E. destruct H as [H|[t' H]].
      - rewrite E, Hsl0 in Hsl. injection Hsl as <-. mod_facts p p0.
        destruct (threads s t); cbn in Ho; simplify_eq; cbn in Hph; lia.
      - eapply (inv_disjoint s Hi t' t); [|by rewrite H|exact Ho|exact E]. intros ->. rewrite H in Ho.
        cbn in Ho. congruence. }
    exists sl. cbn. rewrite Hx, list_lookup_insert_ne by done. split_and!; [done..|].
    destruct H as [H|[t' H]]; [by left|right]. exists t'. by apply (Ht (PushSequence p) Written).
Qed.

(** The position itself. *)
Lemma whereabouts_own s t v sp p0 ph0 q' c' x :
  Inv s -> bounded s -> HistInv s -> Kept s -> owner (threads s t) = Some (p0, ph0) ->
  thread_step (queue s) (threads s t) v sp = (q', c') -> enqueued s !! Z.to_nat p0 = Some x ->
  whereabouts (mkSystem q' (<[t := c']> (threads s)) (enqueued s)
    (dequeued s ++ dequeue_event (threads s t) c')) p0 x.
Proof.
  intros Hi Hb Hh [Hw He] Ho Hst Henq. pose proof (inv_tail s Hi). pose proof (inv_window s Hi).
  unfold bounded in Hb. destruct (inv_threads s Hi t) as [Hown Hok].
  destruct (Hown _ _ Ho) as (Hp0 & sl0 & Hsl0 & Hph). pose proof (slot_of_idx _ p0 (inv_mask s Hi)) as Hslot.
  assert (Hx : slot_index (queue s) p0 = idx p0) by (apply slot_index_idx, Hi).
  assert (Hins : forall sl, slots (set_slot (queue s) p0 sl) !! idx p0 = Some sl).
  { intros sl. cbn. rewrite Hx. apply list_lookup_insert_eq. by eapply lookup_lt_Some. }
  destruct (threads s t) eqn:Et; cbn in Ho, Hst, Hok; try done; simplify_eq; rewrite Hslot, Hsl0 in Hst;
    simplify_eq; cbn [dequeue_event]; rewrite ?app_nil_r; cbn in Hph.
  - right. right. eexists. split; [apply Hins|]. split; [done|]. right. exists t. cbn. by rewrite fn_lookup_insert.
  - specialize (Hw _ _ Henq). rewrite Z2Nat.id in Hw by done. destruct Hw as [H1|[[t' H1]|(sl & Hsl & Hp & _)]].
    + by left.
    + exfalso. eapply (inv_disjoint s Hi t' t p0 Claimed p0 Written); [|by rewrite H1|by rewrite Et|done].
      intros ->. congruence.
    + right. right. eexists. split; [apply Hins|]. cbn. rewrite Hsl0 in Hsl. injection Hsl as ->.
      split; [done|]. left. rewrite u64_small; lia.
  - left. cbn. apply elem_of_app. right. apply list_elem_of_singleton. destruct Hph as (_ & _ & Hph). congruence.
  - left. cbn. specialize (He t _ _ Et). destruct (hist_entry s Hh _ _ He) as [_ Hx']. congruence.
Qed.

Lemma kept_step consumer s s' :
  Inv s -> bounded s -> HistInv s -> Kept s -> step consumer s s' -> Kept s'.
Proof.
  intros Hi Hb Hh HK Hstep. destruct Hstep as [t e v Ho Hv|t v Ho Hc Hv|t v sp q' c' Ho Hv Hst].
  1-2: assert (Hn : owner (threads s t) = None) by (by destruct (threads s t));
    (split; cbn; [intros p x Hx; apply whereabouts_read; [done|done|done|by apply HK]|
     intros t' e' p; destruct (decide (t = t')) as [<-|]; [by rewrite fn_lookup_insert|
       rewrite fn_lookup_insert_ne by done; apply HK]]).
  pose proof (inv_tail s Hi). split; cbn.
  - intros p x Hx. destruct (owner (threads s t)) as [[p0 ph0]|] eqn:Eo.
    + assert (enqueue_event (threads s t) c' = []) as He by (by destruct (threads s t)).
      rewrite He, app_nil_r in *. destruct (decide (Z.of_nat p = p0)) as [Ep|Ep].
      * rewrite Ep. eapply whereabouts_own; [done..|]. by rewrite <- Ep, Nat2Z.id.
      * destruct (inv_threads s Hi t) as [Hown _]. destruct (Hown _ _ Eo) as (Hp0 & sl0 & Hsl0 & _).
        assert (exists sl', q' = set_slot (queue s) p0 sl') as [sl' ->].
        { pose proof (slot_of_idx _ p0 (inv_mask s Hi)) as Hslot. rewrite Hsl0 in Hslot.
          destruct (threads s t); cbn in Eo, Hst; try done; simplify_eq; rewrite Hslot in Hst; simplify_eq; eauto. }
        eapply whereabouts_write; [done..| |by apply HK]. intros y Hy. apply elem_of_app. by left.
    + destruct (decide (enqueue_event (threads s t) c' = [])) as [He|He].
      * rewrite He, app_nil_r in *. apply whereabouts_read; [|done| |by apply HK].
        -- destruct (threads s t); cbn in Eo; try done; step_cases Hst.
        -- intros y Hy. apply elem_of_app. by left.
      * destruct (threads s t) as [| |e pos| | | | | | | | | | |] eqn:Et; try done.
        cbn in Hst. case_if_in Hst; simplify_eq; try done. zbool. subst pos. cbn [enqueue_event dequeue_event] in *.
        rewrite app_nil_r. apply lookup_app_Some in Hx as [Hx|[Hge Hx]].
        -- apply whereabouts_read; [done|by rewrite Et|done|by apply HK].
        -- apply list_lookup_singleton_Some in Hx as [Hx <-]. right. left. exists t. cbn.
           rewrite fn_lookup_insert. f_equal. lia.
  - intros t' e' p Ht'. destruct (decide (t = t')) as [<-|Hne].
    + rewrite fn_lookup_insert in Ht'. subst c'. destruct (threads s t) eqn:Et; step_cases Hst.
      cbn. apply elem_of_app. right. by apply list_elem_of_singleton.
    + rewrite fn_lookup_insert_ne in Ht' by done. apply elem_of_app. left. by eapply HK.
Qed.

Lemma reachable_kept consumer s :
  reachable consumer fresh_queue s -> bounded s -> Inv s /\ HistInv s /\ Kept s.
Proof.
  intros Hr Hb. destruct (reachable_ind_bounded consumer (fun s => HistInv s /\ Kept s)) with (s := s) as [? ?];
    [|intros s0 s' Hi Hbd [Hh HK] Hs; split; [by eapply hist_step|by eapply kept_step]|done..].
  split; [|by split; cbn]. constructor; cbn; [intros p x Hin; by apply not_elem_of_nil in Hin|apply NoDup_nil_2|done].
Qed.

(** When no thread is between its claim and its last store, every slot has been
    published. *)
Lemma all_published s p :
  Inv s -> HistInv s -> Kept s -> (forall t, match threads s t with PushPayload _ _ | PushSequence _ => False | _ => True end) ->
  0 <= p < tail (queue s) -> seq_at_least (queue s) p (p + 1).
Proof.
  intros Hi Hh HK Hq Hp. pose proof (inv_tail s Hi).
  assert (Htaken : p < head (queue s) -> seq_at_least (queue s) p (p + 1)).
  { intros Hlt. destruct (slot_exists s p Hi) as [sl Hsl]. exists sl. split; [done|].
    destruct (inv_slots s Hi _ _ Hsl) as (p0 & ph & Hp0 & Hidx & Hph).
    pose proof (inv_head s Hi). pose proof (inv_window s Hi). mod_facts p0 p. destruct ph; cbn in Hph; lia. }
  destruct (lookup_lt_is_Some_2 (enqueued s) (Z.to_nat p)) as [x Hx]; [lia|].
  pose proof (kept_where s HK _ _ Hx) as Hw. rewrite Z2Nat.id in Hw by lia.
  destruct Hw as [Hd|[[t Ht]|(sl & Hsl & _ & [Hs|[t Ht]])]].
  - apply Htaken. by destruct (hist_entry s Hh _ _ Hd) as [[_ ?] _].
  - specialize (Hq t). by rewrite Ht in Hq.
  - exists sl. split; [done|lia].
  - specialize (Hq t). by rewrite Ht in Hq.
Qed.

(** ** A call run alone *)

(** Between calls the queue holds [l]; [n] entries have ever been pushed. *)
Record rep (q : LogQueue) (l : list entry_ptr) (n : Z) : Prop := mkRep {
  rep_mask : mask q = cap - 1;
  rep_len : Z.of_nat (length (slots q)) = cap;
  rep_tail : tail q = n;
  rep_head : head q = n - Z.of_nat (length l);
  rep_range : 0 <= head q /\ Z.of_nat (length l) <= cap;
  rep_slots : forall p, head q <= p < head q + cap -> exists sl,
    slots q !! idx p = Some sl /\ sequence sl = (if p <? n then p + 1 else p) /\
    (p < n -> l !! Z.to_nat (p - head q) = Some (payload sl))
}.

Lemma rep_fresh : rep fresh_queue [] 0.
Proof.
  constructor; cbn; try lia.
  - rewrite length_fmap, length_seq. lia.
  - intros p Hp. exists (mkSlot p None). case_if; zbool; [lia|]. split_and!; [|done|lia].
    rewrite list_lookup_fmap. unfold idx. rewrite Z.mod_small, lookup_seq_lt by lia.
    cbn. by rewrite Z2Nat.id by lia.
Qed.

Lemma idx_window p q h : h <= p < h + cap -> h <= q < h + cap -> idx p = idx q -> p = q.
Proof.
  intros Hp Hq E. apply idx_inj_mod in E.
  destruct (Z.le_ge_cases q p);
    [|symmetry]; eapply (mod_eq_window cap); by eauto with lia.
Qed.

Lemma set_slot_lookup q pos sl i :
  mask q = cap - 1 -> is_Some (slots q !! idx pos) ->
  slots (set_slot q pos sl) !! i = if decide (idx pos = i) then Some sl else slots q !! i.
Proof.
  intros Hm Hs. cbn. rewrite slot_index_idx by done. case_decide as E.
  - rewrite <- E. by apply list_lookup_insert_eq, lookup_lt_is_Some.
  - by rewrite list_lookup_insert_ne.
Qed.

Lemma push_full q l n e fuel :
  rep q l n -> n + cap < 2 ^ 63 -> Z.of_nat (length l) = cap -> (2 <= fuel)%nat ->
  push fuel q e = (q, PushReturned false).
Proof.
  intros Hr Hb Hl Hf. destruct Hr as [Hm Hlen Ht Hh Hrange Hs].
  destruct (Hs (head q)) as (sl & Hsl & Hseq & _); [lia|]. rewrite (proj2 (Z.ltb_lt _ _)) in Hseq by lia.
  destruct fuel as [|[|fuel]]; [lia..|]. unfold push. cbn [run_thread outside loaded_counter thread_step].
  rewrite !slot_of_idx by done. replace (tail q) with (head q + cap) by lia.
  rewrite idx_add, Hsl. cbn [from_option]. rewrite distance_small, Hseq by lia.
  rewrite (proj2 (Z.eqb_neq _ _)), (proj2 (Z.ltb_lt _ _)) by lia. by destruct fuel.
Qed.

Lemma push_room q l n e fuel :
  rep q l n -> n + cap < 2 ^ 63 -> Z.of_nat (length l) < cap -> (5 <= fuel)%nat ->
  exists q', push fuel q e = (q', PushReturned true) /\ rep q' (l ++ [e]) (n + 1).
Proof.
  intros Hr Hb Hl Hf. destruct Hr as [Hm Hlen Ht Hh Hrange Hs].
  destruct (Hs n) as (sl & Hsl & Hseq & _); [lia|]. rewrite Z.ltb_irrefl in Hseq.
  do 5 (destruct fuel as [|fuel]; [lia|]).
  exists (set_slot (set_slot (set_tail q (n + 1)) n (mkSlot n e)) n (mkSlot (n + 1) e)).
  split.
  - unfold push. cbn [run_thread outside loaded_counter]. rewrite Ht. cbn [thread_step].
    rewrite !slot_of_idx by done. rewrite Hsl. cbn [from_option].
    rewrite distance_small, Hseq, Z.sub_diag by lia. cbn [Z.eqb outside thread_step].
    rewrite Ht, Z.eqb_refl. cbn [negb andb outside thread_step].
    rewrite u64_small, slot_of_idx by (done || lia). cbn [set_tail slots]. rewrite Hsl, Hseq.
    cbn [outside thread_step]. rewrite slot_of_idx by done.
    rewrite set_slot_lookup, decide_True by (done || by rewrite Hsl).
    rewrite u64_small by lia. by destruct fuel.
  - assert (Hlk : forall i, slots (set_slot (set_slot (set_tail q (n + 1)) n (mkSlot n e)) n (mkSlot (n + 1) e)) !! i
      = if decide (idx n = i) then Some (mkSlot (n + 1) e) else slots q !! i).
    { intros i. assert (Hq : is_Some (slots (set_tail q (n + 1)) !! idx n)) by (by exists sl).
      rewrite set_slot_lookup; [|done|rewrite set_slot_lookup, decide_True by done; by eexists].
      rewrite set_slot_lookup by done. by case_decide. }
    constructor; cbn [head tail mask set_slot set_tail]; rewrite ?length_app; cbn; try lia.
    + by rewrite !length_insert.
    + intros p Hp. setoid_rewrite Hlk. case_decide as E.
      * assert (n = p) as <- by (eapply (idx_window _ _ (head q)); by eauto with lia).
        eexists. split_and!; [done|cbn; by rewrite (proj2 (Z.ltb_lt _ _)) by lia|]. intros _. cbn.
        rewrite lookup_app_r by lia. by replace (Z.to_nat (n - head q) - length l)%nat with 0%nat by lia.
      * destruct (Hs p Hp) as (sl0 & Hsl0 & Hseq0 & Hl0). exists sl0.
        assert (p <> n) by congruence. split_and!; [done| |].
        -- rewrite Hseq0. repeat case_if; zbool; lia.
        -- intros Hlt. apply lookup_app_l_Some, Hl0. lia.
Qed.

Lemma pop_empty q n fuel :
  rep q [] n -> n + cap < 2 ^ 63 -> (2 <= fuel)%nat -> pop fuel q = (q, PopReturned false None).
Proof.
  intros Hr Hb Hf. destruct Hr as [Hm Hlen Ht Hh Hrange Hs]. cbn in Hh.
  destruct (Hs (head q)) as (sl & Hsl & Hseq & _); [lia|].
  rewrite (proj2 (Z.ltb_ge _ _)) in Hseq by lia.
  destruct fuel as [|[|fuel]]; [lia..|]. unfold pop. cbn [run_thread outside loaded_counter thread_step].
  rewrite !slot_of_idx, Hsl by done. cbn [from_option].
  rewrite u64_small, distance_small, Hseq by lia.
  rewrite (proj2 (Z.eqb_neq _ _)), (proj2 (Z.ltb_lt _ _)) by lia. by destruct fuel.
Qed.

Lemma pop_entry q e l n fuel :
  rep q (e :: l) n -> n + cap < 2 ^ 63 -> (5 <= fuel)%nat ->
  exists q', pop fuel q = (q', PopReturned (bool_decide (is_Some e)) e) /\ rep q' l n.
Proof.
  intros Hr Hb Hf. destruct Hr as [Hm Hlen Ht Hh Hrange Hs]. cbn [length] in *.
  set (h := head q) in *.
  destruct (Hs h) as (sl & Hsl & Hseq & Hpl); [lia|]. rewrite (proj2 (Z.ltb_lt _ _)) in Hseq by lia.
  specialize (Hpl ltac:(lia)). rewrite Z.sub_diag in Hpl. cbn in Hpl. injection Hpl as ->.
  do 5 (destruct fuel as [|fuel]; [lia|]).
  exists (set_slot (set_slot (set_head q (h + 1)) h (mkSlot (h + 1) None)) h (mkSlot (h + cap) None)).
  assert (Hlk1 : slots (set_slot (set_head q (h + 1)) h (mkSlot (h + 1) None)) !! idx h
                 = Some (mkSlot (h + 1) None)).
  { rewrite set_slot_lookup, decide_True; [done..|by exists sl]. }
  split.
  - unfold pop. cbn [run_thread outside loaded_counter]. fold h. cbn [thread_step].
    rewrite !slot_of_idx by done. rewrite Hsl. cbn [from_option].
    rewrite (u64_small (h + 1)), distance_small, Hseq, Z.sub_diag by lia.
    cbn [Z.eqb outside thread_step]. fold h. rewrite Z.eqb_refl.
    cbn [negb andb outside thread_step]. rewrite slot_of_idx by done.
    cbn [set_head slots]. rewrite Hsl, Hseq. cbn [outside thread_step].
    rewrite !(u64_small (h + 1)) by lia. rewrite slot_of_idx, Hlk1 by done. cbn [mask set_slot set_head].
    rewrite Hm, (u64_small (h + (cap - 1))), u64_small by lia.
    replace (h + (cap - 1) + 1) with (h + cap) by lia. by destruct fuel.
  - assert (Hlk : forall i, slots (set_slot (set_slot (set_head q (h + 1)) h (mkSlot (h + 1) None)) h
        (mkSlot (h + cap) None)) !! i
      = if decide (idx h = i) then Some (mkSlot (h + cap) None) else slots q !! i).
    { intros i. rewrite set_slot_lookup; [|done|by eexists].
      case_decide; [done|]. by rewrite set_slot_lookup, decide_False by (done || by exists sl). }
    constructor; cbn [head tail mask set_slot set_head]; try lia.
    + cbn. by rewrite !length_insert.
    + intros p Hp. setoid_rewrite Hlk. case_decide as E.
      * assert (p = h + cap) as ->.
        { apply (idx_window _ _ (h + 1)); [lia|lia|by rewrite idx_add]. }
        eexists. split_and!; [done|cbn; by rewrite (proj2 (Z.ltb_ge _ _)) by lia|lia].
      * destruct (Hs p) as (sl0 & Hsl0 & Hseq0 & Hl0).
        { assert (p <> h + cap) by (intros ->; by rewrite idx_add in E). lia. }
        exists sl0. split_and!; [done..|]. intros Hlt. rewrite <- Hl0 by done.
        replace (Z.to_nat (p - h)) with (S (Z.to_nat (p - (h + 1)))) by lia. done.
Qed.

End invariant.

Lemma new_queue_inv capacity q :
  0 <= capacity < 2 ^ 64 -> new_queue capacity = Ret q ->
  capacity = 2 ^ Z.log2 capacity /\ q = fresh_queue capacity.
Proof.
  unfold new_queue. intros Hc Hq. case_if_in Hq; [done|]. zbool. simplify_eq.
  rewrite u64_small in * by lia. split; [|done]. apply pow2_of_land; lia.
Qed.

(** * Properties *)

(** C8: the concurrent queue. Whatever the number of producers and consumers,
    the interleaving, the staleness of loads and the spurious failures, as long
    as the counters have not wrapped: no thread reaches undefined behaviour, at
    most [capacity] entries are pending, and each entry taken out of the queue
    is the one pushed at its position, positions being taken at most once. *)
Theorem logqueue_delivers_once capacity q consumer s :
  2 <= capacity < 2 ^ 63 -> new_queue capacity = Ret q -> reachable consumer q s ->
  Z.of_nat (length (enqueued s)) + capacity < 2 ^ 63 ->
  (forall t, threads s t <> Undefined) /\
  0 <= tail (queue s) - head (queue s) <= capacity /\
  NoDup (dequeued s).*1 /\
  (forall p x, (p, x) ∈ dequeued s -> 0 <= p < head (queue s) /\ enqueued s !! Z.to_nat p = Some x).
Proof.
  intros Hc Hq Hr Hb. destruct (new_queue_inv capacity q) as [Hpow ->]; [lia|done|].
  destruct (reachable_hist capacity (Z.log2 capacity) ltac:(lia) (Z.log2_nonneg _) Hpow _ _ Hr Hb)
    as [Hi [He Hn Hp]].
  pose proof (inv_head _ _ Hi). pose proof (inv_window _ _ Hi). split_and!; try lia; try done.
  intros t Et. destruct (inv_threads _ _ Hi t) as [_ Hok]. by rewrite Et in Hok.
Qed.

(** Two producers claim positions 0 and 1, the second one finishes first and a
    consumer gives up on position 0; later both entries are taken. *)
Definition queue2 : LogQueue := fresh_queue 2.
Definition schedule2 : list action :=
  [APush 0 (Some (lit "a")) 0; APush 1 (Some (lit "b")) 0] ++
  steps 0 [0; 0] ++ steps 1 [0; 1; 1; 1; 0; 0] ++ [APop 2 0] ++ steps 2 [0] ++
  steps 0 [0; 0] ++ [APop 2 0] ++ steps 2 [1; 0; 0; 0] ++ [APop 2 0] ++ steps 2 [1; 0; 2; 1; 2; 1; 0; 0].

Lemma logqueue_delivers_once_witness :
  exists s, run_schedule (fun _ => true) (initial_system queue2) schedule2 = Some s /\
    enqueued s = [Some (lit "a"); Some (lit "b")] /\
    dequeued s = [(0, Some (lit "a")); (1, Some (lit "b"))] /\
    (forall t, threads s t <> Undefined) /\
    0 <= tail (queue s) - head (queue s) <= 2 /\
    NoDup (dequeued s).*1 /\
    (forall p x, (p, x) ∈ dequeued s -> 0 <= p < head (queue s) /\ enqueued s !! Z.to_nat p = Some x).
Proof.
  eexists. split; [vm_compute; reflexivity|]. split; [reflexivity|]. split; [reflexivity|].
  eapply (logqueue_delivers_once 2 queue2 (fun _ => true = true)); [lia|reflexivity| |reflexivity].
  apply (run_schedule_reaches (fun _ => true) schedule2). vm_compute. reflexivity.
Defined.

(** C9: the queue refines a FIFO for one consumer. When one thread only calls
    [pop], which is how [worker_loop] uses the queue, the entries taken out are
    a prefix of the entries pushed, in the order of the pushes. *)
Theorem logqueue_fifo capacity q c s :
  2 <= capacity < 2 ^ 63 -> new_queue capacity = Ret q -> reachable (fun t => t = c) q s ->
  Z.of_nat (length (enqueued s)) + capacity < 2 ^ 63 ->
  (dequeued s).*2 = take (length (dequeued s)) (enqueued s).
Proof.
  intros Hc Hq Hr Hb. destruct (new_queue_inv capacity q) as [Hpow ->]; [lia|done|].
  pose proof (Z.log2_nonneg capacity) as Hlog.
  destruct (reachable_hist capacity (Z.log2 capacity) ltac:(lia) Hlog Hpow _ _ Hr Hb) as [_ Hh].
  destruct (reachable_one capacity (Z.log2 capacity) ltac:(lia) Hlog Hpow _ _ Hr Hb) as [_ Ho].
  by apply (one_consumer_prefix c).
Qed.

Lemma logqueue_fifo_witness :
  exists s, run_schedule (Nat.eqb 2) (initial_system queue2) schedule2 = Some s /\
    length (dequeued s) = 2%nat /\
    (dequeued s).*2 = take (length (dequeued s)) (enqueued s).
Proof.
  eexists. split; [vm_compute; reflexivity|]. split; [reflexivity|].
  eapply (logqueue_fifo 2 queue2 2); [lia|reflexivity| |reflexivity].
  eapply rtc_subrel; [|apply (run_schedule_reaches (Nat.eqb 2) schedule2); vm_compute; reflexivity].
  intros s s' Hs. destruct Hs; econstructor; try done. symmetry. by apply Nat.eqb_eq.
Defined.

(** [push] and [pop] run alone implement a bounded FIFO, on every branch:
    [push] appends or reports that the queue is full, [pop] takes the oldest
    entry or reports that the queue is empty; five steps always suffice. *)
Theorem logqueue_sequential capacity q l n :
  2 <= capacity -> capacity = 2 ^ Z.log2 capacity -> rep capacity q l n -> n + capacity < 2 ^ 63 ->
  (forall e,
     if Z.of_nat (length l) <? capacity then
       exists q', push 5 q e = (q', PushReturned true) /\ rep capacity q' (l ++ [e]) (n + 1)
     else push 5 q e = (q, PushReturned false)) /\
  match l with
  | [] => pop 5 q = (q, PopReturned false None)
  | e :: l' =>
      exists q', pop 5 q = (q', PopReturned (bool_decide (is_Some e)) e) /\ rep capacity q' l' n
  end.
Proof.
  intros Hc Hpow Hr Hb. pose proof (Z.log2_nonneg capacity) as Hlog. split.
  - intros e. case_if; zbool; [by eapply push_room|].
    pose proof (rep_range _ _ _ _ Hr). eapply push_full; try done; lia.
  - destruct l; [eapply pop_empty; try done; lia|by eapply pop_entry].
Qed.

Lemma logqueue_sequential_witness :
  (forall e,
     if Z.of_nat (@length entry_ptr []) <? 2 then
       exists q', push 5 queue2 e = (q', PushReturned true) /\ rep 2 q' ([] ++ [e]) (0 + 1)
     else push 5 queue2 e = (queue2, PushReturned false)) /\
  pop 5 queue2 = (queue2, PopReturned false None).
Proof.
  apply (logqueue_sequential 2 queue2 [] 0); [lia|reflexivity|apply (rep_fresh 2 1); done|lia].
Defined.

(** the constructor throws unless the capacity is a power of two. *)
Theorem new_queue_capacity capacity :
  0 <= capacity < 2 ^ 64 ->
  (exists k, 0 <= k /\ capacity = 2 ^ k) <-> returns (new_queue capacity).
Proof.
  intros Hc. split.
  - intros (k & Hk & ->). unfold new_queue. pose proof (Z.pow_pos_nonneg 2 k ltac:(lia) Hk).
    rewrite u64_small, (proj2 (Z.eqb_neq _ _)), land_mask, Z_mod_same_full by lia. apply returns_Ret.
  - intros [q Hq]. apply new_queue_inv in Hq as [Hq _]; [|done].
    exists (Z.log2 capacity). split; [apply Z.log2_nonneg|done].
Qed.

Lemma new_queue_capacity_witness :
  (exists k, 0 <= k /\ 8192 = 2 ^ k) <-> returns (new_queue 8192).
Proof. apply (new_queue_capacity 8192). lia. Defined.

(** The queue of capacity one after two pushes of [a] and [b]. *)
Definition queue1_overrun (b : bytes) : LogQueue := mkQueue [mkSlot 2 (Some b)] 0 0 2.

Lemma queue1_overrun_spins b fuel :
  outside (snd (run_thread fuel (queue1_overrun b) (PopTop 0))) = false /\
  outside (snd (run_thread fuel (queue1_overrun b) PopReload)) = false.
Proof. induction fuel as [|fuel [IH1 IH2]]; [done|]. split; [exact IH2|exact IH1]. Qed.

(** capacity one, which the constructor accepts, does not make a queue: a
    full slot looks like a free one for the next position, so a second [push]
    overwrites the entry of the first and returns true, and after it [pop]
    never returns. *)
Theorem capacity_one_loses_entries a b :
  exists q q1 q2,
    new_queue 1 = Ret q /\
    push 5 q (Some a) = (q1, PushReturned true) /\
    push 5 q1 (Some b) = (q2, PushReturned true) /\
    slots q2 = [mkSlot 2 (Some b)] /\
    forall fuel, outside (snd (pop fuel q2)) = false.
Proof.
  exists (mkQueue [mkSlot 0 None] 0 0 0), (mkQueue [mkSlot 1 (Some a)] 0 0 1), (queue1_overrun b).
  split_and!; [reflexivity..|]. intros fuel. apply queue1_overrun_spins.
Qed.
