(* ===== verification/AsyncLogger.v ===== *)
(** * AsyncLogger: the logger of coroutineWebServer/AsyncLogger.cpp

    Producers inside [log], the worker thread inside [worker_loop] and one
    controller inside [start] or [stop], one access to the shared state per
    step.  The queue is the concurrent one of LogQueue.v: a [push] or a [pop] is
    its sequence of atomic accesses, interleaved with those of all other
    threads.  A critical section of [sink_mutex_] is one step.  The sink keeps
    what was inserted and what was flushed apart. *)

From stdpp Require Import functions.
From S2P Require Export LogQueue.

(** ** Lines *)

Inductive LogLevel := trace | debug | info | warn | error | fatal.

Definition level_name (level : LogLevel) : bytes :=
  match level with
  | trace => lit "TRACE"
  | debug => lit "DEBUG"
  | info => lit "INFO"
  | warn => lit "WARN"
  | error => lit "ERROR"
  | fatal => lit "FATAL"
  end.

(** [timestamp] is what [format_timestamp] returned. *)
Definition format_line (timestamp : bytes) (level : LogLevel) (message : bytes) : bytes :=
  timestamp ++ lit " [" ++ level_name level ++ lit "] " ++ message ++ [LF].

(** ** The sink *)

(** [std::ofstream] opened with [ios::app]: lines inserted and not yet
    flushed, and the lines of the file. *)
Record Sink := mkSink { is_open : bool; inserted : list bytes; file : list bytes }.

Definition sink_insert (s : Sink) (line : bytes) : Sink :=
  mkSink (is_open s) (inserted s ++ [line]) (file s).
Definition sink_flush (s : Sink) : Sink := mkSink (is_open s) [] (file s ++ inserted s).
Definition sink_close (s : Sink) : Sink := mkSink false [] (file s ++ inserted s).

(** ** The logger *)

(** The threads of [queue_] are the worker, [0], and the producers, [S t] for
    the [t]-th. *)
Record logger := mkLogger { running : bool; queue_ : system; sink : Sink }.

Definition set_running (l : logger) (b : bool) : logger := mkLogger b (queue_ l) (sink l).
Definition set_queue (l : logger) (q : system) : logger := mkLogger (running l) q (sink l).
Definition set_sink (l : logger) (s : Sink) : logger := mkLogger (running l) (queue_ l) s.

Definition direct_write (l : logger) (line : bytes) : logger :=
  if is_open (sink l) then set_sink l (sink_flush (sink_insert (sink l) line)) else l.

(** A thread inside [log]: before a call of [push], inside it, and before
    [direct_write]. *)
Inductive producer :=
  | PIdle
  | PTry (line : bytes) (attempts : nat)
  | PPush (line : bytes) (attempts : nat)
  | PDirect (line : bytes).

(** A step of producer [t]: [v] is the value it loads, if it loads one, and
    [spurious] that its exchange fails on equal values. *)
Definition producer_step (l : logger) (t : nat) (p : producer) (v : Z) (spurious : bool) : logger * producer :=
  match p with
  | PIdle => (l, PIdle)
  | PTry line attempts =>
      if (attempts <? 16)%nat then
        (set_queue l (call (queue_ l) (S t) (PushTop (Some line) v)), PPush line attempts)
      else (l, PDirect line)
  | PPush line attempts =>
      let q := advance (queue_ l) (S t) v spurious in
      (set_queue l q,
       match threads q (S t) with
       | PushReturned true => PIdle
       | PushReturned false => PTry line (S attempts)
       | _ => PPush line attempts
       end)
  | PDirect line => (direct_write l line, PIdle)
  end.

(** The thread inside [worker_loop]: [W...] in the outer loop, [F...] after it;
    [...Call] before a call of [pop], [...Pop] inside it. *)
Inductive worker :=
  | WNone
  | WTop
  | WCall (wrote : bool)
  | WPop (wrote : bool)
  | WWrite (entry : entry_ptr) (wrote : bool)
  | WFlush
  | WSleep
  | FCall
  | FPop
  | FWrite (entry : entry_ptr)
  | FFlush
  | WDone.

(** [if (entry) { lock; if (sink_.is_open()) sink_ << *entry; }] *)
Definition write_entry (l : logger) (entry : entry_ptr) : logger * bool :=
  match entry with
  | Some line =>
      if is_open (sink l) then (set_sink l (sink_insert (sink l) line), true) else (l, false)
  | None => (l, false)
  end.

Definition flush_if_open (l : logger) : logger :=
  if is_open (sink l) then set_sink l (sink_flush (sink l)) else l.

Definition worker_step (l : logger) (w : worker) (v : Z) (spurious : bool) : logger * worker :=
  match w with
  | WNone => (l, WNone)
  | WTop => (l, if running l then WCall false else FCall)
  | WCall wrote => (set_queue l (call (queue_ l) 0 (PopTop v)), WPop wrote)
  | WPop wrote =>
      let q := advance (queue_ l) 0 v spurious in
      (set_queue l q,
       match threads q 0%nat with
       | PopReturned popped entry =>
           if popped then WWrite entry wrote else if wrote then WFlush else WSleep
       | _ => WPop wrote
       end)
  | WWrite entry wrote =>
      let '(l', inserted) := write_entry l entry in (l', WCall (inserted || wrote))
  | WFlush => (flush_if_open l, WSleep)
  | WSleep => (l, WTop)
  | FCall => (set_queue l (call (queue_ l) 0 (PopTop v)), FPop)
  | FPop =>
      let q := advance (queue_ l) 0 v spurious in
      (set_queue l q,
       match threads q 0%nat with
       | PopReturned popped entry => if popped then FWrite entry else FFlush
       | _ => FPop
       end)
  | FWrite entry => ((write_entry l entry).1, FCall)
  | FFlush => (flush_if_open l, WDone)
  | WDone => (l, WDone)
  end.

(** The thread inside [start] ([COpen]) or [stop] ([CJoin], [CClose]). *)
Inductive controller := CIdle | COpen | CJoin | CClose | CThrown.

#[export] Instance producer_eq_dec : EqDecision producer.
Proof. solve_decision. Defined.
#[export] Instance worker_eq_dec : EqDecision worker.
Proof. solve_decision. Defined.
#[export] Instance controller_eq_dec : EqDecision controller.
Proof. solve_decision. Defined.

(** [open_ok]: [sink_.open] succeeds. *)
Definition controller_step (open_ok : bool) (l : logger) (w : worker) (c : controller)
    : logger * worker * controller :=
  match c with
  | CIdle => (l, w, CIdle)
  | COpen =>
      if open_ok then (set_sink l (mkSink true (inserted (sink l)) (file (sink l))), WTop, CIdle)
      else (set_running l false, w, CThrown)
  | CJoin =>
      match w with WDone | WNone => (l, WNone, CClose) | _ => (l, w, CJoin) end
  | CClose =>
      (if is_open (sink l) then set_sink l (sink_close (sink_flush (sink l))) else l, w, CIdle)
  | CThrown => (l, w, CIdle)
  end.

Definition start (l : logger) : logger * controller :=
  (set_running l true, if running l then CIdle else COpen).
Definition stop (l : logger) : logger * controller :=
  (set_running l false, if running l then CJoin else CIdle).

(** ** Concurrent executions

    [wrote]: lines the worker inserted into the sink; [direct]: lines written by
    [direct_write]; [dropped]: lines [direct_write] ignored because the sink was
    closed; [released]: how many of the first positions of the queue had been
    published before [stop] set [running_] to false, as far as the thread that
    called it knows. *)
Record log_system := mkLogSystem {
  lg : logger;
  producers : nat -> producer;
  wk : worker;
  ctl : controller;
  wrote : list bytes;
  direct : list bytes;
  dropped : list bytes;
  released : nat
}.

Definition direct_event (open : bool) (p : producer) : list bytes :=
  match p with PDirect line => if open then [line] else [] | _ => [] end.
Definition dropped_event (open : bool) (p : producer) : list bytes :=
  direct_event (negb open) p.
Definition wrote_event (open : bool) (w : worker) : list bytes :=
  match w with
  | WWrite (Some line) _ | FWrite (Some line) => if open then [line] else []
  | _ => []
  end.

(** What a producer may load: any value the counter has had. *)
Definition producer_may_load (l : logger) (t : nat) (p : producer) (v : Z) : bool :=
  match p with
  | PTry _ _ => may_load_b (tail (queue (queue_ l))) v
  | PPush _ _ => may_load_b (loaded_counter (queue (queue_ l)) (threads (queue_ l) (S t))) v
  | _ => true
  end.

(** What the worker may load: of [head_], which it alone changes, the value; of
    a sequence any value it has had, except that, once it has read [running_]
    false, which [stop] released and it acquired, it sees the sequences published
    before. *)
Definition worker_may_load (released : nat) (l : logger) (w : worker) (v : Z) : bool :=
  let q := queue (queue_ l) in
  match w with
  | WCall _ | FCall => v =? head q
  | WPop _ | FPop =>
      match threads (queue_ l) 0%nat with
      | PopTop pos =>
          may_load_b (loaded_counter q (PopTop pos)) v &&
          (negb (bool_decide (w = FPop)) || (Z.of_nat released <=? pos) || (pos + 1 <=? v))
      | PopCas _ | PopReload => v =? head q
      | _ => v =? 0
      end
  | _ => true
  end.

(** The first [n] positions have been published. *)
Definition published (q : system) (n : nat) : bool :=
  forallb (fun p => match slot_of (queue q) (Z.of_nat p) with
                    | Some sl => Z.of_nat p + 1 <=? sequence sl
                    | None => false
                    end) (seq 0 n) &&
  (n <=? length (enqueued q))%nat.

Inductive log_action :=
  | ALog (t : nat) (line : bytes)
  | AProducer (t : nat) (v : Z) (spurious : bool)
  | AWorker (v : Z) (spurious : bool)
  | AStart
  | AStop (n : nat)
  | AController (open_ok : bool).

(** A call of [stop] by a thread to which the first [n] positions are known to be
    published. *)
Definition call_stop (n : nat) (s : log_system) : log_system :=
  let '(l', c') := stop (lg s) in
  mkLogSystem l' (producers s) (wk s) c' (wrote s) (direct s) (dropped s)
    (if running (lg s) then Nat.max (released s) n else released s).

(** One action; [None] when it cannot happen. *)
Definition run_log_action (s : log_system) (a : log_action) : option log_system :=
  let open := is_open (sink (lg s)) in
  match a with
  | ALog t line =>
      if bool_decide (producers s t = PIdle) then
        Some (mkLogSystem (lg s) (<[t := PTry line 0]> (producers s)) (wk s) (ctl s) (wrote s) (direct s)
                (dropped s) (released s))
      else None
  | AProducer t v spurious =>
      if producer_may_load (lg s) t (producers s t) v then
        let '(l', p') := producer_step (lg s) t (producers s t) v spurious in
        Some (mkLogSystem l' (<[t := p']> (producers s)) (wk s) (ctl s) (wrote s)
                (direct s ++ direct_event open (producers s t))
                (dropped s ++ dropped_event open (producers s t)) (released s))
      else None
  | AWorker v spurious =>
      if worker_may_load (released s) (lg s) (wk s) v then
        let '(l', w') := worker_step (lg s) (wk s) v spurious in
        Some (mkLogSystem l' (producers s) w' (ctl s) (wrote s ++ wrote_event open (wk s)) (direct s)
                (dropped s) (released s))
      else None
  | AStart =>
      if bool_decide (ctl s = CIdle) then
        let '(l', c') := start (lg s) in
        Some (mkLogSystem l' (producers s) (wk s) c' (wrote s) (direct s) (dropped s) (released s))
      else None
  | AStop n =>
      if bool_decide (ctl s = CIdle) && published (queue_ (lg s)) n then Some (call_stop n s) else None
  | AController open_ok =>
      if bool_decide (ctl s = CIdle) then None
      else
        let '(l', w', c') := controller_step open_ok (lg s) (wk s) (ctl s) in
        Some (mkLogSystem l' (producers s) w' c' (wrote s) (direct s) (dropped s) (released s))
  end.

Fixpoint run_log (s : log_system) (l : list log_action) : option log_system :=
  match l with
  | [] => Some s
  | a :: l' => s' ← run_log_action s a; run_log s' l'
  end.

Inductive log_step (s : log_system) : log_system -> Prop :=
  | log_step_action a s' : run_log_action s a = Some s' -> log_step s s'.

Definition initial_log (q : LogQueue) : log_system :=
  mkLogSystem (mkLogger false (initial_system q) (mkSink false [] [])) (fun _ => PIdle) WNone CIdle [] [] [] 0.

(** The lines that were claimed a position in the queue, in their order. *)
Definition pushed (s : log_system) : list bytes := omap id (enqueued (queue_ (lg s))).

Lemma run_log_reaches l : forall s s', run_log s l = Some s' -> rtc log_step s s'.
Proof.
  induction l as [|a l IH]; intros s s'; cbn; [by intros [= ->]|].
  intros (s1 & Ha & Hl)%bind_Some. eapply rtc_l; [by econstructor|by apply IH].
Qed.

(** * Lemmas *)

(** A line that [pop] or the worker has taken and that is not yet written. *)
Definition in_hand_of (w : worker) (c : pc) : list bytes :=
  match w, c with
  | (WWrite (Some x) _ | FWrite (Some x)), _ => [x]
  | (WPop _ | FPop), PopSequence (Some x) _ => [x]
  | _, _ => []
  end.
Definition in_hand (s : log_system) : list bytes := in_hand_of (wk s) (threads (queue_ (lg s)) 0%nat).

(** [WTop] to [WSleep]: the worker runs and has not seen [running_] false. *)
Definition in_outer_loop (w : worker) : bool :=
  match w with WTop | WCall _ | WPop _ | WWrite _ _ | WFlush | WSleep => true | _ => false end.

(** The last [pop] has returned false. *)
Definition drained (w : worker) : bool :=
  match w with FFlush | WDone | WNone => true | _ => false end.

(** What the controller knows of [running_], the sink and the worker. *)
Definition log_phase (r open : bool) (w : worker) (c : controller) : Prop :=
  match c with
  | CIdle => if r then in_outer_loop w = true else w = WNone
  | COpen => r = true /\ w = WNone
  | CJoin => r = false /\ w <> WNone
  | CClose => r = false /\ w = WNone /\ open = true
  | CThrown => r = false /\ w = WNone
  end.

Lemma log_phase_worker r open w w' c :
  log_phase r open w c -> w <> WNone -> w' <> WNone ->
  in_outer_loop w' = in_outer_loop w \/ r = false -> log_phase r open w' c.
Proof. destruct c, r; cbn; intuition congruence. Qed.

(** A thread inside [push] of [line]. *)
Definition pushing (line : bytes) (c : pc) : Prop :=
  match c with
  | PushTop e _ | PushCas e _ | PushReload e | PushPayload e _ => e = Some line
  | PushSequence _ => True
  | _ => False
  end.

Definition producer_ok (p : producer) (c : pc) : Prop :=
  match p with PPush line _ => pushing line c | _ => outside c = true end.

(** The worker is inside [pop] when it says so, at the position of [head_]. *)
Definition worker_ok (h : Z) (w : worker) (c : pc) : Prop :=
  match w with
  | WPop _ | FPop => popping c = true /\ (forall pos, c = PopTop pos -> pos = h)
  | _ => outside c = true
  end.

Section invariant.
Context (cap k : Z) (Hcap : 2 <= cap) (Hk : 0 <= k) (Hpow : cap = 2 ^ k).

Record LogInv (s : log_system) : Prop := mkLogInv {
  li_reach : reachable (fun t => t = 0%nat) (fresh_queue cap) (queue_ (lg s));
  li_producers : forall t, producer_ok (producers s t) (threads (queue_ (lg s)) (S t));
  li_worker : worker_ok (head (queue (queue_ (lg s)))) (wk s) (threads (queue_ (lg s)) 0%nat);
  li_lines_only : Forall is_Some (enqueued (queue_ (lg s)));
  li_taken : (dequeued (queue_ (lg s))).*2 = Some <$> (wrote s ++ in_hand s);
  li_open : wk s <> WNone -> is_open (sink (lg s)) = true;
  li_lines : file (sink (lg s)) ++ inserted (sink (lg s)) ≡ₚ wrote s ++ direct s;
  li_order : sublist (wrote s) (file (sink (lg s)) ++ inserted (sink (lg s)));
  li_phase : log_phase (running (lg s)) (is_open (sink (lg s))) (wk s) (ctl s);
  li_released : (released s <= length (enqueued (queue_ (lg s))))%nat;
  li_drained : drained (wk s) = true -> (released s <= length (wrote s))%nat;
  li_flushed : wk s = WDone \/ wk s = WNone -> inserted (sink (lg s)) = []
}.

Definition log_bounded (s : log_system) : Prop := bounded cap (queue_ (lg s)).

(** ** The queue under the logger *)

Lemma queue_facts s : LogInv s -> log_bounded s ->
  let q := queue_ (lg s) in Inv cap q /\ HistInv q /\ Kept cap q /\ OneConsumer 0 q.
Proof.
  intros Hi Hb q. destruct (reachable_kept cap k Hcap Hk Hpow _ _ (li_reach s Hi) Hb) as (? & ? & ?).
  by destruct (reachable_one cap k Hcap Hk Hpow _ _ (li_reach s Hi) Hb).
Qed.

Lemma advance_step q t v sp :
  outside (threads q t) = false -> may_load (loaded_counter (queue q) (threads q t)) v ->
  step (fun t => t = 0%nat) q (advance q t v sp).
Proof.
  intros Ho Hv. unfold advance. destruct (thread_step _ _ _ _) as [q' c'] eqn:E. by apply (step_inside _ _ t v sp).
Qed.

Lemma advance_other q t v sp t' : t' <> t -> threads (advance q t v sp) t' = threads q t'.
Proof. intros Hne. unfold advance. destruct (thread_step _ _ _ _). cbn. by rewrite fn_lookup_insert_ne. Qed.

Lemma may_load_b_spec c v : may_load_b c v = true -> may_load c v.
Proof. unfold may_load_b, may_load. intros H. zbool. lia. Qed.

(** The pcs a step of [push] can lead to, and what it enqueues. *)
Lemma push_step q c v sp q' c' line :
  pushing line c -> thread_step q c v sp = (q', c') -> c' <> Undefined ->
  (pushing line c' \/ exists b, c' = PushReturned b) /\ Forall is_Some (enqueue_event c c') /\
  dequeue_event c c' = [] /\ head q' = head q.
Proof.
  intros Hp Hst Hu. destruct c; cbn in Hp; try done; step_cases Hst; cbn;
    (split_and!; [by eauto|by repeat constructor|done..]).
Qed.

(** The same of [pop]. *)
Lemma pop_step q c v sp q' c' :
  popping c = true -> thread_step q c v sp = (q', c') -> c' <> Undefined ->
  (popping c' = true \/ exists b e, c' = PopReturned b e) /\ enqueue_event c c' = [].
Proof.
  intros Hp Hst Hu. destruct c; cbn in Hp; try done; step_cases Hst; cbn; (split; [by eauto|done]).
Qed.

Lemma log_step_grows s s' : log_step s s' -> log_bounded s' -> log_bounded s.
Proof.
  intros [a s1 Ha]. unfold log_bounded, bounded.
  enough (length (enqueued (queue_ (lg s))) <= length (enqueued (queue_ (lg s1))))%nat by lia.
  assert (Hadv : forall q t v sp, (length (enqueued q) <= length (enqueued (advance q t v sp)))%nat).
  { intros q t v sp. unfold advance. destruct (thread_step _ _ _ _). cbn. rewrite length_app. lia. }
  destruct a as [t line|t v sp|v sp| |n|ok]; cbn in Ha.
  - case_bool_decide; by simplify_eq.
  - case_if_in Ha; [|done]. destruct (producer_step _ _ _ _ _) as [l' p'] eqn:Est. injection Ha as <-. cbn.
    destruct (producers s t); cbn in Est; try case_if_in Est; injection Est as <- _; cbn; auto.
    unfold direct_write. by case_if.
  - case_if_in Ha; [|done]. destruct (worker_step _ _ _ _) as [l' w'] eqn:Est. injection Ha as <-. cbn.
    destruct (wk s) as [| | | |e ?| | | | |e| |]; cbn in Est; try (destruct e); unfold write_entry, flush_if_open in Est;
      try case_if_in Est; injection Est as <- _; cbn; auto; by case_if.
  - case_bool_decide; [|done]. by injection Ha as <-.
  - case_if_in Ha; [|done]. by injection Ha as <-.
  - case_bool_decide; [done|]. destruct (controller_step _ _ _ _) as [[l' w'] c'] eqn:Est. injection Ha as <-. cbn.
    destruct (ctl s); cbn in Est; try case_if_in Est; try (destruct (wk s)); injection Est as <- _ _; cbn; auto; by case_if.
Qed.

(** ** Producers *)

(** What a step of producer [t] in the queue leaves alone. *)
Record producer_frame (t : nat) (q q' : system) : Prop := mkFrame {
  fr_reach : reachable (fun t => t = 0%nat) (fresh_queue cap) q';
  fr_threads : forall t', t' <> S t -> threads q' t' = threads q t';
  fr_lines : Forall is_Some (enqueued q');
  fr_enqueued : enqueued q `prefix_of` enqueued q';
  fr_dequeued : dequeued q' = dequeued q;
  fr_head : head (queue q') = head (queue q)
}.

Lemma inv_producer_queue s t q' p' :
  LogInv s -> producer_frame t (queue_ (lg s)) q' -> producer_ok p' (threads q' (S t)) ->
  LogInv (mkLogSystem (set_queue (lg s) q') (<[t := p']> (producers s)) (wk s) (ctl s) (wrote s) (direct s)
            (dropped s) (released s)).
Proof.
  intros Hi [Hr Ht Hl He Hd Hh] Hp. pose proof (Ht 0%nat (O_S t)) as H0. destruct Hi. unfold in_hand in *.
  constructor; unfold in_hand; cbn [lg producers wk ctl wrote direct dropped released queue_ sink running set_queue];
    rewrite ?H0, ?Hh, ?Hd; try done.
  - intros t'. destruct (decide (t = t')) as [<-|Hne]; [by rewrite fn_lookup_insert|].
    rewrite fn_lookup_insert_ne, Ht by congruence. done.
  - apply prefix_length in He. lia.
Qed.

Lemma call_push_frame s t line n v :
  LogInv s -> producers s t = PTry line n -> may_load (tail (queue (queue_ (lg s)))) v ->
  producer_frame t (queue_ (lg s)) (call (queue_ (lg s)) (S t) (PushTop (Some line) v)).
Proof.
  intros Hi Hp Hv. pose proof (li_producers s Hi t) as Ho. rewrite Hp in Ho. cbn in Ho.
  constructor; cbn; try done; [|by intros t' ?; rewrite fn_lookup_insert_ne|by apply Hi].
  eapply rtc_r; [by apply Hi|by apply step_push].
Qed.

Lemma advance_push_frame s t line n v sp :
  LogInv s -> producers s t = PPush line n ->
  may_load (loaded_counter (queue (queue_ (lg s))) (threads (queue_ (lg s)) (S t))) v ->
  bounded cap (advance (queue_ (lg s)) (S t) v sp) ->
  let q' := advance (queue_ (lg s)) (S t) v sp in
  producer_frame t (queue_ (lg s)) q' /\
  (pushing line (threads q' (S t)) \/ exists b, threads q' (S t) = PushReturned b).
Proof.
  intros Hi Hp Hv Hb q'. pose proof (li_producers s Hi t) as Ho. rewrite Hp in Ho. cbn in Ho.
  assert (Hout : outside (threads (queue_ (lg s)) (S t)) = false) by (by destruct (threads _ _)).
  assert (Hr : reachable (fun t => t = 0%nat) (fresh_queue cap) q')
    by (eapply rtc_r; [by apply Hi|by apply advance_step]).
  assert (Hu : threads q' (S t) <> Undefined).
  { destruct (reachable_kept cap k Hcap Hk Hpow _ _ Hr Hb) as (HI & _). destruct (inv_threads _ _ HI (S t)) as [_ Hok].
    intros E. by rewrite E in Hok. }
  pose proof (advance_other (queue_ (lg s)) (S t) v sp) as Hot. fold q' in Hot.
  unfold q', advance in *. destruct (thread_step _ _ _ _) as [q1 c1] eqn:Est.
  cbn in Hu. rewrite fn_lookup_insert in Hu. destruct (push_step _ _ _ _ _ _ line Ho Est Hu) as (Hc & He & Hd & Hh).
  split; [constructor; cbn|cbn; by rewrite fn_lookup_insert].
  - exact Hr.
  - exact Hot.
  - apply Forall_app. split; [by apply Hi|done].
  - by apply prefix_app_r.
  - by rewrite Hd, app_nil_r.
  - exact Hh.
Qed.

Lemma inv_direct s t line :
  LogInv s -> producers s t = PDirect line ->
  LogInv (mkLogSystem (direct_write (lg s) line) (<[t := PIdle]> (producers s)) (wk s) (ctl s) (wrote s)
            (direct s ++ direct_event (is_open (sink (lg s))) (PDirect line))
            (dropped s ++ dropped_event (is_open (sink (lg s))) (PDirect line)) (released s)).
Proof.
  intros Hi Hp. destruct Hi as [Hr Hps Hw Hln Ht Ho Hl Hs Hph Hrel Hd Hf].
  assert (Hps' : forall t', producer_ok ((<[t := PIdle]> (producers s)) t') (threads (queue_ (lg s)) (S t'))).
  { intros t'. destruct (decide (t = t')) as [<-|]; [|by rewrite fn_lookup_insert_ne].
    rewrite fn_lookup_insert. specialize (Hps t). by rewrite Hp in Hps. }
  unfold direct_write. cbn [direct_event]. destruct (is_open (sink (lg s))) eqn:Eo.
  - constructor; cbn [lg producers wk ctl wrote direct dropped released queue_ sink running set_sink sink_flush
      sink_insert is_open inserted file]; rewrite ?app_nil_r, ?Eo; try done.
    + rewrite (app_assoc (wrote s)), <- Hl. by rewrite app_assoc.
    + rewrite app_assoc. by apply sublist_inserts_r.
  - rewrite app_nil_r. constructor; cbn [lg producers wk ctl wrote direct dropped released]; by rewrite ?Eo.
Qed.

Lemma inv_producer s t v sp l' p' :
  LogInv s -> producer_may_load (lg s) t (producers s t) v = true ->
  producer_step (lg s) t (producers s t) v sp = (l', p') -> bounded cap (queue_ l') ->
  LogInv (mkLogSystem l' (<[t := p']> (producers s)) (wk s) (ctl s) (wrote s)
            (direct s ++ direct_event (is_open (sink (lg s))) (producers s t))
            (dropped s ++ dropped_event (is_open (sink (lg s))) (producers s t)) (released s)).
Proof.
  intros Hi Hv Hst Hb. pose proof (li_producers s Hi t) as Hok.
  assert (Hlocal : forall p, producer_ok p (threads (queue_ (lg s)) (S t)) ->
    LogInv (mkLogSystem (lg s) (<[t := p]> (producers s)) (wk s) (ctl s) (wrote s) (direct s) (dropped s) (released s))).
  { intros p Hp. destruct Hi as [? Hps]. constructor; cbn; try done.
    intros t'. destruct (decide (t = t')) as [<-|]; [by rewrite fn_lookup_insert|by rewrite fn_lookup_insert_ne]. }
  destruct (producers s t) as [|line n|line n|line] eqn:Et; cbn in Hst, Hv, Hok.
  - injection Hst as <- <-. rewrite !app_nil_r. by apply Hlocal.
  - rewrite !app_nil_r. case_if_in Hst; injection Hst as <- <-; [|by apply Hlocal].
    apply inv_producer_queue; [done|by eapply call_push_frame, may_load_b_spec|].
    cbn. by rewrite fn_lookup_insert.
  - rewrite !app_nil_r. injection Hst as <- <-.
    destruct (advance_push_frame s t line n v sp Hi Et (may_load_b_spec _ _ Hv) Hb) as [Hfr Hc].
    apply inv_producer_queue; [done|done|].
    destruct Hc as [Hc|[b Hc]]; [|rewrite Hc; by destruct b].
    revert Hc. generalize (threads (advance (queue_ (lg s)) (S t) v sp) (S t)). by intros [].
  - injection Hst as <- <-. by apply inv_direct.
Qed.

(** ** The worker *)

Lemma sink_lines_insert (s : Sink) line :
  file (sink_insert s line) ++ inserted (sink_insert s line) = (file s ++ inserted s) ++ [line].
Proof using Type. by cbn; rewrite app_assoc. Qed.

(** The worker steps in the queue. *)
Lemma inv_worker_queue s q' w' :
  LogInv s -> reachable (fun t => t = 0%nat) (fresh_queue cap) q' ->
  (forall t, threads q' (S t) = threads (queue_ (lg s)) (S t)) ->
  worker_ok (head (queue q')) w' (threads q' 0%nat) ->
  enqueued q' = enqueued (queue_ (lg s)) ->
  (dequeued q').*2 = Some <$> (wrote s ++ in_hand_of w' (threads q' 0%nat)) ->
  wk s <> WNone -> w' <> WNone -> w' <> WDone -> in_outer_loop w' = in_outer_loop (wk s) ->
  (drained w' = true -> (released s <= length (wrote s))%nat) ->
  LogInv (mkLogSystem (set_queue (lg s) q') (producers s) w' (ctl s) (wrote s) (direct s) (dropped s) (released s)).
Proof.
  intros Hi Hr Ht Hw He Hd Hn Hn' Hnd Hout Hrel. pose proof (li_open s Hi Hn) as Hop. destruct Hi.
  constructor; unfold in_hand; cbn [lg producers wk ctl wrote direct dropped released queue_ sink running set_queue];
    rewrite ?He; try done.
  - intros t. by rewrite Ht.
  - eapply log_phase_worker; [done|done|done|by left].
  - by intros [->| ->].
Qed.

(** The worker enters [pop]. *)
Lemma inv_worker_call s v w' :
  LogInv s -> (exists wrote, wk s = WCall wrote /\ w' = WPop wrote) \/ (wk s = FCall /\ w' = FPop) ->
  log_bounded s -> v = head (queue (queue_ (lg s))) ->
  LogInv (mkLogSystem (set_queue (lg s) (call (queue_ (lg s)) 0 (PopTop v))) (producers s) w' (ctl s) (wrote s)
            (direct s) (dropped s) (released s)).
Proof.
  intros Hi Hw Hb ->. pose proof (li_worker s Hi) as Ho. pose proof (li_taken s Hi) as Ht. unfold in_hand in Ht.
  destruct (queue_facts s Hi Hb) as (HI & _). pose proof (inv_head _ _ HI).
  assert (Hout : outside (threads (queue_ (lg s)) 0) = true) by (by destruct Hw as [(? & E & _)|[E _]]; rewrite E in Ho).
  apply inv_worker_queue; cbn; try done.
  - eapply rtc_r; [by apply Hi|]. apply step_pop; [done|done|unfold may_load; lia].
  - rewrite fn_lookup_insert. destruct Hw as [(? & _ & ->)|[_ ->]]; cbn; (split; [done|by intros ? [= ->]]).
  - rewrite fn_lookup_insert, Ht. by destruct Hw as [(? & -> & ->)|[-> ->]].
  - by destruct Hw as [(? & -> & _)|[-> _]].
  - by destruct Hw as [(? & _ & ->)|[_ ->]].
  - by destruct Hw as [(? & _ & ->)|[_ ->]].
  - by destruct Hw as [(? & -> & ->)|[-> ->]].
  - by destruct Hw as [(? & _ & ->)|[_ ->]].
Qed.

(** Where a step inside [pop] leads. *)
Inductive pop_result (s : log_system) (q' : system) : Prop :=
  | pop_inside :
      popping (threads q' 0%nat) = true -> (forall pos, threads q' 0%nat = PopTop pos -> pos = head (queue q')) ->
      (dequeued q').*2 = Some <$> (wrote s ++ in_hand_of FPop (threads q' 0%nat)) -> pop_result s q'
  | pop_some x :
      threads q' 0%nat = PopReturned true (Some x) -> (dequeued q').*2 = Some <$> (wrote s ++ [x]) ->
      pop_result s q'
  | pop_none :
      threads q' 0%nat = PopReturned false None -> (dequeued q').*2 = Some <$> wrote s ->
      (wk s = FPop -> (released s <= length (wrote s))%nat) -> pop_result s q'.

Definition in_pop (w : worker) : bool := match w with WPop _ | FPop => true | _ => false end.

Lemma in_pop_facts s :
  LogInv s -> in_pop (wk s) = true ->
  let c := threads (queue_ (lg s)) 0%nat in
  popping c = true /\ (forall pos, c = PopTop pos -> pos = head (queue (queue_ (lg s)))) /\
  (dequeued (queue_ (lg s))).*2 = Some <$> (wrote s ++ in_hand_of FPop c).
Proof.
  intros Hi Hw c. pose proof (li_worker s Hi) as Ho. pose proof (li_taken s Hi) as Ht. unfold in_hand in Ht.
  fold c in Ho, Ht. destruct (wk s); try done; cbn in Ho; destruct Ho; by split_and!.
Qed.

(** The load that makes [pop] return false. *)
Lemma pop_returns_false s v pos :
  LogInv s -> log_bounded s -> in_pop (wk s) = true -> threads (queue_ (lg s)) 0%nat = PopTop pos ->
  worker_may_load (released s) (lg s) (wk s) v = true ->
  match distance v (u64 (pos + 1)) with
  | Some diff => diff < 0 -> wk s = FPop -> (released s <= length (wrote s))%nat
  | None => False
  end.
Proof.
  intros Hi Hb Hw Hc Hv. destruct (queue_facts s Hi Hb) as (HI & _ & _ & [_ _ Hone]). rewrite Hc in Hone.
  destruct (in_pop_facts s Hi Hw) as (_ & Hpos & Ht). specialize (Hpos _ Hc). subst pos. rewrite Hc in Ht. cbn in Ht.
  assert (Hlen : length (dequeued (queue_ (lg s))) = length (wrote s)).
  { apply (f_equal length) in Ht. by rewrite app_nil_r, !length_fmap in Ht. }
  pose proof (inv_head _ _ HI). pose proof (inv_tail _ _ HI). unfold log_bounded, bounded in Hb.
  assert (Hv' : 0 <= v <= tail (queue (queue_ (lg s))) + cap /\
    (wk s = FPop -> Z.of_nat (released s) <= head (queue (queue_ (lg s))) \/ head (queue (queue_ (lg s))) + 1 <= v)).
  { destruct (slot_exists cap k Hcap Hk _ (head (queue (queue_ (lg s)))) HI) as [sl Hsl].
    pose proof (sequence_bound cap k Hcap Hk _ _ _ HI Hsl).
    unfold worker_may_load in Hv. rewrite Hc in Hv. cbn [loaded_counter] in Hv.
    rewrite (slot_of_idx cap k Hk Hpow _ _ (inv_mask _ _ HI)), Hsl in Hv. cbn [from_option] in Hv.
    destruct (wk s) eqn:Ew; try done; apply andb_true_iff in Hv as [Hl%may_load_b_spec Hv]; unfold may_load in Hl;
      (split; [lia|try done]). intros _. rewrite bool_decide_true in Hv by done. cbn in Hv.
    apply orb_true_iff in Hv as [?|?]; zbool; lia. }
  rewrite u64_small, distance_small by lia. intros Hd Hf. destruct Hv' as [_ Hv']. specialize (Hv' Hf). lia.
Qed.

(** The new pc of the thread, and empty events. *)
Ltac settle_thread :=
  cbn in *; rewrite ?fn_lookup_insert in *; cbn in *; rewrite ?app_nil_r in *; try done.

Lemma advance_pop s v sp :
  LogInv s -> log_bounded s -> in_pop (wk s) = true ->
  worker_may_load (released s) (lg s) (wk s) v = true ->
  let q' := advance (queue_ (lg s)) 0 v sp in
  reachable (fun t => t = 0%nat) (fresh_queue cap) q' /\
  (forall t, threads q' (S t) = threads (queue_ (lg s)) (S t)) /\
  enqueued q' = enqueued (queue_ (lg s)) /\ pop_result s q'.
Proof.
  intros Hi Hb Hw Hv q'. destruct (queue_facts s Hi Hb) as (HI & Hh & HK & _).
  destruct (in_pop_facts s Hi Hw) as (Hp & Hpos & Ht).
  assert (Hload : may_load (loaded_counter (queue (queue_ (lg s))) (threads (queue_ (lg s)) 0%nat)) v).
  { pose proof (inv_head _ _ HI). unfold worker_may_load in Hv.
    destruct (wk s); try done; destruct (threads (queue_ (lg s)) 0%nat) eqn:Ec; try done; cbn;
      first [apply andb_true_iff in Hv as [Hv%may_load_b_spec _]; exact Hv|zbool; unfold may_load; lia]. }
  assert (Hout : outside (threads (queue_ (lg s)) 0%nat) = false) by (by destruct (threads _ _)).
  assert (Hr : reachable (fun t => t = 0%nat) (fresh_queue cap) q')
    by (eapply rtc_r; [by apply Hi|by apply advance_step]).
  assert (Hot : forall t, threads q' (S t) = threads (queue_ (lg s)) (S t)) by (intros t; by apply advance_other).
  pose proof (pop_returns_false s v) as Hfalse.
  pose proof (li_lines_only s Hi) as Hlines.
  assert (Henq : enqueued q' = enqueued (queue_ (lg s))).
  { unfold q', advance. destruct (thread_step _ _ _ _) as [q1 c1]. cbn.
    destruct (threads (queue_ (lg s)) 0%nat); try done; cbn; by rewrite app_nil_r. }
  split_and!; [done|done|done|].
  assert (Hu : threads q' 0%nat <> Undefined).
  { destruct (reachable_kept cap k Hcap Hk Hpow _ _ Hr) as (HI' & _).
    - unfold bounded. rewrite Henq. exact Hb.
    - destruct (inv_threads _ _ HI' 0%nat) as [_ Hok]. intros E. by rewrite E in Hok. }
  clear Hr Hot Henq. unfold q', advance in *. clear q'.
  destruct (thread_step _ _ _ _) as [q1 c1] eqn:Est. cbn in Hu. rewrite fn_lookup_insert in Hu.
  destruct (threads (queue_ (lg s)) 0%nat) as [| | | | | | |pos|pos| |pos|e pos| |] eqn:Ec; try done; cbn in Est.
  - specialize (Hfalse pos Hi Hb Hw eq_refl Hv). destruct (slot_of _ _); [|by simplify_eq].
    destruct (distance _ _) as [diff|]; [|done]. injection Est as <- <-.
    destruct (diff =? 0) eqn:E0; [|destruct (diff <? 0) eqn:E1].
    + apply pop_inside; settle_thread.
    + apply pop_none; settle_thread. apply Hfalse. by zbool.
    + apply pop_inside; settle_thread.
  - cbn in Ht. destruct ((head (queue (queue_ (lg s))) =? pos) && negb sp); injection Est as <- <-;
      apply pop_inside; settle_thread.
    intros ? [= <-]. unfold worker_may_load in Hv. rewrite Ec in Hv. by destruct (wk s); zbool.
  - cbn in Ht. injection Est as <- <-. apply pop_inside; settle_thread.
    intros ? [= <-]. unfold worker_may_load in Hv. rewrite Ec in Hv. by destruct (wk s); zbool.
  - change (thread_step (queue (queue_ (lg s))) (PopPayload pos) v sp = (q1, c1)) in Est. rewrite <- Ec in Est.
    destruct (pop_payload_step cap k Hk Hpow _ _ _ _ _ _ _ HI Ec Est) as (x & -> & _ & Hx & _).
    eapply Forall_lookup_1 in Hlines as [line ->]; [|exact Hx].
    apply pop_inside; settle_thread. by rewrite !fmap_app, Ht.
  - destruct (slot_of _ _); [|by simplify_eq]. injection Est as <- <-. cbn in Ht.
    destruct e as [x|].
    + eapply pop_some; settle_thread.
    + exfalso. pose proof (kept_emptied _ _ HK _ _ _ Ec) as Hin.
      assert (Hn : None ∈ (dequeued (queue_ (lg s))).*2) by (apply list_elem_of_fmap; by exists (pos, None)).
      rewrite Ht, app_nil_r in Hn. apply list_elem_of_fmap in Hn as (? & ? & _). done.
Qed.

(** The worker steps inside [pop]; [next] is where it goes on. *)
Lemma inv_worker_pop s v sp w' :
  let q' := advance (queue_ (lg s)) 0 v sp in
  LogInv s -> log_bounded s -> in_pop (wk s) = true -> worker_may_load (released s) (lg s) (wk s) v = true ->
  w' = (worker_step (lg s) (wk s) v sp).2 ->
  LogInv (mkLogSystem (set_queue (lg s) q') (producers s) w' (ctl s) (wrote s) (direct s) (dropped s) (released s)).
Proof.
  intros q' Hi Hb Hw Hv Hw'. destruct (advance_pop s v sp Hi Hb Hw Hv) as (Hr & Hot & Henq & Hres). fold q' in Hr, Hot, Henq, Hres.
  assert (Hcase : (exists wr, wk s = WPop wr) \/ wk s = FPop) by (destruct (wk s); try done; eauto).
  destruct Hres as [Hp Hpos Hd|x Hc Hd|Hc Hd Hrel].
  - assert (Hsame : w' = wk s).
    { destruct Hcase as [[wr Ew]|Ew]; rewrite Ew in *; cbn in Hw'; fold q' in Hw';
        by destruct (threads q' 0%nat). }
    rewrite Hsame. apply inv_worker_queue; try done; destruct Hcase as [[wr ->]| ->]; done.
  - apply inv_worker_queue; try done; destruct Hcase as [[wr Ew]|Ew]; rewrite Ew in *; cbn in Hw';
      fold q' in Hw'; rewrite Hc in Hw'; subst w'; try done; cbn; by rewrite Hc.
  - apply inv_worker_queue; try done; destruct Hcase as [[wr Ew]|Ew]; rewrite Ew in *; cbn in Hw';
      fold q' in Hw'; rewrite Hc in Hw'; subst w'; try destruct wr; try done; cbn; rewrite ?Hc, ?app_nil_r; auto.
Qed.

(** The worker inserts the line it has in hand. *)
Lemma inv_write_line s x w' :
  LogInv s -> (exists wr, wk s = WWrite (Some x) wr /\ w' = WCall true) \/ (wk s = FWrite (Some x) /\ w' = FCall) ->
  LogInv (mkLogSystem (set_sink (lg s) (sink_insert (sink (lg s)) x)) (producers s) w' (ctl s) (wrote s ++ [x])
            (direct s) (dropped s) (released s)).
Proof.
  intros Hi Hw. assert (Hn : wk s <> WNone) by (by destruct Hw as [(? & -> & _)|[-> _]]).
  pose proof (li_open s Hi Hn) as Hop.
  destruct Hi as [Hr Hps Hwk Hln Ht Ho Hl Hs Hph Hrel Hd Hf].
  constructor; unfold in_hand in *;
    cbn [lg producers wk ctl wrote direct dropped released queue_ sink running set_sink is_open sink_insert]; try done.
  - by destruct Hw as [(? & E & ->)|[E ->]]; rewrite E in Hwk.
  - rewrite Ht. by destruct Hw as [(? & -> & ->)|[-> ->]]; cbn; rewrite app_nil_r.
  - rewrite sink_lines_insert, Hl. by rewrite <- !app_assoc, (Permutation_app_comm (direct s)).
  - rewrite sink_lines_insert. by apply sublist_app.
  - eapply log_phase_worker; [done|done|by destruct Hw as [(? & _ & ->)|[_ ->]]|left].
    by destruct Hw as [(? & -> & ->)|[-> ->]].
  - by destruct Hw as [(? & _ & ->)|[_ ->]].
  - by destruct Hw as [(? & _ & ->)|[_ ->]]; intros [|].
Qed.

(** The worker flushes, or only moves on. *)
Lemma inv_worker_flush s w' :
  LogInv s -> wk s = WFlush /\ w' = WSleep \/ wk s = FFlush /\ w' = WDone ->
  LogInv (mkLogSystem (flush_if_open (lg s)) (producers s) w' (ctl s) (wrote s) (direct s) (dropped s) (released s)).
Proof.
  intros Hi Hw. assert (Hn : wk s <> WNone) by (by destruct Hw as [[-> _]|[-> _]]).
  pose proof (li_open s Hi Hn) as Hop.
  destruct Hi as [Hr Hps Hwk Hln Ht Ho Hl Hs Hph Hrel Hd Hf].
  unfold flush_if_open. rewrite Hop.
  constructor; unfold in_hand in *;
    cbn [lg producers wk ctl wrote direct dropped released queue_ sink running set_sink is_open sink_flush inserted file];
    rewrite ?app_nil_r; try done.
  - by destruct Hw as [[E ->]|[E ->]]; rewrite E in Hwk.
  - rewrite Ht. by destruct Hw as [[-> ->]|[-> ->]].
  - rewrite Hop in *. eapply log_phase_worker; [done|done|by destruct Hw as [[_ ->]|[_ ->]]|left].
    by destruct Hw as [[-> ->]|[-> ->]].
  - by destruct Hw as [[E ->]|[E ->]]; rewrite E in Hd.
Qed.

(** Where the worker moves on without touching anything: the test of [running_],
    the end of the sleep, an entry that is null. *)
Inductive moves (r : bool) : worker -> worker -> Prop :=
  | moves_top : moves r WTop (if r then WCall false else FCall)
  | moves_sleep : moves r WSleep WTop
  | moves_null wr : moves r (WWrite None wr) (WCall wr)
  | moves_null_last : moves r (FWrite None) FCall.

Lemma inv_worker_move s w' :
  LogInv s -> moves (running (lg s)) (wk s) w' ->
  LogInv (mkLogSystem (lg s) (producers s) w' (ctl s) (wrote s) (direct s) (dropped s) (released s)).
Proof.
  intros [Hr Hps Hwk Hln Ht Ho Hl Hs Hph Hrel Hd Hf] Hw.
  assert (Hn : wk s <> WNone) by (by destruct Hw).
  constructor; unfold in_hand in *; cbn [lg producers wk ctl wrote direct dropped released]; try done.
  - destruct Hw; try done. by destruct (running _).
  - rewrite Ht. destruct Hw; try done. by destruct (running _).
  - intros _. by apply Ho.
  - eapply log_phase_worker; [done|done|destruct Hw; try done; by destruct (running _)|].
    destruct Hw; auto. destruct (running _); auto.
  - destruct Hw; try done. by destruct (running _).
  - destruct Hw; try (by intros [|]). destruct (running _); by intros [|].
Qed.

Lemma inv_worker s v sp l' w' :
  LogInv s -> log_bounded s -> worker_may_load (released s) (lg s) (wk s) v = true ->
  worker_step (lg s) (wk s) v sp = (l', w') ->
  LogInv (mkLogSystem l' (producers s) w' (ctl s) (wrote s ++ wrote_event (is_open (sink (lg s))) (wk s))
            (direct s) (dropped s) (released s)).
Proof.
  intros Hi Hb Hv Hst.
  assert (Hstay : LogInv (mkLogSystem (lg s) (producers s) (wk s) (ctl s) (wrote s) (direct s) (dropped s) (released s)))
    by (by destruct s).
  destruct (in_pop (wk s)) eqn:Ep.
  { pose proof (inv_worker_pop s v sp w' Hi Hb Ep Hv) as H. rewrite Hst in H.
    destruct (wk s); try done; cbn in Hst |- *; rewrite app_nil_r; injection Hst as <- _; by apply H. }
  destruct (wk s) as [| |wr|wr|e wr| | | | |e| |] eqn:Ew; cbn in Hst, Hv, Ep; try done.
  - injection Hst as <- <-. cbn. by rewrite app_nil_r.
  - injection Hst as <- <-. cbn. rewrite app_nil_r. apply inv_worker_move; [done|]. rewrite Ew. constructor.
  - injection Hst as <- <-. cbn. rewrite app_nil_r. zbool. apply inv_worker_call; eauto.
  - destruct e as [x|].
    + pose proof (li_open s Hi) as Ho. rewrite Ew in Ho. cbn in Hst. rewrite Ho in * by done.
      injection Hst as <- <-. cbn. apply inv_write_line; eauto.
    + injection Hst as <- <-. cbn. rewrite app_nil_r. apply inv_worker_move; [done|]. rewrite Ew. constructor.
  - injection Hst as <- <-. cbn. rewrite app_nil_r. apply inv_worker_flush; auto.
  - injection Hst as <- <-. cbn. rewrite app_nil_r. apply inv_worker_move; [done|]. rewrite Ew. constructor.
  - injection Hst as <- <-. cbn. rewrite app_nil_r. zbool. apply inv_worker_call; auto.
  - destruct e as [x|].
    + pose proof (li_open s Hi) as Ho. rewrite Ew in Ho. cbn in Hst. rewrite Ho in * by done.
      injection Hst as <- <-. cbn. apply inv_write_line; eauto.
    + injection Hst as <- <-. cbn. rewrite app_nil_r. apply inv_worker_move; [done|]. rewrite Ew. constructor.
  - injection Hst as <- <-. cbn. rewrite app_nil_r. apply inv_worker_flush; auto.
  - injection Hst as <- <-. cbn. by rewrite app_nil_r.
Qed.

(** ** The controller *)

Lemma inv_start s l' c' :
  LogInv s -> ctl s = CIdle -> start (lg s) = (l', c') ->
  LogInv (mkLogSystem l' (producers s) (wk s) c' (wrote s) (direct s) (dropped s) (released s)).
Proof.
  intros [Hr Hps Hwk Hln Ht Ho Hl Hs Hph Hrel Hd Hf] Ec [= <- <-]. rewrite Ec in Hph. cbn in Hph.
  constructor; try done. cbn. by destruct (running (lg s)).
Qed.

Lemma inv_stop s n :
  LogInv s -> ctl s = CIdle -> published (queue_ (lg s)) n = true -> LogInv (call_stop n s).
Proof.
  intros [Hr Hps Hwk Hln Ht Ho Hl Hs Hph Hrel Hd Hf] Ec [_ Hn%Nat.leb_le]%andb_true_iff. rewrite Ec in Hph. cbn in Hph.
  unfold call_stop, stop. destruct (running (lg s)) eqn:Er; constructor; try done; cbn.
  - split; [done|]. by intros E; rewrite E in Hph.
  - lia.
  - by destruct (wk s).
Qed.

Lemma inv_controller s ok l' w' c' :
  LogInv s -> ctl s <> CIdle -> controller_step ok (lg s) (wk s) (ctl s) = (l', w', c') ->
  LogInv (mkLogSystem l' (producers s) w' c' (wrote s) (direct s) (dropped s) (released s)).
Proof.
  intros Hi Ec Hst.
  assert (Hstay : LogInv (mkLogSystem (lg s) (producers s) (wk s) (ctl s) (wrote s) (direct s) (dropped s) (released s)))
    by (by destruct s).
  destruct Hi as [Hr Hps Hwk Hln Ht Ho Hl Hs Hph Hrel Hd Hf]. unfold in_hand in Ht.
  destruct (ctl s) eqn:Ec'; [done|..]; cbn in Hst, Hph.
  - destruct Hph as [Hrun Hw]. rewrite Hw in *.
    destruct ok; injection Hst as <- <- <-; constructor; try done; cbn; rewrite ?Hrun; try done. by intros [|].
  - destruct Hph as [Hrun Hw].
    assert (Hend : wk s = WDone -> LogInv (mkLogSystem (lg s) (producers s) WNone CClose (wrote s) (direct s) (dropped s) (released s))).
    { intros Ew. rewrite Ew in *. constructor; try done; cbn; [|by intros _; apply Hf; left].
      split_and!; [done|done|by apply Ho]. }
    destruct (wk s) eqn:Ew; injection Hst as <- <- <-; try done; by apply Hend.
  - destruct Hph as (Hrun & Hw & Hop). rewrite Hop, Hw in *. injection Hst as <- <- <-.
    specialize (Hf ltac:(auto)). rewrite Hf, ?app_nil_r in *.
    constructor; cbn; rewrite ?app_nil_r, ?Hf, ?app_nil_r; try done. by rewrite Hrun.
  - injection Hst as <- <- <-. destruct Hph as [Hrun Hw]. rewrite Hw in *.
    constructor; try done; cbn. by rewrite Hrun.
Qed.

Lemma log_inv_step s s' : LogInv s -> log_bounded s' -> log_step s s' -> LogInv s'.
Proof.
  intros Hi Hb' Hstep. pose proof (log_step_grows s s' Hstep Hb') as Hb. destruct Hstep as [a s1 Ha].
  destruct a as [t line|t v sp|v sp| |n|ok]; cbn in Ha.
  - case_bool_decide as Ep; [|done]. injection Ha as <-.
    destruct Hi as [? Hps]. constructor; try done. intros t'. cbn. specialize (Hps t').
    destruct (decide (t = t')) as [<-|]; [rewrite fn_lookup_insert; by rewrite Ep in Hps|by rewrite fn_lookup_insert_ne].
  - case_if_in Ha; [|done]. destruct (producer_step _ _ _ _ _) as [l' p'] eqn:Est. injection Ha as <-.
    by eapply inv_producer.
  - case_if_in Ha; [|done]. destruct (worker_step _ _ _ _) as [l' w'] eqn:Est. injection Ha as <-.
    by eapply inv_worker.
  - case_bool_decide; [|done]. injection Ha as <-. by apply (inv_start s).
  - case_if_in Ha; [|done]. apply andb_true_iff in E as [Ec%bool_decide_eq_true Hp].
    injection Ha as <-. by apply (inv_stop s n).
  - case_bool_decide; [done|]. destruct (controller_step _ _ _ _) as [[l' w'] c'] eqn:Est. injection Ha as <-.
    by eapply inv_controller.
Qed.

Lemma log_reachable_inv s :
  rtc log_step (initial_log (fresh_queue cap)) s -> log_bounded s -> LogInv s.
Proof.
  apply (rtc_ind_r (fun s => log_bounded s -> LogInv s)).
  - intros _. constructor; try done. apply rtc_refl.
  - intros s1 s2 _ Hs IH Hb. eapply log_inv_step; [apply IH; by eapply log_step_grows|done|done].
Qed.

(** ** The lines of the queue *)

Lemma enqueued_pushed s : LogInv s -> enqueued (queue_ (lg s)) = Some <$> pushed s.
Proof.
  intros Hi. unfold pushed. induction (li_lines_only s Hi) as [|e l [x ->] _ IH]; [done|]. cbn. by rewrite <- IH.
Qed.

Lemma pushed_split s : LogInv s -> log_bounded s -> exists rest, pushed s = wrote s ++ in_hand s ++ rest.
Proof.
  intros Hi Hb. destruct (queue_facts s Hi Hb) as (_ & Hh & _ & Hone).
  pose proof (one_consumer_prefix 0 _ Hh Hone) as Hpre. rewrite (li_taken s Hi), (enqueued_pushed s Hi) in Hpre.
  exists (drop (length (dequeued (queue_ (lg s)))) (pushed s)). rewrite app_assoc.
  rewrite <- fmap_take in Hpre. apply (inj (fmap Some)) in Hpre. rewrite Hpre. by rewrite take_drop.
Qed.

(** What has not been taken is on its way into a slot or in one. *)
Lemma rest_in_queue s rest i x :
  LogInv s -> log_bounded s -> pushed s = wrote s ++ in_hand s ++ rest -> rest !! i = Some x ->
  in_queue cap (queue_ (lg s)) (Z.of_nat (length (wrote s ++ in_hand s) + i)) (Some x).
Proof.
  intros Hi Hb Hp Hx. destruct (queue_facts s Hi Hb) as (HI & Hh & HK & Hone).
  assert (Henq : enqueued (queue_ (lg s)) !! (length (wrote s ++ in_hand s) + i)%nat = Some (Some x)).
  { rewrite (enqueued_pushed s Hi), Hp, app_assoc, list_lookup_fmap, lookup_app_r by lia.
    by replace (_ + i - _)%nat with i by lia; rewrite Hx. }
  destruct (kept_where _ _ HK _ _ Henq) as [Hd|Hin]; [exfalso|done].
  assert (Hin : Z.of_nat (length (wrote s ++ in_hand s) + i) ∈ (dequeued (queue_ (lg s))).*1)
    by (apply list_elem_of_fmap; by eexists (_, _)).
  rewrite (one_order 0 _ Hone) in Hin. apply list_elem_of_fmap in Hin as (j & Hj & [_ Hlt]%elem_of_seq).
  pose proof (f_equal length (li_taken s Hi)) as Hlen. rewrite !length_fmap in Hlen. lia.
Qed.

End invariant.

Lemma released_grows s s' : rtc log_step s s' -> (released s <= released s')%nat.
Proof.
  induction 1 as [|s1 s2 s3 [a s2' Ha] _ IH]; [done|]. etrans; [|exact IH]. clear IH.
  destruct a; cbn in Ha; repeat case_match; simplify_eq; cbn; lia || done.
Qed.

Lemma pushed_grows s s' : rtc log_step s s' -> pushed s `prefix_of` pushed s'.
Proof.
  assert (Hadv : forall q t v sp, enqueued q `prefix_of` enqueued (advance q t v sp)).
  { intros q t v sp. unfold advance. destruct (thread_step _ _ _ _). cbn. by apply prefix_app_r. }
  intros Hr. enough (enqueued (queue_ (lg s)) `prefix_of` enqueued (queue_ (lg s'))) as [l Hl].
  { unfold pushed. rewrite Hl, omap_app. by apply prefix_app_r. }
  induction Hr as [|s1 s2 s3 [a s2' Ha] _ IH]; [done|]. etrans; [|exact IH]. clear IH.
  destruct a as [t line|t v sp|v sp| |n|ok]; cbn in Ha.
  - case_bool_decide; by simplify_eq.
  - case_if_in Ha; [|done]. destruct (producer_step _ _ _ _ _) as [l' p'] eqn:Est. injection Ha as <-. cbn.
    destruct (producers s1 t); cbn in Est; try case_if_in Est; injection Est as <- _; try done; [apply Hadv|].
    unfold direct_write. by case_if.
  - case_if_in Ha; [|done]. destruct (worker_step _ _ _ _) as [l' w'] eqn:Est. injection Ha as <-. cbn.
    destruct (wk s1) as [| | | |e ?| | | | |e| |]; cbn in Est; try (destruct e); unfold write_entry, flush_if_open in Est;
      try case_if_in Est; injection Est as <- _; cbn; try done; try apply Hadv; by case_if.
  - case_bool_decide; [|done]. by injection Ha as <-.
  - case_if_in Ha; [|done]. by injection Ha as <-.
  - case_bool_decide; [done|]. destruct (controller_step _ _ _ _) as [[l' w'] c'] eqn:Est. injection Ha as <-. cbn.
    destruct (ctl s1); cbn in Est; try case_if_in Est; try (destruct (wk s1)); injection Est as <- _ _; cbn; try done; by case_if.
Qed.

(** When no producer is inside a push, every position given out is published. *)
Lemma quiet_published cap k q :
  2 <= cap -> 0 <= k -> cap = 2 ^ k -> Inv cap q -> HistInv q -> Kept cap q ->
  (forall t, match threads q t with PushPayload _ _ | PushSequence _ => False | _ => True end) ->
  published q (length (enqueued q)) = true.
Proof.
  intros Hcap Hk Hpow HI Hh HK Hq. unfold published. rewrite Nat.leb_refl, andb_true_r.
  apply forallb_forall. intros p [_ Hp]%in_seq. pose proof (inv_tail _ _ HI).
  destruct (all_published cap k Hcap Hk q (Z.of_nat p) HI Hh HK Hq) as (sl & Hsl & Hle); [lia|].
  rewrite (slot_of_idx cap k Hk Hpow _ _ (inv_mask _ _ HI)), Hsl. by apply Z.leb_le.
Qed.

(** * Properties *)

(** C14: nothing pushed is lost. In every interleaving of the atomic accesses of
    the producers, the worker and the controller, with stale loads and spurious
    failures: the lines that were given a position in the queue are, in order,
    those the worker has inserted into the sink, the one it has in hand, and
    lines each of which is at its position, in its slot or in the hand of the
    producer that has claimed it and not yet stored; the sink holds exactly the
    lines inserted by the worker and those written directly, the former in
    order. *)
Theorem logger_conserves_lines capacity q s :
  2 <= capacity < 2 ^ 63 -> new_queue capacity = Ret q ->
  rtc log_step (initial_log q) s -> log_bounded capacity s ->
  enqueued (queue_ (lg s)) = Some <$> pushed s /\
  (exists rest, pushed s = wrote s ++ in_hand s ++ rest /\
     forall i x, rest !! i = Some x ->
       in_queue capacity (queue_ (lg s)) (Z.of_nat (length (wrote s ++ in_hand s) + i)) (Some x)) /\
  file (sink (lg s)) ++ inserted (sink (lg s)) ≡ₚ wrote s ++ direct s /\
  sublist (wrote s) (file (sink (lg s)) ++ inserted (sink (lg s))).
Proof.
  intros Hc Hq Hr Hb. destruct (new_queue_inv capacity q) as [Hpow ->]; [lia|done|].
  pose proof (Z.log2_nonneg capacity) as Hlog.
  pose proof (log_reachable_inv capacity _ ltac:(lia) Hlog Hpow s Hr Hb) as Hi.
  destruct (pushed_split capacity _ ltac:(lia) Hlog Hpow s Hi Hb) as [rest Hrest].
  split_and!; [exact (enqueued_pushed capacity s Hi)|exists rest; split; [done|]|apply Hi..].
  intros i x Hx. by apply (rest_in_queue capacity _ ltac:(lia) Hlog Hpow s rest i x).
Qed.

(** Producer [t] logs [line] without being disturbed; the queue gives it
    position [p]. *)
Definition by_producer (t : nat) (l : list Z) : list log_action := (fun v => AProducer t v false) <$> l.
Definition by_worker (l : list Z) : list log_action := (fun v => AWorker v false) <$> l.
Definition logs (t : nat) (line : bytes) (p : Z) : list log_action :=
  ALog t line :: by_producer t [p; p; 0; 0; 0].

(** Producer 0 is stopped between its exchange and its store while producer 1
    pushes another line and producer 2, for which the queue is full, writes
    directly; the worker has written one line. *)
Definition stalled_schedule : list log_action :=
  [AStart; AController true] ++ logs 0 (lit "a") 0 ++ by_worker [0; 0; 1; 0; 0; 0; 0] ++
  [ALog 0 (lit "b")] ++ by_producer 0 [1; 1; 0] ++ logs 1 (lit "c") 2 ++
  [ALog 2 (lit "d")] ++ by_producer 2 (concat (replicate 16 [3; 1]) ++ [0; 0]).

Lemma logger_conserves_lines_witness :
  exists s, run_log (initial_log queue2) stalled_schedule = Some s /\
    pushed s = [lit "a"; lit "b"; lit "c"] /\ wrote s = [lit "a"] /\ direct s = [lit "d"] /\
    enqueued (queue_ (lg s)) = Some <$> pushed s /\
    (exists rest, pushed s = wrote s ++ in_hand s ++ rest /\
       forall i x, rest !! i = Some x ->
         in_queue 2 (queue_ (lg s)) (Z.of_nat (length (wrote s ++ in_hand s) + i)) (Some x)) /\
    file (sink (lg s)) ++ inserted (sink (lg s)) ≡ₚ wrote s ++ direct s /\
    sublist (wrote s) (file (sink (lg s)) ++ inserted (sink (lg s))).
Proof.
  eexists. split; [vm_compute; reflexivity|]. split; [reflexivity|]. split; [reflexivity|]. split; [reflexivity|].
  eapply (logger_conserves_lines 2 queue2); [lia|reflexivity| |vm_compute; reflexivity].
  apply (run_log_reaches stalled_schedule). vm_compute. reflexivity.
Defined.

(** C15: [stop] flushes. When a call of [stop] has returned, the lines of the
    first [n] positions, where [n] is a number of positions that were published
    when it was called, are written and in the file, in their order, and the sink
    has no line left to flush. When no producer is inside a push at the call,
    these are all the lines pushed until then. A line behind a producer that has
    claimed its position and not yet stored can be lost
    ([accepted_line_lost]). *)
Theorem logger_stop_flushes capacity q s1 n s2 s :
  2 <= capacity < 2 ^ 63 -> new_queue capacity = Ret q ->
  rtc log_step (initial_log q) s1 -> running (lg s1) = true ->
  run_log_action s1 (AStop n) = Some s2 -> rtc log_step s2 s -> log_bounded capacity s ->
  ctl s = CIdle -> running (lg s) = false ->
  take n (pushed s1) `prefix_of` wrote s /\ sublist (wrote s) (file (sink (lg s))) /\
  inserted (sink (lg s)) = [] /\
  ((forall t line attempts, producers s1 t <> PPush line attempts) ->
   is_Some (run_log_action s1 (AStop (length (pushed s1))))).
Proof.
  intros Hc Hq Hr1 Hrun1 Hs2 Hr2 Hb Hidle Hrun.
  destruct (new_queue_inv capacity q) as [Hpow ->]; [lia|done|]. pose proof (Z.log2_nonneg capacity) as Hlog.
  assert (Hr12 : rtc log_step s1 s) by (eapply rtc_l; [by econstructor|done]).
  pose proof (log_reachable_inv capacity _ ltac:(lia) Hlog Hpow s (transitivity Hr1 Hr12) Hb) as Hi.
  assert (Hb1 : log_bounded capacity s1).
  { revert Hb. clear -Hc Hlog Hpow Hr12. induction Hr12 as [|x y z Hs _ IH]; [done|]. intros Hb.
    exact (log_step_grows capacity _ ltac:(lia) Hlog Hpow x y Hs (IH Hb)). }
  pose proof (log_reachable_inv capacity _ ltac:(lia) Hlog Hpow s1 Hr1 Hb1) as Hi1.
  pose proof (pushed_grows s1 s Hr12) as Hgrow. pose proof (released_grows s2 s Hr2) as Hrel.
  destruct (pushed_split capacity _ ltac:(lia) Hlog Hpow s Hi Hb) as [rest Hrest].
  destruct Hi as [_ _ _ _ _ _ _ Hord Hph _ Hdr Hfl].
  rewrite Hidle in Hph. cbn in Hph. rewrite Hrun in Hph. rewrite Hph in *.
  rewrite Hfl, app_nil_r in Hord by auto. specialize (Hdr eq_refl).
  cbn in Hs2. case_if_in Hs2; [|done]. apply andb_true_iff in E as [Hid1 [_ Hn%Nat.leb_le]%andb_true_iff].
  injection Hs2 as <-. unfold call_stop in Hrel. cbn in Hrel. rewrite Hrun1 in Hrel.
  split_and!; [|done|auto|].
  - pose proof (enqueued_pushed capacity s1 Hi1) as He. rewrite He, length_fmap in Hn.
    destruct Hgrow as [l Hl]. rewrite Hl in Hrest.
    assert (Ht : take n (pushed s1) = take n (wrote s)).
    { apply (f_equal (take n)) in Hrest. rewrite !take_app_le in Hrest; [done|lia|lia]. }
    rewrite Ht. apply prefix_take.
  - intros Hnone. cbn. rewrite Hid1. cbn.
    destruct (queue_facts capacity _ ltac:(lia) Hlog Hpow s1 Hi1 Hb1) as (HI & Hh & HK & _).
    pose proof (enqueued_pushed capacity s1 Hi1) as He. apply (f_equal length) in He. rewrite length_fmap in He.
    rewrite <- He, (quiet_published capacity (Z.log2 capacity)); [eauto|lia|done..|].
    intros [|t].
    + pose proof (li_worker _ s1 Hi1) as Ho. destruct (threads _ _); try done; destruct (wk s1); cbn in Ho; first [done|by destruct Ho].
    + pose proof (li_producers _ s1 Hi1 t) as Ho. specialize (Hnone t).
      destruct (producers s1 t); try (by destruct (Hnone line attempts)); by destruct (threads _ _).
Qed.

(** Two lines are written by the running worker, the third by its last turn. *)
Definition before_stop : list log_action :=
  [AStart; AController true] ++ logs 0 (lit "a") 0 ++ logs 0 (lit "b") 1 ++
  by_worker ([0] ++ [0; 1; 0; 0; 0; 0] ++ [1; 2; 1; 0; 0; 0]) ++ logs 1 (lit "c") 2.
Definition after_stop : list log_action :=
  by_worker ([2; 3; 2; 0; 0; 0] ++ [3; 3] ++ [0; 0; 0] ++ [3; 3] ++ [0]) ++ [AController true; AController true].

Lemma logger_stop_flushes_witness :
  exists s1 s2 s, run_log (initial_log queue2) before_stop = Some s1 /\
    run_log_action s1 (AStop 3) = Some s2 /\ run_log s2 after_stop = Some s /\
    file (sink (lg s)) = [lit "a"; lit "b"; lit "c"] /\
    take 3 (pushed s1) `prefix_of` wrote s /\ sublist (wrote s) (file (sink (lg s))) /\
    inserted (sink (lg s)) = [] /\
    ((forall t line attempts, producers s1 t <> PPush line attempts) ->
     is_Some (run_log_action s1 (AStop (length (pushed s1))))).
Proof.
  eexists _, _, _. split; [vm_compute; reflexivity|]. split; [vm_compute; reflexivity|].
  split; [vm_compute; reflexivity|]. split; [reflexivity|].
  eapply (logger_stop_flushes 2 queue2 _ 3);
    [lia|reflexivity|apply (run_log_reaches before_stop); vm_compute; reflexivity|reflexivity|
     vm_compute; reflexivity|apply (run_log_reaches after_stop); vm_compute; reflexivity|
     vm_compute; reflexivity|reflexivity|reflexivity].
Defined.

(** Producer 0 has claimed position 0 and is not scheduled; [push] of producer 1
    returns true and [log] returns.  [stop] runs from its call to its return,
    then producer 0 ends its push. *)
Definition losing_schedule (a b : bytes) : list log_action :=
  [AStart; AController true] ++ [ALog 0 a] ++ by_producer 0 [0; 0; 0] ++ logs 1 b 1 ++ [AStop 0] ++
  by_worker [0; 0; 0; 0] ++ [AController true; AController true] ++ by_producer 0 [0; 0].

(** An accepted line can be lost: the last [pop] of the worker stops at the slot
    that producer 0 has claimed, the worker ends and [stop] closes the file; the
    line of producer 1, accepted before [stop] was called, is not in it. *)
Lemma accepted_line_lost a b :
  exists s, run_log (initial_log queue2) (losing_schedule a b) = Some s /\
    ctl s = CIdle /\ running (lg s) = false /\ (forall t, producers s t = PIdle) /\
    pushed s = [a; b] /\ file (sink (lg s)) = [] /\ inserted (sink (lg s)) = [] /\ dropped s = [].
Proof.
  eexists. split; [vm_compute; reflexivity|]. split_and!; try reflexivity. by intros [|[|t]].
Qed.
