(* ===== verification/Uring.v ===== *)
(** * Uring: the scheduler of coroutineWebServer/UringScheduler.{h,cpp} and the
      tasks of Task.h

    One scheduler thread: its ready and post queues, the coroutine frames of
    the tasks started on it, the operation objects inside these frames and the
    submission queue of its ring.  The body of a coroutine is a [script]; the
    kernel is the list of completions that each round of [run] finds. *)

From S2P Require Export CxxString.

(** ** Operations and submission entries *)

(** The awaiters, with the arguments they keep. Times are nanoseconds. *)
Inductive op_kind :=
  | OpAccept (fd flags : Z) (multishot : bool)
  | OpRecv (fd length flags : Z) (timeout : option Z)
  | OpSend (fd length flags : Z)
  | OpRead (fd length offset : Z)
  | OpWrite (fd length offset : Z)
  | OpTimeout (timeout : Z)
  | OpCancel (token : Z).

(** What [io_uring_prep_*] writes into an entry. *)
Inductive sqe_code :=
  | SqAccept (fd flags : Z) (multishot : bool)
  | SqRecv (fd length flags : Z)
  | SqSend (fd length flags : Z)
  | SqRead (fd length offset : Z)
  | SqWrite (fd length offset : Z)
  | SqTimeout (sec nsec : Z)
  | SqCancel (token : Z).

(** [sq_data] is the operation whose address is the user data. *)
Record sqe := mkSqe { sq_code : sqe_code; sq_data : nat; sq_link : bool }.

(** ** Coroutine bodies

    The body of a coroutine of type [Task<T>], where [V] is [T].  [End] leaves
    it with the value of a [co_return] or with an exception.  [AwaitOp] awaits
    an operation: its continuation gets what [await_resume] returns or throws,
    and what the kernel wrote through the pointer the operation passes.
    [AwaitTask] awaits another [Task]; its continuation is run when that task
    has returned.  [Perform] is a call on an object of another thread (a post to
    another scheduler, a line given to the logger), one of [C]. *)
Section scheduling.
Context {V C : Type}.

Inductive script :=
  | End (r : outcome V)
  | AwaitOp (k : op_kind) (cont : outcome (Z * bytes) -> script)
  | AwaitTask (child : script) (cont : outcome V -> script)
  | Perform (x : C) (next : script).

(** The frames of a started task: the root alone, not yet resumed; a chain of
    frames whose innermost one awaits an operation, [callers] being the bodies
    that await the frame before them; or a root at its final suspension.
    [TaskDone UB] is a task in which a destroyed frame was read. *)
Inductive task :=
  | TaskNew (body : script)
  | TaskWaiting (op : nat) (cont : outcome (Z * bytes) -> script) (callers : list (outcome V -> script))
  | TaskDone (result : outcome V).

(** [OperationBase] with the arguments of its awaiter; [continuation] is the task
    whose innermost frame awaits, [buffer] what the kernel wrote. *)
Record operation := mkOperation {
  continuation : nat;
  kind : op_kind;
  completed : bool;
  result : Z;
  flags : Z;
  buffer : bytes
}.

Record ReadyItem := mkReady { handle : nat; destroy_after_resume : bool }.

Record scheduler := mkScheduler {
  entries : Z;
  ready : list ReadyItem;
  posts : list script;               (** functions that start a task *)
  tasks : gmap nat task;
  ops : gmap nat operation;
  sqes : list sqe;                   (** filled, not yet submitted *)
  inflight : list sqe;               (** submitted, completion not yet seen *)
  next_id : nat;                     (** frames and operations allocated *)
  effects : list (nat * C)           (** calls made, with the task that made them *)
}.

(** The constructor. *)
Definition new_scheduler (n : Z) : scheduler :=
  mkScheduler (if n =? 0 then 1024 else n) [] [] ∅ ∅ [] [] 0 [].

Section setters.
Context (s : scheduler).
Definition set_ready l := mkScheduler (entries s) l (posts s) (tasks s) (ops s) (sqes s) (inflight s) (next_id s) (effects s).
Definition set_posts l := mkScheduler (entries s) (ready s) l (tasks s) (ops s) (sqes s) (inflight s) (next_id s) (effects s).
Definition set_tasks m := mkScheduler (entries s) (ready s) (posts s) m (ops s) (sqes s) (inflight s) (next_id s) (effects s).
Definition set_ops m := mkScheduler (entries s) (ready s) (posts s) (tasks s) m (sqes s) (inflight s) (next_id s) (effects s).
Definition set_ring l k := mkScheduler (entries s) (ready s) (posts s) (tasks s) (ops s) l k (next_id s) (effects s).
Definition set_next n := mkScheduler (entries s) (ready s) (posts s) (tasks s) (ops s) (sqes s) (inflight s) n (effects s).
Definition set_effects l := mkScheduler (entries s) (ready s) (posts s) (tasks s) (ops s) (sqes s) (inflight s) (next_id s) l.
End setters.

(** ** The submission queue *)

(** [io_uring_submit], which is assumed to succeed. *)
Definition ring_submit (s : scheduler) : scheduler := set_ring s [] (inflight s ++ sqes s).

(** The size of the submission queue: [io_uring_queue_init] rounds [entries_] up
    to a power of two. *)
Definition ring_size (s : scheduler) : Z := 2 ^ Z.log2_up (entries s).

Definition ring_room (s : scheduler) : bool := Z.of_nat (length (sqes s)) <? ring_size s.

(** [io_uring_get_sqe], with the submission and second try of the awaiters;
    [false] when they throw. *)
Definition get_sqe (s : scheduler) : scheduler * bool :=
  if ring_room s then (s, true)
  else let s := ring_submit s in (s, ring_room s).

Definition fill_sqe (s : scheduler) (e : sqe) : scheduler := set_ring s (sqes s ++ [e]) (inflight s).

(** [flags |= IOSQE_IO_LINK] on the last entry filled, if it is still in the
    submission queue. *)
Definition link_last (l : list sqe) : list sqe :=
  match rev l with
  | [] => []
  | e :: l' => rev (mkSqe (sq_code e) (sq_data e) true :: l')
  end.

(** The [ts] of a timeout. *)
Definition timespec (ns : Z) : sqe_code :=
  let sec := Z.quot ns 1000000000 in SqTimeout sec (ns - sec * 1000000000).

Definition submit_one (s : scheduler) (op : nat) (c : sqe_code) : scheduler * outcome unit :=
  let '(s, ok) := get_sqe s in
  if ok then (fill_sqe s (mkSqe c op false), Ret tt) else (s, Throw runtime_error).

(** The [submit] methods. *)
Definition submit_op (s : scheduler) (op : nat) (k : op_kind) : scheduler * outcome unit :=
  match k with
  | OpAccept fd fl ms => submit_one s op (SqAccept fd fl ms)
  | OpSend fd len fl => submit_one s op (SqSend fd (u32 len) fl)
  | OpRead fd len off => submit_one s op (SqRead fd (u32 len) (if 0 <=? off then off else 0))
  | OpWrite fd len off => submit_one s op (SqWrite fd (u32 len) (if 0 <=? off then off else 0))
  | OpTimeout ns => submit_one s op (timespec ns)
  | OpCancel token => submit_one s op (SqCancel token)
  | OpRecv fd len fl timeout =>
      let '(s, r) := submit_one s op (SqRecv fd (u32 len) fl) in
      match r, timeout with
      | Ret _, Some ns =>
          let kept := ring_room s in
          let '(s, ok) := get_sqe s in
          if ok then
            let s := if kept then set_ring s (link_last (sqes s)) (inflight s) else s in
            (fill_sqe s (mkSqe (timespec ns) op false), Ret tt)
          else (s, Throw runtime_error)
      | _, _ => (s, r)
      end
  end.

(** What the [async_*] members make. *)
Definition async_accept (fd : Z) (flags : Z) (multishot : bool) : op_kind := OpAccept fd flags multishot.
Definition async_recv (fd length flags : Z) : op_kind := OpRecv fd length flags None.
Definition async_recv_for (fd length timeout flags : Z) : op_kind := OpRecv fd length flags (Some timeout).
Definition async_send (fd length flags : Z) : op_kind := OpSend fd length flags.
Definition async_read (fd length offset : Z) : op_kind := OpRead fd length offset.
Definition async_write (fd length offset : Z) : op_kind := OpWrite fd length offset.
Definition async_timeout (timeout : Z) : op_kind := OpTimeout timeout.
Definition async_cancel (token : Z) : op_kind := OpCancel token.

(** [submit_or_throw]: the entry of an operation, submitted at once. *)
Definition submit_or_throw (s : scheduler) (op : nat) (k : op_kind) : scheduler * outcome Z :=
  match submit_op s op k with
  | (s, Ret _) => (ring_submit s, Ret 0)
  | (s, Throw e) => (s, Throw e)
  | (s, UB) => (s, UB)
  | (s, OutOfFuel) => (s, OutOfFuel)
  end.

(** ** Operations *)

Definition enqueue (s : scheduler) (h : nat) (destroy : bool) : scheduler :=
  set_ready s (ready s ++ [mkReady h destroy]).

(** [OperationBase::await_suspend] of a new operation. *)
Definition await_suspend (s : scheduler) (t : nat) (k : op_kind) : scheduler * nat * outcome unit :=
  let op := next_id s in
  let s := set_next (set_ops s (<[op := mkOperation t k false 0 0 []]> (ops s))) (S op) in
  let '(s, r) := submit_op s op k in
  (s, op, r).

(** [OperationBase::await_resume] *)
Definition await_resume (o : operation) : outcome (Z * bytes) :=
  if result o <? 0 then Throw (system_error (- result o)) else Ret (result o, buffer o).

(** [OperationBase::complete] *)
Definition complete (s : scheduler) (op : nat) (o : operation) (res fl : Z) (data : bytes) : scheduler :=
  if completed o then s
  else enqueue (set_ops s (<[op := mkOperation (continuation o) (kind o) true res fl data]> (ops s)))
         (continuation o) false.

(** [handle_cqe]: the user data is the address of an operation, or null. A
    destroyed operation is used after its lifetime. *)
Definition handle_cqe (s : scheduler) (user_data : option nat) (res fl : Z) (data : bytes)
    : outcome scheduler :=
  match user_data with
  | None => Ret s
  | Some op =>
      match ops s !! op with
      | Some o => Ret (complete s op o res fl data)
      | None => UB
      end
  end.

(** ** Resuming a coroutine *)

(** [Awaiter::await_resume] of a task that has finished with [r]: an exception
    is rethrown from the promise after the frame, and the promise in it, were
    destroyed. *)
Definition task_await_resume (r : outcome V) : outcome V :=
  match r with
  | Throw _ => UB
  | _ => r
  end.

(** Run the innermost frame of task [t], which executes [c] for [callers],
    until it finishes ([Some]) or the task waits ([None]).  A child frame lives
    from its [AwaitTask] to the end of that expression, an operation from its
    [AwaitOp]; a submission that throws ends the lifetime of the operation. *)
Fixpoint run_script (s : scheduler) (t : nat) (c : script)
    (callers : list (outcome V -> script)) : scheduler * option (outcome V) :=
  match c with
  | End r => (s, Some r)
  | AwaitOp k cont =>
      let '(s, op, r) := await_suspend s t k in
      match r with
      | Throw e => run_script (set_ops s (delete op (ops s))) t (cont (Throw e)) callers
      | _ => (set_tasks s (<[t := TaskWaiting op cont callers]> (tasks s)), None)
      end
  | AwaitTask child cont =>
      let '(s, r) := run_script s t child (cont :: callers) in
      match r with
      | Some r =>
          match task_await_resume r with
          | UB => (s, Some UB)
          | r => run_script s t (cont r) callers
          end
      | None => (s, None)
      end
  | Perform x next => run_script (set_effects s (effects s ++ [(t, x)])) t next callers
  end.

(** A frame has finished with [r]: its callers continue, innermost first; the
    root stays at its final suspension. *)
Fixpoint unwind (s : scheduler) (t : nat) (r : outcome V)
    (callers : list (outcome V -> script)) : scheduler :=
  match callers with
  | [] => set_tasks s (<[t := TaskDone r]> (tasks s))
  | k :: callers' =>
      match task_await_resume r with
      | UB => set_tasks s (<[t := TaskDone UB]> (tasks s))
      | r =>
          match run_script s t (k r) callers' with
          | (s, Some r') => unwind s t r' callers'
          | (s, None) => s
          end
      end
  end.

Definition continue_task (s : scheduler) (t : nat) (c : script)
    (callers : list (outcome V -> script)) : scheduler :=
  match run_script s t c callers with
  | (s, Some r) => unwind s t r callers
  | (s, None) => s
  end.

(** Whether task [t] read a destroyed frame. *)
Definition undefined_task (s : scheduler) (t : nat) : bool :=
  match tasks s !! t with Some (TaskDone UB) => true | _ => false end.

Definition checked (s : scheduler) (t : nat) : outcome scheduler :=
  if undefined_task s t then UB else Ret s.

(** [handle.resume()]: undefined for a destroyed or finished coroutine. *)
Definition resume (s : scheduler) (t : nat) : outcome scheduler :=
  match tasks s !! t with
  | Some (TaskNew c) => checked (continue_task s t c []) t
  | Some (TaskWaiting op cont callers) =>
      match ops s !! op with
      | Some o =>
          checked (continue_task (set_ops s (delete op (ops s))) t (cont (await_resume o)) callers) t
      | None => UB
      end
  | Some (TaskDone _) | None => UB
  end.

Definition task_done (s : scheduler) (t : nat) : bool :=
  match tasks s !! t with Some (TaskDone _) => true | _ => false end.

Definition resume_ready (s : scheduler) (item : ReadyItem) : outcome scheduler :=
  s' ← resume s (handle item);
  Ret (if destroy_after_resume item && task_done s' (handle item)
       then set_tasks s' (delete (handle item) (tasks s')) else s').

(** ** The loop *)

Definition drain_ready (s : scheduler) : outcome scheduler :=
  foldl (fun acc item => s ← acc; resume_ready s item) (Ret (set_ready s [])) (ready s).

(** [Task::start]: a new coroutine frame, enqueued. *)
Definition start_task (s : scheduler) (body : script) : scheduler :=
  let t := next_id s in
  enqueue (set_next (set_tasks s (<[t := TaskNew body]> (tasks s))) (S t)) t true.

Definition drain_posts (s : scheduler) : scheduler :=
  foldl start_task (set_posts s []) (posts s).

Definition post (s : scheduler) (body : script) : scheduler := set_posts s (posts s ++ [body]).

(** A completion the kernel reports: the position of its entry among those in
    flight, the result and the flags, and what was written through the pointer of
    the entry. *)
Definition cqe : Type := nat * Z * Z * bytes.

Definition take_cqe (s : scheduler) (c : cqe) : outcome scheduler :=
  let '(i, res, fl, data) := c in
  match inflight s !! i with
  | Some e => handle_cqe (set_ring s (sqes s) (delete i (inflight s))) (Some (sq_data e)) res fl data
  | None => Ret s
  end.

Definition handle_cqes (s : scheduler) (l : list cqe) : outcome scheduler :=
  foldl (fun acc c => s ← acc; take_cqe s c) (Ret s) l.

(** One round of the loop of [run], where [l] is what [io_uring_peek_cqe]
    finds. *)
Definition run_round (s : scheduler) (l : list cqe) : outcome scheduler :=
  s ← drain_ready (drain_posts s);
  handle_cqes (ring_submit s) l.

(** [run]: one round per element while [running_], then the final drains. *)
Fixpoint run (s : scheduler) (rounds : list (list cqe)) : outcome scheduler :=
  match rounds with
  | [] => drain_ready (drain_posts s)
  | l :: rounds' => s ← run_round s l; run s rounds'
  end.

(** What the scheduler thread and the threads that post to it do. *)
Inductive sched_step (s : scheduler) : scheduler -> Prop :=
  | step_post body : sched_step s (post s body)
  | step_round l s' : run_round s l = Ret s' -> sched_step s s'.

Definition sched_reachable (n : Z) : scheduler -> Prop := rtc sched_step (new_scheduler n).

(** * Lemmas *)

(** ** What running a coroutine leaves alone *)

(** [s'] comes from [s] by running task [t]: queues and other tasks are kept,
    identifiers are fresh, entries in flight stay, and new operations are new. *)
Record ran (t : nat) (s s' : scheduler) : Prop := mkRan {
  ran_ready : ready s' = ready s;
  ran_posts : posts s' = posts s;
  ran_next : (next_id s <= next_id s')%nat;
  ran_tasks : forall t', t' <> t -> tasks s' !! t' = tasks s !! t';
  ran_ops : forall o, (o < next_id s)%nat -> ops s' !! o = ops s !! o;
  ran_fresh : (forall o, is_Some (ops s !! o) -> (o < next_id s)%nat) ->
    forall o, is_Some (ops s' !! o) -> (o < next_id s')%nat;
  ran_inflight : inflight s `prefix_of` inflight s';
  ran_effects : effects s `prefix_of` effects s'
}.

Lemma ran_refl t s : ran t s s.
Proof. by constructor. Qed.

Lemma ran_trans t s1 s2 s3 : ran t s1 s2 -> ran t s2 s3 -> ran t s1 s3.
Proof.
  intros [] []. constructor; try congruence; try lia.
  - intros t' Ht. rewrite <- (ran_tasks0 t' Ht). by auto.
  - intros o Ho. rewrite ran_ops1 by lia. by auto.
  - auto.
  - by etrans.
  - by etrans.
Qed.

Lemma ran_set_tasks t s tk : ran t s (set_tasks s (<[t := tk]> (tasks s))).
Proof. constructor; cbn; try done. intros t' Ht. by rewrite lookup_insert_ne. Qed.

(** ** Submission *)

(** The operations whose entries are filled or in flight. *)
Definition pending (s : scheduler) : list nat := sq_data <$> (sqes s ++ inflight s).

(** [s'] is [s] with entries of the operations [added] more. *)
Definition ring_step (s s' : scheduler) (added : list nat) : Prop :=
  s' = set_ring s (sqes s') (inflight s') /\
  inflight s `prefix_of` inflight s' /\
  pending s' ≡ₚ added ++ pending s.

Lemma ring_step_refl s : ring_step s s [].
Proof. split; [by destruct s|done]. Qed.

Lemma ring_step_trans s1 s2 s3 a b :
  ring_step s1 s2 a -> ring_step s2 s3 b -> ring_step s1 s3 (b ++ a).
Proof.
  intros (H1 & Hp1 & Hq1) (H2 & Hp2 & Hq2). split_and!.
  - rewrite H2, H1. by destruct s1.
  - by etrans.
  - by rewrite Hq2, Hq1, app_assoc.
Qed.

Lemma ring_submit_step s : ring_step s (ring_submit s) [].
Proof.
  split_and!; [done|by apply prefix_app_r|]. unfold pending. cbn.
  by rewrite (Permutation_app_comm (inflight s)).
Qed.

Lemma get_sqe_step s s' b : get_sqe s = (s', b) -> ring_step s s' [].
Proof.
  unfold get_sqe. case_if; intros [= <- <-]; [apply ring_step_refl|apply ring_submit_step].
Qed.

Lemma fill_sqe_step s e : ring_step s (fill_sqe s e) [sq_data e].
Proof.
  split_and!; [done|done|]. unfold pending. cbn. rewrite !fmap_app. cbn.
  rewrite <- app_assoc. cbn. by rewrite <- Permutation_middle.
Qed.

Lemma link_last_data l : sq_data <$> link_last l = sq_data <$> l.
Proof.
  unfold link_last. destruct l as [|x l _] using rev_ind; [done|].
  rewrite rev_app_distr. cbn. rewrite rev_involutive, !fmap_app. done.
Qed.

Lemma link_step s : ring_step s (set_ring s (link_last (sqes s)) (inflight s)) [].
Proof.
  split_and!; [done|done|]. unfold pending. cbn. by rewrite !fmap_app, link_last_data.
Qed.

Lemma submit_one_step s op c s' r :
  submit_one s op c = (s', r) -> ring_step s s' (match r with Ret _ => [op] | _ => [] end).
Proof.
  unfold submit_one. destruct (get_sqe s) as [s1 b] eqn:E. intros Hs.
  apply get_sqe_step in E. destruct b; injection Hs as <- <-; [|done].
  by apply (ring_step_trans _ s1 _ [] [op]), (fill_sqe_step s1 (mkSqe c op false)).
Qed.

(** An operation without a timeout has one entry, an operation that failed to
    be submitted at most one. *)
Definition timed (k : op_kind) : bool :=
  match k with OpRecv _ _ _ (Some _) => true | _ => false end.

Lemma submit_op_step s op k s' r :
  submit_op s op k = (s', r) ->
  exists added, ring_step s s' added /\ Forall (eq op) added /\
    (timed k = false -> added = match r with Ret _ => [op] | _ => [] end).
Proof.
  destruct k; cbn [submit_op]; intros Hs;
    try (eexists; split; [by eapply submit_one_step|split; [by destruct r; repeat constructor|done]]).
  destruct (submit_one _ _ _) as [s1 r1] eqn:E1. apply submit_one_step in E1.
  assert (Hsame : (s1, r1) = (s', r) -> exists added, ring_step s s' added /\
    Forall (eq op) added /\ (timed (OpRecv fd length flags0 timeout) = false ->
      added = match r with Ret _ => [op] | _ => [] end)).
  { intros [= <- <-]. eexists; split; [done|]. split; [by destruct r1; repeat constructor|done]. }
  destruct r1 as [[]| | |]; try by apply Hsame.
  destruct timeout as [ns|]; [|by apply Hsame].
  destruct (get_sqe s1) as [s2 ok] eqn:E2. apply get_sqe_step in E2.
  pose proof (ring_step_trans _ _ _ _ _ E1 E2) as E12. cbn [app] in E12.
  destruct ok; injection Hs as <- <-.
  2: { exists [op]. split; [done|]. split; [by repeat constructor|done]. }
  exists ([op] ++ [] ++ [op]). split; [|split; [by repeat constructor|done]].
  eapply ring_step_trans; [|apply (fill_sqe_step _ (mkSqe (timespec ns) op false))].
  eapply ring_step_trans; [exact E12|]. case_if; [apply link_step|apply ring_step_refl].
Qed.

Lemma ring_step_ran t s s' a : ring_step s s' a -> ran t s s'.
Proof. intros (-> & ? & _). by constructor. Qed.

Lemma await_suspend_ran t k s s' op r :
  await_suspend s t k = (s', op, r) ->
  op = next_id s /\ ran t s s' /\ ops s' = <[op := mkOperation t k false 0 0 []]> (ops s).
Proof.
  unfold await_suspend. destruct (submit_op _ _ _) as [s1 r1] eqn:E. intros [= <- <- <-].
  apply submit_op_step in E as (a & (Heq & Hpre & _) & _). cbn in Heq, Hpre. split; [done|].
  rewrite Heq. split; [|done]. constructor; cbn; try done; try lia.
  - intros o Ho. rewrite lookup_insert_ne; [done|lia].
  - intros Hf o. destruct (decide (next_id s = o)) as [<-|]; [lia|].
    rewrite lookup_insert_ne by done. intros H%Hf. lia.
Qed.

(** The operation of a failed submission is destroyed. *)
Lemma ran_delete_new t s s1 : ran t s s1 -> ran t s (set_ops s1 (delete (next_id s) (ops s1))).
Proof.
  intros []. constructor; cbn; try done.
  - intros o Ho. rewrite lookup_delete_ne by lia. by apply ran_ops0.
  - intros Hf o. destruct (decide (next_id s = o)) as [<-|].
    + rewrite lookup_delete_eq. by intros [? ?].
    + rewrite lookup_delete_ne by done. by apply ran_fresh0.
Qed.

Lemma run_script_ran t c : forall s callers s' r,
  run_script s t c callers = (s', r) -> ran t s s'.
Proof.
  induction c as [x|k cont IH|child IHc cont IH|x next IH]; intros s callers s' r Hr; cbn in Hr.
  - injection Hr as <- <-. apply ran_refl.
  - destruct (await_suspend s t k) as [[s1 op] r1] eqn:E.
    apply await_suspend_ran in E as (-> & Hran & _).
    destruct r1 as [a|e| |].
    2: { eapply ran_trans; [by apply ran_delete_new|by eapply IH]. }
    all: injection Hr as <- <-; eapply ran_trans; [exact Hran|apply ran_set_tasks].
  - destruct (run_script s t child _) as [s1 r1] eqn:E. apply IHc in E.
    destruct r1 as [r1|]; [|by injection Hr as <- <-].
    destruct (task_await_resume r1); try (by injection Hr as <- <-);
      (eapply ran_trans; [exact E|by eapply IH]).
  - eapply ran_trans; [|by eapply IH]. constructor; cbn; try done. by apply prefix_app_r.
Qed.

Lemma unwind_ran t callers : forall s r, ran t s (unwind s t r callers).
Proof.
  induction callers as [|k cs IH]; intros s r; cbn; [apply ran_set_tasks|].
  destruct (task_await_resume r) as [a|e| |]; [..|apply ran_set_tasks|];
    (destruct (run_script s t _ cs) as [s1 [r1|]] eqn:E; apply run_script_ran in E; [|done];
     eapply ran_trans; [exact E|apply IH]).
Qed.

Lemma continue_task_ran s t c callers : ran t s (continue_task s t c callers).
Proof.
  unfold continue_task. destruct (run_script s t c callers) as [s1 [r|]] eqn:E;
    apply run_script_ran in E; [|done]. eapply ran_trans; [exact E|apply unwind_ran].
Qed.

(** A task that has been resumed: it waits or is finished. *)
Definition is_started (tk : task) : Prop :=
  match tk with TaskNew _ => False | _ => True end.

Definition started (s : scheduler) (t : nat) : Prop := exists tk, tasks s !! t = Some tk /\ is_started tk.

Lemma run_script_started t c : forall s callers s' ,
  run_script s t c callers = (s', None) -> started s' t.
Proof.
  induction c as [x|k cont IH|child IHc cont IH|x next IH]; intros s callers s' Hr; cbn in Hr; try done.
  - destruct (await_suspend s t k) as [[s1 op] r1] eqn:E.
    destruct r1; [|by eapply IH|..]; injection Hr as <-;
      eexists; (split; [cbn; by rewrite lookup_insert_eq|done]).
  - destruct (run_script s t child _) as [s1 r1] eqn:E.
    destruct r1 as [r1|]; [|injection Hr as <-; by eapply IHc].
    destruct (task_await_resume r1); try done; by eapply IH.
  - by eapply IH.
Qed.

Lemma unwind_started t callers : forall s r, started (unwind s t r callers) t.
Proof.
  induction callers as [|k cs IH]; intros s r; cbn.
  - eexists. split; [cbn; by rewrite lookup_insert_eq|done].
  - destruct (task_await_resume r) as [a|e| |];
      [..|eexists; split; [cbn; by rewrite lookup_insert_eq|done]|];
      (destruct (run_script s t _ cs) as [s1 [r1|]] eqn:E; [apply IH|by eapply run_script_started]).
Qed.

Lemma continue_task_started s t c callers : started (continue_task s t c callers) t.
Proof.
  unfold continue_task. destruct (run_script s t c callers) as [s1 [r|]] eqn:E;
    [apply unwind_started|by eapply run_script_started].
Qed.

(** Operations left behind belong to a task that waits. *)
Lemma run_script_ops t c : forall s callers s' r,
  (forall o, is_Some (ops s !! o) -> (o < next_id s)%nat) ->
  run_script s t c callers = (s', r) ->
  forall op o, ops s' !! op = Some o -> ops s !! op = Some o \/ (continuation o = t /\ r = None).
Proof.
  induction c as [x|k cont IH|child IHc cont IH|x next IH]; intros s callers s' r Hf Hr op o Ho; cbn in Hr.
  - injection Hr as <- <-. by left.
  - destruct (await_suspend s t k) as [[s1 id] r1] eqn:E.
    apply await_suspend_ran in E as (-> & Hran & Hops).
    assert (Hw : ops s1 !! op = Some o -> ops s !! op = Some o \/ continuation o = t).
    { rewrite Hops. destruct (decide (next_id s = op)) as [->|]; [rewrite lookup_insert_eq|].
      - intros [= <-]. by right.
      - rewrite lookup_insert_ne by done. by left. }
    destruct r1 as [a|e| |]; [injection Hr as <- <-; destruct (Hw Ho); tauto| |
      injection Hr as <- <-; destruct (Hw Ho); tauto..].
    pose proof (ran_delete_new _ _ _ Hran) as Hran'.
    destruct (IH _ _ _ _ _ (ran_fresh _ _ _ Hran' Hf) Hr op o Ho) as [Ho1|]; [|tauto].
    cbn in Ho1. apply lookup_delete_Some in Ho1 as [Hne Ho1]. rewrite Hops, lookup_insert_ne in Ho1 by done.
    by left.
  - destruct (run_script s t child _) as [s1 r1] eqn:E.
    pose proof (run_script_ran _ _ _ _ _ _ E) as Hran.
    pose proof (IHc _ _ _ _ Hf E) as H1.
    destruct r1 as [r1|]; [|injection Hr as <- <-; by apply H1].
    assert (H1' : ops s1 !! op = Some o -> ops s !! op = Some o)
      by (intros Ho1; by destruct (H1 _ _ Ho1) as [|[_ ?]]).
    destruct (task_await_resume r1); try (injection Hr as <- <-; left; by apply H1');
      (destruct (IH _ _ _ _ _ (ran_fresh _ _ _ Hran Hf) Hr op o Ho); tauto).
  - by eapply (IH (set_effects s _)).
Qed.

Lemma unwind_ops t callers : forall s r,
  (forall o, is_Some (ops s !! o) -> (o < next_id s)%nat) ->
  forall op o, ops (unwind s t r callers) !! op = Some o -> ops s !! op = Some o \/ continuation o = t.
Proof.
  induction callers as [|k cs IH]; intros s r Hf op o Ho; cbn in Ho; [by left|].
  destruct (task_await_resume r) as [a|e| |]; try (by left);
    (destruct (run_script s t _ cs) as [s1 r1] eqn:E;
     pose proof (run_script_ran _ _ _ _ _ _ E) as Hran;
     pose proof (run_script_ops _ _ _ _ _ _ Hf E op o) as H1;
     destruct r1 as [r1|]; [|tauto];
     destruct (IH _ _ (ran_fresh _ _ _ Hran Hf) op o Ho); tauto).
Qed.

Lemma continue_task_ops s t c callers :
  (forall o, is_Some (ops s !! o) -> (o < next_id s)%nat) ->
  forall op o, ops (continue_task s t c callers) !! op = Some o ->
    ops s !! op = Some o \/ continuation o = t.
Proof.
  intros Hf op o. unfold continue_task. destruct (run_script s t c callers) as [s1 r] eqn:E.
  pose proof (run_script_ran _ _ _ _ _ _ E) as Hran.
  pose proof (run_script_ops _ _ _ _ _ _ Hf E op o) as H1.
  destruct r as [r|]; [|tauto]. intros Ho.
  destruct (unwind_ops _ _ _ _ (ran_fresh _ _ _ Hran Hf) op o Ho); tauto.
Qed.

(** A root that finishes in its first resumption leaves no operation. *)
Lemma continue_new_done s t c :
  (forall o, is_Some (ops s !! o) -> (o < next_id s)%nat) ->
  tasks s !! t = Some (TaskNew c) -> task_done (continue_task s t c []) t = true ->
  forall op o, ops (continue_task s t c []) !! op = Some o -> ops s !! op = Some o.
Proof.
  intros Hf Ht. unfold continue_task. destruct (run_script s t c []) as [s1 [r|]] eqn:E.
  - intros _ op o Ho. cbn in Ho. by destruct (run_script_ops _ _ _ _ _ _ Hf E op o Ho) as [|[_ ?]].
  - intros Hd. exfalso. revert Hd. clear Hf Ht.
    assert (Hw : forall c s cs s1, run_script s t c cs = (s1, None) -> task_done s1 t = false);
      [|by rewrite (Hw _ _ _ _ E)].
    clear. induction c as [x|k cont IH|child IHc cont IH|x next IH]; intros s cs s1 Hr; cbn in Hr; try done.
    + destruct (await_suspend s t k) as [[s2 op] r1] eqn:E.
      destruct r1; [|by eapply IH|..]; injection Hr as <-; unfold task_done; cbn;
        by rewrite lookup_insert_eq.
    + destruct (run_script s t child _) as [s2 r1] eqn:E.
      destruct r1 as [r1|]; [|injection Hr as <-; by eapply IHc].
      destruct (task_await_resume r1); try done; by eapply IH.
    + by eapply IH.
Qed.

(** ** Tasks are destroyed in their first resumption or never *)

(** [l] are the items still to be resumed. *)
Record TaskInv (s : scheduler) (l : list ReadyItem) : Prop := mkTaskInv {
  ti_fresh : forall t, is_Some (tasks s !! t) -> (t < next_id s)%nat;
  ti_fresh_ops : forall o, is_Some (ops s !! o) -> (o < next_id s)%nat;
  ti_ops : forall op o, ops s !! op = Some o -> started s (continuation o);
  ti_item : forall t d, mkReady t d ∈ l ->
    if d then exists c, tasks s !! t = Some (TaskNew c) else started s t;
  ti_nodup : NoDup (handle <$> filter (fun i => destroy_after_resume i = true) l)
}.

Lemma started_not_new s t c : started s t -> tasks s !! t = Some (TaskNew c) -> False.
Proof. intros (tk & Htk & Hs) Hn. rewrite Hn in Htk. by injection Htk as <-. Qed.

Lemma started_ran s s' t t' : ran t s s' -> started s' t -> started s t' -> started s' t'.
Proof.
  intros Hr Ht (tk & Htk & Hs). destruct (decide (t' = t)) as [->|Hne]; [done|].
  exists tk. by rewrite (ran_tasks _ _ _ Hr).
Qed.

(** The operation that a resumed task awaited is destroyed. *)
Definition resume_ops (s : scheduler) (t : nat) : gmap nat operation :=
  match tasks s !! t with
  | Some (TaskWaiting op _ _) => delete op (ops s)
  | _ => ops s
  end.

Lemma resume_ops_sub s t op o : resume_ops s t !! op = Some o -> ops s !! op = Some o.
Proof.
  unfold resume_ops. destruct (tasks s !! t) as [[]|]; try done.
  by intros [_ ?]%lookup_delete_Some.
Qed.

Lemma checked_ret s t s' : checked s t = Ret s' -> s = s'.
Proof. unfold checked. case_if; congruence. Qed.

Lemma resume_inv s t s' :
  (forall o, is_Some (ops s !! o) -> (o < next_id s)%nat) -> resume s t = Ret s' ->
  is_Some (tasks s !! t) /\ ran t (set_ops s (resume_ops s t)) s' /\ started s' t /\
  (forall op o, ops s' !! op = Some o -> ops s !! op = Some o \/ continuation o = t) /\
  (forall c, tasks s !! t = Some (TaskNew c) -> task_done s' t = true ->
     forall op o, ops s' !! op = Some o -> ops s !! op = Some o).
Proof.
  intros Hf. unfold resume, resume_ops. destruct (tasks s !! t) as [[c|op cont cs|r]|] eqn:E; try done.
  - intros <-%checked_ret. replace (set_ops s (ops s)) with s by (by destruct s).
    split_and!; [by eexists|apply continue_task_ran|apply continue_task_started|
      by apply continue_task_ops|]. intros c' [= <-]. by apply continue_new_done.
  - destruct (ops s !! op) as [o|] eqn:Eo; [|done]. intros <-%checked_ret.
    split_and!; [by eexists|apply continue_task_ran|apply continue_task_started| |done].
    intros op' o' Ho'. apply continue_task_ops in Ho'; cbn in *.
    + destruct Ho' as [[_ ?]%lookup_delete_Some|]; auto.
    + intros o1 [? [_ ?]%lookup_delete_Some]. by apply Hf.
Qed.

(** Tasks already resumed are kept, as started tasks. *)
Definition keeps_started (s s' : scheduler) : Prop := forall t, started s t -> started s' t.

Lemma resume_ready_inv s item l s' :
  TaskInv s (item :: l) -> resume_ready s item = Ret s' ->
  TaskInv s' l /\ keeps_started s s' /\ ready s' = ready s /\ posts s' = posts s.
Proof.
  intros Hi Hr. unfold resume_ready in Hr. inv_bind Hr. injection Hr as <-.
  destruct item as [t d]. cbn [handle destroy_after_resume] in *.
  destruct (resume_inv _ _ _ (ti_fresh_ops _ _ Hi) Ha) as (Ht & Hran & Hst & Hops & Hnew).
  pose proof (ti_item _ _ Hi t d ltac:(by left)) as Hitem.
  assert (Hmono : forall t', started s t' -> started a t').
  { intros t' Hs. eapply started_ran; [exact Hran|done|done]. }
  assert (Hl : NoDup (handle <$> filter (fun i => destroy_after_resume i = true) l)).
  { pose proof (ti_nodup _ _ Hi) as Hd. rewrite filter_cons in Hd.
    case_decide; [by apply NoDup_cons in Hd as [_ ?]|done]. }
  assert (Hrest : forall t' d', mkReady t' d' ∈ l ->
    if d' then t' <> t /\ exists c, tasks s !! t' = Some (TaskNew c) else started s t').
  { intros t' d' Hin. pose proof (ti_item _ _ Hi t' d' ltac:(by right)) as Hit.
    destruct d'; [|done]. split; [intros ->|done]. destruct d; [|by destruct Hit; eapply started_not_new].
    pose proof (ti_nodup _ _ Hi) as Hd. rewrite filter_cons, decide_True in Hd by done.
    cbn in Hd. apply NoDup_cons in Hd as [Hnin _]. apply Hnin.
    apply list_elem_of_fmap. exists (mkReady t true). split; [done|]. by apply list_elem_of_filter. }
  assert (Hfo : forall o, is_Some (ops a !! o) -> (o < next_id a)%nat).
  { apply (ran_fresh _ _ _ Hran). cbn. intros o [? ?%resume_ops_sub]. by apply (ti_fresh_ops _ _ Hi). }
  assert (Hft : forall t', is_Some (tasks a !! t') -> (t' < next_id a)%nat).
  { intros t' Ht'. pose proof (ran_next _ _ _ Hran). cbn in *. destruct (decide (t' = t)) as [->|].
    - pose proof (ti_fresh _ _ Hi _ Ht). lia.
    - rewrite (ran_tasks _ _ _ Hran) in Ht' by done. pose proof (ti_fresh _ _ Hi _ Ht'). lia. }
  destruct (d && task_done a t) eqn:Ed.
  - apply andb_true_iff in Ed as [-> Ed]. destruct Hitem as [c Hc].
    assert (Hkeep : forall t', started s t' -> started (set_tasks a (delete t (tasks a))) t').
    { intros t' Hs. destruct (decide (t' = t)) as [->|]; [by destruct (started_not_new s t c)|].
      destruct (Hmono _ Hs) as (tk & Htk & Hs'). exists tk. split; [|done]. cbn.
      by rewrite lookup_delete_ne. }
    split_and!; [|done|cbn; by rewrite (ran_ready _ _ _ Hran)|cbn; by rewrite (ran_posts _ _ _ Hran)].
    constructor; cbn; try done.
    + intros t' [? [_ ?]%lookup_delete_Some]. by apply Hft.
    + intros op o Ho. apply Hkeep. eapply (ti_ops _ _ Hi). by eapply Hnew.
    + intros t' d' Hin. specialize (Hrest _ _ Hin). destruct d'; [|by apply Hkeep].
      destruct Hrest as [Hne [c' Hc']]. exists c'. rewrite lookup_delete_ne by done.
      by rewrite (ran_tasks _ _ _ Hran).
  - split_and!; [|done|by rewrite (ran_ready _ _ _ Hran)|by rewrite (ran_posts _ _ _ Hran)].
    constructor; try done.
    + intros op o Ho. destruct (Hops _ _ Ho) as [Ho'| ->]; [|done].
      apply Hmono. by eapply (ti_ops _ _ Hi).
    + intros t' d' Hin. specialize (Hrest _ _ Hin). destruct d'; [|by apply Hmono].
      destruct Hrest as [Hne [c' Hc']]. exists c'. by rewrite (ran_tasks _ _ _ Hran).
Qed.

Lemma drain_ready_inv s s' :
  TaskInv s (ready s) -> drain_ready s = Ret s' ->
  TaskInv s' [] /\ ready s' = [] /\ posts s' = posts s /\ keeps_started s s'.
Proof.
  intros Hi Hd. unfold drain_ready in Hd.
  eapply (foldl_outcome_inv resume_ready (fun s1 l => TaskInv s1 l /\ ready s1 = [] /\
    posts s1 = posts s /\ keeps_started s s1) (ready s) (set_ready s [])); [| |exact Hd].
  - intros s1 item l s2 (Hi1 & Hr1 & Hp1 & Hk1) Hres.
    destruct (resume_ready_inv _ _ _ _ Hi1 Hres) as (? & Hk & Hr & Hp).
    split_and!; [done|by rewrite Hr|by rewrite Hp|]. intros t Ht. by apply Hk, Hk1.
  - split_and!; [destruct Hi; by constructor|done|done|by intros t].
Qed.

Lemma start_task_inv s body :
  TaskInv s (ready s) -> TaskInv (start_task s body) (ready (start_task s body)) /\
  keeps_started s (start_task s body).
Proof.
  intros Hi. assert (Hk : keeps_started s (start_task s body)).
  { intros t (tk & Htk & Hs). exists tk. cbn. rewrite lookup_insert_ne; [done|].
    intros <-. pose proof (ti_fresh _ _ Hi _ (ex_intro _ _ Htk)). lia. }
  split; [|done]. destruct Hi as [Hf Hfo Ho Hi Hn]. constructor; cbn.
  - intros t. destruct (decide (next_id s = t)) as [<-|]; [lia|]. rewrite lookup_insert_ne by done.
    intros ?%Hf. lia.
  - intros o ?%Hfo. lia.
  - intros op o Hop. by apply Hk, (Ho op).
  - intros t d. rewrite elem_of_app, list_elem_of_singleton. intros [Hin|[= -> ->]].
    + specialize (Hi _ _ Hin). destruct d; [|by apply Hk]. destruct Hi as [c Hc]. exists c.
      rewrite lookup_insert_ne; [done|]. intros <-.
      pose proof (Hf _ (ex_intro _ _ Hc)). lia.
    + exists body. by rewrite lookup_insert_eq.
  - rewrite filter_app, fmap_app, filter_cons, decide_True by done. cbn.
    apply NoDup_app. split_and!; [done| |apply NoDup_singleton].
    intros t Hin ->%list_elem_of_singleton.
    apply list_elem_of_fmap in Hin as ([t' d] & Ht & [Hd Hin]%list_elem_of_filter).
    cbn in *. subst d t'. destruct (Hi _ _ Hin) as [c Hc]. pose proof (Hf _ (ex_intro _ _ Hc)). lia.
Qed.

Lemma drain_posts_inv s :
  TaskInv s (ready s) -> TaskInv (drain_posts s) (ready (drain_posts s)) /\
  keeps_started s (drain_posts s).
Proof.
  intros Hi. unfold drain_posts.
  assert (H0 : TaskInv (set_posts s []) (ready (set_posts s [])) /\ keeps_started s (set_posts s []))
    by (split; [by destruct Hi|by intros t]).
  revert H0. generalize (set_posts s []). induction (posts s) as [|c l IH]; [by intros s1|].
  intros s1 [Hi1 Hk1]. apply IH. destruct (start_task_inv s1 c Hi1) as [? Hk2].
  split; [done|]. intros t Ht. by apply Hk2, Hk1.
Qed.

Lemma complete_inv s op o res fl data :
  ops s !! op = Some o -> TaskInv s (ready s) ->
  TaskInv (complete s op o res fl data) (ready (complete s op o res fl data)) /\
  keeps_started s (complete s op o res fl data).
Proof.
  intros Ho Hi. unfold complete. case_if; [by split; [|intros t]|]. split; [|by intros t].
  destruct Hi as [Hf Hfo Hops Hi Hn]. constructor; cbn; try done.
  - intros o'. destruct (decide (op = o')) as [<-|]; [by eauto|]. rewrite lookup_insert_ne by done. auto.
  - intros op' o' Ho'. destruct (decide (op = op')) as [<-|].
    + rewrite lookup_insert_eq in Ho'. injection Ho' as <-. cbn. by eapply Hops.
    + rewrite lookup_insert_ne in Ho' by done. by eapply Hops.
  - intros t d. rewrite elem_of_app, list_elem_of_singleton. intros [Hin|[= -> ->]]; [by apply Hi|].
    by eapply Hops.
  - rewrite filter_app, fmap_app, filter_cons, decide_False by done. cbn. by rewrite app_nil_r.
Qed.

Lemma take_cqe_inv s c s' :
  TaskInv s (ready s) -> take_cqe s c = Ret s' -> TaskInv s' (ready s') /\ keeps_started s s'.
Proof.
  intros Hi. unfold take_cqe. destruct c as [[[i res] fl] data].
  destruct (inflight s !! i) as [e|]; [|intros [= <-]; by split; [|intros t]].
  unfold handle_cqe. set (s1 := set_ring _ _ _). destruct (ops s1 !! _) as [o|] eqn:Eo; [|done].
  intros [= <-]. apply (complete_inv s1); [done|]. destruct Hi. by constructor.
Qed.

Lemma run_round_inv s l s' :
  TaskInv s (ready s) -> run_round s l = Ret s' -> TaskInv s' (ready s') /\ keeps_started s s'.
Proof.
  intros Hi Hr. unfold run_round in Hr. inv_bind Hr. destruct (drain_posts_inv s Hi) as [Hi1 Hk1].
  destruct (drain_ready_inv _ _ Hi1 Ha) as (Hi2 & Hr2 & _ & Hk2). unfold handle_cqes in Hr.
  eapply (foldl_outcome_inv take_cqe (fun s1 _ => TaskInv s1 (ready s1) /\ keeps_started s s1) l
    (ring_submit a)); [| |exact Hr].
  - intros s1 c k s2 [Hi3 Hk3] Ht. destruct (take_cqe_inv _ _ _ Hi3 Ht) as [? Hk4].
    split; [done|]. intros t Ht1. by apply Hk4, Hk3.
  - split; [cbn; rewrite Hr2; destruct Hi2; by constructor|]. intros t Ht1. by apply Hk2, Hk1.
Qed.

Lemma sched_reachable_inv n s : sched_reachable n s -> TaskInv s (ready s).
Proof.
  apply (rtc_ind_r (fun s => TaskInv s (ready s))).
  - constructor; cbn; try done; try (by intros ? [? ?]).
    + intros t d H. by apply not_elem_of_nil in H.
    + apply NoDup_nil_2.
  - intros s1 s2 _ [body|l s2' Hr] Hi; [destruct Hi; by constructor|]. by eapply run_round_inv.
Qed.

Lemma run_keeps_started s rounds s' :
  TaskInv s (ready s) -> run s rounds = Ret s' -> keeps_started s s'.
Proof.
  revert s; induction rounds as [|l rounds IH]; intros s Hi Hr; cbn in Hr.
  - destruct (drain_posts_inv s Hi) as [Hi1 Hk1].
    destruct (drain_ready_inv _ _ Hi1 Hr) as (_ & _ & _ & Hk2). intros t Ht. by apply Hk2, Hk1.
  - inv_bind Hr. destruct (run_round_inv _ _ _ Hi Ha) as [Hi1 Hk1].
    intros t Ht. by apply (IH _ Hi1 Hr), Hk1.
Qed.

Lemma submit_op_result s op k s' r :
  submit_op s op k = (s', r) -> r = Ret tt \/ r = Throw runtime_error.
Proof.
  destruct k; cbn; unfold submit_one; repeat case_match; intros; simplify_eq; auto.
Qed.

(** A new scheduler to which tasks were posted. *)
Definition with_posts (n : Z) (bodies : list script) : scheduler := foldl post (new_scheduler n) bodies.

Lemma with_posts_eq n bodies : with_posts n bodies = set_posts (new_scheduler n) bodies.
Proof.
  unfold with_posts. induction bodies as [|c l IH] using rev_ind; [done|].
  rewrite foldl_app, IH. done.
Qed.

(** After [submit_or_throw] every entry is in flight, one of the operation among
    them if it did not throw. *)
Lemma submit_or_throw_submits s op k s' :
  submit_or_throw s op k = (s', Ret 0) ->
  sqes s' = [] /\ exists added, Forall (eq op) added /\ sq_data <$> inflight s' ≡ₚ added ++ pending s.
Proof.
  unfold submit_or_throw. destruct (submit_op s op k) as [s1 [u|e| |]] eqn:E; intros [= <-].
  destruct (submit_op_step _ _ _ _ _ E) as (added & (_ & _ & Hp) & Ha & _). split; [done|].
  exists added. split; [done|]. rewrite <- Hp. unfold pending. cbn. rewrite !fmap_app. apply Permutation_app_comm.
Qed.

End scheduling.

Arguments script : clear implicits.
Arguments task : clear implicits.
Arguments scheduler : clear implicits.

(** [co_return] and an exception that leaves the body. *)
Abbreviation Finish v := (End (Ret v)).
Abbreviation Raise e := (End (Throw e)).

(** * Properties *)

(** A task that sends twice through a child task, then finishes. *)
Definition sender : script unit Empty_set :=
  AwaitTask (AwaitOp (OpSend 7 100 0) (fun r =>
               match r with Ret _ => AwaitOp (OpSend 7 60 0) (fun _ => Finish tt)
               | _ => Finish tt end))
            (fun _ => Finish tt).

Lemma ring_size_at_least e : e <= 2 ^ Z.log2_up e /\ 0 < 2 ^ Z.log2_up e.
Proof.
  split; [|apply Z.pow_pos_nonneg; [lia|apply Z.log2_up_nonneg]].
  destruct (Z.le_gt_cases e 1) as [He|He]; [|by apply Z.log2_up_spec].
  rewrite Z.log2_up_eqn0 by done. lia.
Qed.

(** Both entries of a receive with a timeout, when the ring has room. *)
Lemma submit_timed_recv {V C} (s : scheduler V C) op fd len fl ns :
  sqes s = [] -> 2 <= entries s ->
  submit_op s op (OpRecv fd len fl (Some ns)) =
  (set_ring s [mkSqe (SqRecv fd (u32 len) fl) op true; mkSqe (timespec ns) op false] (inflight s),
   Ret tt).
Proof.
  destruct s as [e rd po ta op' sq infl nx ef]. cbn. intros -> He.
  pose proof (ring_size_at_least e).
  assert (E0 : (Z.of_nat 0 <? 2 ^ Z.log2_up e) = true) by (apply Z.ltb_lt; lia).
  assert (E1 : (Z.of_nat 1 <? 2 ^ Z.log2_up e) = true) by (apply Z.ltb_lt; lia).
  unfold submit_one, get_sqe, ring_room, ring_size, fill_sqe. cbn -[Z.of_nat Z.ltb Z.pow Z.log2_up].
  repeat (rewrite ?E0, ?E1; cbn -[Z.of_nat Z.ltb Z.pow Z.log2_up]). done.
Qed.

(** The first round of a task that starts with such a receive. *)
Lemma timed_recv_first_round {V C} n fd len fl ns (cont : outcome (Z * bytes) -> script V C) :
  n = 0 \/ 2 <= n ->
  run_round (with_posts n [AwaitOp (OpRecv fd len fl (Some ns)) cont]) [] =
  Ret (mkScheduler (if n =? 0 then 1024 else n) [] [] {[0%nat := TaskWaiting 1 cont []]}
         {[1%nat := mkOperation 0 (OpRecv fd len fl (Some ns)) false 0 0 []]} []
         [mkSqe (SqRecv fd (u32 len) fl) 1 true; mkSqe (timespec ns) 1 false] 2 []).
Proof.
  intros Hn. set (e := if n =? 0 then 1024 else n).
  assert (He : 2 <= e) by (unfold e; case_if; zbool; lia).
  set (body := AwaitOp (OpRecv fd len fl (Some ns)) cont).
  assert (H1 : drain_posts (with_posts n [body]) =
    mkScheduler e [mkReady 0 true] [] {[0%nat := TaskNew body]} ∅ [] [] 1 []) by reflexivity.
  set (s1 := mkScheduler e [] [] {[0%nat := TaskNew body]} ∅ [] [] 1 []).
  set (s2 := mkScheduler e [] [] {[0%nat := TaskWaiting 1 cont []]} 
    {[1%nat := mkOperation 0 (OpRecv fd len fl (Some ns)) false 0 0 []]}
    [mkSqe (SqRecv fd (u32 len) fl) 1 true; mkSqe (timespec ns) 1 false] [] 2 []).
  assert (H2 : continue_task s1 0 body [] = s2).
  { unfold continue_task, body. cbn [run_script]. unfold await_suspend.
    rewrite submit_timed_recv by done. unfold s2, set_tasks. cbn.
    by rewrite insert_singleton_eq. }
  assert (H3 : resume_ready s1 (mkReady 0 true) = Ret s2).
  { unfold resume_ready, resume. cbn [handle tasks s1]. rewrite lookup_singleton_eq. fold s1.
    rewrite H2. unfold checked, undefined_task, s2. cbn. by rewrite lookup_singleton_eq. }
  unfold run_round, drain_ready. rewrite H1. cbn [ready foldl mbind outcome_bind set_ready].
  change (set_ready _ []) with s1. rewrite H3. done.
Qed.

(** C40: a receive with a timeout is a use after free. Its two entries carry the
    address of the same operation: when the data arrives, the coroutine
    continues and the operation is destroyed, and the completion of the timeout
    in a later round is delivered to it, whatever the coroutine does and
    whatever the results are. *)
Theorem timed_receive_use_after_free {V C} n fd len fl ns (cont : outcome (Z * bytes) -> script V C)
    res flg data res2 flg2 data2 :
  n = 0 \/ 2 <= n ->
  let recv_body := AwaitOp (OpRecv fd len fl (Some ns)) cont in
  run (with_posts n [recv_body])
    [[]; [(0%nat, res, flg, data)]; [(0%nat, res2, flg2, data2)]] = UB.
Proof.
  intros Hn recv_body. unfold recv_body. cbn [run]. rewrite timed_recv_first_round by done.
  set (e := if n =? 0 then 1024 else n).
  set (recv := mkSqe (SqRecv fd (u32 len) fl) 1 true).
  set (timeout := mkSqe (timespec ns) 1 false).
  set (waiting := TaskWaiting 1 cont []). set (k := OpRecv fd len fl (Some ns)).
  cbn [mbind outcome_bind].
  set (s2 := mkScheduler e [mkReady 0 false] [] {[0%nat := waiting]}
               {[1%nat := mkOperation 0 k true res flg data]} [] [timeout] 2 []).
  assert (H2 : run_round (mkScheduler e [] [] {[0%nat := waiting]} {[1%nat := mkOperation 0 k false 0 0 []]} []
           [recv; timeout] 2 []) [(0%nat, res, flg, data)] = Ret s2).
  { unfold run_round, drain_posts, drain_ready. cbn. done. }
  rewrite H2. cbn [mbind outcome_bind].
  assert (H3 : drain_ready (drain_posts s2) = UB \/
    exists s3, drain_ready (drain_posts s2) = Ret s3 /\ ops s3 !! 1%nat = None /\
    exists l, inflight (ring_submit s3) = timeout :: l).
  { set (s2' := mkScheduler e [] [] {[0%nat := waiting]} {[1%nat := mkOperation 0 k true res flg data]}
      [] [timeout] 2 []).
    set (s2d := set_ops s2' (delete 1%nat (ops s2'))).
    set (s3 := continue_task s2d 0 (cont (await_resume (mkOperation 0 k true res flg data))) []).
    pose proof (continue_task_ran s2d 0 (cont (await_resume (mkOperation 0 k true res flg data))) []) as Hran.
    assert (Hres : resume s2' 0 = checked s3 0).
    { unfold resume. cbn [tasks s2']. rewrite lookup_singleton_eq. unfold waiting at 1.
      cbn [ops s2']. by rewrite lookup_singleton_eq. }
    change (drain_ready (drain_posts s2)) with (resume_ready s2' (mkReady 0 false)).
    unfold resume_ready. cbn [handle]. rewrite Hres. unfold checked.
    case_if; [by left|right]. exists s3. split; [done|split].
    - unfold s3. rewrite (ran_ops _ _ _ Hran) by (cbn; lia). cbn. by rewrite lookup_delete_eq.
    - destruct (ran_inflight _ _ _ Hran) as [l Hk]. cbn in Hk. fold s3 in Hk.
      exists (l ++ sqes s3). unfold ring_submit. cbn. by rewrite Hk. }
  unfold run_round. destruct H3 as [Hd|(s3 & Hd & Ho & l & Hk)]; rewrite Hd; [done|].
  cbn [mbind outcome_bind].
  unfold handle_cqes. cbn [foldl mbind outcome_bind]. unfold take_cqe. rewrite Hk. cbn.
  by rewrite Ho.
Qed.

(** The receive of [read_request] with the default timeout of 30 seconds. *)
Lemma timed_receive_use_after_free_witness :
  run (with_posts 1024 [AwaitOp (OpRecv 7 8192 0 (Some 30000000000)) (fun _ => sender)])
    [[]; [(0%nat, 3, 0, lit "GET")]; [(0%nat, -62, 0, [])]] = UB.
Proof. apply (timed_receive_use_after_free 1024). lia. Defined.

(** The entry of an untimed operation, when the submission queue is empty. *)
Lemma submit_untimed {V C} (s : scheduler V C) op k :
  timed k = false -> sqes s = [] -> 1 <= entries s ->
  exists c, submit_op s op k = (set_ring s [mkSqe c op false] (inflight s), Ret tt).
Proof.
  destruct s as [e rd po ta op' sq infl nx ef]. cbn. intros Hk -> He.
  pose proof (ring_size_at_least e).
  assert (E0 : (Z.of_nat 0 <? 2 ^ Z.log2_up e) = true) by (apply Z.ltb_lt; lia).
  destruct k as [|? ? ? [|]| | | | |]; try done; unfold submit_op, submit_one, get_sqe, ring_room, ring_size, fill_sqe;
    cbn -[Z.of_nat Z.ltb Z.pow Z.log2_up]; rewrite E0; by eexists.
Qed.

(** The first round of a task whose child task starts with such an operation. *)
Lemma child_first_round {V C} n k cont (cont2 : outcome V -> script V C) :
  timed k = false -> 0 <= n ->
  exists c, run_round (with_posts n [AwaitTask (AwaitOp k cont) cont2]) [] =
  Ret (mkScheduler (if n =? 0 then 1024 else n) [] [] {[0%nat := TaskWaiting 1 cont [cont2]]}
         {[1%nat := mkOperation 0 k false 0 0 []]} [] [mkSqe c 1 false] 2 []).
Proof.
  intros Hk Hn. set (e := if n =? 0 then 1024 else n).
  assert (He : 1 <= e) by (unfold e; case_if; zbool; lia).
  set (body := AwaitTask (AwaitOp k cont) cont2).
  set (s1 := mkScheduler e [] [] {[0%nat := TaskNew body]} ∅ [] [] 1 []).
  destruct (submit_untimed (set_next (set_ops s1 (<[1%nat := mkOperation 0 k false 0 0 []]> ∅)) 2) 1 k Hk eq_refl He)
    as [c Hc]. exists c.
  set (s2 := mkScheduler e [] [] {[0%nat := TaskWaiting 1 cont [cont2]]}
    {[1%nat := mkOperation 0 k false 0 0 []]} [mkSqe c 1 false] [] 2 []).
  assert (H2 : continue_task s1 0 body [] = s2).
  { unfold continue_task, body. cbn [run_script]. unfold await_suspend. cbn [next_id s1 ops] in *.
    rewrite Hc. unfold s2, set_tasks. cbn. by rewrite insert_singleton_eq. }
  assert (H3 : resume_ready s1 (mkReady 0 true) = Ret s2).
  { unfold resume_ready, resume. cbn [handle tasks s1]. rewrite lookup_singleton_eq. fold s1.
    rewrite H2. unfold checked, undefined_task, s2. cbn. by rewrite lookup_singleton_eq. }
  assert (H1 : drain_posts (with_posts n [body]) =
    mkScheduler e [mkReady 0 true] [] {[0%nat := TaskNew body]} ∅ [] [] 1 []) by reflexivity.
  unfold run_round, drain_ready. rewrite H1. cbn [ready foldl mbind outcome_bind set_ready].
  change (set_ready _ []) with s1. rewrite H3. done.
Qed.

(** An exception that leaves an awaited task is read after its lifetime.
    When the operation a child task awaits fails and the child lets the
    exception escape, the rethrow in the parent reads the exception from the
    promise of the frame it has just destroyed, whatever the parent does. *)
Theorem rethrow_use_after_free {V C} n k cont (cont2 : outcome V -> script V C) e res fl data :
  0 <= n -> timed k = false -> res < 0 -> cont (Throw (system_error (- res))) = Raise e ->
  run (with_posts n [AwaitTask (AwaitOp k cont) cont2]) [[]; [(0%nat, res, fl, data)]] = UB.
Proof.
  intros Hn Hk Hres He. destruct (child_first_round n k cont cont2 Hk Hn) as [c Hc].
  set (en := if n =? 0 then 1024 else n) in *.
  set (tk := TaskWaiting 1 cont [cont2]) in *.
  set (s1 := mkScheduler en [] [] {[0%nat := tk]} {[1%nat := mkOperation 0 k false 0 0 []]} []
           [mkSqe c 1 false] 2 []) in *.
  assert (H1 : forall rounds, run (with_posts n [AwaitTask (AwaitOp k cont) cont2]) ([] :: rounds) = run s1 rounds)
    by (intros; cbn [run]; by rewrite Hc).
  rewrite H1.
  set (s2 := mkScheduler en [mkReady 0 false] [] {[0%nat := tk]} {[1%nat := mkOperation 0 k true res fl data]} [] [] 2 []).
  assert (H2 : run s1 [[(0%nat, res, fl, data)]] = drain_ready (drain_posts s2)) by reflexivity.
  rewrite H2.
  change (drain_ready (drain_posts s2)) with (resume_ready (set_ready s2 []) (mkReady 0 false)).
  unfold resume_ready, resume. cbn [handle].
  change (tasks (set_ready s2 []) !! 0%nat) with (Some tk). unfold tk at 1.
  change (ops (set_ready s2 []) !! 1%nat) with (Some (mkOperation 0 k true res fl data)).
  cbn [mbind]. unfold await_resume. cbn [result].
  rewrite (proj2 (Z.ltb_lt _ _) Hres), He. unfold continue_task. cbn.
  unfold checked, undefined_task. cbn. by rewrite lookup_insert_eq.
Qed.

(** A [write_all] whose client has gone: the send fails with EPIPE. *)
Lemma rethrow_use_after_free_witness :
  run (with_posts (C := Empty_set) 1024 [AwaitTask (AwaitOp (OpSend 7 100 0) (fun r =>
         match r with Ret _ => Finish tt | Throw e => Raise e | _ => Finish tt end)) (fun _ => Finish tt)])
    [[]; [(0%nat, -32, 0, [])]] = UB.
Proof. eapply (rethrow_use_after_free 1024); [lia|done|lia|reflexivity]. Defined.

(** A connection is never freed. A task that has waited once is never
    destroyed by the scheduler, however long it runs and even after it has
    finished: its frame, and the descriptor the frame owns, are leaked. *)
Theorem suspended_task_never_destroyed {V C} n (s : scheduler V C) t rounds s' :
  sched_reachable n s -> started s t -> run s rounds = Ret s' -> started s' t.
Proof.
  intros Hr Ht Hrun. eapply run_keeps_started; [|exact Hrun|exact Ht].
  by eapply sched_reachable_inv.
Qed.

(** The task of a client that is served completely, then the loop stops. *)
Definition waiting_sender : scheduler unit Empty_set :=
  match run_round (with_posts 8 [sender]) [] with Ret s => s | _ => new_scheduler 8 end.
Definition served_sender : scheduler unit Empty_set :=
  match run waiting_sender [[(0%nat, 100, 0, [])]; [(0%nat, 60, 0, [])]; []] with
  | Ret s => s | _ => new_scheduler 8 end.

Lemma suspended_task_never_destroyed_witness :
  run_round (with_posts 8 [sender]) [] = Ret waiting_sender /\
  run waiting_sender [[(0%nat, 100, 0, [])]; [(0%nat, 60, 0, [])]; []] = Ret served_sender /\
  started served_sender 0%nat /\ tasks served_sender !! 0%nat = Some (TaskDone (Ret tt)).
Proof.
  split; [vm_compute; reflexivity|]. split; [vm_compute; reflexivity|].
  split; [|vm_compute; reflexivity].
  apply (suspended_task_never_destroyed 8 waiting_sender 0%nat
           [[(0%nat, 100, 0, [])]; [(0%nat, 60, 0, [])]; []] served_sender).
  - eapply rtc_l; [apply (step_post _ sender)|]. eapply rtc_l; [|apply rtc_refl].
    eapply (step_round _ []). vm_compute. reflexivity.
  - eexists. split; [vm_compute; reflexivity|exact I].
  - vm_compute. reflexivity.
Defined.

(** an operation completes once. After the first completion of an
    operation, later ones change nothing: the awaiting coroutine is enqueued
    once and gets the first result. *)
Theorem operation_completes_once {V C} (s : scheduler V C) op res fl data res2 fl2 data2 s1 :
  handle_cqe s (Some op) res fl data = Ret s1 ->
  handle_cqe s1 (Some op) res2 fl2 data2 = Ret s1 /\
  exists o, ops s1 !! op = Some o /\ completed o = true /\
    (ready s1 = ready s \/ ready s1 = ready s ++ [mkReady (continuation o) false] /\
       result o = res /\
       await_resume o = if res <? 0 then Throw (system_error (- res)) else Ret (res, data)).
Proof.
  unfold handle_cqe. destruct (ops s !! op) as [o|] eqn:Eo; [|done]. intros [= <-].
  destruct (completed o) eqn:Ec.
  - assert (E : forall r f d, complete s op o r f d = s) by (intros; unfold complete; by rewrite Ec).
    rewrite !E, Eo. split; [by rewrite E|]. exists o. auto.
  - unfold complete at 1 3 4 5. rewrite Ec. cbn. rewrite lookup_insert_eq. split; [done|].
    eexists. split; [done|]. split; [done|]. right. unfold complete. by rewrite Ec.
Qed.

Lemma operation_completes_once_witness :
  let s : scheduler unit Empty_set := mkScheduler 8 [] [] {[0%nat := TaskWaiting 1 (fun _ => Finish tt) []]}
             {[1%nat := mkOperation 0 (OpRecv 7 8192 0 None) false 0 0 []]} [] [] 2 [] in
  exists s1, handle_cqe s (Some 1%nat) (-104) 0 [] = Ret s1 /\
    handle_cqe s1 (Some 1%nat) 3 0 (lit "GET") = Ret s1 /\
    exists o, ops s1 !! 1%nat = Some o /\ completed o = true /\
      (ready s1 = ready s \/ ready s1 = ready s ++ [mkReady (continuation o) false] /\
         result o = -104 /\
         await_resume o = if -104 <? 0 then Throw (system_error (- -104)) else Ret (-104, [])).
Proof.
  eexists. split; [vm_compute; reflexivity|].
  eapply (operation_completes_once _ 1%nat (-104) 0 [] 3 0 (lit "GET")). reflexivity.
Defined.
