(* ===== verification/UringTasks.v ===== *)
(** * UringTasks: each task of a scheduler runs as it does alone

    The trace of a scheduler says which coroutines it started and which
    completion it delivered to which of them.  [replay] is a coroutine on its
    own: its body, given the completions it hears one after the other.  Whatever
    the tasks of a scheduler are and however their completions interleave, each
    of them is where [replay] puts it and has made the same calls, provided that the kernel completes no
    entry of an operation that has already been completed by another one. *)

From S2P Require Export Uring.

#[export] Instance sqe_code_eq_dec : EqDecision sqe_code.
Proof. solve_decision. Defined.

(** ** A coroutine alone *)

(** A completion as a coroutine hears it: the entry that was completed, its
    result, and what was written through its pointer. *)
Definition reply : Type := sqe_code * Z * bytes.

(** The entry of an operation. *)
Definition entry_of (k : op_kind) : sqe_code :=
  match k with
  | OpAccept fd fl ms => SqAccept fd fl ms
  | OpRecv fd len fl _ => SqRecv fd (u32 len) fl
  | OpSend fd len fl => SqSend fd (u32 len) fl
  | OpRead fd len off => SqRead fd (u32 len) (if 0 <=? off then off else 0)
  | OpWrite fd len off => SqWrite fd (u32 len) (if 0 <=? off then off else 0)
  | OpTimeout ns => timespec ns
  | OpCancel token => SqCancel token
  end.

(** The timeout entry of a receive carries the same operation. *)
Definition codes_of (k : op_kind) : list sqe_code :=
  entry_of k :: match k with OpRecv _ _ _ (Some ns) => [timespec ns] | _ => [] end.

(** What [OperationBase::await_resume] makes of a completion. *)
Definition reply_value (res : Z) (data : bytes) : outcome (Z * bytes) :=
  if res <? 0 then Throw (system_error (- res)) else Ret (res, data).

Section alone.
Context {V C : Type}.

(** How far a body gets: it waits for an operation, or has ended before the
    [rest] of the completions; [Mismatch] when a completion is not of the
    operation it awaits. *)
Inductive progress :=
  | Waits (k : op_kind)
  | Ends (r : outcome V) (rest : list reply)
  | Mismatch.

(** The calls it made until then, and how far it got. *)
Definition played : Type := list C * progress.

Definition did (xs : list C) (m : played) : played := (xs ++ m.1, m.2).

(** What an awaiting body does with the end of the awaited task. *)
Definition and_then (m : played) (f : outcome V -> list reply -> played) : played :=
  match m.2 with
  | Ends r h =>
      match task_await_resume r with
      | UB => (m.1, Ends UB h)
      | r => did m.1 (f r h)
      end
  | _ => m
  end.

Fixpoint replay (c : script V C) (h : list reply) : played :=
  match c with
  | End r => ([], Ends r h)
  | AwaitOp k cont =>
      match h with
      | [] => ([], Waits k)
      | (code, res, data) :: h' =>
          if decide (code = entry_of k) then replay (cont (reply_value res data)) h' else ([], Mismatch)
      end
  | AwaitTask child cont => and_then (replay child h) (fun r => replay (cont r))
  | Perform x next => did [x] (replay next h)
  end.

(** The frames that await the innermost one. *)
Fixpoint replay_frames (m : played) (callers : list (outcome V -> script V C)) : played :=
  match callers with
  | [] => m
  | k :: callers' => replay_frames (and_then m (fun r => replay (k r))) callers'
  end.

(** ** What a scheduler did *)

Inductive event :=
  | Started (t : nat) (body : script V C)
  | Delivered (t : nat) (r : reply)
  | Ignored (code : sqe_code)      (** the operation was already completed *)
  | Dangling (code : sqe_code).    (** the operation was already destroyed *)

(** What [drain_posts] starts. *)
Definition started_by (s : scheduler V C) : list event :=
  imap (fun i body => Started (next_id s + i) body) (posts s).

Definition cqe_event (s : scheduler V C) (c : cqe) : list event :=
  let '(i, res, fl, data) := c in
  match inflight s !! i with
  | Some e =>
      match ops s !! sq_data e with
      | Some o =>
          if completed o then [Ignored (sq_code e)]
          else [Delivered (continuation o) (sq_code e, res, data)]
      | None => [Dangling (sq_code e)]
      end
  | None => []
  end.

(** A trace stops where the scheduler does. *)
Definition after (m : outcome (scheduler V C)) (f : scheduler V C -> list event) : list event :=
  match m with Ret s => f s | _ => [] end.

Fixpoint cqes_trace (s : scheduler V C) (l : list cqe) : list event :=
  match l with
  | [] => []
  | c :: l' => cqe_event s c ++ after (take_cqe s c) (fun s' => cqes_trace s' l')
  end.

Definition round_trace (s : scheduler V C) (l : list cqe) : list event :=
  started_by s ++ after (drain_ready (drain_posts s)) (fun s' => cqes_trace (ring_submit s') l).

(** The scheduler thread, with what other threads post before each round. *)
Fixpoint serve (s : scheduler V C) (rounds : list (list (script V C) * list cqe)) : outcome (scheduler V C) :=
  match rounds with
  | [] => drain_ready (drain_posts s)
  | (bodies, l) :: rounds' => s ← run_round (foldl post s bodies) l; serve s rounds'
  end.

Fixpoint serve_trace (s : scheduler V C) (rounds : list (list (script V C) * list cqe)) : list event :=
  match rounds with
  | [] => started_by s
  | (bodies, l) :: rounds' =>
      let s := foldl post s bodies in
      round_trace s l ++ after (run_round s l) (fun s' => serve_trace s' rounds')
  end.

(** What task [t] heard, in order. *)
Definition heard (t : nat) (tr : list event) : list reply :=
  omap (fun ev => match ev with
                  | Delivered t' r => if decide (t' = t) then Some r else None
                  | _ => None
                  end) tr.

(** The bodies that were started. *)
Definition started_bodies (tr : list event) : list (script V C) :=
  omap (fun ev => match ev with Started _ body => Some body | _ => None end) tr.

(** Their tasks. *)
Definition started_ids (tr : list event) : list nat :=
  omap (fun ev => match ev with Started t _ => Some t | _ => None end) tr.

(** The entry a completion of the trace is of. *)
Definition event_code (ev : event) : option sqe_code :=
  match ev with
  | Started _ _ => None
  | Delivered _ (code, _, _) | Ignored code | Dangling code => Some code
  end.

(** The calls task [t] made. *)
Definition performed (t : nat) (s : scheduler V C) : list C :=
  omap (fun p => if decide (p.1 = t) then Some p.2 else None) (effects s).

(** Where the scheduler has task [t]: waiting where its body waits, finished as
    its body ended, or destroyed after it has ended; with the calls of its body. *)
Definition status_agrees (s : scheduler V C) (t : nat) (m : played) : Prop :=
  performed t s = m.1 /\
  match tasks s !! t with
  | Some (TaskNew _) => False
  | Some (TaskWaiting op _ _) => exists o, ops s !! op = Some o /\ m.2 = Waits (kind o)
  | Some (TaskDone r) => m.2 = Ends r []
  | None => exists r, m.2 = Ends r []
  end.
End alone.
Arguments progress : clear implicits.
Arguments played : clear implicits.
Arguments event : clear implicits.

(** * Lemmas *)

Section replay_lemmas.
Context {V C : Type}.
Implicit Types (s : scheduler V C) (c : script V C) (h : list reply).

Lemma did_nil (m : played V C) : did [] m = m.
Proof. by destruct m. Qed.

Lemma did_did xs ys (m : played V C) : did xs (did ys m) = did (xs ++ ys) m.
Proof. unfold did. cbn. by rewrite app_assoc. Qed.

Lemma and_then_did xs (m : played V C) f : and_then (did xs m) f = did xs (and_then m f).
Proof.
  unfold and_then. cbn. destruct (m.2) as [k|r h|]; [done| |done].
  destruct (task_await_resume r); by rewrite ?did_did.
Qed.

Lemma replay_frames_did xs (callers : list (outcome V -> script V C)) : forall m,
  replay_frames (did xs m) callers = did xs (replay_frames m callers).
Proof. induction callers as [|k cs IH]; intros m; cbn; [done|]. by rewrite and_then_did, IH. Qed.

Lemma replay_frames_UB xs h (callers : list (outcome V -> script V C)) :
  replay_frames (xs, Ends UB h) callers = (xs, Ends UB h).
Proof. by induction callers. Qed.

Lemma replay_frames_Waits xs k (callers : list (outcome V -> script V C)) :
  replay_frames (xs, Waits k) callers = (xs, Waits k).
Proof. by induction callers. Qed.

(** ** Submission with room in the ring *)

Definition keys s : list (sqe_code * nat) := (fun e => (sq_code e, sq_data e)) <$> (sqes s ++ inflight s).

Lemma ring_submit_keys s : keys (ring_submit s) ≡ₚ keys s.
Proof. unfold keys. cbn. by rewrite (Permutation_app_comm (inflight s)). Qed.

Lemma get_sqe_room s : 0 < entries s -> exists l k,
  get_sqe s = (set_ring s l k, true) /\ keys (set_ring s l k) ≡ₚ keys s.
Proof.
  intros He. unfold get_sqe. destruct (ring_room s).
  - exists (sqes s), (inflight s). split; [by destruct s|done].
  - exists [], (inflight s ++ sqes s). split; [|apply ring_submit_keys].
    f_equal. unfold ring_room. cbn. apply Z.ltb_lt. by apply ring_size_at_least.
Qed.

Lemma fill_sqe_keys s e : keys (fill_sqe s e) ≡ₚ (sq_code e, sq_data e) :: keys s.
Proof. unfold keys. cbn. rewrite <- app_assoc, !fmap_app. cbn. by rewrite <- Permutation_middle. Qed.

Lemma link_last_keys s : keys (set_ring s (link_last (sqes s)) (inflight s)) ≡ₚ keys s.
Proof.
  unfold keys. cbn. rewrite !fmap_app. apply Permutation_app_tail. unfold link_last.
  destruct (sqes s) as [|x l _] using rev_ind; [done|].
  rewrite rev_app_distr. cbn. by rewrite rev_involutive, !fmap_app.
Qed.

Lemma submit_one_room s op code : 0 < entries s -> exists l k,
  submit_one s op code = (set_ring s l k, Ret tt) /\
  keys (set_ring s l k) ≡ₚ (code, op) :: keys s.
Proof.
  intros He. unfold submit_one. destruct (get_sqe_room s He) as (l & k & -> & Hk).
  exists (l ++ [mkSqe code op false]), k. split; [done|].
  rewrite <- Hk. apply (fill_sqe_keys (set_ring s l k) (mkSqe code op false)).
Qed.

(** In a ring with at least one entry a submission does not throw, and fills
    the entries of the operation. *)
Lemma submit_op_room s op k : 0 < entries s -> exists l q,
  submit_op s op k = (set_ring s l q, Ret tt) /\
  keys (set_ring s l q) ≡ₚ ((fun code => (code, op)) <$> codes_of k) ++ keys s.
Proof.
  intros He.
  assert (Hone : forall code, exists l q, submit_one s op code = (set_ring s l q, Ret tt) /\
    keys (set_ring s l q) ≡ₚ (code, op) :: keys s) by (intros; by apply submit_one_room).
  destruct k as [| fd len fl [ns|]| | | | |]; cbn [submit_op]; try apply Hone.
  - destruct (Hone (SqRecv fd (u32 len) fl)) as (l & q & -> & Hk). set (s1 := set_ring s l q) in *.
    destruct (get_sqe_room s1 He) as (l2 & q2 & -> & Hk2). set (s2 := set_ring s1 l2 q2) in *.
    set (s3 := if ring_room s1 then set_ring s2 (link_last (sqes s2)) (inflight s2) else s2).
    assert (H3 : exists l q, s3 = set_ring s l q) by (unfold s3; case_if; by eexists _, _).
    assert (Hk3 : keys s3 ≡ₚ keys s2) by (unfold s3; case_if; [apply link_last_keys|done]).
    destruct H3 as (l3 & q3 & H3). exists (sqes (fill_sqe s3 (mkSqe (timespec ns) op false))), q3.
    split; [by rewrite H3|]. pose proof (fill_sqe_keys s3 (mkSqe (timespec ns) op false)) as Hf.
    rewrite H3 in Hf at 1. cbn in Hf |- *. rewrite H3 in *. cbn in *. rewrite Hf, Hk3, Hk2, Hk.
    apply Permutation_swap.
  - destruct (Hone (SqRecv fd (u32 len) fl)) as (l & q & -> & Hk). by exists l, q.
Qed.

(** ** Running a task *)

(** [s] after task [t] has made the calls [xs]. *)
Definition emit s (t : nat) (xs : list C) : scheduler V C :=
  set_effects s (effects s ++ ((fun x => (t, x)) <$> xs)).

Lemma emit_nil s t : emit s t [] = s.
Proof. unfold emit. cbn. rewrite app_nil_r. by destruct s. Qed.

Lemma emit_emit s t xs ys : emit (emit s t xs) t ys = emit s t (xs ++ ys).
Proof. unfold emit. cbn. by rewrite fmap_app, app_assoc. Qed.

(** The scheduler after task [t] has suspended on an operation of kind [k]. *)
Definition suspended s (t : nat) (k : op_kind) cont callers (s' : scheduler V C) : Prop :=
  exists l q, s' = mkScheduler (entries s) (ready s) (posts s)
      (<[t := TaskWaiting (next_id s) cont callers]> (tasks s))
      (<[next_id s := mkOperation t k false 0 0 []]> (ops s)) l q (S (next_id s)) (effects s) /\
    keys s' ≡ₚ ((fun code => (code, next_id s)) <$> codes_of k) ++ keys s.

(** [t] was run to its end or to a suspension, as [f] says. *)
Definition settled s (t : nat) (s' : scheduler V C) (f : list reply -> played V C) : Prop :=
  exists xs,
  (exists r, s' = set_tasks (emit s t xs) (<[t := TaskDone r]> (tasks s)) /\ forall h, f h = (xs, Ends r h)) \/
  (exists k cont callers, suspended (emit s t xs) t k cont callers s' /\
     forall h, f h = did xs (replay_frames (replay (AwaitOp k cont) h) callers)).

Lemma settled_ext s t s' f g : (forall h, f h = g h) -> settled s t s' f -> settled s t s' g.
Proof.
  intros Hfg [xs [(r & ? & Hr)|(k & cont & cs & ? & Hr)]]; exists xs; [left|right].
  - exists r. split; [done|]. intros h. by rewrite <- Hfg.
  - exists k, cont, cs. split; [done|]. intros h. by rewrite <- Hfg.
Qed.

Lemma settled_emit s t xs s' f :
  settled (emit s t xs) t s' f -> settled s t s' (fun h => did xs (f h)).
Proof.
  intros [ys [(r & -> & Hr)|(k & cont & cs & Hs & Hr)]]; exists (xs ++ ys); [left|right].
  - exists r. split; [by rewrite <- emit_emit|]. intros h. by rewrite Hr.
  - exists k, cont, cs. split; [by rewrite <- emit_emit|]. intros h. by rewrite Hr, did_did.
Qed.

Lemma run_script_replay t c : forall s callers s' r,
  0 < entries s -> run_script s t c callers = (s', r) ->
  match r with
  | Some r => exists xs, s' = emit s t xs /\ forall h, replay c h = (xs, Ends r h)
  | None => settled s t s' (fun h => replay_frames (replay c h) callers)
  end.
Proof.
  induction c as [x|k cont IH|child IHc cont IH|x next IH]; intros s callers s' r He Hr; cbn in Hr.
  - injection Hr as <- <-. exists []. by rewrite emit_nil.
  - unfold await_suspend in Hr. set (s1 := set_next _ _) in Hr.
    destruct (submit_op_room s1 (next_id s) k He) as (l & q & Hs & Hk). rewrite Hs in Hr.
    injection Hr as <- <-. exists []. right. exists k, cont, callers. rewrite emit_nil.
    split; [exists l, q; by split|]. intros h. by rewrite did_nil.
  - destruct (run_script s t child _) as [s1 r1] eqn:E. apply IHc in E; [|done].
    destruct r1 as [r1|].
    2: { injection Hr as <- <-. eapply settled_ext; [|exact E]. done. }
    destruct E as (xs & -> & E).
    destruct (task_await_resume r1) as [v|e| |] eqn:Ea.
    3: { injection Hr as <- <-. exists xs. split; [done|]. intros h. cbn. rewrite E. unfold and_then. cbn. by rewrite Ea. }
    all: apply (IH _ (emit s t xs) callers) in Hr; [|done]; destruct r as [r|];
      [destruct Hr as (ys & -> & Hr); exists (xs ++ ys); split; [apply emit_emit|]; intros h; cbn; rewrite E;
         unfold and_then; cbn; rewrite Ea, Hr; done|];
      apply settled_emit in Hr; eapply settled_ext; [|exact Hr]; intros h; cbn; rewrite E;
      unfold and_then; cbn; by rewrite Ea, replay_frames_did.
  - apply (IH (emit s t [x])) in Hr; [|done]. destruct r as [r|].
    + destruct Hr as (ys & -> & Hr). exists ([x] ++ ys). split; [apply emit_emit|]. intros h. cbn. by rewrite Hr.
    + apply settled_emit in Hr. eapply settled_ext; [|exact Hr]. intros h. cbn [replay]. by rewrite replay_frames_did.
Qed.

Definition unwinds (t : nat) (callers : list (outcome V -> script V C)) : Prop :=
  forall s r, 0 < entries s ->
    settled s t (unwind s t r callers) (fun h => replay_frames ([], Ends r h) callers).

Lemma continue_settles s t c callers :
  unwinds t callers -> 0 < entries s ->
  settled s t (continue_task s t c callers) (fun h => replay_frames (replay c h) callers).
Proof.
  intros Hu He. unfold continue_task.
  destruct (run_script s t c callers) as [s1 [r|]] eqn:E; apply run_script_replay in E; [|done..].
  destruct E as (xs & -> & E). eapply settled_ext; [|apply settled_emit, (Hu (emit s t xs) r He)].
  intros h. rewrite E, <- replay_frames_did. unfold did. cbn. by rewrite app_nil_r.
Qed.

Lemma unwind_replay t callers : unwinds t callers.
Proof.
  induction callers as [|k cs IH]; intros s r He; cbn [replay_frames].
  - exists []. left. exists r. by rewrite emit_nil.
  - cbn [unwind]. unfold and_then. cbn [snd fst]. destruct (task_await_resume r) as [v|e| |] eqn:Ea.
    3: { exists []. left. exists UB. rewrite emit_nil. split; [done|]. intros h. apply replay_frames_UB. }
    all: eapply settled_ext; [|by apply (continue_settles s t (k _) cs IH He)];
      intros h; by rewrite did_nil.
Qed.

Lemma continue_task_settles s t c callers :
  0 < entries s ->
  settled s t (continue_task s t c callers) (fun h => replay_frames (replay c h) callers).
Proof. apply continue_settles, unwind_replay. Qed.

(** ** The bodies that are started *)

Lemma drain_posts_posts s : posts (drain_posts s) = [].
Proof.
  unfold drain_posts. assert (H : posts (set_posts s []) = []) by done.
  revert H. generalize (set_posts s []). generalize (posts s) as l.
  intros l; induction l as [|body l IH]; intros s1 H; [done|]. by apply IH.
Qed.

Lemma take_cqe_posts s (x : cqe) s' : take_cqe s x = Ret s' -> posts s' = posts s.
Proof.
  destruct x as [[[i res] fl] data]. unfold take_cqe, handle_cqe.
  destruct (inflight s !! i); [|by intros [= <-]]. cbn. destruct (ops s !! _); [|done].
  intros [= <-]. unfold complete. by case_if.
Qed.

Lemma started_bodies_app (tr1 tr2 : list (event V C)) : started_bodies (tr1 ++ tr2) = started_bodies tr1 ++ started_bodies tr2.
Proof. apply omap_app. Qed.

Lemma started_by_bodies s : started_bodies (started_by s) = posts s.
Proof.
  unfold started_by. generalize (next_id s) as n. generalize (posts s) as l.
  intros l; induction l as [|b l IH]; intros n; [done|]. rewrite imap_cons. cbn. f_equal.
  rewrite <- (IH (S n)) at 2. unfold started_bodies. f_equal. apply imap_ext.
  intros. cbn. f_equal. lia.
Qed.

Lemma cqes_trace_bodies l : forall s, started_bodies (cqes_trace s l) = [].
Proof.
  induction l as [|x l IH]; intros s; [done|]. cbn [cqes_trace]. rewrite started_bodies_app.
  apply app_nil. split.
  - destruct x as [[[i res] fl] data]. unfold cqe_event. by repeat case_match.
  - unfold after. destruct (take_cqe s x); [apply IH|done..].
Qed.

Lemma resume_ready_posts s item s' : resume_ready s item = Ret s' -> posts s' = posts s.
Proof.
  unfold resume_ready. intros Hr. inv_bind Hr. injection Hr as <-.
  assert (posts a = posts s) as <-; [|by case_if]. revert Ha. unfold resume.
  destruct (tasks s !! handle item) as [[c|op cont cs|r]|]; [|destruct (ops s !! op); [|done]|done..];
    intros <-%checked_ret; by rewrite (ran_posts _ _ _ (continue_task_ran _ _ _ _)).
Qed.

Lemma run_round_posts s l s' : run_round s l = Ret s' -> posts s' = [].
Proof.
  unfold run_round. intros Hr. inv_bind Hr. assert (Hp : posts a = []).
  { eapply (foldl_outcome_inv resume_ready (fun s1 _ => posts s1 = [])); [| |exact Ha].
    - intros s1 item k s2 Hp Hres. by rewrite (resume_ready_posts _ _ _ Hres).
    - apply drain_posts_posts. }
  eapply (foldl_outcome_inv take_cqe (fun s1 _ => posts s1 = [])); [| |exact Hr]; [|done].
  intros s1 x k s2 Hp1 Ht. by rewrite (take_cqe_posts _ _ _ Ht).
Qed.

Lemma resume_ready_effects s item s' : resume_ready s item = Ret s' -> effects s `prefix_of` effects s'.
Proof.
  unfold resume_ready. intros Hr. inv_bind Hr. injection Hr as <-.
  assert (effects s `prefix_of` effects a); [|by case_if]. revert Ha. unfold resume.
  destruct (tasks s !! handle item) as [[c|op cont cs|r]|]; [|destruct (ops s !! op); [|done]|done..];
    intros <-%checked_ret; exact (ran_effects _ _ _ (continue_task_ran _ _ _ _)).
Qed.

Lemma run_round_effects s l s' : run_round s l = Ret s' -> effects s `prefix_of` effects s'.
Proof.
  unfold run_round. intros Hr. inv_bind Hr. assert (Hp : effects s `prefix_of` effects a).
  { eapply (foldl_outcome_inv resume_ready (fun s1 _ => effects s `prefix_of` effects s1)); [| |exact Ha].
    - intros s1 item k s2 Hp Hres. etrans; [exact Hp|by eapply resume_ready_effects].
    - unfold drain_posts. cbn. change (effects s) with (effects (set_posts s [])) at 1.
      generalize (set_posts s []). induction (posts s) as [|b l' IH]; intros s1; [done|].
      exact (IH (start_task s1 b)). }
  eapply (foldl_outcome_inv take_cqe (fun s1 _ => effects s `prefix_of` effects s1)); [| |exact Hr]; [|done].
  intros s1 [[[i res] fl] data] k s2 Hp1. unfold take_cqe, handle_cqe.
  destruct (inflight s1 !! i); [|by intros [= <-]]. cbn. destruct (ops s1 !! _); [|done].
  intros [= <-]. unfold complete. by case_if.
Qed.

Lemma foldl_post s bodies : foldl post s bodies = set_posts s (posts s ++ bodies).
Proof.
  revert s; induction bodies as [|b l IH]; intros s; cbn.
  - rewrite app_nil_r. by destruct s.
  - rewrite IH. cbn. by rewrite <- app_assoc.
Qed.

Lemma round_trace_bodies s l : started_bodies (round_trace s l) = posts s.
Proof.
  unfold round_trace. rewrite started_bodies_app, started_by_bodies.
  assert (started_bodies (after (drain_ready (drain_posts s)) (fun s' => cqes_trace (ring_submit s') l)) = [])
    as ->; [|apply app_nil_r]. unfold after. case_match; [apply cqes_trace_bodies|done..].
Qed.

(** Coroutines are started in the order in which they were posted, all of them
    if the scheduler gets to the end. *)
Lemma serve_trace_bodies rounds : forall s, posts s = [] ->
  started_bodies (serve_trace s rounds) `prefix_of` concat rounds.*1 /\
  (returns (serve s rounds) -> started_bodies (serve_trace s rounds) = concat rounds.*1).
Proof.
  induction rounds as [|[bodies l] rounds IH]; intros s Hp; cbn [serve serve_trace fmap list_fmap concat fst].
  - by rewrite started_by_bodies, Hp.
  - rewrite started_bodies_app, round_trace_bodies.
    assert (posts (foldl post s bodies) = bodies) as -> by (by rewrite foldl_post, Hp).
    destruct (run_round (foldl post s bodies) l) as [s2|e| |] eqn:E; cbn [after mbind outcome_bind].
    + destruct (IH s2 (run_round_posts _ _ _ E)) as [H1 H2]. split; [by apply prefix_app|].
      intros Hr. by rewrite H2.
    + split; [cbn; rewrite app_nil_r; by apply prefix_app_r|]. by intros [? ?].
    + split; [cbn; rewrite app_nil_r; by apply prefix_app_r|]. by intros [? ?].
    + split; [cbn; rewrite app_nil_r; by apply prefix_app_r|]. by intros [? ?].
Qed.
End replay_lemmas.

(** ** Tasks that are where their bodies put them

    [live] says which entries the kernel may complete: each operation has
    exactly one of them. *)

Section agreement.
Context {V C : Type} (live : sqe_code -> bool).
Implicit Types (s : scheduler V C) (c : script V C) (h : list reply) (tr : list (event V C)).

Definition live_kind (k : op_kind) : Prop := filter (fun code => live code = true) (codes_of k) = [entry_of k].

(** A body that reads no destroyed frame and waits for operations of one live
    entry only. *)
Definition fine (p : progress V) : Prop :=
  match p with
  | Waits k => live_kind k
  | Ends UB _ => False
  | _ => True
  end.

Definition behaves (c : script V C) h : Prop := forall h', h' `prefix_of` h -> fine (replay c h').2.

Definition trace_live tr : Prop :=
  Forall (fun ev => match event_code ev with Some code => live code = true | None => True end) tr.

Definition trace_behaves tr : Prop :=
  forall t body, Started t body ∈ tr -> behaves body (heard t tr).

Definition trace_ok tr : Prop := trace_live tr /\ trace_behaves tr.

Lemma heard_app t tr1 tr2 : heard t (tr1 ++ tr2) = heard t tr1 ++ heard t tr2.
Proof. apply omap_app. Qed.

Lemma trace_ok_prefix tr1 tr2 : trace_ok (tr1 ++ tr2) -> trace_ok tr1.
Proof.
  intros [Hl Hb]. split; [by apply Forall_app in Hl as [? _]|].
  intros t body Hin h Hh. apply (Hb t body); [apply elem_of_app; by left|].
  rewrite heard_app. by apply prefix_app_r.
Qed.

(** How task [tk] goes on with the completions it is resumed with. *)
Definition task_replay s (tk : task V C) h : played V C :=
  match tk with
  | TaskNew c => replay c h
  | TaskWaiting op cont callers =>
      match ops s !! op with
      | Some o => replay_frames (replay (AwaitOp (kind o) cont) h) callers
      | None => ([], Mismatch)
      end
  | TaskDone r => ([], Ends r h)
  end.

(** The completion that was delivered to [tk] since it was last resumed. *)
Definition unheard s (tk : task V C) : list reply :=
  match tk with
  | TaskWaiting op _ _ =>
      match ops s !! op with
      | Some o => if completed o then [(entry_of (kind o), result o, buffer o)] else []
      | None => []
      end
  | _ => []
  end.

Definition told s (t : nat) (body : script V C) h : Prop :=
  match tasks s !! t with
  | Some tk => exists h0, h = h0 ++ unheard s tk /\ 
      forall h', replay body (h0 ++ h') = did (performed t s) (task_replay s tk h')
  | None => exists r, forall h', replay body (h ++ h') = (performed t s, Ends r h')
  end.

Definition live_keys s : list (sqe_code * nat) := filter (fun p => live p.1 = true) (keys s).

(** [l] are the items still to be resumed, [tr] what happened so far. *)
Record Agree s (l : list ReadyItem) tr : Prop := mkAgree {
  ag_entries : 0 < entries s;
  ag_fresh : forall t, is_Some (tasks s !! t) -> (t < next_id s)%nat;
  ag_fresh_ops : forall o, is_Some (ops s !! o) -> (o < next_id s)%nat;
  ag_nodup : NoDup (handle <$> l);
  ag_item : forall t d, mkReady t d ∈ l -> is_Some (tasks s !! t);
  ag_new : forall t c, tasks s !! t = Some (TaskNew c) -> mkReady t true ∈ l;
  ag_waiting : forall t op cont callers, tasks s !! t = Some (TaskWaiting op cont callers) ->
    exists o, ops s !! op = Some o /\ continuation o = t /\
      if completed o then mkReady t false ∈ l else t ∉ handle <$> l;
  ag_done : forall t r, tasks s !! t = Some (TaskDone r) -> t ∉ handle <$> l;
  ag_ring : forall code op, (code, op) ∈ live_keys s -> exists o cont callers,
    ops s !! op = Some o /\ completed o = false /\ code = entry_of (kind o) /\
    tasks s !! continuation o = Some (TaskWaiting op cont callers);
  ag_ring_nodup : NoDup (live_keys s).*2;
  ag_told : forall t body, Started t body ∈ tr -> (t < next_id s)%nat /\ told s t body (heard t tr);
  ag_known : forall t, is_Some (tasks s !! t) -> exists body, Started t body ∈ tr;
  ag_heard : forall t r, Delivered t r ∈ tr -> (t < next_id s)%nat;
  ag_ids : NoDup (started_ids tr);
  ag_effects : forall t x, (t, x) ∈ effects s -> exists body, Started t body ∈ tr
}.

Lemma started_ids_app tr1 tr2 : started_ids (tr1 ++ tr2) = started_ids tr1 ++ started_ids tr2.
Proof. apply omap_app. Qed.

Lemma started_ids_elem t tr : t ∈ started_ids tr -> exists body, Started t body ∈ tr.
Proof.
  intros (ev & Hin & Hev)%list_elem_of_omap. destruct ev; try done. injection Hev as ->. by eexists.
Qed.

Lemma started_Forall2 (P : nat -> script V C -> Prop) tr :
  (forall t body, Started t body ∈ tr -> P t body) -> Forall2 P (started_ids tr) (started_bodies tr).
Proof.
  induction tr as [|ev tr IH]; intros HP; [constructor|].
  assert (IH' := IH (fun t body Hin => HP t body (list_elem_of_further _ _ _ Hin))).
  destruct ev; try exact IH'. constructor; [apply HP; by left|exact IH'].
Qed.

(** Another ring or ready queue, with the same tasks and operations. *)
Lemma told_ext s s' t body h :
  tasks s' = tasks s -> ops s' = ops s -> effects s' = effects s -> told s t body h -> told s' t body h.
Proof. unfold told, task_replay, unheard, performed. by intros -> -> ->. Qed.

Lemma heard_fresh s l tr t : Agree s l tr -> (next_id s <= t)%nat -> heard t tr = [].
Proof.
  intros Ha Ht. destruct (heard t tr) as [|r h] eqn:E; [done|exfalso].
  assert (Hin : r ∈ heard t tr) by (rewrite E; by left).
  apply list_elem_of_omap in Hin as (ev & Hin & Hev). destruct ev; try done.
  case_decide; [|done]. subst. pose proof (ag_heard _ _ _ Ha _ _ Hin). lia.
Qed.

Lemma performed_fresh s l tr t : Agree s l tr -> (next_id s <= t)%nat -> performed t s = [].
Proof.
  intros Ha Ht. destruct (performed t s) as [|x xs] eqn:E; [done|exfalso].
  assert (Hin : x ∈ performed t s) by (rewrite E; by left).
  apply list_elem_of_omap in Hin as ([t' y] & Hin & Hx). cbn in Hx. case_decide; [|done]. subst.
  destruct (ag_effects _ _ _ Ha _ _ Hin) as [b Hb]. destruct (ag_told _ _ _ Ha _ _ Hb). lia.
Qed.

(** An item of a task: it has not started, or its operation is completed. *)
Lemma agree_head s t d l tr :
  Agree s (mkReady t d :: l) tr ->
  (exists c, tasks s !! t = Some (TaskNew c) /\ d = true) \/
  (exists op cont callers o, tasks s !! t = Some (TaskWaiting op cont callers) /\ d = false /\
     ops s !! op = Some o /\ continuation o = t /\ completed o = true).
Proof.
  intros Ha. destruct (ag_item _ _ _ Ha t d) as [tk Htk]; [by left|].
  pose proof (ag_nodup _ _ _ Ha) as Hn. cbn in Hn. apply NoDup_cons in Hn as [Hn _].
  assert (Hd : forall d', mkReady t d' ∈ mkReady t d :: l -> d = d').
  { intros d' [[= ->]|Hin]%elem_of_cons; [done|]. exfalso. apply Hn.
    apply list_elem_of_fmap. by exists (mkReady t d'). }
  destruct tk as [c|op cont cs|r].
  - left. exists c. split; [done|]. by apply Hd, (ag_new _ _ _ Ha t c).
  - right. destruct (ag_waiting _ _ _ Ha _ _ _ _ Htk) as (o & Ho & Hc & Hi).
    destruct (completed o) eqn:Eo; [|exfalso; apply Hi; by left].
    exists op, cont, cs, o. split_and!; try done. by apply Hd.
  - exfalso. apply (ag_done _ _ _ Ha _ _ Htk). by left.
Qed.

(** The entries in the ring are of other tasks. *)
Lemma agree_ring_other s t d l tr code op :
  Agree s (mkReady t d :: l) tr -> (code, op) ∈ live_keys s -> exists o cont callers,
    ops s !! op = Some o /\ completed o = false /\ code = entry_of (kind o) /\
    tasks s !! continuation o = Some (TaskWaiting op cont callers) /\ continuation o <> t.
Proof.
  intros Ha Hin. destruct (ag_ring _ _ _ Ha _ _ Hin) as (o & cont & cs & Ho & Hc & Hk & Ht).
  exists o, cont, cs. split_and!; try done. intros <-.
  destruct (ag_waiting _ _ _ Ha _ _ _ _ Ht) as (o' & Ho' & _ & Hi). simplify_eq.
  rewrite Hc in Hi. apply Hi. by left.
Qed.

Lemma performed_other s s' t t' xs :
  t' <> t -> effects s' = effects s ++ ((fun x => (t, x)) <$> xs) -> performed t' s' = performed t' s.
Proof.
  intros Hne Hs'. unfold performed. rewrite Hs', omap_app. rewrite <- (app_nil_r (omap _ (effects s))) at 2.
  f_equal. clear Hs'. induction xs as [|x xs IH]; [done|]. cbn. rewrite decide_False by done. exact IH.
Qed.

Lemma performed_emit s t xs : performed t (emit s t xs) = performed t s ++ xs.
Proof.
  unfold performed, emit. cbn. rewrite omap_app. f_equal.
  induction xs as [|x xs IH]; [done|]. cbn. rewrite decide_True by done. cbn. by rewrite IH.
Qed.

(** What [t] is after it was resumed as [s']. *)
Definition own s (t : nat) (s' : scheduler V C) : Prop :=
  match tasks s' !! t with
  | Some (TaskNew _) => False
  | Some (TaskWaiting op _ _) => exists k,
      op = next_id s /\ ops s' !! op = Some (mkOperation t k false 0 0 []) /\
      live_keys s' ≡ₚ (entry_of k, op) :: live_keys s
  | _ => live_keys s' ≡ₚ live_keys s
  end.

Lemma agree_update s t d l tr s' :
  Agree s (mkReady t d :: l) tr ->
  entries s' = entries s -> (next_id s <= next_id s')%nat ->
  (forall o, is_Some (ops s' !! o) -> (o < next_id s')%nat) ->
  (forall t', t' <> t -> tasks s' !! t' = tasks s !! t') ->
  (forall op o, ops s !! op = Some o -> continuation o <> t -> ops s' !! op = Some o) ->
  (exists xs, effects s' = effects s ++ ((fun x => (t, x)) <$> xs)) ->
  own s t s' -> (forall body, Started t body ∈ tr -> told s' t body (heard t tr)) ->
  Agree s' l tr.
Proof.
  intros Ha He Hnx Hfo Ht Ho [xs Hxs] Hown Htold.
  pose proof (ag_nodup _ _ _ Ha) as Hn. cbn in Hn. apply NoDup_cons in Hn as [Hn Hnd].
  assert (Hsome : is_Some (tasks s !! t)) by (eapply (ag_item _ _ _ Ha t d); by left).
  assert (Htn : (t < next_id s')%nat) by (pose proof (ag_fresh _ _ _ Ha _ Hsome); lia).
  assert (Hne : forall t' d', mkReady t' d' ∈ l -> t' <> t).
  { intros t' d' Hin ->. apply Hn. apply list_elem_of_fmap. by exists (mkReady t d'). }
  assert (Hne' : forall t', t' ∈ handle <$> l -> t' <> t) by (intros t' Hin ->; by apply Hn).
  assert (Hold : forall code op, (code, op) ∈ live_keys s -> exists o cont callers,
    ops s' !! op = Some o /\ completed o = false /\ code = entry_of (kind o) /\
    tasks s' !! continuation o = Some (TaskWaiting op cont callers)).
  { intros code op Hin. destruct (agree_ring_other _ _ _ _ _ _ _ Ha Hin) as (o & cont & cs & ? & ? & ? & ? & ?).
    exists o, cont, cs. split_and!; try done; [by apply Ho|by rewrite Ht]. }
  assert (Hfn : forall p, p ∈ (live_keys s).*2 -> p <> next_id s).
  { intros p ([code op] & -> & Hin)%list_elem_of_fmap. cbn.
    destruct (ag_ring _ _ _ Ha _ _ Hin) as (o & _ & _ & Hop & _).
    pose proof (ag_fresh_ops _ _ _ Ha _ (ex_intro _ _ Hop)). lia. }
  constructor; [by rewrite He; apply Ha| |done|done|..].
  - intros t' Hs. destruct (decide (t' = t)) as [->|Hx]; [done|].
    rewrite Ht in Hs by done. pose proof (ag_fresh _ _ _ Ha _ Hs). lia.
  - intros t' d' Hin. rewrite Ht by (by eapply Hne). eapply (ag_item _ _ _ Ha). by right.
  - intros t' c Hc. destruct (decide (t' = t)) as [->|Hx]; [unfold own in Hown; by rewrite Hc in Hown|].
    rewrite Ht in Hc by done. by pose proof (ag_new _ _ _ Ha _ _ Hc) as [[= -> ->]|?]%elem_of_cons.
  - intros t' op cont cs Hw. destruct (decide (t' = t)) as [->|Hx].
    + unfold own in Hown. rewrite Hw in Hown. destruct Hown as (k & -> & Hop & _).
      eexists. split; [done|]. by split.
    + rewrite Ht in Hw by done. destruct (ag_waiting _ _ _ Ha _ _ _ _ Hw) as (o & Hop & Hc & Hi).
      exists o. split; [apply Ho; [done|congruence]|]. split; [done|]. destruct (completed o).
      * by apply elem_of_cons in Hi as [[= -> ->]|?].
      * intros Hin. apply Hi. cbn. by right.
  - intros t' r Hd Hin. pose proof (Hne' _ Hin). rewrite Ht in Hd by done.
    apply (ag_done _ _ _ Ha _ _ Hd). cbn. by right.
  - intros code op Hin. unfold own in Hown. destruct (tasks s' !! t) as [[c|op1 cont cs|r]|] eqn:E;
      [done| |rewrite Hown in Hin; by apply Hold..].
    destruct Hown as (k & -> & Hop & Hp). rewrite Hp in Hin.
    apply elem_of_cons in Hin as [[= -> ->]|Hin]; [|by apply Hold]. by eexists _, cont, cs.
  - unfold own in Hown. pose proof (ag_ring_nodup _ _ _ Ha) as Hr.
    destruct (tasks s' !! t) as [[c|op1 cont cs|r]|] eqn:E; [done| |by rewrite Hown..].
    destruct Hown as (k & -> & _ & Hp). rewrite Hp. cbn. apply NoDup_cons. split; [|done].
    intros Hin. by apply Hfn in Hin.
  - intros t' body Hin. destruct (ag_told _ _ _ Ha _ _ Hin) as [Hlt Hto]. split; [lia|].
    destruct (decide (t' = t)) as [->|Hx]; [by apply Htold|].
    unfold told in *. rewrite (performed_other _ _ _ _ _ Hx Hxs), Ht by done.
    destruct (tasks s !! t') as [tk|] eqn:E; [|done].
    assert (task_replay s' tk = task_replay s tk /\ unheard s' tk = unheard s tk) as [-> ->]; [|done].
    destruct tk as [c|op cont cs|r]; try done.
    destruct (ag_waiting _ _ _ Ha _ _ _ _ E) as (o & Hop & Hc & _).
    unfold task_replay, unheard. by rewrite (Ho _ _ Hop), Hop by congruence.
  - intros t' Hs. destruct (decide (t' = t)) as [->|Hx]; [by apply (ag_known _ _ _ Ha)|].
    rewrite Ht in Hs by done. by apply (ag_known _ _ _ Ha).
  - intros t' r Hin. pose proof (ag_heard _ _ _ Ha _ _ Hin). lia.
  - apply (ag_ids _ _ _ Ha).
  - intros t' x. rewrite Hxs, elem_of_app. intros [Hin|(y & [= -> ->] & _)%list_elem_of_fmap]; [by apply (ag_effects _ _ _ Ha _ x)|].
    by apply (ag_known _ _ _ Ha).
Qed.

(** The operation that a resumed task awaited is destroyed, and its frames
    continue as the body of the task does alone. *)
Lemma agree_resume s t d l tr :
  Agree s (mkReady t d :: l) tr ->
  exists c callers, let s1 := set_ops s (resume_ops s t) in
    resume s t = checked (continue_task s1 t c callers) t /\
    forall body, Started t body ∈ tr ->
      forall h, replay body (heard t tr ++ h) = did (performed t s) (replay_frames (replay c h) callers).
Proof.
  intros Ha. destruct (agree_head _ _ _ _ _ Ha) as [(c & Ht & ->)|(op & cont & cs & o & Ht & -> & Ho & Hc & Hd)];
    unfold resume, resume_ops; rewrite Ht.
  - exists c, []. split; [by destruct s|]. intros body Hin h.
    destruct (ag_told _ _ _ Ha _ _ Hin) as [_ Hto]. unfold told in Hto. rewrite Ht in Hto.
    destruct Hto as (h0 & -> & Hr). cbn. by rewrite app_nil_r, Hr.
  - rewrite Ho. exists (cont (await_resume o)), cs. split; [done|]. intros body Hin h.
    destruct (ag_told _ _ _ Ha _ _ Hin) as [_ Hto]. unfold told in Hto. rewrite Ht in Hto.
    destruct Hto as (h0 & -> & Hr). unfold unheard, task_replay in *. rewrite Ho, Hd in *.
    rewrite <- app_assoc, Hr. cbn. by rewrite decide_True.
Qed.

Lemma resume_ops_other s t d l tr op o :
  Agree s (mkReady t d :: l) tr -> ops s !! op = Some o -> continuation o <> t ->
  resume_ops s t !! op = Some o.
Proof.
  intros Ha Ho Hne. unfold resume_ops. destruct (tasks s !! t) as [[c|op1 cont cs|r]|] eqn:E; try done.
  destruct (ag_waiting _ _ _ Ha _ _ _ _ E) as (o1 & Ho1 & Hc1 & _).
  rewrite lookup_delete_ne; [done|]. intros <-. congruence.
Qed.

Lemma live_filter k op : live_kind k ->
  filter (fun p : sqe_code * nat => live p.1 = true) ((fun code => (code, op)) <$> codes_of k) = [(entry_of k, op)].
Proof.
  unfold live_kind. intros Hk. transitivity ((fun code => (code, op)) <$> [entry_of k]); [|done].
  rewrite <- Hk. generalize (codes_of k) as l. intros l; induction l as [|x l IH]; [done|].
  cbn [fmap list_fmap]. rewrite !filter_cons. cbn. case_decide; cbn; by rewrite IH.
Qed.

(** A resumed task has not read a destroyed frame; it has ended or waits. *)
Lemma agree_own s t d l tr a f :
  let s1 := set_ops s (resume_ops s t) in
  Agree s (mkReady t d :: l) tr -> trace_behaves tr -> settled s1 t a f ->
  (forall body, Started t body ∈ tr -> forall h, replay body (heard t tr ++ h) = did (performed t s) (f h)) ->
  checked a t = Ret a /\ ready a = ready s /\ entries a = entries s /\ (next_id s <= next_id a)%nat /\
  (forall o, is_Some (ops a !! o) -> (o < next_id a)%nat) /\
  (forall t', t' <> t -> tasks a !! t' = tasks s !! t') /\
  (forall op o, ops s !! op = Some o -> continuation o <> t -> ops a !! op = Some o) /\
  (exists xs, effects a = effects s ++ ((fun x => (t, x)) <$> xs)) /\
  own s t a /\ (forall body, Started t body ∈ tr -> told a t body (heard t tr)) /\
  (task_done a t = true -> live_keys a = live_keys s /\
     exists r, forall body, Started t body ∈ tr ->
       forall h, replay body (heard t tr ++ h) = (performed t a, Ends r h)).
Proof.
  intros s1 Ha Hb Hset Hf.
  destruct (ag_known _ _ _ Ha t) as [body Hin]; [eapply (ag_item _ _ _ Ha t d); by left|].
  pose proof (Hb t body Hin (heard t tr) (reflexivity _)) as Hfine.
  rewrite <- (app_nil_r (heard t tr)), (Hf _ Hin) in Hfine.
  assert (Hops : forall op o, resume_ops s t !! op = Some o -> (op < next_id s)%nat).
  { intros op o Ho%resume_ops_sub. apply (ag_fresh_ops _ _ _ Ha). by eexists. }
  destruct Hset as [xs [(r & -> & Hr)|(k & cont & cs & (q1 & q2 & -> & Hk) & Hr)]]; rewrite Hr in Hfine;
    pose proof (performed_emit s t xs) as Hpe.
  - assert (Htold : forall body, Started t body ∈ tr ->
      forall h, replay body (heard t tr ++ h) = (performed t (emit s t xs), Ends r h))
      by (intros; by rewrite Hf, Hr, Hpe).
    split_and!; try done; cbn.
    + unfold checked, undefined_task. cbn. rewrite lookup_insert_eq. by destruct r.
    + intros o [o' Ho']. by eapply Hops.
    + intros t' Ht'. by rewrite lookup_insert_ne.
    + intros op o. by eapply resume_ops_other.
    + by exists xs.
    + unfold own. cbn. by rewrite lookup_insert_eq.
    + intros b Hb'. unfold told. cbn. rewrite lookup_insert_eq. exists (heard t tr). cbn.
      rewrite app_nil_r. split; [done|]. intros h. rewrite Htold by done. unfold did. cbn. by rewrite app_nil_r.
    + intros _. split; [done|]. by exists r.
  - cbn in Hfine. rewrite replay_frames_Waits in Hfine. cbn in Hfine.
    split_and!; try done; cbn.
    + unfold checked, undefined_task. cbn. by rewrite lookup_insert_eq.
    + lia.
    + intros o. destruct (decide (next_id s = o)) as [<-|]; [lia|]. rewrite lookup_insert_ne by done.
      intros [o' Ho']. apply Hops in Ho'. lia.
    + intros t' Ht'. by rewrite lookup_insert_ne.
    + intros op o Ho Hc. rewrite lookup_insert_ne; [by eapply resume_ops_other|].
      pose proof (ag_fresh_ops _ _ _ Ha _ (ex_intro _ _ Ho)). lia.
    + by exists xs.
    + unfold own. cbn. rewrite lookup_insert_eq. exists k. split; [done|].
      rewrite lookup_insert_eq. split; [done|]. unfold live_keys. rewrite Hk.
      rewrite filter_app, live_filter by done. done.
    + intros b Hb'. unfold told. cbn. rewrite lookup_insert_eq. exists (heard t tr).
      unfold unheard, task_replay. cbn. rewrite !lookup_insert_eq. cbn. rewrite app_nil_r.
      split; [done|]. intros h. rewrite (Hf _ Hb'), Hr, did_did. f_equal. by symmetry.
    + unfold task_done. cbn. by rewrite lookup_insert_eq.
Qed.

Lemma agree_resume_ready s item l tr :
  Agree s (item :: l) tr -> trace_behaves tr ->
  exists s', resume_ready s item = Ret s' /\ Agree s' l tr /\ ready s' = ready s.
Proof.
  destruct item as [t d]. intros Ha Hb.
  destruct (agree_resume _ _ _ _ _ Ha) as (c & cs & Hres & Hf). set (s1 := set_ops _ _) in *.
  pose proof (continue_task_settles s1 t c cs (ag_entries _ _ _ Ha)) as Hset.
  set (a := continue_task s1 t c cs) in *.
  destruct (agree_own _ _ _ _ _ _ _ Ha Hb Hset Hf) as (Hch & Hrd & He & Hnx & Hfo & Ht & Ho & Hef & Hown & Hto & Hdone).
  unfold resume_ready. cbn [handle destroy_after_resume]. rewrite Hres, Hch. cbn.
  eexists. split; [done|]. destruct (d && task_done a t) eqn:E.
  - apply andb_true_iff in E as [_ E]. destruct (Hdone E) as (Hlk & r & Hr). split; [|done].
    eapply agree_update; try exact Ha; cbn; try done.
    + intros t' Hne. rewrite lookup_delete_ne by done. by apply Ht.
    + unfold own. cbn. by rewrite lookup_delete_eq, <- Hlk.
    + intros body Hin. unfold told. cbn. rewrite lookup_delete_eq. exists r. by apply Hr.
  - split; [|done]. by eapply agree_update.
Qed.

Lemma agree_queues s s' l tr :
  entries s' = entries s -> tasks s' = tasks s -> ops s' = ops s -> next_id s' = next_id s ->
  effects s' = effects s -> keys s' ≡ₚ keys s -> Agree s l tr -> Agree s' l tr.
Proof.
  intros He Ht Ho Hn Hef Hk [H1 H2 H3 H4 H5 H6 H7 H8 H9 H10 H11 H12 H13 H14 H15].
  assert (Hlk : live_keys s' ≡ₚ live_keys s) by (unfold live_keys; by rewrite Hk).
  constructor; rewrite ?He, ?Ht, ?Ho, ?Hn, ?Hef; try done.
  - intros code op. rewrite Hlk. apply H9.
  - by rewrite Hlk.
  - intros t body Hin. destruct (H11 _ _ Hin). split; [done|]. by eapply told_ext.
Qed.

Lemma agree_drain_ready s tr :
  Agree s (ready s) tr -> trace_behaves tr ->
  exists s', drain_ready s = Ret s' /\ Agree s' [] tr /\ ready s' = [].
Proof.
  intros Ha Hb. unfold drain_ready.
  apply (foldl_outcome_returns resume_ready (fun s1 l => Agree s1 l tr /\ ready s1 = [])).
  - intros s1 item l [Ha1 Hr1]. destruct (agree_resume_ready _ _ _ _ Ha1 Hb) as (s2 & ? & ? & Hr2).
    exists s2. split; [done|]. split; [done|congruence].
  - split; [|done]. by apply (agree_queues s).
Qed.

Lemma elem_of_snoc {A} (x y : A) l : x ∈ l ++ [y] <-> x ∈ l \/ x = y.
Proof. by rewrite elem_of_app, list_elem_of_singleton. Qed.

Lemma agree_start_task s body tr :
  Agree s (ready s) tr ->
  Agree (start_task s body) (ready (start_task s body)) (tr ++ [Started (next_id s) body]).
Proof.
  intros Ha. pose proof Ha as [H1 H2 H3 H4 H5 H6 H7 H8 H9 H10 H11 H12 H13 H14 H15].
  assert (Hne : forall t, is_Some (tasks s !! t) -> next_id s <> t)
    by (intros t Ht <-; specialize (H2 _ Ht); lia).
  assert (Hold : forall t tk, tasks s !! t = Some tk -> tasks (start_task s body) !! t = Some tk).
  { intros t tk Ht. cbn. rewrite lookup_insert_ne; [done|]. apply Hne. by eexists. }
  assert (Hq : next_id s ∉ handle <$> ready s).
  { intros ([t d] & Heq & Hin)%list_elem_of_fmap. by apply H5, Hne in Hin. }
  assert (Hh : forall t, heard t (tr ++ [Started (next_id s) body]) = heard t tr)
    by (intros; by rewrite heard_app, app_nil_r).
  assert (Hinv : forall t tk, tasks (start_task s body) !! t = Some tk ->
    t = next_id s /\ tk = TaskNew body \/ t <> next_id s /\ tasks s !! t = Some tk).
  { intros t tk. cbn. destruct (decide (next_id s = t)) as [<-|].
    - rewrite lookup_insert_eq. intros [= <-]. by left.
    - rewrite lookup_insert_ne by done. by right. }
  constructor; cbn [start_task enqueue set_ready set_next set_tasks entries ready next_id ops]; try done.
  - intros t [tk [[-> _]|[_ Ht]]%Hinv]; [lia|]. specialize (H2 t ltac:(by eexists)). lia.
  - intros o Ho. specialize (H3 _ Ho). lia.
  - rewrite fmap_app. apply NoDup_app. split_and!; [done| |apply NoDup_singleton].
    by intros t Hin ->%list_elem_of_singleton.
  - intros t d [Hin|[= -> ->]]%elem_of_snoc.
    + destruct (H5 _ _ Hin) as [tk Htk]. exists tk. by apply Hold.
    + eexists. cbn. by rewrite lookup_insert_eq.
  - intros t c [[-> _]|[_ Ht]]%Hinv; apply elem_of_snoc; [by right|left; by eapply H6].
  - intros t op cont cs [[_ [=]]|[Hx Ht]]%Hinv. destruct (H7 _ _ _ _ Ht) as (o & Ho & Hc & Hi).
    exists o. split_and!; [done|done|]. rewrite fmap_app. destruct (completed o); [apply elem_of_snoc; by left|].
    intros [?|?]%elem_of_snoc; [done|by subst].
  - intros t r [[_ [=]]|[Hx Ht]]%Hinv. rewrite fmap_app. intros [Hin|Heq]%elem_of_snoc; [by eapply H8|done].
  - intros code op Hin. destruct (H9 _ _ Hin) as (o & cont & cs & ? & ? & ? & ?).
    exists o, cont, cs. split_and!; try done. by apply Hold.
  - intros t b [Hin|[= -> ->]]%elem_of_snoc; rewrite Hh.
    + destruct (H11 _ _ Hin) as [Hlt Hto]. split; [lia|]. unfold told in *. cbn.
      rewrite lookup_insert_ne by lia. done.
    + split; [lia|]. unfold told. cbn. rewrite lookup_insert_eq. rewrite (heard_fresh _ _ _ _ Ha) by lia.
      exists []. split; [done|]. intros h.
      pose proof (performed_fresh s _ tr (next_id s) Ha ltac:(lia)) as Hpf. unfold performed in Hpf.
      rewrite Hpf. by rewrite did_nil.
  - intros t [tk [[-> _]|[_ Ht]]%Hinv].
    + exists body. apply elem_of_snoc. by right.
    + destruct (H12 t ltac:(by eexists)) as [b Hb]. exists b. apply elem_of_snoc. by left.
  - intros t r [Hin|[=]]%elem_of_snoc. specialize (H13 _ _ Hin). lia.
  - rewrite started_ids_app. apply NoDup_app. split_and!; [done| |apply NoDup_singleton].
    intros t (b & Hin)%started_ids_elem ->%list_elem_of_singleton. destruct (H11 _ _ Hin). lia.
  - intros t x Hin. destruct (H15 _ _ Hin) as [b Hb]. exists b. apply elem_of_snoc. by left.
Qed.

Lemma agree_drain_posts s tr :
  Agree s (ready s) tr ->
  Agree (drain_posts s) (ready (drain_posts s)) (tr ++ started_by s).
Proof.
  unfold drain_posts, started_by. intros Ha.
  assert (H0 : Agree (set_posts s []) (ready (set_posts s [])) tr) by (by apply (agree_queues s)).
  change (next_id s) with (next_id (set_posts s [])).
  revert H0. clear Ha. revert tr. generalize (set_posts s []). generalize (posts s) as l.
  intros l; induction l as [|body l IH]; intros s1 tr H0.
  - cbn. by rewrite app_nil_r.
  - rewrite imap_cons. cbn [foldl]. rewrite cons_middle, app_assoc, Nat.add_0_r.
    apply agree_start_task with (body := body) in H0 as H1.
    replace (imap _ l) with (imap (fun i b => Started (next_id (start_task s1 body) + i) b) l)
      by (apply imap_ext; intros; cbn; f_equal; lia).
    by apply IH.
Qed.

Lemma keys_take s i e :
  inflight s !! i = Some e ->
  keys s ≡ₚ (sq_code e, sq_data e) :: keys (set_ring s (sqes s) (delete i (inflight s))).
Proof.
  intros Hi. unfold keys. cbn [sqes inflight set_ring]. rewrite !fmap_app, Permutation_middle.
  apply Permutation_app_head. by rewrite (delete_Permutation _ _ _ Hi) at 1.
Qed.

(** The completion of a live entry is delivered. *)
Lemma agree_take_cqe s (x : cqe) tr :
  Agree s (ready s) tr -> trace_live (cqe_event s x) ->
  exists s', take_cqe s x = Ret s' /\ Agree s' (ready s') (tr ++ cqe_event s x).
Proof.
  destruct x as [[[i res] fl] data]. intros Ha Hlive. unfold trace_live, take_cqe, cqe_event in *.
  destruct (inflight s !! i) as [e|] eqn:Ei; [|exists s; split; [done|by rewrite app_nil_r]].
  set (s1 := set_ring _ _ _). pose proof (keys_take _ _ _ Ei) as Hk. fold s1 in Hk.
  assert (Hl : live (sq_code e) = true).
  { destruct (ops s !! sq_data e) as [o|]; [destruct (completed o)|];
      apply Forall_cons in Hlive as [Hx _]; exact Hx. }
  pose proof Ha as [H1 H2 H3 H4 H5 H6 H7 H8 H9 H10 H11 H12 H13 H14 H15].
  assert (Hlk : live_keys s ≡ₚ (sq_code e, sq_data e) :: live_keys s1)
    by (unfold live_keys; by rewrite Hk, filter_cons, decide_True).
  destruct (H9 (sq_code e) (sq_data e)) as (o & cont & cs & Ho & Hc & He & Ht); [rewrite Hlk; by left|].
  rewrite Hlk in H10. cbn in H10. apply NoDup_cons in H10 as [Hn10 H10].
  unfold handle_cqe. change (ops s1) with (ops s). rewrite Ho. eexists; split; [done|].
  unfold complete. rewrite Hc. set (t := continuation o) in *.
  assert (Htq : t ∉ handle <$> ready s).
  { destruct (H7 _ _ _ _ Ht) as (o' & Ho' & _ & Hi). simplify_eq. by rewrite Hc in Hi. }
  assert (Htn : (t < next_id s)%nat) by (apply H2; by eexists).
  constructor; cbn [enqueue set_ready set_ops set_ring entries ready next_id ops tasks s1]; try done.
  - intros o'. destruct (decide (sq_data e = o')) as [<-|]; [intros _; apply H3; by eexists|].
    rewrite lookup_insert_ne by done. apply H3.
  - rewrite fmap_app. apply NoDup_app. split_and!; [done| |apply NoDup_singleton].
    by intros t' Hin ->%list_elem_of_singleton.
  - intros t' d [Hin|[= -> ->]]%elem_of_snoc; [by eapply H5|by eexists].
  - intros t' c Hn. apply elem_of_snoc. left. by eapply H6.
  - intros t' op cont' cs' Hw. destruct (H7 _ _ _ _ Hw) as (o' & Ho' & Hc' & Hi).
    destruct (decide (sq_data e = op)) as [<-|Hne].
    + simplify_eq. eexists. rewrite lookup_insert_eq. split_and!; [done|done|]. cbn.
      apply elem_of_snoc. by right.
    + exists o'. rewrite lookup_insert_ne by done. split_and!; [done|done|].
      destruct (completed o'); [apply elem_of_snoc; by left|]. rewrite fmap_app.
      intros [?|Heq]%elem_of_snoc; [done|]. cbn in Heq. rewrite <- Hc', Heq in *. congruence.
  - intros t' r Hd. rewrite fmap_app. intros [Hin|Heq]%elem_of_snoc; [by eapply H8|]. cbn in Heq. congruence.
  - intros code op Hin. destruct (H9 code op) as (o' & cont' & cs' & Ho' & Hc' & He' & Ht').
    { rewrite Hlk. by right. }
    exists o', cont', cs'. rewrite lookup_insert_ne; [by split_and!|]. intros <-. apply Hn10.
    apply list_elem_of_fmap. by exists (code, sq_data e).
  - intros t' body [Hin|[=]]%elem_of_snoc. destruct (H11 _ _ Hin) as [Hlt Hto]. split; [done|].
    rewrite heard_app. cbn [heard omap list_omap].
    unfold told in *. change (tasks _ !! t') with (tasks s !! t').
    destruct (decide (t = t')) as [<-|Hne].
    + rewrite Ht in *. destruct Hto as (h0 & -> & Hr). unfold unheard, task_replay in *.
      cbn [ops set_ready set_ops enqueue]. rewrite lookup_insert_eq. rewrite Ho, Hc in *.
      exists h0. rewrite app_nil_r. split; [by rewrite He|exact Hr].
    + rewrite app_nil_r. destruct (tasks s !! t') as [tk|] eqn:Etk; [|done].
      assert (task_replay (enqueue (set_ops s1 (<[sq_data e:=mkOperation t (kind o) true res fl data]> (ops s))) t false) tk
        = task_replay s tk /\
        unheard (enqueue (set_ops s1 (<[sq_data e:=mkOperation t (kind o) true res fl data]> (ops s))) t false) tk
        = unheard s tk) as [-> ->]; [|done].
      destruct tk as [c|op cont' cs'|r]; try done.
      destruct (H7 _ _ _ _ Etk) as (o' & Ho' & Hc' & _). unfold task_replay, unheard.
      cbn [ops set_ready set_ops enqueue]. rewrite lookup_insert_ne; [done|]. intros <-.
      apply Hne. rewrite Ho in Ho'. injection Ho' as <-. exact Hc'.
  - intros t' Hs. destruct (H12 _ Hs) as [b Hb]. exists b. apply elem_of_snoc. by left.
  - intros t' r [Hin|[= -> ->]]%elem_of_snoc; [by eapply H13|done].
  - by rewrite started_ids_app, app_nil_r.
  - intros t' y Hin. destruct (H15 _ _ Hin) as [b Hb]. exists b. apply elem_of_snoc. by left.
Qed.

Lemma agree_cqes l : forall s tr,
  Agree s (ready s) tr -> trace_live (cqes_trace s l) ->
  exists s', handle_cqes s l = Ret s' /\ Agree s' (ready s') (tr ++ cqes_trace s l).
Proof.
  induction l as [|c l IH]; intros s tr Ha Hl.
  - exists s. cbn. by rewrite app_nil_r.
  - cbn [cqes_trace] in *. apply Forall_app in Hl as [Hc Hl].
    destruct (agree_take_cqe s c tr Ha Hc) as (s1 & Hs1 & Ha1). rewrite Hs1 in *. cbn [after] in *.
    destruct (IH _ _ Ha1 Hl) as (s2 & Hs2 & Ha2). exists s2. rewrite app_assoc. split; [|done].
    unfold handle_cqes in *. cbn. by rewrite Hs1.
Qed.

Lemma agree_run_round s l tr :
  Agree s (ready s) tr -> trace_ok (tr ++ round_trace s l) ->
  exists s', run_round s l = Ret s' /\ Agree s' (ready s') (tr ++ round_trace s l).
Proof.
  intros Ha Hok. unfold round_trace, run_round in *. rewrite app_assoc in *.
  apply agree_drain_posts in Ha. pose proof (trace_ok_prefix _ _ Hok) as [_ Hb].
  destruct (agree_drain_ready _ _ Ha Hb) as (s1 & Hs1 & Ha1 & Hr1). rewrite Hs1 in *. cbn [after mbind outcome_bind] in *.
  apply agree_cqes.
  - rewrite <- Hr1 in Ha1. apply (agree_queues s1); [done..|apply ring_submit_keys|done].
  - destruct Hok as [Hok _]. by apply Forall_app in Hok as [_ ?].
Qed.

Lemma agree_serve rounds : forall s tr,
  Agree s (ready s) tr -> trace_ok (tr ++ serve_trace s rounds) ->
  exists s', serve s rounds = Ret s' /\ Agree s' [] (tr ++ serve_trace s rounds).
Proof.
  induction rounds as [|[bodies l] rounds IH]; intros s tr Ha Hok; cbn [serve serve_trace] in *.
  - apply agree_drain_posts in Ha. destruct (agree_drain_ready _ _ Ha (proj2 Hok)) as (s' & ? & ? & _).
    by exists s'.
  - set (s1 := foldl post s bodies) in *. rewrite app_assoc in *.
    assert (Ha1 : Agree s1 (ready s1) tr) by (unfold s1; rewrite foldl_post; by apply (agree_queues s)).
    destruct (agree_run_round s1 l tr Ha1 (trace_ok_prefix _ _ Hok)) as (s2 & Hs2 & Ha2).
    rewrite Hs2 in *. cbn [after mbind outcome_bind] in *. by apply IH.
Qed.

Lemma agree_new n : let s : scheduler V C := new_scheduler n in 0 <= n -> Agree s (ready s) [].
Proof.
  intros s Hn. constructor; cbn; try done.
  - case_if; zbool; lia.
  - by intros ? [? ?].
  - by intros ? [? ?].
  - apply NoDup_nil_2.
  - intros t d H. by apply not_elem_of_nil in H.
  - intros code op H. by apply not_elem_of_nil in H.
  - apply NoDup_nil_2.
  - intros t b H. by apply not_elem_of_nil in H.
  - by intros ? [? ?].
  - intros t b H. by apply not_elem_of_nil in H.
  - apply NoDup_nil_2.
  - intros t x H. by apply not_elem_of_nil in H.
Qed.

Lemma serve_agrees n (rounds : list (list (script V C) * list cqe)) :
  let tr := serve_trace (new_scheduler n) rounds in
  0 <= n -> trace_ok tr ->
  exists s', serve (new_scheduler n) rounds = Ret s' /\ Agree s' [] tr /\ started_bodies tr = concat rounds.*1.
Proof.
  intros tr Hn Hok. destruct (agree_serve rounds _ _ (agree_new n Hn) Hok) as (s' & Hs & Ha).
  exists s'. split_and!; [done..|]. apply serve_trace_bodies; [done|by eexists].
Qed.

(** Where the tasks are that are not to be resumed. *)
Lemma agree_status s l tr t body :
  Agree s l tr -> Started t body ∈ tr -> t ∉ handle <$> l ->
  status_agrees s t (replay body (heard t tr)).
Proof.
  intros Ha Hin Hl. destruct (ag_told _ _ _ Ha _ _ Hin) as [_ Hto]. unfold told, status_agrees in *.
  destruct (tasks s !! t) as [tk|] eqn:E.
  2: { destruct Hto as [r Hr]. rewrite <- (app_nil_r (heard t tr)), Hr. split; [done|]. by exists r. }
  destruct Hto as (h0 & -> & Hr).
  assert (Hq : forall d, mkReady t d ∉ l) by (intros d Hd; apply Hl, list_elem_of_fmap; by exists (mkReady t d)).
  destruct tk as [c|op cont cs|r].
  - by apply (ag_new _ _ _ Ha), Hq in E.
  - destruct (ag_waiting _ _ _ Ha _ _ _ _ E) as (o & Ho & _ & Hc).
    unfold unheard. rewrite Ho. destruct (completed o); [by apply Hq in Hc|].
    rewrite Hr. unfold task_replay. rewrite Ho. cbn [replay]. rewrite replay_frames_Waits.
    cbn. rewrite app_nil_r. split; [done|]. by exists o.
  - cbn [unheard]. rewrite Hr. cbn. by rewrite app_nil_r.
Qed.

Lemma replay_nil c : match (replay c []).2 with Waits _ => True | Ends _ h => h = [] | Mismatch => False end.
Proof.
  induction c as [x|k cont IH|child IHc cont IH|x next IH]; try done.
  cbn. unfold and_then. destruct (replay child []) as [xs [k|r h|]]; cbn in *; [done| |done]. subst h.
  destruct (task_await_resume r); cbn; try done; apply IH.
Qed.

(** The calls of a task are the first calls of its body alone on a part of what
    it has heard. *)
Lemma agree_performed s l tr t body :
  Agree s l tr -> Started t body ∈ tr -> exists h,
    h `prefix_of` heard t tr /\ performed t s `prefix_of` (replay body h).1 /\ (replay body h).2 <> Mismatch.
Proof.
  intros Ha Hin. destruct (ag_told _ _ _ Ha _ _ Hin) as [_ Hto]. unfold told in Hto.
  destruct (tasks s !! t) as [tk|] eqn:E.
  - destruct Hto as (h0 & -> & Hr). exists h0. split; [by apply prefix_app_r|].
    rewrite <- (app_nil_r h0), Hr. split; [by apply prefix_app_r|]. cbn.
    destruct tk as [c|op cont cs|r]; [| |done].
    + cbn. pose proof (replay_nil c) as Hn. by destruct (replay c []).2.
    + destruct (ag_waiting _ _ _ Ha _ _ _ _ E) as (o & Ho & _). unfold task_replay. rewrite Ho.
      cbn [replay]. by rewrite replay_frames_Waits.
  - destruct Hto as [r Hr]. exists (heard t tr). split; [done|].
    by rewrite <- (app_nil_r (heard t tr)), Hr.
Qed.
End agreement.

(** ** Checking a trace *)

#[export] Instance live_kind_dec live k : Decision (live_kind live k).
Proof. unfold live_kind. apply _. Defined.

Definition fine_b {V} (live : sqe_code -> bool) (p : progress V) : bool :=
  match p with
  | Waits k => bool_decide (live_kind live k)
  | Ends UB _ => false
  | _ => true
  end.

Definition behaves_b {V C} (live : sqe_code -> bool) (c : script V C) (h : list reply) : bool :=
  forallb (fun n => fine_b live (replay c (take n h)).2) (seq 0 (S (length h))).

Definition trace_ok_b {V C} (live : sqe_code -> bool) (tr : list (event V C)) : bool :=
  forallb (fun ev => match event_code ev with Some code => live code | None => true end) tr &&
  forallb (fun ev => match ev with Started t body => behaves_b live body (heard t tr) | _ => true end) tr.

Lemma behaves_compute {V C} live (c : script V C) h : behaves_b live c h = true -> behaves live c h.
Proof.
  unfold behaves_b. rewrite forallb_forall. intros Hb h' [k ->].
  specialize (Hb (length h')). rewrite take_app_length in Hb.
  assert (Hf : fine_b live (replay c h').2 = true) by (apply Hb, in_seq; rewrite length_app; lia).
  destruct (replay c h').2 as [k'|[]|]; try done. by apply bool_decide_eq_true in Hf.
Qed.

Lemma trace_ok_compute {V C} live (tr : list (event V C)) : trace_ok_b live tr = true -> trace_ok live tr.
Proof.
  unfold trace_ok_b. rewrite andb_true_iff, !forallb_forall. intros [Hl Hb]. split.
  - apply Forall_forall. intros ev Hin. apply list_elem_of_In in Hin. specialize (Hl _ Hin).
    by destruct (event_code ev).
  - intros t body Hin. apply list_elem_of_In in Hin. apply behaves_compute. apply (Hb _ Hin).
Qed.

(** ** Tasks that await no timed operation and rethrow nothing *)

Section tame_tasks.
Context {V C : Type}.

(** The body never ends with an exception, if the tasks it awaits do not. *)
Fixpoint calm (c : script V C) : Prop :=
  match c with
  | End r => returns r
  | AwaitOp _ cont => forall r, calm (cont r)
  | AwaitTask _ cont => forall v, calm (cont (Ret v))
  | Perform _ next => calm next
  end.

(** No timed operation is awaited and no awaited task ends with an exception. *)
Fixpoint tame (c : script V C) : Prop :=
  match c with
  | End r => r <> UB
  | AwaitOp k cont => timed k = false /\ forall r, tame (cont r)
  | AwaitTask child cont => tame child /\ calm child /\ forall v, tame (cont (Ret v))
  | Perform _ next => tame next
  end.

Definition every_entry (_ : sqe_code) : bool := true.

Lemma untimed_live k : timed k = false -> live_kind every_entry k.
Proof. by destruct k as [|? ? ? []| | | | |]. Qed.

Lemma tame_fine (c : script V C) : tame c -> forall h,
  fine every_entry (replay c h).2 /\
  match (replay c h).2 with Ends r _ => calm c -> returns r | _ => True end.
Proof.
  induction c as [x|k cont IH|child IHc cont IH|x next IH]; intros Ht h; cbn in *.
  - split; [by destruct x|done].
  - destruct Ht as [Hk Ht]. destruct h as [|[[code res] data] h]; [split; [by apply untimed_live|done]|].
    case_decide; [|done]. destruct (IH (reply_value res data) (Ht _) h) as [Hf Hr]. split; [done|].
    destruct (replay _ h).2; try done. intros Hc. apply Hr, Hc.
  - destruct Ht as (Htc & Hcalm & Ht). destruct (IHc Htc h) as [Hf Hr]. unfold and_then.
    destruct (replay child h) as [xs [k|r h'|]]; cbn in *; [by split| |by split].
    destruct (Hr Hcalm) as [v ->]. cbn.
    destruct (IH (Ret v) (Ht v) h') as [Hf' Hr']. split; [done|].
    destruct (replay _ h').2; try done. intros Hc. apply Hr', Hc.
  - by apply IH.
Qed.
End tame_tasks.

(** * Properties *)

(** C2: every task runs as it does alone. Let other threads post any coroutines
    at any time, and the completions of all of them come in any order and
    grouping. If the kernel completes one entry of each operation only, and no
    body, given the completions it heard, reads a destroyed frame, then the
    scheduler uses nothing after its lifetime, starts every coroutine posted
    as a task of its own and has each of them exactly where its body on its own
    is after the completions it heard: waiting for the same operation, finished
    with the same result, or destroyed after its end, and it has made the same
    calls on other objects. *)
Theorem tasks_run_alone {V C} (live : sqe_code -> bool) n (rounds : list (list (script V C) * list cqe)) :
  let tr := serve_trace (new_scheduler n) rounds in
  0 <= n -> trace_ok live tr ->
  exists s', serve (new_scheduler n) rounds = Ret s' /\ NoDup (started_ids tr) /\
    Forall2 (fun t body => status_agrees s' t (replay body (heard t tr)))
      (started_ids tr) (concat rounds.*1).
Proof.
  intros tr Hn Hok. destruct (serve_agrees live n rounds Hn Hok) as (s' & Hs & Ha & Hb).
  exists s'. split_and!; [done|apply (ag_ids _ _ _ _ Ha)|].
  rewrite <- Hb. apply started_Forall2. intros t body Hin. apply (agree_status live s' [] tr); [done|done|by apply not_elem_of_nil].
Qed.

(** Entries other than the timeouts. *)
Definition not_timeout (code : sqe_code) : bool :=
  match code with SqTimeout _ _ => false | _ => true end.

(** A task that reads what is sent to it, with a timeout, and sends as much. *)
Definition echo : script unit Empty_set :=
  AwaitTask (AwaitOp (OpRecv 8 8192 0 (Some 30000000000)) (fun r =>
               match r with Ret (n, _) => AwaitOp (OpSend 8 n 0) (fun _ => Finish tt)
               | _ => Finish tt end))
            (fun _ => Finish tt).

(** The sender starts first; its second send is completed in the round in which
    the echo, posted later, is completed. *)
Definition two_tasks_rounds : list (list (script unit Empty_set) * list cqe) :=
  [([sender], []); ([echo], [(0%nat, 100, 0, [])]); ([], []);
   ([], [(0%nat, 3, 0, lit "abc"); (1%nat, 60, 0, [])]); ([], [])].

Lemma tasks_run_alone_witness :
  let tr := serve_trace (new_scheduler 4) two_tasks_rounds in
  exists s', serve (new_scheduler 4) two_tasks_rounds = Ret s' /\ NoDup (started_ids tr) /\
    Forall2 (fun t body => status_agrees s' t (replay body (heard t tr)))
      (started_ids tr) (concat two_tasks_rounds.*1).
Proof.
  apply (tasks_run_alone not_timeout 4 two_tasks_rounds); [lia|].
  apply trace_ok_compute. vm_compute. reflexivity.
Defined.

(** C24: memory safety of the scheduler without receive timeouts. For any tasks,
    posted at any time, that await no timed operation and no task that ends
    with an exception, any order and grouping of the completions and any
    results, no destroyed or finished coroutine is resumed, no destroyed
    operation is completed and no destroyed promise is read. *)
Theorem untimed_tasks_are_safe {V C} n (rounds : list (list (script V C) * list cqe)) :
  0 <= n -> Forall tame (concat rounds.*1) -> returns (serve (new_scheduler n) rounds).
Proof.
  intros Hn Hb. set (s0 := new_scheduler n).
  destruct (agree_serve every_entry rounds s0 [] (agree_new every_entry n Hn)) as (s' & -> & _); [|by eexists].
  split.
  - apply Forall_forall. intros ev _. by destruct (event_code ev).
  - intros t body Hin h _. apply tame_fine. eapply Forall_forall; [exact Hb|].
    destruct (serve_trace_bodies rounds s0 eq_refl) as [[k ->] _]. apply elem_of_app. left.
    apply list_elem_of_omap. by exists (Started t body).
Qed.

Lemma sender_tame : tame sender.
Proof. split_and!; [split; [done|intros [| | |]; cbn; auto]|intros [| | |]; cbn; auto; try by eexists|done]. Qed.

Lemma untimed_tasks_are_safe_witness :
  returns (serve (new_scheduler 1)
    [([sender; sender], []); ([], [(1%nat, 40, 0, []); (0%nat, -32, 0, [])]); ([sender], []);
     ([], [(0%nat, 60, 0, [])])]).
Proof.
  apply (untimed_tasks_are_safe 1); [lia|].
  repeat (apply Forall_cons; split; [apply sender_tame|]). by apply Forall_nil.
Defined.
