(* ===== verification/UringTime.v ===== *)
(** * UringTime: when the timeout entry of a receive may complete

    A receive with a timeout has two entries, the second of which is never
    expected by its coroutine (UringScheduler.cpp, [RecvAwaiter::submit]).  The
    kernel completes a timeout entry whose receive did not fail when its time has
    passed.  A run in which every timeout is longer than the run completes none
    of them: this file derives this from the time at which the events of a run
    happen and from the timeouts its coroutines ask for.  The time of an entry is
    the value [submit] gave its [__kernel_timespec]; that this local variable
    still has it when the kernel reads it is an assumption. *)

From S2P Require Export UringTasks.

(** ** Time *)

(** An event at time [t], in nanoseconds since the start: the time of a timeout
    entry that completes has passed. *)
Definition timely {V C} (t : Z) (ev : event V C) : bool :=
  match event_code ev with
  | Some (SqTimeout sec nsec) => sec * 1000000000 + nsec <=? t
  | _ => true
  end.

(** [clock] has the times of the events of [tr]. *)
Definition kernel_clock {V C} (clock : list Z) (tr : list (event V C)) : Prop :=
  Forall2 (fun t ev => timely t ev = true) clock tr.

(** ** What coroutines await *)

Section awaits.
Context {V C : Type} (P : op_kind -> Prop).
Implicit Types (s : scheduler V C) (c : script V C) (tr : list (event V C)).

(** Every operation that the body may await satisfies [P]. *)
Fixpoint awaits (c : script V C) : Prop :=
  match c with
  | End _ => True
  | AwaitOp k cont => P k /\ forall r, awaits (cont r)
  | AwaitTask child cont => awaits child /\ forall r, awaits (cont r)
  | Perform _ next => awaits next
  end.

Definition callers_await (callers : list (outcome V -> script V C)) : Prop :=
  Forall (fun k => forall r, awaits (k r)) callers.

Definition task_awaits (tk : task V C) : Prop :=
  match tk with
  | TaskNew c => awaits c
  | TaskWaiting _ cont callers => (forall r, awaits (cont r)) /\ callers_await callers
  | TaskDone _ => True
  end.

(** The entry is one of such an operation. *)
Definition of_awaited (code : sqe_code) : Prop := exists k, P k /\ code ∈ codes_of k.

(** * Lemmas *)

Record Awaiting s : Prop := mkAwaiting {
  aw_posts : Forall awaits (posts s);
  aw_tasks : map_Forall (fun _ => task_awaits) (tasks s);
  aw_ring : Forall (fun e => of_awaited (sq_code e)) (sqes s ++ inflight s)
}.

Definition event_awaited (ev : event V C) : Prop :=
  match event_code ev with Some code => of_awaited code | None => True end.

(** ** Submission *)

#[local] Abbreviation ring_ok s := (Forall (fun e => of_awaited (sq_code e)) (sqes s ++ inflight s)).

Lemma ring_submit_ok s : ring_ok s -> ring_ok (ring_submit s).
Proof. cbn. by rewrite !Forall_app; intros []. Qed.

Lemma get_sqe_ok s s' b : get_sqe s = (s', b) -> ring_ok s -> ring_ok s'.
Proof. unfold get_sqe. case_if; intros [= <- _]; [done|apply ring_submit_ok]. Qed.

Lemma fill_sqe_ok s e : of_awaited (sq_code e) -> ring_ok s -> ring_ok (fill_sqe s e).
Proof. cbn. rewrite !Forall_app. intros He [Hs Hi]. split; [split; [done|by constructor]|done]. Qed.

Lemma link_last_ok s : ring_ok s -> ring_ok (set_ring s (link_last (sqes s)) (inflight s)).
Proof.
  cbn. rewrite !Forall_app. intros [Hs Hi]. split; [|done]. unfold link_last.
  destruct (sqes s) as [|x l _] using rev_ind; [done|]. apply Forall_app in Hs as [Hl Hx].
  rewrite rev_app_distr. cbn. rewrite rev_involutive. apply Forall_app. split; [done|].
  apply Forall_cons in Hx as [Hx _]. by constructor.
Qed.

Lemma submit_one_ok s op code s' r :
  submit_one s op code = (s', r) -> of_awaited code -> ring_ok s -> ring_ok s'.
Proof.
  unfold submit_one. destruct (get_sqe s) as [s1 b] eqn:E. intros Hs Hc Hr.
  eapply get_sqe_ok in E; [|done]. case_if_in Hs; injection Hs as <- <-; [by apply fill_sqe_ok|done].
Qed.

Lemma submit_op_ok s op k s' r : submit_op s op k = (s', r) -> P k -> ring_ok s -> ring_ok s'.
Proof.
  intros Hs Hk. assert (Hone : forall code s1 r1, code ∈ codes_of k ->
    submit_one s op code = (s1, r1) -> ring_ok s -> ring_ok s1).
  { intros code s1 r1 Hc Hs1. apply (submit_one_ok _ _ _ _ _ Hs1). by exists k. }
  destruct k; cbn [submit_op] in Hs; try (eapply Hone; [|exact Hs]; by left).
  destruct (submit_one _ _ _) as [s1 r1] eqn:E1. intros Hr%(Hone _ _ _ (list_elem_of_here _ _) E1). clear E1 Hone.
  destruct r1 as [[]| | |]; try by injection Hs as <- <-. destruct timeout as [ns|]; [|by injection Hs as <- <-].
  destruct (get_sqe s1) as [s2 ok] eqn:E2. eapply get_sqe_ok in E2; [|done].
  destruct ok; injection Hs as <- <-; [|done].
  apply fill_sqe_ok; [eexists; split; [exact Hk|by right; left]|]. case_if; [by apply link_last_ok|done].
Qed.

(** ** Running tasks *)

Lemma awaiting_tasks s t tk :
  Awaiting s -> task_awaits tk -> Awaiting (set_tasks s (<[t := tk]> (tasks s))).
Proof. intros [] Ht. constructor; [done|by apply map_Forall_insert_2|done]. Qed.

Lemma await_suspend_awaiting s t k s' op r :
  await_suspend s t k = (s', op, r) -> P k -> Awaiting s -> Awaiting s'.
Proof.
  unfold await_suspend. destruct (submit_op _ _ _) as [s1 r1] eqn:E. intros [= <- <- <-] Hk [Hp Ht Hr].
  pose proof (submit_op_step _ _ _ _ _ E) as (a & (Heq & _) & _). eapply submit_op_ok in E; [|done|done].
  constructor; [by rewrite Heq|by rewrite Heq|done].
Qed.

Lemma run_script_awaiting t c : forall s callers s' r,
  run_script s t c callers = (s', r) -> awaits c -> callers_await callers -> Awaiting s -> Awaiting s'.
Proof.
  induction c as [x|k cont IH|child IHc cont IH|x next IH]; intros s callers s' r Hr Hc Hcs Ha; cbn in Hr, Hc.
  - by injection Hr as <- <-.
  - destruct Hc as [Hk Hc]. destruct (await_suspend s t k) as [[s1 op] r1] eqn:E.
    eapply await_suspend_awaiting in E; [|done|done].
    destruct r1 as [a|e| |]; try (injection Hr as <- <-; by apply awaiting_tasks).
    eapply IH; [exact Hr|apply Hc|done|]. by destruct E.
  - destruct Hc as [Hch Hc]. destruct (run_script s t child _) as [s1 r1] eqn:E.
    eapply IHc in E; [|done|by constructor|done].
    destruct r1 as [r1|]; [|by injection Hr as <- <-].
    destruct (task_await_resume r1); try (by injection Hr as <- <-); by eapply IH.
  - eapply IH; [exact Hr|done|done|]. by destruct Ha.
Qed.

Lemma unwind_awaiting t callers : forall s r,
  callers_await callers -> Awaiting s -> Awaiting (unwind s t r callers).
Proof.
  induction callers as [|k cs IH]; intros s r Hcs Ha; cbn; [by apply awaiting_tasks|].
  apply Forall_cons in Hcs as [Hk Hcs].
  destruct (task_await_resume r) as [a|e| |]; [..|by apply awaiting_tasks|];
    (destruct (run_script s t _ cs) as [s1 [r1|]] eqn:E; eapply run_script_awaiting in E; try done; by apply IH).
Qed.

Lemma resume_ready_awaiting s item s' : resume_ready s item = Ret s' -> Awaiting s -> Awaiting s'.
Proof.
  unfold resume_ready. intros Hr Ha. inv_bind Hr. injection Hr as <-.
  assert (Awaiting a) as [Hp Ht Hg]; [|constructor; case_if; try done; by apply map_Forall_delete].
  assert (Hcont : forall s1 t c cs, awaits c -> callers_await cs -> Awaiting s1 -> Awaiting (continue_task s1 t c cs)).
  { intros s1 t c cs Hc Hcs Hs1. unfold continue_task. destruct (run_script s1 t c cs) as [s2 [r|]] eqn:E;
      eapply run_script_awaiting in E; try done. by apply unwind_awaiting. }
  revert Ha0. unfold resume. destruct (tasks s !! handle item) as [tk|] eqn:Et; [|done].
  pose proof (aw_tasks _ Ha _ _ Et) as Htk. destruct tk as [c|op cont cs|r]; [| |done].
  - intros <-%checked_ret. apply Hcont; [done|by apply Forall_nil|done].
  - destruct (ops s !! op); [|done]. intros <-%checked_ret. destruct Htk as [Hc Hcs].
    apply Hcont; [apply Hc|done|by destruct Ha].
Qed.

(** ** Rounds *)

Lemma drain_posts_awaiting s : Awaiting s -> Awaiting (drain_posts s).
Proof.
  intros [Hp Ht Hr]. unfold drain_posts.
  assert (Ha : Awaiting (set_posts s [])) by (constructor; [by apply Forall_nil|done|done]).
  revert Ha. generalize (set_posts s []). induction Hp as [|b l Hb _ IH]; intros s1 Ha; [done|].
  cbn. apply IH. destruct Ha. constructor; [done|by apply map_Forall_insert_2|done].
Qed.

Lemma drain_ready_awaiting s s' : drain_ready s = Ret s' -> Awaiting s -> Awaiting s'.
Proof.
  intros Hd Ha. eapply (foldl_outcome_inv resume_ready (fun s1 _ => Awaiting s1)); [| |exact Hd]; [|by destruct Ha].
  intros s1 x l s2 Hs1 Hr. by eapply resume_ready_awaiting.
Qed.

Lemma take_cqe_awaiting s x s' : take_cqe s x = Ret s' -> Awaiting s -> Awaiting s'.
Proof.
  destruct x as [[[i res] fl] data]. unfold take_cqe, handle_cqe.
  destruct (inflight s !! i) as [e|] eqn:Ei; [|by intros [= <-]]. cbn. destruct (ops s !! sq_data e); [|done].
  intros [= <-] [Hp Ht Hr]. assert (Hr' : Forall (fun e => of_awaited (sq_code e)) (sqes s ++ delete i (inflight s))).
  { rewrite !Forall_app in *. destruct Hr. split; [done|by apply Forall_delete]. }
  unfold complete. case_if; constructor; done.
Qed.

Lemma cqes_trace_awaited l : forall s, Awaiting s -> Forall event_awaited (cqes_trace s l).
Proof.
  induction l as [|x l IH]; intros s Ha; [by apply Forall_nil|]. cbn. apply Forall_app. split.
  - destruct x as [[[i res] fl] data]. unfold cqe_event. destruct (inflight s !! i) as [e|] eqn:Ei; [|by apply Forall_nil].
    assert (He : of_awaited (sq_code e)).
    { pose proof (aw_ring _ Ha) as Hr. apply Forall_app in Hr as [_ Hr]. by eapply Forall_lookup_1 in Hr. }
    destruct (ops s !! sq_data e) as [o|]; [case_if|]; by repeat constructor.
  - destruct (take_cqe s x) eqn:E; try by apply Forall_nil. apply IH. by eapply take_cqe_awaiting.
Qed.

Lemma round_trace_awaited s l : Awaiting s -> Forall event_awaited (round_trace s l).
Proof.
  intros Ha. unfold round_trace. apply Forall_app. split.
  - apply Forall_forall. intros ev Hin. unfold started_by in Hin.
    apply list_elem_of_lookup_1 in Hin as [i Hi]. rewrite list_lookup_imap in Hi.
    destruct (posts s !! i); [|done]. by injection Hi as <-.
  - destruct (drain_ready _) eqn:E; try by apply Forall_nil. apply cqes_trace_awaited.
    apply drain_ready_awaiting in E; [|by apply drain_posts_awaiting].
    destruct E as [? ? Hr]. constructor; [done|done|by apply ring_submit_ok].
Qed.

Lemma run_round_awaiting s l s' : run_round s l = Ret s' -> Awaiting s -> Awaiting s'.
Proof.
  unfold run_round. intros Hr Ha. inv_bind Hr. apply drain_ready_awaiting in Ha0; [|by apply drain_posts_awaiting].
  eapply (foldl_outcome_inv take_cqe (fun s1 _ => Awaiting s1)); [| |exact Hr].
  - intros s1 x k s2 Hs1 Ht. by eapply take_cqe_awaiting.
  - destruct Ha0 as [? ? Hg]. constructor; [done|done|by apply ring_submit_ok].
Qed.

Lemma post_awaiting s body : awaits body -> Awaiting s -> Awaiting (post s body).
Proof. intros Hb []. constructor; [apply Forall_app; split; [done|by repeat constructor]|done|done]. Qed.

Lemma new_awaiting n : Awaiting (new_scheduler n).
Proof. constructor; [by apply Forall_nil|done|by apply Forall_nil]. Qed.

Lemma serve_trace_awaited rounds : forall s,
  Awaiting s -> Forall awaits (concat rounds.*1) -> Forall event_awaited (serve_trace s rounds).
Proof.
  induction rounds as [|[bodies l] rounds IH]; intros s Ha Hb; cbn [serve_trace].
  - pose proof (round_trace_awaited s [] Ha) as Hr. unfold round_trace in Hr. by apply Forall_app in Hr as [? _].
  - cbn in Hb. apply Forall_app in Hb as [Hb1 Hb2].
    assert (Ha1 : Awaiting (foldl post s bodies)).
    { clear -Ha Hb1. revert s Ha. induction Hb1 as [|b k Hb _ IH]; intros s Ha; [done|]. cbn. by apply IH, post_awaiting. }
    apply Forall_app. split; [by apply round_trace_awaited|].
    destruct (run_round _ l) eqn:E; try by apply Forall_nil. apply IH; [by eapply run_round_awaiting|done].
Qed.
End awaits.

(** ** Runs shorter than their timeouts *)

(** Receives wait for [timeout]; there is no other timeout. *)
Definition waits_for (timeout : Z) (k : op_kind) : Prop :=
  match k with
  | OpRecv _ _ _ (Some ns) => ns = timeout
  | OpTimeout _ => False
  | _ => True
  end.

Lemma awaited_timeout timeout sec nsec :
  of_awaited (waits_for timeout) (SqTimeout sec nsec) -> sec * 1000000000 + nsec = timeout.
Proof.
  intros (k & Hk & Hin). destruct k as [| ? ? ? [ns|]| | | | |]; cbn in Hk; try done;
    repeat (apply elem_of_cons in Hin as [Hin|Hin]; [unfold timespec in *; simplify_eq/=; lia|]);
    by apply not_elem_of_nil in Hin.
Qed.

(** No timeout entry completes before the time its receive waits for. *)
Lemma in_time_live {V C} timeout clock (tr : list (event V C)) :
  Forall (event_awaited (waits_for timeout)) tr -> kernel_clock clock tr ->
  Forall (fun t => t < timeout) clock -> trace_live not_timeout tr.
Proof.
  intros Ha Hc Ht. unfold trace_live. induction Hc as [|t ev clock tr Hev _ IH]; [by apply Forall_nil|].
  apply Forall_cons in Ha as [Hw Ha]. apply Forall_cons in Ht as [Ht1 Ht].
  constructor; [|by apply IH]. unfold event_awaited, timely in *.
  destruct (event_code ev) as [[]|]; try done. apply awaited_timeout in Hw. zbool. lia.
Qed.

(** [kernel_clock], computed. *)
Lemma kernel_clock_compute {V C} clock (tr : list (event V C)) :
  (length clock =? length tr)%nat && forallb (fun p => timely p.1 p.2) (zip clock tr) = true -> kernel_clock clock tr.
Proof.
  rewrite andb_true_iff, Nat.eqb_eq. revert tr.
  induction clock as [|t clock IH]; intros [|ev tr] [Hl Hc]; try done; [by apply Forall2_nil|].
  cbn in Hl, Hc. apply andb_true_iff in Hc as [Hev Hc]. constructor; [done|]. apply IH. split; [lia|done].
Qed.
