(* ===== verification/UringServer.v ===== *)
(** * UringServer: the connections of a worker under its scheduler

    The coroutines [read_request], [write_all] and [handle_connection] of
    coroutineWebServer/HttpServer.cpp as bodies of tasks, run by the scheduler
    of Uring.v with any number of other connections.  HttpConnection.v has the
    same coroutines with the completions to come in the world they see; a
    connection under the scheduler does what it does there on the completions
    that the scheduler delivered to it. *)

From S2P Require Export HttpConnection.
From S2P Require Export UringTime.

(** ** The bodies *)

(** The values of [Task<std::optional<HttpRequest>>] (with the buffer it was
    given by reference) and of [Task<void>], each with the world after it. *)
Inductive conn_value :=
  | ReadValue (request : option HttpRequest) (buffer : bytes) (w : World)
  | UnitValue (w : World).

(** The calls on other objects: a line for the logger, a descriptor posted to a
    worker. *)
Inductive server_call :=
  | CallLog (l : log_line)
  | CallPost (worker client_fd : Z).

(** [running_.load()] *)
Definition load (w : World) : bool * World :=
  match w_running w with
  | [] => (true, w)
  | b :: l => (b, mkWorld l (w_recv w) (w_send w) (w_accept w) (w_sent w) (w_log w)
                    (w_next_worker w) (w_posts w))
  end.

Definition log_to (w : World) (l : log_line) : World := set_send w (w_send w) (w_sent w) (w_log w ++ [l]).

Definition send_to (w : World) (data : bytes) : World := set_send w (w_send w) (w_sent w ++ data) (w_log w).

(** What a call that does not suspend leaves: its value, or the end of the body. *)
Definition bind_outcome {A} (m : outcome A) (f : A -> script conn_value server_call) : script conn_value server_call :=
  match m with
  | Ret a => f a
  | Throw e => Raise e
  | UB => End UB
  | OutOfFuel => End OutOfFuel
  end.

(** The handler of [read_request]. *)
Definition read_handler (e : exn) (buffer : bytes) (w : World) : script conn_value server_call :=
  match e with
  | system_error code =>
      if (code =? ETIMEDOUT) || (code =? ECANCELED) then Finish (ReadValue None buffer w) else Raise e
  | _ => Raise e
  end.

Fixpoint read_request_task (fuel : nat) (fd timeout : Z) (buffer : bytes) (w : World) : script conn_value server_call :=
  match fuel with
  | O => End OutOfFuel
  | S fuel' =>
      let '(running, w) := load w in
      if negb running then Finish (ReadValue None buffer w)
      else
        bind_outcome (try_parse_request buffer) (fun parsed =>
        match parsed with
        | Some p => Finish (ReadValue (Some (request p)) (drop (Z.to_nat (consumed p)) buffer) w)
        | None =>
            AwaitOp (async_recv_for fd 8192 timeout 0) (fun r =>
            match r with
            | Throw e => read_handler e buffer w
            | _ =>
                bind_outcome r (fun '(received, chunk) =>
                if received <=? 0 then Finish (ReadValue None buffer w)
                else read_request_task fuel' fd timeout (buffer ++ take (Z.to_nat received) chunk) w)
            end)
        end)
  end.

(** [write_all] from [offset] on; [w] is given the bytes the kernel takes. *)
Fixpoint write_all_task (fuel : nat) (fd : Z) (payload : bytes) (offset : Z) (w : World) : script conn_value server_call :=
  match fuel with
  | O => End OutOfFuel
  | S fuel' =>
      if offset <? size payload then
        let '(running, w) := load w in
        if negb running then Finish (UnitValue w)
        else
          let rest := drop (Z.to_nat offset) payload in
          AwaitOp (async_send fd (size rest) 0) (fun r =>
          bind_outcome r (fun '(written, _) =>
          if written <=? 0 then Finish (UnitValue w)
          else write_all_task fuel' fd payload (offset + written) (send_to w (take (Z.to_nat written) rest))))
      else Finish (UnitValue w)
  end.

Section connection_task.
Context (fs : FileSystem) (docroot : bytes) (timeout : Z).

(** The handler of [handle_connection]. *)
Definition connection_handler (e : exn) (w : World) : script conn_value server_call :=
  Perform (CallLog (LogConnectionError e)) (Finish (UnitValue (log_to w (LogConnectionError e)))).

Fixpoint connection_loop_task (fuel : nat) (fd : Z) (buffer : bytes) (w : World) : script conn_value server_call :=
  match fuel with
  | O => End OutOfFuel
  | S fuel' =>
      let '(running, w) := load w in
      if negb running then Finish (UnitValue w)
      else
        AwaitTask (read_request_task fuel fd timeout buffer w) (fun r =>
        match r with
        | Ret (ReadValue None _ w) => Finish (UnitValue w)
        | Ret (ReadValue (Some rq) buffer' w) =>
            let l := LogRequest (method rq) (target rq) in
            let w := log_to w l in
            Perform (CallLog l)
            match build_response fs docroot rq with
            | Throw e => connection_handler e w
            | m =>
                bind_outcome m (fun response =>
                AwaitTask (write_all_task fuel fd (to_wire response) 0 w) (fun r =>
                match r with
                | Ret (UnitValue w) =>
                    if negb (keep_alive rq) then Finish (UnitValue w)
                    else connection_loop_task fuel' fd buffer' w
                | Throw e => connection_handler e w
                | r => End r
                end))
            end
        | Throw e => connection_handler e w
        | r => End r
        end)
  end.

Definition handle_connection_task (fuel : nat) (client : UniqueFd) (w : World) : script conn_value server_call :=
  if fd_valid client then connection_loop_task fuel (fd_ client) [] w
  else Finish (UnitValue (load w).2).
End connection_task.

(** ** The world of a connection alone *)

Definition recv_of (r : reply) : option recv_result :=
  match r with
  | (SqRecv _ _ _, res, data) => Some (if res <? 0 then RecvFail (- res) else RecvDone data)
  | _ => None
  end.

Definition send_of (r : reply) : option send_result :=
  match r with
  | (SqSend _ _ _, res, _) => Some (if res <? 0 then SendFail (- res) else SendUpTo res)
  | _ => None
  end.

Definition accept_of (r : reply) : option accept_result :=
  match r with
  | (SqAccept _ _ _, res, _) => Some (if res <? 0 then AcceptFail (- res) else AcceptDone res)
  | _ => None
  end.

(** [w] with the completions [h] to come. *)
Definition with_replies (w : World) (h : list reply) : World :=
  mkWorld (w_running w) (omap recv_of h) (omap send_of h) (omap accept_of h) (w_sent w) (w_log w)
    (w_next_worker w) (w_posts w).

(** What the kernel reports: a receive as many bytes as it wrote, a send at
    most as many as it was given. *)
Definition sane (r : reply) : Prop :=
  match r with
  | (SqRecv _ _ _, res, data) => 0 <= res -> size data = res
  | (SqSend _ len _, res, _) => res <= len
  | _ => True
  end.

(** The operations of the coroutines of the server. *)
Definition conn_kind (k : op_kind) : Prop :=
  match k with OpAccept _ _ _ | OpRecv _ _ _ _ | OpSend _ _ _ => True | _ => False end.

(** The lines and the posts among the calls [xs] are those between [w] and [w']. *)
Definition calls_logged (xs : list server_call) : list log_line :=
  omap (fun x => match x with CallLog l => Some l | _ => None end) xs.
Definition calls_posted (xs : list server_call) : list (Z * Z) :=
  omap (fun x => match x with CallPost k fd => Some (k, fd) | _ => None end) xs.
Definition recorded (w : World) (xs : list server_call) (w' : World) : Prop :=
  w_log w' = w_log w ++ calls_logged xs /\ w_posts w' = w_posts w ++ calls_posted xs.

(** The body, from world [w] on, got as far as the coroutine alone, which gave
    [a] where the body gave [val a]. *)
Definition agrees {A} (val : A -> World -> conn_value) (w : World) (p : played conn_value server_call)
    (m : cres A * World) : Prop :=
  match p.2 with
  | Mismatch => True
  | Waits k => conn_kind k /\ m.1 = CSuspended /\ recorded w p.1 m.2
  | Ends (Ret v) h => exists a w',
      v = val a w' /\ m = (CRet a, with_replies w' h) /\ Forall sane h /\ recorded w p.1 w'
  | Ends (Throw e) h => m.1 = CThrow e
  | Ends UB h => m.1 = CUndefined
  | Ends OutOfFuel h => m.1 = CNoFuel
  end.

Definition read_value (x : option HttpRequest * bytes) (w : World) : conn_value := ReadValue x.1 x.2 w.
Definition unit_value (_ : unit) (w : World) : conn_value := UnitValue w.

(** * Lemmas *)

(** ** Agreement with the coroutines alone *)

Lemma load_running_replies w h :
  load_running (with_replies w h) = (CRet (load w).1, with_replies (load w).2 h).
Proof. unfold load_running, load. cbn. by destruct (w_running w). Qed.

Lemma write_log_replies w h l : write_log l (with_replies w h) = (CRet tt, with_replies (log_to w l) h).
Proof. done. Qed.

Lemma recorded_nil w w' : w_log w' = w_log w -> w_posts w' = w_posts w -> recorded w [] w'.
Proof. unfold recorded. cbn. by rewrite !app_nil_r. Qed.

Lemma recorded_app w xs w1 ys w2 : recorded w xs w1 -> recorded w1 ys w2 -> recorded w (xs ++ ys) w2.
Proof.
  intros [Hl Hp] [Hl2 Hp2]. unfold recorded, calls_logged, calls_posted in *.
  by rewrite Hl2, Hp2, Hl, Hp, <- !app_assoc, !omap_app.
Qed.

Lemma load_recorded w : recorded w [] (load w).2.
Proof. unfold load. by apply recorded_nil; destruct (w_running w). Qed.

Lemma agrees_did {A} (val : A -> World -> conn_value) w xs w1 p m :
  recorded w xs w1 -> agrees val w1 p m -> agrees val w (did xs p) m.
Proof.
  intros Hw. unfold agrees, did. cbn. destruct p.2 as [k|[v|e| |] h|]; try done.
  - intros (Hk & Hm & Hr). split_and!; [done|done|by eapply recorded_app].
  - intros (a & w' & Hv & Hm & Hs & Hr). exists a, w'. split_and!; [done..|by eapply recorded_app].
Qed.

Lemma agrees_from {A} (val : A -> World -> conn_value) w w1 p m :
  recorded w [] w1 -> agrees val w1 p m -> agrees val w p m.
Proof. intros Hr Ha. pose proof (agrees_did val w [] w1 p m Hr Ha) as H. by rewrite did_nil in H. Qed.

Lemma agrees_ret {A} (val : A -> World -> conn_value) w h a :
  Forall sane h -> agrees val w ([], Ends (Ret (val a w)) h) (CRet a, with_replies w h).
Proof. intros Hs. exists a, w. split_and!; [done..|by apply recorded_nil]. Qed.

Lemma agrees_waits {A} (val : A -> World -> conn_value) w h k :
  conn_kind k -> agrees val w ([], Waits k) (CSuspended, with_replies w h).
Proof. intros Hk. split_and!; [done..|by apply recorded_nil]. Qed.

Lemma send_to_recorded w data : recorded w [] (send_to w data).
Proof. by apply recorded_nil. Qed.

Lemma log_to_recorded w l : recorded w [CallLog l] (log_to w l).
Proof. split; cbn; [done|by rewrite app_nil_r]. Qed.

(** Awaiting a task: its end is the end of the awaiting body's part. *)
Lemma agrees_and_then {A B} (val : A -> World -> conn_value) (val' : B -> World -> conn_value)
    p (m : coro A) (f : A -> coro B) (g : outcome conn_value -> list reply -> played conn_value server_call) w0 w :
  agrees val w0 p (m w) ->
  (forall a w' h, Forall sane h -> agrees val' w' (g (Ret (val a w')) h) (f a (with_replies w' h))) ->
  (forall h, g OutOfFuel h = ([], Ends OutOfFuel h)) ->
  agrees val' w0 (and_then p g) ((co_await m ≫= f) w).
Proof.
  intros Hp Hg Ho. unfold mbind, coro_bind, co_await. unfold agrees, and_then in *.
  destruct p as [xs [k|r h|]]; cbn in *.
  - destruct (m w) as [r w']. cbn in Hp. by destruct Hp as (Hk & -> & Hr).
  - destruct r as [v|e| |]; cbn in *.
    + destruct Hp as (a & w' & -> & -> & Hs & Hr). by apply (agrees_did val' w0 xs w'), Hg.
    + destruct (m w) as [r w']. cbn in Hp. by rewrite Hp.
    + destruct (m w) as [r w']. cbn in Hp. by rewrite Hp.
    + rewrite Ho. destruct (m w) as [r w']. cbn in *. by rewrite Hp.
  - done.
Qed.

(** A completion of the receive awaited, and what the coroutine alone gets. *)
Lemma await_recv_replies w code fd len fl res data h :
  code = SqRecv fd len fl -> sane (code, res, data) ->
  await_recv (with_replies w (@cons reply (code, res, data) h)) =
  (CRet (if res <? 0 then RecvFail (- res) else RecvDone data), with_replies w h) /\
  (0 <= res -> take (Z.to_nat res) data = data /\ size data = res).
Proof.
  intros -> Hs. split; [done|]. intros Hr. cbn in Hs. specialize (Hs Hr). split; [|done].
  apply take_ge. unfold size in Hs. lia.
Qed.

Lemma read_request_agrees fuel fd timeout : forall buffer w h, Forall sane h ->
  agrees read_value w (replay (read_request_task fuel fd timeout buffer w) h)
    (read_request fuel buffer (with_replies w h)).
Proof.
  induction fuel as [|fuel IH]; intros buffer w h Hs; [done|]. cbn [read_request_task read_request].
  unfold mbind at 1, coro_bind at 1. rewrite load_running_replies.
  pose proof (load_recorded w) as Hl. destruct (load w) as [b w1]. cbn [fst snd] in *.
  apply (agrees_from _ w w1 _ _ Hl). clear Hl.
  destruct b; cbn [negb]; [|by apply (agrees_ret read_value w1 h (None, buffer))].
  unfold mbind at 1, coro_bind at 1, clift. unfold bind_outcome at 1.
  destruct (try_parse_request buffer) as [x|e| |]; [|done..].
  destruct x as [p|]; [by apply (agrees_ret read_value w1 h (Some (request p), drop (Z.to_nat (consumed p)) buffer))|].
  destruct h as [|[[code res] data] h]; [by apply (agrees_waits read_value w1 [])|].
  cbn [replay]. case_decide as Hc; [|done]. apply Forall_cons in Hs as [Hs1 Hs].
  destruct (await_recv_replies w1 _ _ _ _ _ _ h Hc Hs1) as [Hr Hd].
  unfold mbind, coro_bind. rewrite Hr. unfold reply_value.
  destruct (res <? 0) eqn:E; zbool; cbn [bind_outcome read_handler].
  - destruct (_ || _); [by apply (agrees_ret read_value w1 h (None, buffer))|done].
  - destruct (Hd E) as [-> ->]. case_if; [by apply (agrees_ret read_value w1 h (None, buffer))|]. by apply IH.
Qed.

Lemma await_send_replies w rest code fd len fl res data h :
  code = SqSend fd len fl -> sane (code, res, data) -> len = u32 (size rest) ->
  await_send rest (with_replies w (@cons reply (code, res, data) h)) =
  if res <? 0 then (CThrow (system_error (- res)), with_replies w h)
  else (CRet res, with_replies (send_to w (take (Z.to_nat res) rest)) h).
Proof.
  intros -> Hs ->. cbn in Hs. unfold await_send. cbn. case_if; [done|]. by rewrite Z.min_l by done.
Qed.

Lemma send_to_nothing w rest res : res <= 0 -> send_to w (take (Z.to_nat res) rest) = w.
Proof.
  intros Hr. replace (Z.to_nat res) with O by lia. unfold send_to, set_send. cbn.
  rewrite app_nil_r. by destruct w.
Qed.

Lemma write_all_agrees fuel fd payload : forall offset w h, Forall sane h ->
  agrees unit_value w (replay (write_all_task fuel fd payload offset w) h)
    (write_all fuel payload offset (with_replies w h)).
Proof.
  induction fuel as [|fuel IH]; intros offset w h Hs; [done|]. cbn [write_all_task write_all].
  case_if; [|by apply (agrees_ret unit_value w h tt)].
  unfold mbind at 1, coro_bind at 1. rewrite load_running_replies.
  pose proof (load_recorded w) as Hl. destruct (load w) as [b w1]. cbn [fst snd] in *.
  apply (agrees_from _ w w1 _ _ Hl). clear Hl.
  destruct b; cbn [negb]; [|by apply (agrees_ret unit_value w1 h tt)].
  destruct h as [|[[code res] data] h]; [by apply (agrees_waits unit_value w1 [])|].
  cbn [replay]. case_decide as Hc; [|done]. apply Forall_cons in Hs as [Hs1 Hs].
  unfold mbind, coro_bind. rewrite (await_send_replies w1 _ _ _ _ _ _ _ h Hc Hs1 eq_refl).
  unfold reply_value. destruct (res <? 0); cbn [bind_outcome]; [done|].
  case_if; zbool.
  - rewrite send_to_nothing by done. by apply (agrees_ret unit_value w1 h tt).
  - eapply agrees_from; [apply send_to_recorded|]. by apply IH.
Qed.

Section connection_agrees.
Context (fs : FileSystem) (docroot : bytes) (timeout : Z).

Lemma connection_loop_agrees fuel fd : forall buffer w h, Forall sane h ->
  agrees unit_value w (replay (connection_loop_task fs docroot timeout fuel fd buffer w) h)
    (connection_loop fs docroot fuel buffer (with_replies w h)).
Proof.
  induction fuel as [|fuel IH]; intros buffer w h Hs; [done|].
  cbn [connection_loop_task connection_loop].
  unfold mbind at 1, coro_bind at 1. rewrite load_running_replies.
  pose proof (load_recorded w) as Hl. destruct (load w) as [b w1]. cbn [fst snd] in *.
  apply (agrees_from _ w w1 _ _ Hl). clear Hl.
  destruct b; cbn [negb]; [|by apply (agrees_ret unit_value w1 h tt)].
  cbn [replay]. eapply agrees_and_then; [by apply read_request_agrees| |done].
  intros [[rq|] buffer'] w2 h2 Hs2; cbn [read_value fst snd]; [|by apply (agrees_ret unit_value w2 h2 tt)].
  unfold mbind at 1, coro_bind at 1. rewrite write_log_replies.
  cbn [replay]. eapply agrees_did; [apply log_to_recorded|]. set (w3 := log_to w2 _).
  unfold mbind at 1, coro_bind at 1, clift.
  destruct (build_response_returns fs docroot rq) as [r Hr]. rewrite Hr. cbn [bind_outcome replay].
  eapply agrees_and_then; [by apply write_all_agrees| |done].
  intros [] w4 h4 Hs4. cbn [unit_value]. destruct (keep_alive rq); cbn [negb]; [by apply IH|].
  by apply (agrees_ret unit_value w4 h4 tt).
Qed.

(** [handle_connection] under the scheduler and alone. *)
Lemma handle_connection_agrees fuel client w h : Forall sane h ->
  agrees unit_value w (replay (handle_connection_task fs docroot timeout fuel client w) h)
    ((if fd_valid client then connection_loop fs docroot fuel []
      else (_ ← load_running; mret tt)) (with_replies w h)).
Proof.
  intros Hs. unfold handle_connection_task. destruct (fd_valid client).
  - by apply connection_loop_agrees.
  - unfold mbind, coro_bind. rewrite load_running_replies. apply (agrees_from _ w (load w).2); [apply load_recorded|].
    by apply (agrees_ret unit_value (load w).2 h tt).
Qed.
End connection_agrees.

(** ** What the coroutines await

    The only timeout is that of the receives. *)
Lemma read_request_awaits fuel fd timeout : forall buffer w,
  awaits (waits_for timeout) (read_request_task fuel fd timeout buffer w).
Proof.
  induction fuel as [|fuel IH]; intros buffer w; [done|]. cbn [read_request_task].
  destruct (load w) as [b w1]. destruct b; cbn [negb]; [|done].
  destruct (try_parse_request buffer) as [[p|]|e| |]; try done. cbn. split; [done|].
  intros [[received chunk]|e| |]; cbn; try done; [by case_if|].
  unfold read_handler. destruct e; try done. by case_if.
Qed.

Lemma write_all_awaits timeout fuel fd payload : forall offset w,
  awaits (waits_for timeout) (write_all_task fuel fd payload offset w).
Proof.
  induction fuel as [|fuel IH]; intros offset w; [done|]. cbn [write_all_task].
  case_if; [|done]. destruct (load w) as [b w1]. destruct b; cbn [negb]; [|done].
  cbn. split; [done|]. intros [[written ?]|e| |]; cbn; try done. by case_if.
Qed.

Lemma connection_loop_awaits fs docroot timeout fuel fd : forall buffer w,
  awaits (waits_for timeout) (connection_loop_task fs docroot timeout fuel fd buffer w).
Proof.
  induction fuel as [|fuel IH]; intros buffer w; [done|]. cbn [connection_loop_task].
  destruct (load w) as [b w1]. destruct b; cbn [negb]; [|done].
  split; [apply read_request_awaits|].
  intros [[[rq|] buffer' w2|]|e| |]; try done. cbn [awaits].
  destruct (build_response fs docroot rq) as [response|e| |]; try done.
  split; [apply write_all_awaits|]. intros [[|w3]|e| |]; try done. case_if; [done|apply IH].
Qed.

Lemma handle_connection_awaits fs docroot timeout fuel client w :
  awaits (waits_for timeout) (handle_connection_task fs docroot timeout fuel client w).
Proof. unfold handle_connection_task. case_if; [apply connection_loop_awaits|done]. Qed.

(** ** More completions to come

    With more completions to come, a coroutine does what it did, and goes on
    where it was suspended. *)

Definition extend (rx : list recv_result) (sx : list send_result) (w : World) : World :=
  mkWorld (w_running w) (w_recv w ++ rx) (w_send w ++ sx) (w_accept w) (w_sent w) (w_log w)
    (w_next_worker w) (w_posts w).

Definition grown (w w' : World) : Prop := w_sent w `prefix_of` w_sent w' /\ w_log w `prefix_of` w_log w'.

Definition goes_on {A} (rx : list recv_result) (sx : list send_result) (m m' : cres A * World) : Prop :=
  match m.1 with
  | CSuspended => grown m.2 m'.2
  | r => m' = (r, extend rx sx m.2)
  end.

Record stretches {A} (m : coro A) : Prop := mkStretches {
  st_grows : forall w, grown w (m w).2;
  st_goes_on : forall rx sx w, goes_on rx sx (m w) (m (extend rx sx w))
}.

Lemma grown_refl w : grown w w.
Proof. done. Qed.

Lemma grown_trans w1 w2 w3 : grown w1 w2 -> grown w2 w3 -> grown w1 w3.
Proof. intros [] []. split; by etrans. Qed.

Lemma stretches_bind {A B} (m : coro A) (f : A -> coro B) :
  stretches m -> (forall a, stretches (f a)) -> stretches (m ≫= f).
Proof.
  intros [Hg Ho] Hf. split.
  - intros w. unfold mbind, coro_bind. specialize (Hg w). destruct (m w) as [[a|e| | |] w']; try done.
    eapply grown_trans; [exact Hg|apply Hf].
  - intros rx sx w. unfold mbind, coro_bind. specialize (Ho rx sx w). unfold goes_on in Ho.
    destruct (m w) as [[a|e| | |] w']; cbn in Ho; try (rewrite Ho; done); [rewrite Ho; apply Hf|].
    unfold goes_on. cbn. destruct (m (extend rx sx w)) as [[a|e| | |] w2]; try done.
    eapply grown_trans; [exact Ho|apply Hf].
Qed.

Lemma stretches_co_await {A} (m : coro A) : stretches m -> stretches (co_await m).
Proof.
  intros [Hg Ho]. split.
  - intros w. unfold co_await. specialize (Hg w). by destruct (m w) as [[a|e| | |] w'].
  - intros rx sx w. unfold co_await. specialize (Ho rx sx w). unfold goes_on in *.
    destruct (m w) as [[a|e| | |] w']; cbn in *; try (by rewrite Ho).
    by destruct (m (extend rx sx w)) as [[a|e| | |] w2].
Qed.

Lemma stretches_pure {A} (r : cres A) : r <> CSuspended -> stretches (fun w => (r, w)).
Proof. intros Hr. split; [done|]. intros rx sx w. unfold goes_on. by destruct r. Qed.

Lemma stretches_clift {A} (m : outcome A) : stretches (clift m).
Proof. by destruct m; apply stretches_pure. Qed.

Lemma stretches_load_running : stretches load_running.
Proof.
  split.
  - intros w. unfold load_running. by destruct (w_running w).
  - intros rx sx w. unfold load_running, goes_on. cbn. by destruct (w_running w).
Qed.

Lemma stretches_write_log l : stretches (write_log l).
Proof. split; [|done]. intros w. split; [done|]. cbn. by apply prefix_app_r. Qed.

Lemma stretches_await_recv : stretches await_recv.
Proof.
  split.
  - intros w. unfold await_recv. by destruct (w_recv w).
  - intros rx sx w. unfold await_recv, goes_on. cbn. destruct (w_recv w); cbn; [|done].
    by destruct rx.
Qed.

Lemma stretches_await_send data : stretches (await_send data).
Proof.
  assert (Hg : forall w, grown w (await_send data w).2).
  { intros w. unfold await_send. destruct (w_send w) as [|[n|code] l]; try done.
    split; [|done]. cbn. by apply prefix_app_r. }
  split; [done|]. intros rx sx w. specialize (Hg (extend rx sx w)).
  revert Hg. unfold await_send, goes_on. cbn. by destruct (w_send w) as [|[n|code] l].
Qed.

Create HintDb stretch.
#[export] Hint Resolve stretches_bind stretches_co_await stretches_clift stretches_load_running
  stretches_write_log stretches_await_recv stretches_await_send : stretch.
#[export] Hint Extern 1 (stretches (mret _)) => (apply stretches_pure; done) : stretch.
#[export] Hint Extern 1 (stretches (cthrow _)) => (apply stretches_pure; done) : stretch.
#[export] Hint Extern 1 (stretches no_fuel) => (apply stretches_pure; done) : stretch.
#[export] Hint Extern 2 (stretches (if ?b then _ else _)) => destruct b : stretch.

Lemma stretches_read_request fuel : forall buffer, stretches (read_request fuel buffer).
Proof.
  induction fuel as [|fuel IH]; intros buffer; cbn [read_request]; auto with stretch.
  apply stretches_bind; [auto with stretch|]. intros []; cbn [negb]; [|auto with stretch].
  apply stretches_bind; [auto with stretch|]. intros [p|]; [auto with stretch|].
  apply stretches_bind; [auto with stretch|]. intros [data|code]; auto with stretch.
Qed.

Lemma stretches_write_all fuel payload : forall offset, stretches (write_all fuel payload offset).
Proof. induction fuel as [|fuel IH]; intros offset; cbn [write_all]; auto 8 with stretch. Qed.

Lemma stretches_connection_loop fs docroot fuel : forall buffer,
  stretches (connection_loop fs docroot fuel buffer).
Proof.
  induction fuel as [|fuel IH]; intros buffer; cbn [connection_loop]; auto with stretch.
  apply stretches_bind; [auto with stretch|]. intros []; cbn [negb]; [|auto with stretch].
  apply stretches_bind; [auto using stretches_read_request with stretch|].
  intros [[rq|] buffer']; [|auto with stretch].
  apply stretches_bind; [auto with stretch|]. intros _.
  apply stretches_bind; [auto with stretch|]. intros response.
  apply stretches_bind; [auto using stretches_write_all with stretch|]. intros _.
  destruct (keep_alive rq); auto with stretch.
Qed.

(** ** Many connections on one scheduler *)

(** Where the scheduler has task [t], whose coroutine alone, from world [w] on,
    gave [m]; the calls it made are those [m] records. *)
Definition connection_status (s : scheduler conn_value server_call) (t : nat) (w : World)
    (m : cres unit * World) : Prop :=
  recorded w (performed t s) m.2 /\
  match tasks s !! t with
  | Some (TaskNew _) => False
  | Some (TaskWaiting _ _ _) => m.1 = CSuspended
  | Some (TaskDone r) => exists w', r = Ret (UnitValue w') /\ m = (CRet tt, with_replies w' [])
  | None => m.1 = CRet tt
  end.

Lemma started_index {V C} (tr : list (event V C)) t body :
  Started t body ∈ tr -> exists i, started_ids tr !! i = Some t /\ started_bodies tr !! i = Some body.
Proof.
  induction tr as [|ev tr IH]; [by intros ?%not_elem_of_nil|].
  intros [<-|Hin]%elem_of_cons; [by exists 0%nat|]. destruct (IH Hin) as (i & Ht & Hb).
  destruct ev; [by exists (S i)|by exists i..].
Qed.

Lemma conn_kind_live k : conn_kind k -> live_kind not_timeout k.
Proof. by destruct k as [|? ? ? []| | | | |]. Qed.

Section connections.
Context {K : Type} (body : K -> script conn_value server_call) (world : K -> World)
  (alone : K -> list reply -> cres unit * World).
Hypothesis body_agrees : forall c h, Forall sane h ->
  agrees unit_value (world c) (replay (body c) h) (alone c h).

(** The rounds in which the connections are posted. *)
Definition post_all (rounds : list (list K * list cqe)) : list (list (script conn_value server_call) * list cqe) :=
  (fun x : list K * list cqe => (body <$> x.1, x.2)) <$> rounds.

Lemma post_all_bodies rounds : concat (post_all rounds).*1 = body <$> concat rounds.*1.
Proof.
  unfold post_all. induction rounds as [|[cs l] rounds IH]; [done|]. cbn. by rewrite fmap_app, <- IH.
Qed.

Lemma agrees_fine c h : Forall sane h -> proper (alone c h).1 -> fine not_timeout (replay (body c) h).2.
Proof.
  intros Hs Hp. pose proof (body_agrees c h Hs) as Ha. unfold agrees in Ha.
  destruct (replay (body c) h).2 as [k|[v|e| |] h'|]; try done.
  - destruct Ha as [Hk _]. by apply conn_kind_live.
  - by rewrite Ha in Hp.
Qed.

Lemma agrees_status s t c h :
  Forall sane h -> proper (alone c h).1 -> status_agrees s t (replay (body c) h) ->
  connection_status s t (world c) (alone c h).
Proof.
  intros Hs Hp [Hcalls Hst]. pose proof (body_agrees c h Hs) as Ha. unfold connection_status.
  rewrite Hcalls. clear Hcalls. unfold agrees in Ha.
  assert (He : forall r, (replay (body c) h).2 = Ends r [] ->
    exists w, r = Ret (UnitValue w) /\ alone c h = (CRet tt, with_replies w []) /\
      recorded (world c) (replay (body c) h).1 (alone c h).2).
  { intros r Hr. rewrite Hr in Ha. destruct r as [v|e| |]; [|by rewrite Ha in Hp..].
    destruct Ha as ([] & w & -> & Hm & _ & Hrec). exists w. by rewrite Hm. }
  destruct (tasks s !! t) as [[c'|op cont cs|r]|]; [done|..].
  - destruct Hst as (o & _ & Hr). rewrite Hr in Ha. by destruct Ha as (_ & ? & ?).
  - destruct (He _ Hst) as (w & ? & ? & ?). split; [done|]. by exists w.
  - destruct Hst as [r Hr]. destruct (He _ Hr) as (w & _ & Hm & ?). split; [done|]. by rewrite Hm.
Qed.

Lemma serve_connections n rounds :
  let tr := serve_trace (new_scheduler n) (post_all rounds) in
  0 <= n -> trace_live not_timeout tr ->
  (forall i t c, started_ids tr !! i = Some t -> concat rounds.*1 !! i = Some c ->
     Forall sane (heard t tr) /\ forall h, h `prefix_of` heard t tr -> proper (alone c h).1) ->
  exists s', serve (new_scheduler n) (post_all rounds) = Ret s' /\ NoDup (started_ids tr) /\
    Forall2 (fun t c => connection_status s' t (world c) (alone c (heard t tr))) (started_ids tr) (concat rounds.*1).
Proof.
  intros tr Hn Hl Hc.
  assert (Hprefix : forall h h' : list reply, h' `prefix_of` h -> Forall sane h -> Forall sane h').
  { intros h h' [k ->] H. by apply Forall_app in H as [? _]. }
  destruct (serve_agrees not_timeout n (post_all rounds)) as (s' & Hs & Ha & Hb); [done| |].
  { split; [done|]. intros t b Hin h Hh. destruct (started_index _ _ _ Hin) as (i & Ht & Hbi).
    destruct (serve_trace_bodies (post_all rounds) (new_scheduler n) eq_refl) as [Hp _].
    rewrite post_all_bodies in Hp. eapply prefix_lookup_Some in Hbi; [|exact Hp].
    apply list_lookup_fmap_Some in Hbi as (c & -> & Hci). destruct (Hc _ _ _ Ht Hci) as [Hsane Hprop].
    apply agrees_fine; [by eapply Hprefix|by apply Hprop]. }
  fold tr in Ha, Hb. exists s'. split_and!; [done|apply (ag_ids _ _ _ _ Ha)|].
  pose proof (started_Forall2 (fun t b => status_agrees s' t (replay b (heard t tr))) tr
    (fun t b Hin => agree_status not_timeout s' [] tr t b Ha Hin (not_elem_of_nil _))) as Hst.
  rewrite Hb, post_all_bodies, Forall2_fmap_r in Hst.
  apply Forall2_same_length_lookup. split; [by eapply Forall2_length|].
  intros i t c Ht Hci. destruct (Hc _ _ _ Ht Hci) as [Hsane Hprop].
  apply agrees_status; [done|by apply Hprop|]. by eapply (Forall2_lookup_lr _ _ _ _ _ _ Hst).
Qed.
End connections.

(** ** What the kernel may report *)

(** No receive and no send failed, and the results are those of the bytes
    transferred. *)
Definition kernel_reply (r : reply) : bool :=
  match r with
  | (SqRecv _ _ _, res, data) => size data =? res
  | (SqSend _ len _, res, _) => (0 <=? res) && (res <=? len)
  | _ => true
  end.

Definition kernel_event {V C} (ev : event V C) : bool :=
  match ev with Delivered _ r => kernel_reply r | _ => true end.

Definition total_received {V C} (tr : list (event V C)) : Z :=
  size (concat (omap (fun ev => match ev with Delivered _ r => Some r.2 | _ => None end) tr)).

Lemma kernel_events {V C} (tr : list (event V C)) t :
  forallb kernel_event tr = true -> Forall (fun r => kernel_reply r = true) (heard t tr).
Proof.
  rewrite forallb_forall. intros Hk. apply Forall_forall. intros r (ev & Hin%list_elem_of_In & Hev)%list_elem_of_omap.
  specialize (Hk _ Hin). destruct ev as [t' b|t' r'|code|code]; try done. case_decide; [|done].
  by injection Hev as ->.
Qed.

Lemma kernel_reply_sane r : kernel_reply r = true -> sane r.
Proof.
  destruct r as [[code res] data]. destruct code; cbn; try done.
  - intros Hr _. by zbool.
  - intros [_ ?]%andb_true_iff. by zbool.
Qed.

Lemma kernel_reply_benign h :
  Forall (fun r => kernel_reply r = true) h ->
  Forall benign_recv (omap recv_of h) /\ Forall benign_send (omap send_of h).
Proof.
  induction 1 as [|[[code res] data] h Hr _ [IH1 IH2]]; [by split|].
  destruct code; cbn in *; try (split; assumption).
  - split; [constructor; [|done]|done]. zbool. pose proof (size_nonneg data). case_if; [zbool; lia|done].
  - split; [done|constructor; [|done]]. apply andb_true_iff in Hr as [? _]. zbool.
    by rewrite (proj2 (Z.ltb_ge _ _)).
Qed.

Lemma omap_length {A B} (f : A -> option B) l : (length (omap f l) <= length l)%nat.
Proof. induction l as [|x l IH]; cbn; [lia|]. destruct (f x); cbn; lia. Qed.

Lemma recv_send_length h : (length (omap recv_of h) + length (omap send_of h) <= length h)%nat.
Proof.
  induction h as [|[[code res] data] h IH]; cbn; [lia|]. destruct code; cbn; lia.
Qed.

Lemma heard_delivered {V C} t t' r (tr : list (event V C)) :
  heard t (Delivered t' r :: tr) = if decide (t' = t) then r :: heard t tr else heard t tr.
Proof. unfold heard. cbn. by case_decide. Qed.

Lemma heard_received {V C} t (tr : list (event V C)) :
  size (recv_bytes (omap recv_of (heard t tr))) <= total_received tr.
Proof.
  unfold total_received. induction tr as [|ev tr IH]; [done|].
  destruct ev as [t' b|t' [[code res] data]|code|code]; try exact IH.
  rewrite heard_delivered. cbn [omap list_omap concat snd]. rewrite size_app.
  pose proof (size_nonneg data). case_decide; [|lia].
  unfold recv_bytes in *. cbn [omap list_omap recv_of]. destruct code; try lia.
  cbn [fmap list_fmap concat]. rewrite size_app. destruct (res <? 0); [change (size []) with 0|]; lia.
Qed.

Lemma received_prefix h' h :
  h' `prefix_of` h -> size (recv_bytes (omap recv_of h')) <= size (recv_bytes (omap recv_of h)).
Proof.
  intros [k ->]. rewrite omap_app. unfold recv_bytes. rewrite fmap_app, concat_app, size_app.
  pose proof (size_nonneg (concat ((fun r => match r with RecvDone d => d | RecvFail _ => [] end) <$> omap recv_of k))).
  lia.
Qed.

Section alone.
Context (fs : FileSystem) (docroot : bytes) (timeout : Z) (fuel : nat).

(** The [try] block of [handle_connection]. *)
Definition try_block (client : UniqueFd) (w : World) : cres unit * World :=
  (if fd_valid client then connection_loop fs docroot fuel [] else (_ ← load_running; mret tt)) w.

Lemma try_block_proper client w :
  proper (try_block client w).1 -> handle_connection fs docroot fuel client w = try_block client w.
Proof.
  unfold handle_connection, ccatch. fold (try_block client w). by destruct (try_block client w) as [[] ?].
Qed.

Lemma try_block_ends client w h :
  Forall (fun r => kernel_reply r = true) h -> (length (w_running w) + length h < fuel)%nat ->
  size (recv_bytes (omap recv_of h)) < 2 ^ 63 -> proper (try_block client (with_replies w h)).1.
Proof.
  intros Hk Hf Hb. unfold try_block. destruct (fd_valid client).
  2: { unfold mbind, coro_bind. by rewrite load_running_replies. }
  destruct (kernel_reply_benign h Hk) as [Hbr Hbs]. pose proof (recv_send_length h).
  destruct (connection_loop_ends fs docroot fuel [] (with_replies w h)) as (r & w' & -> & _ & Hr).
  - unfold HttpConnection.pending. cbn. lia.
  - by unfold buffered.
  - by apply Hr.
Qed.
End alone.

(** ** Clients *)

(** A client: its descriptor, the world its connection starts in, the bytes it
    sends as its packets cut them, and the requests in these bytes. *)
Record client := mkClient {
  cl_fd : UniqueFd;
  cl_world : World;
  cl_chunks : list bytes;
  cl_requests : list HttpRequest
}.

Section clients.
Context (fs : FileSystem) (docroot : bytes) (timeout : Z) (fuel : nat).

Definition client_body (c : client) : script conn_value server_call :=
  handle_connection_task fs docroot timeout fuel (cl_fd c) (cl_world c).

Definition client_alone (c : client) (h : list reply) : cres unit * World :=
  try_block fs docroot fuel (cl_fd c) (with_replies (cl_world c) h).

(** A client whose bytes hold its requests, on a running server. *)
Record client_ok (c : client) : Prop := mkClientOk {
  co_valid : fd_valid (cl_fd c) = true;
  co_running : w_running (cl_world c) = [];
  co_chunks : Forall (fun chunk => chunk <> []) (cl_chunks c);
  co_fits : fits (concat (cl_chunks c));
  co_serves : serves (concat (cl_chunks c)) (cl_requests c);
  co_sizes : Forall (fun rq => size (wire_of fs docroot rq) < 2 ^ 32) (cl_requests c);
  co_fuel : Z.of_nat (length (cl_chunks c)) + size (answers fs docroot (cl_requests c)) +
    Z.of_nat (length (cl_requests c)) < Z.of_nat fuel
}.

(** A completion that transfers bytes: a receive, or a send that makes progress. *)
Definition transfers (r : reply) : Prop :=
  match send_of r with Some (SendUpTo n) => 0 < n | Some (SendFail _) => False | None => True end.

(** What the kernel reports for a client: its bytes as it sent them, then that
    it closed. *)
Definition client_replies (c : client) (h : list reply) : Prop :=
  Forall (fun r => sane r /\ transfers r) h /\ omap recv_of h `prefix_of` ready_recvs (cl_chunks c).

(** All answers were sent, or the first part of them so far. *)
Definition answered (c : client) (m : cres unit * World) : Prop :=
  let sent := w_sent (cl_world c) ++ answers fs docroot (cl_requests c) in
  let logged := w_log (cl_world c) ++ (log_request <$> cl_requests c) in
  match m with
  | (CRet tt, w) => w_sent w = sent /\ w_log w = logged
  | (CSuspended, w) => w_sent w `prefix_of` sent /\ w_log w `prefix_of` logged
  | _ => False
  end.

Lemma client_replies_prefix c h' h : h' `prefix_of` h -> client_replies c h -> client_replies c h'.
Proof.
  intros [k ->] [Ht Hr]. apply Forall_app in Ht as [Ht _]. split; [done|].
  rewrite omap_app in Hr. etrans; [|exact Hr]. by apply prefix_app_r.
Qed.

Lemma transfers_sends h : Forall (fun r => sane r /\ transfers r) h ->
  exists ns, omap send_of h = ready_sends ns /\ Forall (fun n => 0 < n) ns.
Proof.
  induction 1 as [|r h [_ Hr] _ (ns & Hns & Hpos)]; [by exists []|]. unfold transfers in Hr. cbn.
  destruct (send_of r) as [[n|code]|]; [|done|by exists ns].
  exists (n :: ns). split; [by rewrite Hns|by constructor].
Qed.

(** A client alone is answered what it has asked for. *)
Lemma client_alone_answered c h : client_ok c -> client_replies c h -> answered c (client_alone c h).
Proof.
  intros [Hv Hrun Hne Hf Hs H32 Hfuel] [Ht [rx Hrx]].
  destruct (transfers_sends h Ht) as (ns & Hns & Hpos).
  set (more := replicate (Z.to_nat (size (answers fs docroot (cl_requests c)))) 1).
  set (w := with_replies (cl_world c) h).
  destruct (connection_loop_serves fs docroot _ _ Hs fuel (cl_chunks c) (ns ++ more)
    (extend rx (ready_sends more) w) []) as (w' & Hw & Hsent & Hlog); try done.
  - cbn. unfold ready_sends in *. by rewrite Hns, fmap_app.
  - apply Forall_app. split; [done|]. by apply Forall_replicate.
  - unfold more. rewrite length_app, length_replicate. lia.
  - unfold answered, client_alone, try_block. rewrite Hv. fold w.
    pose proof (st_goes_on _ (stretches_connection_loop fs docroot fuel []) rx (ready_sends more) w) as Hg.
    rewrite Hw in Hg. unfold goes_on in Hg. cbn in Hsent, Hlog. rewrite <- Hsent, <- Hlog.
    destruct (connection_loop fs docroot fuel [] w) as [[[]|e| | |] w1]; cbn in Hg; try done.
    by injection Hg as ->.
Qed.

Lemma answered_proper c m : answered c m -> proper m.1.
Proof. by destruct m as [[[]|e| | |] w]. Qed.

Lemma client_fine c h : client_ok c -> client_replies c h ->
  fine not_timeout (replay (client_body c) h).2.
Proof.
  intros Hc Hr. apply (agrees_fine client_body cl_world client_alone).
  - intros c' h' Hs. by apply handle_connection_agrees.
  - eapply Forall_impl; [apply Hr|]. by intros r [? _].
  - by apply answered_proper with c, client_alone_answered.
Qed.

Lemma client_status s t c h : client_ok c -> client_replies c h ->
  status_agrees s t (replay (client_body c) h) ->
  let m := handle_connection fs docroot fuel (cl_fd c) (with_replies (cl_world c) h) in
  connection_status s t (cl_world c) m /\ answered c m.
Proof.
  intros Hc Hr Hs m. pose proof (client_alone_answered c h Hc Hr) as Ha.
  unfold m. rewrite try_block_proper by (by eapply answered_proper). split; [|done].
  apply (agrees_status client_body cl_world client_alone).
  - intros c' h' Hs'. by apply handle_connection_agrees.
  - eapply Forall_impl; [apply Hr|]. by intros r [? _].
  - by eapply answered_proper.
  - done.
Qed.

(** Any number of clients posted to one scheduler at any time, whatever the order
    of their completions: the connections that have finished have sent exactly
    the answers to the requests of their client, those that are suspended a
    first part of them. *)
Lemma serve_clients n (rounds : list (list client * list cqe)) :
  let tr := serve_trace (new_scheduler n) (post_all client_body rounds) in
  0 <= n -> Forall client_ok (concat rounds.*1) -> trace_live not_timeout tr ->
  (forall i t c, started_ids tr !! i = Some t -> concat rounds.*1 !! i = Some c ->
     client_replies c (heard t tr)) ->
  exists s', serve (new_scheduler n) (post_all client_body rounds) = Ret s' /\
    NoDup (started_ids tr) /\
    Forall2 (fun t c =>
        let m := handle_connection fs docroot fuel (cl_fd c) (with_replies (cl_world c) (heard t tr)) in
        connection_status s' t (cl_world c) m /\ answered c m)
      (started_ids tr) (concat rounds.*1).
Proof.
  intros tr Hn Hok Hl Hr.
  assert (Ha : forall i t c h, started_ids tr !! i = Some t -> concat rounds.*1 !! i = Some c ->
    h `prefix_of` heard t tr -> answered c (client_alone c h)).
  { intros i t c h Ht Hc Hh. eapply Forall_lookup_1 in Hok; [|exact Hc].
    apply client_alone_answered; [done|]. eapply client_replies_prefix; [exact Hh|by eapply Hr]. }
  destruct (serve_connections client_body cl_world client_alone)
    with (n := n) (rounds := rounds) as (s' & Hs & Hids & Hst); [|done|done| |].
  - intros c h Hs. by apply handle_connection_agrees.
  - intros i t c Ht Hc. split.
    + eapply Forall_impl; [apply (Hr _ _ _ Ht Hc)|]. by intros r [? _].
    + intros h Hh. eapply answered_proper, Ha; done.
  - exists s'. split_and!; [done..|]. apply Forall2_same_length_lookup.
    split; [by eapply Forall2_length|]. intros i t c Ht Hc m.
    pose proof (Ha _ _ _ _ Ht Hc (reflexivity _)) as Hm. unfold m.
    rewrite try_block_proper by (by eapply answered_proper). split; [|done].
    by eapply (Forall2_lookup_lr _ _ _ _ _ _ Hst).
Qed.
End clients.

#[export] Instance recv_result_eq_dec : EqDecision recv_result.
Proof. solve_decision. Defined.

(** [client_replies], computed. *)
Definition client_replies_b (c : client) (h : list reply) : bool :=
  forallb (fun r => kernel_reply r &&
    match send_of r with Some (SendUpTo n) => 0 <? n | Some (SendFail _) => false | None => true end) h &&
  bool_decide (omap recv_of h `prefix_of` ready_recvs (cl_chunks c)).

Lemma client_replies_compute c h : client_replies_b c h = true -> client_replies c h.
Proof.
  unfold client_replies_b. rewrite andb_true_iff, forallb_forall. intros [Hr Hp].
  split; [|by apply bool_decide_eq_true in Hp].
  apply Forall_forall. intros r Hin%list_elem_of_In. apply Hr in Hin as [Hk Ht]%andb_true_iff.
  split; [by apply kernel_reply_sane|]. unfold transfers. destruct (send_of r) as [[n|code]|]; try done. by zbool.
Qed.

(** * Properties *)

(** Two clients that send [two_chunks]. The second chunk of one arrives, and its
    answer is sent in two parts, while the other is silent. *)
Definition hello_client (fd : Z) : client :=
  mkClient (mkUniqueFd fd false) (mkWorld [] [] [] [] [] [] 0 []) two_chunks [hello_request].
Definition two_clients_rounds : list (list client * list cqe) :=
  let c1 := lit "GET /hello HTTP/1.0" ++ crlf ++ lit "Ho" in
  let c2 := lit "st: a" ++ crlf ++ crlf in
  [([hello_client 7; hello_client 8], []);
   ([], [(2%nat, size c1, 0, c1); (0%nat, size c1, 0, c1)]);
   ([], [(4%nat, size c2, 0, c2)]); ([], [(5%nat, 60, 0, [])]); ([], [(5%nat, 97, 0, [])]); ([], [])].

(** The same connections on a server that is stopped between the two parts of
    the answer. *)
Definition two_connections_rounds : list (list (UniqueFd * World) * list cqe) :=
  (fun x : list client * list cqe =>
     ((fun c => (cl_fd c, mkWorld [true; true; true; true; false] [] [] [] [] [] 0 [])) <$> x.1, x.2)) <$> two_clients_rounds.




Lemma hello_client_ok fd : 0 <= fd -> client_ok no_files (lit "/srv") 400 (hello_client fd).
Proof.
  intros Hfd. constructor; cbn [hello_client cl_fd cl_world cl_chunks cl_requests].
  - by apply Z.leb_le.
  - done.
  - by repeat constructor.
  - vm_compute. reflexivity.
  - apply two_chunks_serve.
  - by repeat constructor.
  - vm_compute. reflexivity.
Qed.

(** One is served and the other waits. *)
Example two_clients_status :
  match serve (new_scheduler 16)
      (post_all (client_body no_files (lit "/srv") 30000000000 400) two_clients_rounds) with
  | Ret s => match tasks s !! 0%nat, tasks s !! 1%nat with
             | Some (TaskDone (Ret (UnitValue w))), Some (TaskWaiting _ _ _) =>
                 bool_decide (w_sent w = answers no_files (lit "/srv") [hello_request])
             | _, _ => false
             end
  | _ => false
  end = true.
Proof. vm_compute. reflexivity. Qed.
