(* ===== verification/CoroServer.v ===== *)
(** * CoroServer: the coroutine server, from accepted sockets to answers

    The coroutine [accept_loop] of coroutineWebServer/HttpServer.cpp on the
    scheduler of the acceptor, the schedulers of the workers, and the posts from
    the first to the others.  The threads run in any order, one round of a
    scheduler at a time; a post reaches its worker at any time after the accept
    loop has made it. *)

From S2P Require Export UringServer.

(** ** The accept loop as a task *)

(** [next_worker_.fetch_add(1) % workers_.size()] and the post. *)
Definition post_to (w : World) (workers client_fd : Z) : World := (post_to_worker workers client_fd w).2.

(** [SOCK_NONBLOCK | SOCK_CLOEXEC] *)
Definition accept_flags : Z := Z.lor 2048 524288.

Fixpoint accept_loop_task (fuel : nat) (listen_fd workers : Z) (w : World)
    : script conn_value server_call :=
  match fuel with
  | O => End OutOfFuel
  | S fuel' =>
      let '(running, w) := load w in
      if negb running then Finish (UnitValue w)
      else
        AwaitOp (async_accept listen_fd accept_flags false) (fun r =>
        match r with
        | Throw e =>
            let '(running, w) := load w in
            if negb running then Finish (UnitValue w)
            else
              Perform (CallLog (LogAcceptError e))
                (accept_loop_task fuel' listen_fd workers (log_to w (LogAcceptError e)))
        | _ =>
            bind_outcome r (fun '(client_fd, _) =>
            if client_fd <? 0 then accept_loop_task fuel' listen_fd workers w
            else
              let w := log_to w (LogAccepted client_fd) in
              Perform (CallLog (LogAccepted client_fd))
                (Perform (CallPost (w_next_worker w mod workers) client_fd)
                   (accept_loop_task fuel' listen_fd workers (post_to w workers client_fd))))
        end)
  end.

(** ** The server *)

Inductive site := SAcceptor | SWorker (k : nat).

#[export] Instance site_eq_dec : EqDecision site.
Proof. solve_decision. Defined.

(** [accept_thread_] and [threads_], each with its scheduler; [delivered] counts
    the calls of the accept loop that have taken place, [accepted] the posts
    among them. *)
Record server := mkServer {
  acceptor : scheduler conn_value server_call;
  workers : list (scheduler conn_value server_call);
  delivered : nat;
  posted : nat
}.

Inductive action :=
  | AcceptorRound (l : list cqe)
  | WorkerRound (k : nat) (l : list cqe)
  | Deliver.

Section server.
Context (fs : FileSystem) (docroot : bytes) (timeout : Z) (fuel : nat) (entries listen_fd : Z).
Context (size_workers : nat) (w0 : World) (worlds : nat -> World).

Definition accept_body : script conn_value server_call :=
  accept_loop_task fuel listen_fd (Z.of_nat size_workers) w0.

(** The coroutine of the [j]-th connection, whose descriptor is [fd]. *)
Definition conn_body (j : nat) (fd : Z) : script conn_value server_call :=
  handle_connection_task fs docroot timeout fuel (mkUniqueFd fd false) (worlds j).

(** The threads [start] makes, and [accept_loop().start( *acceptor_ )]. *)
Definition start_server : server :=
  mkServer (start_task (new_scheduler entries) accept_body)
    (replicate size_workers (new_scheduler entries)) 0 0.

(** The next call of the accept loop takes place: [worker->post(...)]. *)
Definition deliver (s : server) : server :=
  match effects (acceptor s) !! delivered s with
  | Some (_, CallPost k fd) =>
      mkServer (acceptor s) (alter (fun w => post w (conn_body (posted s) fd)) (Z.to_nat k) (workers s))
        (S (delivered s)) (S (posted s))
  | Some (_, CallLog _) => mkServer (acceptor s) (workers s) (S (delivered s)) (posted s)
  | None => s
  end.

Definition server_step (s : server) (a : action) : outcome server :=
  match a with
  | AcceptorRound l =>
      s' ← run_round (acceptor s) l;
      Ret (mkServer s' (workers s) (delivered s) (posted s))
  | WorkerRound k l =>
      match workers s !! k with
      | Some w =>
          w' ← run_round w l;
          Ret (mkServer (acceptor s) (<[k := w']> (workers s)) (delivered s) (posted s))
      | None => Ret s
      end
  | Deliver => Ret (deliver s)
  end.

Fixpoint run_server (s : server) (acts : list action) : outcome server :=
  match acts with
  | [] => Ret s
  | a :: acts' => s' ← server_step s a; run_server s' acts'
  end.

(** What happens at each thread. *)
Definition step_trace (s : server) (a : action) : list (site * event conn_value server_call) :=
  match a with
  | AcceptorRound l => (fun ev => (SAcceptor, ev)) <$> round_trace (acceptor s) l
  | WorkerRound k l =>
      match workers s !! k with
      | Some w => (fun ev => (SWorker k, ev)) <$> round_trace w l
      | None => []
      end
  | Deliver => []
  end.

Fixpoint run_trace (s : server) (acts : list action) : list (site * event conn_value server_call) :=
  match acts with
  | [] => []
  | a :: acts' =>
      step_trace s a ++ match server_step s a with Ret s' => run_trace s' acts' | _ => [] end
  end.

Definition server_trace (acts : list action) : list (site * event conn_value server_call) :=
  (SAcceptor, Started 0 accept_body) :: run_trace start_server acts.
End server.

(** The part of a trace that happened at [x]. *)
Definition at_site (x : site) (tr : list (site * event conn_value server_call))
    : list (event conn_value server_call) :=
  omap (fun p => if decide (p.1 = x) then Some p.2 else None) tr.

(** The descriptors of a list of completed accepts. *)
Definition accepted_fds (h : list reply) : list Z := (fun r => r.1.2) <$> h.

(** What the accept loop posts, in order: the worker and the descriptor. *)
Definition round_robin (next workers : Z) (fds : list Z) : list (Z * Z) :=
  imap (fun i fd => (u64 (next + Z.of_nat i) mod workers, fd)) fds.

(** The posts to worker [k], each with its position among all. *)
Definition posts_to (k : nat) (posts : list (Z * Z)) : list (nat * Z) :=
  omap (fun p => if p.2.1 =? Z.of_nat k then Some (p.1, p.2.2) else None) (imap (fun j p => (j, p)) posts).

(** * Lemmas *)

Lemma post_to_replies w h workers fd :
  post_to_worker workers fd (with_replies w h) = (CRet tt, with_replies (post_to w workers fd) h).
Proof. done. Qed.

Lemma post_to_recorded w workers fd :
  recorded w [CallPost (w_next_worker w mod workers) fd] (post_to w workers fd).
Proof. split; cbn; [by rewrite app_nil_r|done]. Qed.

Lemma await_accept_replies w code fd fl ms res data h :
  code = SqAccept fd fl ms ->
  await_accept (with_replies w (@cons reply (code, res, data) h)) =
  if res <? 0 then (CThrow (system_error (- res)), with_replies w h) else (CRet res, with_replies w h).
Proof. intros ->. unfold await_accept. cbn. by case_if. Qed.

Lemma accept_loop_agrees fuel listen_fd workers : forall w h, Forall sane h ->
  agrees unit_value w (replay (accept_loop_task fuel listen_fd workers w) h)
    (accept_loop fuel workers (with_replies w h)).
Proof.
  induction fuel as [|fuel IH]; intros w h Hs; [done|]. cbn [accept_loop_task accept_loop].
  unfold mbind at 1, coro_bind at 1. rewrite load_running_replies.
  pose proof (load_recorded w) as Hl. destruct (load w) as [b w1]. cbn [fst snd] in *.
  apply (agrees_from _ w w1 _ _ Hl). clear Hl.
  destruct b; cbn [negb]; [|by apply (agrees_ret unit_value w1 h tt)].
  destruct h as [|[[code res] data] h]; [by apply (agrees_waits unit_value w1 [])|].
  cbn [replay]. case_decide as Hc; [|done]. apply Forall_cons in Hs as [_ Hs].
  unfold mbind at 1, coro_bind at 1, accept_once, ccatch, accept_try.
  unfold mbind at 1, coro_bind at 1. rewrite (await_accept_replies w1 _ _ _ _ _ _ h Hc).
  unfold reply_value. destruct (res <? 0) eqn:E; cbn [bind_outcome].
  - unfold accept_handler. unfold mbind at 1, coro_bind at 1. rewrite load_running_replies.
    pose proof (load_recorded w1) as Hl. destruct (load w1) as [b2 w2]. cbn [fst snd] in *.
    apply (agrees_from _ w1 w2 _ _ Hl). clear Hl.
    destruct b2; cbn [negb]; [|by apply (agrees_ret unit_value w2 h tt)].
    unfold mbind at 1, coro_bind at 1. rewrite write_log_replies. cbn [replay].
    eapply agrees_did; [apply log_to_recorded|]. by apply IH.
  - rewrite E. unfold mbind at 1, coro_bind at 1. rewrite write_log_replies. cbn [replay].
    eapply agrees_did; [apply log_to_recorded|]. eapply agrees_did; [apply post_to_recorded|].
    unfold mbind at 1, coro_bind at 1. rewrite post_to_replies. by apply IH.
Qed.

(** ** Traces of the threads *)

Lemma at_site_app x tr1 tr2 : at_site x (tr1 ++ tr2) = at_site x tr1 ++ at_site x tr2.
Proof. apply omap_app. Qed.

Lemma at_site_same x l : at_site x ((fun ev => (x, ev)) <$> l) = l.
Proof.
  induction l as [|ev l IH]; [done|]. unfold at_site in *. cbn. rewrite decide_True by done. cbn. by rewrite IH.
Qed.

Lemma at_site_other x y l : x <> y -> at_site x ((fun ev => (y, ev)) <$> l) = [].
Proof.
  intros Hxy. induction l as [|ev l IH]; [done|]. unfold at_site in *. cbn. by rewrite decide_False by done.
Qed.

Lemma at_site_prefix x tr1 tr2 : tr1 `prefix_of` tr2 -> at_site x tr1 `prefix_of` at_site x tr2.
Proof. intros [k ->]. rewrite at_site_app. by apply prefix_app_r. Qed.

Lemma heard_prefix {V C} t (tr1 tr2 : list (event V C)) :
  tr1 `prefix_of` tr2 -> heard t tr1 `prefix_of` heard t tr2.
Proof. intros [k ->]. rewrite heard_app. by apply prefix_app_r. Qed.

Lemma started_ids_prefix {V C} (tr1 tr2 : list (event V C)) :
  tr1 `prefix_of` tr2 -> started_ids tr1 `prefix_of` started_ids tr2.
Proof. intros [k ->]. rewrite started_ids_app. by apply prefix_app_r. Qed.

(** ** The posts *)

Lemma posts_to_snoc k posts w fd :
  posts_to k (posts ++ [(w, fd)]) =
  posts_to k posts ++ (if w =? Z.of_nat k then [(length posts, fd)] else []).
Proof.
  unfold posts_to. rewrite imap_app, omap_app. f_equal. cbn. rewrite Nat.add_0_r. by case_if.
Qed.

Lemma posts_to_prefix k l1 l2 : l1 `prefix_of` l2 -> posts_to k l1 `prefix_of` posts_to k l2.
Proof. intros [m ->]. unfold posts_to. rewrite imap_app, omap_app. by apply prefix_app_r. Qed.

Lemma posts_to_lookup k posts j fd :
  posts !! j = Some (Z.of_nat k, fd) -> (j, fd) ∈ posts_to k posts.
Proof.
  intros Hj. apply list_elem_of_omap. exists (j, (Z.of_nat k, fd)). split.
  - apply list_elem_of_lookup_2 with (i := j). by rewrite list_lookup_imap, Hj.
  - cbn. by rewrite Z.eqb_refl.
Qed.

Lemma round_robin_prefix next n h1 h2 :
  h1 `prefix_of` h2 -> round_robin next n (accepted_fds h1) `prefix_of` round_robin next n (accepted_fds h2).
Proof.
  intros [k ->]. unfold round_robin, accepted_fds. rewrite fmap_app, imap_app. by apply prefix_app_r.
Qed.

(** The posts that have taken place. *)
Definition delivered_posts (s : server) : list (Z * Z) :=
  calls_posted (take (delivered s) (effects (acceptor s)).*2).

(** ** The accept loop *)

Definition accept_done (r : reply) : Prop :=
  match accept_of r with Some (AcceptDone _) => True | _ => False end.

Lemma accept_done_replies h : Forall accept_done h ->
  omap accept_of h = AcceptDone <$> accepted_fds h /\ Forall (fun fd => 0 <= fd) (accepted_fds h) /\ Forall sane h.
Proof.
  induction 1 as [|[[code res] data] h Hr _ (IH1 & IH2 & IH3)]; [by split_and!|].
  destruct code; try done. unfold accept_done in Hr. cbn in *. destruct (res <? 0) eqn:E; [done|]. zbool.
  split_and!; [by rewrite IH1|by constructor|by constructor].
Qed.

Lemma Forall_prefix {A} (P : A -> Prop) l1 l2 : l1 `prefix_of` l2 -> Forall P l2 -> Forall P l1.
Proof. intros [k ->] H. by apply Forall_app in H as [? _]. Qed.

(** The accept loop alone, on a running server, posts round robin and waits. *)
Lemma accept_loop_waits fuel workers w h :
  w_running w = [] -> 0 <= w_next_worker w < 2 ^ 64 -> Forall accept_done h -> (length h < fuel)%nat ->
  exists w', accept_loop fuel workers (with_replies w h) = (CSuspended, w') /\
    w_posts w' = w_posts w ++ round_robin (w_next_worker w) workers (accepted_fds h).
Proof.
  intros Hrun Hn Hh Hf. destruct (accept_done_replies h Hh) as (Ha & Hp & _).
  destruct (accept_loop_round_robin workers (accepted_fds h) fuel (with_replies w h))
    as (w' & Hw & _ & Hposts); [done|done|done|by unfold accepted_fds; rewrite length_fmap|done|].
  by exists w'.
Qed.

Lemma accept_replay fuel listen_fd workers w h :
  w_running w = [] -> 0 <= w_next_worker w < 2 ^ 64 -> Forall accept_done h -> (length h < fuel)%nat ->
  fine not_timeout (replay (accept_loop_task fuel listen_fd workers w) h).2 /\
  ((replay (accept_loop_task fuel listen_fd workers w) h).2 = Mismatch \/
   calls_posted (replay (accept_loop_task fuel listen_fd workers w) h).1 =
     round_robin (w_next_worker w) workers (accepted_fds h)).
Proof.
  intros Hrun Hn Hh Hf. destruct (accept_loop_waits fuel workers w h Hrun Hn Hh Hf) as (w' & Hw & Hp).
  destruct (accept_done_replies h Hh) as (_ & _ & Hs).
  pose proof (accept_loop_agrees fuel listen_fd workers w h Hs) as Ha. rewrite Hw in Ha. unfold agrees in Ha.
  destruct (replay _ h) as [xs [k|[v|e| |] h'|]]; cbn [fst snd] in *; try done.
  - destruct Ha as (Hk & _ & _ & Hr). split; [by apply conn_kind_live|right].
    by apply (app_inv_head (w_posts w)); rewrite <- Hr, <- Hp.
  - by destruct Ha as (? & ? & _ & ? & _).
  - split; [done|by left].
Qed.

(** ** What the coroutines of the server await *)

Lemma accept_loop_awaits timeout fuel listen_fd workers : forall w,
  awaits (waits_for timeout) (accept_loop_task fuel listen_fd workers w).
Proof.
  induction fuel as [|fuel IH]; intros w; [done|]. cbn [accept_loop_task].
  destruct (load w) as [b w1]. destruct b; cbn [negb]; [|done].
  split; [done|]. intros [[client_fd ?]|e| |]; cbn [bind_outcome]; try done.
  - case_if; [apply IH|]. cbn [awaits]. apply IH.
  - destruct (load w1) as [b2 w2]. destruct b2; cbn [negb awaits]; [apply IH|done].
Qed.

Lemma run_trace_awaited fs docroot timeout fuel worlds acts : forall s,
  Awaiting (waits_for timeout) (acceptor s) -> Forall (Awaiting (waits_for timeout)) (workers s) ->
  Forall (event_awaited (waits_for timeout)) (run_trace fs docroot timeout fuel worlds s acts).*2.
Proof.
  induction acts as [|a acts IH]; intros s Ha Hw; cbn [run_trace]; [by apply Forall_nil|].
  rewrite fmap_app. apply Forall_app. split.
  - destruct a as [l|k l|]; cbn [step_trace]; [| |by apply Forall_nil].
    + rewrite <- list_fmap_compose. rewrite list_fmap_id. by apply round_trace_awaited.
    + destruct (workers s !! k) as [w|] eqn:Ek; [|by apply Forall_nil].
      rewrite <- list_fmap_compose, list_fmap_id. apply round_trace_awaited. by eapply Forall_lookup_1.
  - destruct (server_step _ _ _ _ _ s a) as [s1|e| |] eqn:E; try by apply Forall_nil.
    assert (Awaiting (waits_for timeout) (acceptor s1) /\ Forall (Awaiting (waits_for timeout)) (workers s1)) as [? ?];
      [|by apply IH].
    destruct a as [l|k l|]; cbn [server_step] in E.
    + inv_bind E. injection E as <-. split; [by eapply run_round_awaiting|done].
    + destruct (workers s !! k) as [w|] eqn:Ek; [|by injection E as <-].
      inv_bind E. injection E as <-. split; [done|]. apply Forall_insert; [done|].
      eapply run_round_awaiting; [done|]. by eapply Forall_lookup_1.
    + injection E as <-. unfold deliver. destruct (effects (acceptor s) !! delivered s) as [[t []]|]; [done| |done].
      split; [done|]. apply Forall_alter; [done|]. intros w _ Hpw. apply post_awaiting; [apply handle_connection_awaits|done].
Qed.

Lemma server_trace_awaited fs docroot timeout fuel entries listen_fd n w0 worlds acts :
  Forall (event_awaited (waits_for timeout))
    (server_trace fs docroot timeout fuel entries listen_fd n w0 worlds acts).*2.
Proof.
  constructor; [done|]. apply run_trace_awaited; cbn.
  - destruct (new_awaiting (waits_for timeout) entries (V := conn_value) (C := server_call)).
    constructor; [done| |done]. apply map_Forall_insert_2; [apply accept_loop_awaits|done].
  - apply Forall_replicate. apply new_awaiting.
Qed.

(** ** The invariant of the server *)

Section invariant.
Context (fs : FileSystem) (docroot : bytes) (timeout : Z) (fuel : nat) (entries listen_fd : Z).
Context (size_workers : nat) (w0 : World) (clients : nat -> client).

#[local] Abbreviation worlds := (fun j => cl_world (clients j)).
#[local] Abbreviation accept := (accept_body fuel listen_fd size_workers w0).
#[local] Abbreviation conn := (conn_body fs docroot timeout fuel worlds).
#[local] Abbreviation start := (start_server fuel entries listen_fd size_workers w0).
#[local] Abbreviation step := (server_step fs docroot timeout fuel worlds).
#[local] Abbreviation strace := step_trace.

(** The [j]-th client, on the descriptor the kernel gave its connection. *)
Definition at_fd (c : client) (fd : Z) : client :=
  mkClient (mkUniqueFd fd false) (cl_world c) (cl_chunks c) (cl_requests c).

(** What the kernel reports to a running server in the run with trace [full],
    whose events happen at the times [clock] from the start: accepts succeed,
    each client sends its bytes, and a timeout entry is not completed before its
    time; the run ends before the time a receive waits for. *)
Record kernel_run (clock : list Z) (full : list (site * event conn_value server_call)) : Prop := mkKernelRun {
  kr_entries : 0 <= entries;
  kr_workers : (0 < size_workers)%nat;
  kr_running : w_running w0 = [];
  kr_next : 0 <= w_next_worker w0 < 2 ^ 64;
  kr_clock : kernel_clock clock full.*2;
  kr_short : Forall (fun t => t < timeout) clock;
  kr_accepts : Forall accept_done (heard 0 (at_site SAcceptor full));
  kr_fuel : (length (heard 0 (at_site SAcceptor full)) < fuel)%nat;
  kr_clients : forall k i t j fd,
    started_ids (at_site (SWorker k) full) !! i = Some t ->
    posts_to k (round_robin (w_next_worker w0) (Z.of_nat size_workers)
                  (accepted_fds (heard 0 (at_site SAcceptor full)))) !! i = Some (j, fd) ->
    client_ok fs docroot fuel (at_fd (clients j) fd) /\
    client_replies (at_fd (clients j) fd) (heard t (at_site (SWorker k) full))
}.

(** Every scheduler has its tasks where they are alone; the workers have been
    given the posts that have taken place. *)
Record Running (s : server) (tr : list (site * event conn_value server_call)) : Prop := mkRunning {
  rn_acceptor : Agree not_timeout (acceptor s) (ready (acceptor s)) (at_site SAcceptor tr);
  rn_accept : started_bodies (at_site SAcceptor tr) = [accept] /\ started_ids (at_site SAcceptor tr) = [0%nat];
  rn_quiet : posts (acceptor s) = [];
  rn_size : length (workers s) = size_workers;
  rn_delivered : (delivered s <= length (effects (acceptor s)))%nat;
  rn_posted : posted s = length (delivered_posts s);
  rn_workers : forall k w, workers s !! k = Some w ->
    Agree not_timeout w (ready w) (at_site (SWorker k) tr) /\
    started_bodies (at_site (SWorker k) tr) ++ posts w =
      (fun p => conn p.1 p.2) <$> posts_to k (delivered_posts s)
}.

(** The [j]-th connection, which was posted to worker [k] with descriptor [fd],
    has a task of this worker; unless the task is about to be resumed, it is
    where the connection is alone, and its client has been answered. *)
Definition connection_served (full : list (site * event conn_value server_call)) (k : nat)
    (w : scheduler conn_value server_call) (j : nat) (fd : Z) : Prop :=
  exists t, Started t (conn j fd) ∈ at_site (SWorker k) full /\
    (t ∉ handle <$> ready w ->
     let c := at_fd (clients j) fd in
     let m := handle_connection fs docroot fuel (cl_fd c)
                (with_replies (cl_world c) (heard t (at_site (SWorker k) full))) in
     connection_status w t (cl_world c) m /\ answered fs docroot c m).

Section run.
Context (clock : list Z) (full : list (site * event conn_value server_call)).
Context (Hfull : kernel_run clock full) (Hlive : trace_live not_timeout full.*2).

#[local] Abbreviation all_posts := (round_robin (w_next_worker w0) (Z.of_nat size_workers)
                         (accepted_fds (heard 0 (at_site SAcceptor full)))).

Lemma site_live x tr : tr `prefix_of` full -> trace_live not_timeout (at_site x tr).
Proof.
  intros Hp. pose proof (Hlive) as Hl. destruct Hp as [k ->].
  rewrite fmap_app in Hl. apply Forall_app in Hl as [Hl _].
  apply Forall_forall. intros ev ([y ev'] & Hin & Hev)%list_elem_of_omap. cbn in Hev.
  case_decide; [|done]. injection Hev as ->. eapply Forall_forall in Hl; [exact Hl|].
  apply list_elem_of_fmap. by exists (y, ev).
Qed.

(** What the accept loop has heard at a time. *)
Lemma accept_heard tr h :
  tr `prefix_of` full -> h `prefix_of` heard 0 (at_site SAcceptor tr) ->
  Forall accept_done h /\ (length h < fuel)%nat /\ h `prefix_of` heard 0 (at_site SAcceptor full).
Proof.
  intros Hp Hh. assert (Hf : h `prefix_of` heard 0 (at_site SAcceptor full))
    by (etrans; [exact Hh|by apply heard_prefix, at_site_prefix]).
  split_and!; [eapply Forall_prefix; [exact Hf|apply Hfull]| |done].
  apply prefix_length in Hf. pose proof (kr_fuel _ _ Hfull). lia.
Qed.

Lemma accept_started s tr t b : Running s tr -> Started t b ∈ at_site SAcceptor tr -> t = 0%nat /\ b = accept.
Proof.
  intros Hr (i & Ht & Hb)%started_index. destruct (rn_accept _ _ Hr) as [Hbs Hts].
  rewrite Hts in Ht. rewrite Hbs in Hb. destruct i; [|done]. by simplify_eq/=.
Qed.

Lemma accept_effects s tr : Running s tr -> (effects (acceptor s)).*2 = performed 0 (acceptor s).
Proof.
  intros Hr. pose proof (rn_acceptor _ _ Hr) as Ha.
  assert (Hall : Forall (fun p => p.1 = 0%nat) (effects (acceptor s))).
  { apply Forall_forall. intros [t x] Hin. destruct (ag_effects _ _ _ _ Ha _ _ Hin) as [b Hb].
    by apply (accept_started s tr t b Hr) in Hb as [-> _]. }
  unfold performed. induction Hall as [|[t x] l Ht _ IH]; [done|]. cbn in *. subst t. cbn. by rewrite IH.
Qed.

Lemma accept_in s tr : Running s tr -> Started 0 accept ∈ at_site SAcceptor tr.
Proof.
  intros Hr. destruct (rn_accept _ _ Hr) as [_ Hts]. destruct (started_ids_elem 0 (at_site SAcceptor tr)) as [b Hb];
    [rewrite Hts; by left|]. by destruct (accept_started s tr 0 b Hr Hb) as [_ ->].
Qed.

(** The accept loop has posted a first part of what it will have posted. *)
Lemma accept_posts s tr :
  Running s tr -> tr `prefix_of` full ->
  calls_posted (effects (acceptor s)).*2 `prefix_of` all_posts.
Proof.
  intros Hr Hp. pose proof (rn_acceptor _ _ Hr) as Ha. rewrite (accept_effects s tr Hr).
  destruct (agree_performed _ _ _ _ _ _ Ha (accept_in s tr Hr)) as (h & Hh & Hpf & Hm).
  destruct (accept_heard tr h Hp Hh) as (Hd & Hlen & Hhf).
  destruct (accept_replay fuel listen_fd (Z.of_nat size_workers) w0 h) as [_ [?|Hposts]];
    [apply Hfull|apply Hfull|done|done|done|].
  etrans; [|by apply round_robin_prefix]. rewrite <- Hposts. destruct Hpf as [k Hk].
  unfold accept_body in Hk. rewrite Hk. unfold calls_posted. rewrite omap_app. by apply prefix_app_r.
Qed.

Lemma delivered_prefix s tr :
  Running s tr -> tr `prefix_of` full -> delivered_posts s `prefix_of` all_posts.
Proof.
  intros Hr Hp. etrans; [|by eapply accept_posts]. unfold delivered_posts.
  rewrite <- (take_drop (delivered s) (effects (acceptor s)).*2) at 2.
  unfold calls_posted. rewrite omap_app. by apply prefix_app_r.
Qed.

(** A task of a worker is the connection of one post. *)
Lemma worker_started s tr k w t b :
  Running s tr -> workers s !! k = Some w -> Started t b ∈ at_site (SWorker k) tr -> exists i j fd,
    started_ids (at_site (SWorker k) tr) !! i = Some t /\ b = conn j fd /\
    posts_to k (delivered_posts s) !! i = Some (j, fd).
Proof.
  intros Hr Hk (i & Ht & Hb)%started_index. destruct (rn_workers _ _ Hr _ _ Hk) as [_ Hbs].
  assert (Hbi : ((fun p => conn p.1 p.2) <$> posts_to k (delivered_posts s)) !! i = Some b)
    by (rewrite <- Hbs; by apply lookup_app_l_Some).
  apply list_lookup_fmap_Some in Hbi as ([j fd] & -> & Hi). by exists i, j, fd.
Qed.

Lemma clients_behave k tr :
  tr `prefix_of` at_site (SWorker k) full ->
  started_bodies tr `prefix_of` ((fun p => conn p.1 p.2) <$> posts_to k all_posts) ->
  trace_behaves not_timeout tr.
Proof.
  intros Hp Hb t b Hin h Hh. destruct (started_index _ _ _ Hin) as (i & Ht & Hbi).
  eapply prefix_lookup_Some in Hbi; [|exact Hb].
  apply list_lookup_fmap_Some in Hbi as ([j fd] & -> & Hi).
  eapply prefix_lookup_Some in Ht; [|by apply started_ids_prefix].
  destruct (kr_clients _ _ Hfull _ _ _ _ _ Ht Hi) as [Hok Hr].
  apply (client_fine fs docroot timeout fuel (at_fd (clients j) fd) h); [done|].
  eapply client_replies_prefix; [|exact Hr]. etrans; [exact Hh|by apply heard_prefix].
Qed.

Lemma accept_behaves tr :
  at_site SAcceptor tr `prefix_of` at_site SAcceptor full ->
  (forall t b, Started t b ∈ at_site SAcceptor tr -> t = 0%nat /\ b = accept) ->
  trace_behaves not_timeout (at_site SAcceptor tr).
Proof.
  intros Hp Hs t b Hin h Hh. destruct (Hs _ _ Hin) as [-> ->].
  assert (Hf : h `prefix_of` heard 0 (at_site SAcceptor full)) by (etrans; [exact Hh|by apply heard_prefix]).
  apply accept_replay; [apply Hfull|apply Hfull| |].
  - eapply Forall_prefix; [exact Hf|apply Hfull].
  - apply prefix_length in Hf. pose proof (kr_fuel _ _ Hfull). lia.
Qed.

Lemma started_ids_length {V C} (tr : list (event V C)) : length (started_ids tr) = length (started_bodies tr).
Proof.
  induction tr as [|ev tr IH]; [done|]. unfold started_ids, started_bodies in *.
  destruct ev; cbn; [by rewrite IH|exact IH..].
Qed.

Lemma started_pair {V C} (tr : list (event V C)) i t b :
  started_ids tr !! i = Some t -> started_bodies tr !! i = Some b -> Started t b ∈ tr.
Proof.
  revert i; induction tr as [|ev tr IH]; intros i; [done|].
  destruct ev; try (intros Ht Hb; right; by apply (IH i)).
  destruct i as [|i]; [intros [= ->] [= ->]; by left|]. intros Ht Hb. right. by apply (IH i).
Qed.

Lemma acceptor_step s tr l :
  Running s tr -> tr ++ strace s (AcceptorRound l) `prefix_of` full ->
  exists s', step s (AcceptorRound l) = Ret s' /\ Running s' (tr ++ strace s (AcceptorRound l)).
Proof.
  intros Hr Hp. set (tr' := tr ++ _) in *.
  assert (Hsite : at_site SAcceptor tr' = at_site SAcceptor tr ++ round_trace (acceptor s) l)
    by (unfold tr'; cbn; by rewrite at_site_app, at_site_same).
  assert (Hother : forall k, at_site (SWorker k) tr' = at_site (SWorker k) tr)
    by (intros k; unfold tr'; cbn; by rewrite at_site_app, at_site_other, app_nil_r).
  assert (Hbodies : started_bodies (at_site SAcceptor tr') = [accept] /\
    started_ids (at_site SAcceptor tr') = [0%nat]).
  { destruct (rn_accept _ _ Hr) as [Hb Hi]. rewrite Hsite, started_bodies_app, started_ids_app, Hb, Hi.
    pose proof (round_trace_bodies (acceptor s) l) as Hrb. rewrite (rn_quiet _ _ Hr) in Hrb. rewrite Hrb.
    split; [done|]. pose proof (started_ids_length (round_trace (acceptor s) l)) as Hlen.
    rewrite Hrb in Hlen. apply length_zero_iff_nil in Hlen. by rewrite Hlen. }
  assert (Hs : forall t b, Started t b ∈ at_site SAcceptor tr' -> t = 0%nat /\ b = accept).
  { intros t b (i & Ht & Hb)%started_index. destruct Hbodies as [Hbs His]. rewrite His in Ht. rewrite Hbs in Hb.
    destruct i; [|done]. by simplify_eq/=. }
  destruct (agree_run_round not_timeout (acceptor s) l (at_site SAcceptor tr)) as (a & Ha & Hag).
  - apply Hr.
  - rewrite <- Hsite. split; [by apply site_live|]. apply accept_behaves; [by apply at_site_prefix|done].
  - exists (mkServer a (workers s) (delivered s) (posted s)). cbn [server_step]. rewrite Ha. split; [done|].
    pose proof (run_round_effects _ _ _ Ha) as Heff.
    assert (Hdp : delivered_posts (mkServer a (workers s) (delivered s) (posted s)) = delivered_posts s).
    { unfold delivered_posts. cbn. destruct Heff as [k ->]. rewrite fmap_app, take_app_le; [done|].
      rewrite length_fmap. apply (rn_delivered _ _ Hr). }
    constructor; cbn [acceptor workers delivered posted].
    + rewrite Hsite. done.
    + done.
    + by eapply run_round_posts.
    + apply Hr.
    + apply prefix_length in Heff. pose proof (rn_delivered _ _ Hr). lia.
    + rewrite Hdp. apply Hr.
    + intros k w Hk. rewrite Hother, Hdp. by apply Hr.
Qed.

Lemma worker_step s tr k l :
  Running s tr -> tr ++ strace s (WorkerRound k l) `prefix_of` full ->
  exists s', step s (WorkerRound k l) = Ret s' /\ Running s' (tr ++ strace s (WorkerRound k l)).
Proof.
  intros Hr Hp. cbn [server_step strace step_trace] in *.
  destruct (workers s !! k) as [w|] eqn:Ek; [|exists s; split; [done|by rewrite app_nil_r]].
  set (tr' := tr ++ _) in *.
  assert (Hsite : at_site (SWorker k) tr' = at_site (SWorker k) tr ++ round_trace w l)
    by (unfold tr'; by rewrite at_site_app, at_site_same).
  assert (Hother : forall x, x <> SWorker k -> at_site x tr' = at_site x tr)
    by (intros x Hx; unfold tr'; by rewrite at_site_app, at_site_other, app_nil_r by done).
  destruct (rn_workers _ _ Hr _ _ Ek) as [Hag Hb].
  assert (Hb' : started_bodies (at_site (SWorker k) tr') = (fun p => conn p.1 p.2) <$> posts_to k (delivered_posts s))
    by (rewrite Hsite, started_bodies_app, round_trace_bodies; exact Hb).
  assert (Htr : tr `prefix_of` full) by (etrans; [by apply prefix_app_r|exact Hp]).
  destruct (agree_run_round not_timeout w l (at_site (SWorker k) tr)) as (w' & Hw & Hag'); [done| |].
  - rewrite <- Hsite. split; [by apply site_live|]. eapply clients_behave; [by apply at_site_prefix|].
    rewrite Hb'. destruct (posts_to_prefix k _ _ (delivered_prefix s tr Hr Htr)) as [m ->].
    rewrite fmap_app. by apply prefix_app_r.
  - exists (mkServer (acceptor s) (<[k := w']> (workers s)) (delivered s) (posted s)). rewrite Hw.
    split; [done|]. constructor; cbn [acceptor workers delivered posted];
      rewrite ?(Hother SAcceptor) by done; try apply Hr.
    + rewrite length_insert. apply Hr.
    + intros k' w1 Hk'. change (delivered_posts _) with (delivered_posts s).
      destruct (decide (k' = k)) as [->|Hne].
      * rewrite list_lookup_insert_eq in Hk' by (by eapply lookup_lt_Some). injection Hk' as <-.
        rewrite Hsite at 1. split; [done|]. rewrite Hb', (run_round_posts _ _ _ Hw). by rewrite app_nil_r.
      * rewrite list_lookup_insert_ne in Hk' by done. rewrite Hother by congruence. by apply Hr.
Qed.

Lemma all_posts_range z fd : (z, fd) ∈ all_posts -> 0 <= z < Z.of_nat size_workers.
Proof.
  intros [j Hj]%list_elem_of_lookup_1. unfold round_robin in Hj. rewrite list_lookup_imap in Hj.
  destruct (accepted_fds _ !! j); [|done]. injection Hj as <- _. apply Z.mod_pos_bound.
  pose proof (kr_workers _ _ Hfull). lia.
Qed.

Lemma delivered_snoc s t x :
  effects (acceptor s) !! delivered s = Some (t, x) ->
  calls_posted (take (S (delivered s)) (effects (acceptor s)).*2) = delivered_posts s ++ calls_posted [x].
Proof.
  intros Hx. unfold delivered_posts. rewrite (take_S_r _ _ x) by (by rewrite list_lookup_fmap, Hx).
  unfold calls_posted. apply omap_app.
Qed.

Lemma deliver_step s tr :
  Running s tr -> tr `prefix_of` full -> Running (deliver fs docroot timeout fuel worlds s) tr.
Proof.
  intros Hr Hp. unfold deliver. destruct (effects (acceptor s) !! delivered s) as [[t x]|] eqn:Ex; [|done].
  pose proof (delivered_snoc s t x Ex) as Hsnoc. apply lookup_lt_Some in Ex as Hlt.
  destruct x as [l|z fd].
  - cbn [calls_posted omap list_omap] in Hsnoc. rewrite app_nil_r in Hsnoc.
    assert (Hdp : delivered_posts (mkServer (acceptor s) (workers s) (S (delivered s)) (posted s)) = delivered_posts s)
      by exact Hsnoc.
    constructor; cbn [acceptor workers delivered posted]; rewrite ?Hdp; try apply Hr. lia.
  - set (s' := mkServer _ _ _ _). cbn [calls_posted omap list_omap] in Hsnoc.
    assert (Hdp : delivered_posts s' = delivered_posts s ++ [(z, fd)]) by exact Hsnoc.
    assert (Hz : 0 <= z < Z.of_nat size_workers).
    { apply (all_posts_range z fd). destruct (accept_posts s tr Hr Hp) as [k ->]. apply elem_of_app. left.
      apply list_elem_of_omap. exists (CallPost z fd). split; [|done]. apply list_elem_of_fmap.
      exists (t, CallPost z fd). split; [done|]. by eapply list_elem_of_lookup_2. }
    constructor; cbn [s' acceptor workers delivered posted]; try apply Hr.
    + rewrite length_alter. apply Hr.
    + lia.
    + fold s'. rewrite Hdp, length_app. cbn. rewrite (rn_posted _ _ Hr). lia.
    + fold s'. intros k w Hk. rewrite Hdp, posts_to_snoc, fmap_app.
      destruct (decide (Z.to_nat z = k)) as [<-|Hne].
      * rewrite list_lookup_alter_eq in Hk. destruct (workers s !! Z.to_nat z) as [w1|] eqn:Ek; [|done].
        injection Hk as <-. destruct (rn_workers _ _ Hr _ _ Ek) as [Hag Hb].
        split; [by apply (agree_queues _ w1)|]. rewrite Z2Nat.id, Z.eqb_refl by lia. cbn.
        rewrite app_assoc, Hb, <- (rn_posted _ _ Hr). done.
      * rewrite list_lookup_alter_ne in Hk by done. destruct (rn_workers _ _ Hr _ _ Hk) as [Hag Hb].
        split; [done|]. rewrite (proj2 (Z.eqb_neq _ _)) by lia. by rewrite app_nil_r.
Qed.

Lemma step_running s tr a :
  Running s tr -> tr ++ strace s a `prefix_of` full ->
  exists s', step s a = Ret s' /\ Running s' (tr ++ strace s a).
Proof.
  destruct a as [l|k l|]; [apply acceptor_step|apply worker_step|].
  cbn. rewrite app_nil_r. intros Hr Hp. eexists. split; [done|]. by apply deliver_step.
Qed.

Lemma run_running acts : forall s tr,
  Running s tr -> tr ++ run_trace fs docroot timeout fuel worlds s acts = full ->
  exists s', run_server fs docroot timeout fuel worlds s acts = Ret s' /\ Running s' full.
Proof.
  induction acts as [|a acts IH]; intros s tr Hr Hf; cbn [run_trace run_server] in *.
  - exists s. rewrite app_nil_r in Hf. by subst.
  - rewrite app_assoc in Hf.
    destruct (step_running s tr a Hr) as (s1 & Hs1 & Hr1); [rewrite <- Hf; by apply prefix_app_r|].
    rewrite Hs1 in *. by apply (IH s1 _ Hr1).
Qed.

Lemma start_running : Running start [(SAcceptor, Started 0 accept)].
Proof.
  pose proof (agree_new not_timeout entries (kr_entries _ _ Hfull) (V := conn_value) (C := server_call)) as Hn.
  constructor; try done.
  - apply (agree_start_task not_timeout (new_scheduler entries) accept []). exact Hn.
  - apply length_replicate.
  - intros k w Hk. apply lookup_replicate in Hk as [-> _]. by split.
Qed.

(** A connection that is not to be resumed is where it is alone. *)
Lemma connection_running s k w j fd :
  Running s full -> delivered_posts s !! j = Some (Z.of_nat k, fd) ->
  workers s !! k = Some w -> posts w = [] -> connection_served full k w j fd.
Proof.
  intros Hr Hj Hk Hp. destruct (rn_workers _ _ Hr _ _ Hk) as [Hag Hb]. rewrite Hp, app_nil_r in Hb.
  apply posts_to_lookup in Hj as [i Hi]%list_elem_of_lookup_1.
  assert (Hbi : started_bodies (at_site (SWorker k) full) !! i = Some (conn j fd))
    by (rewrite Hb, list_lookup_fmap, Hi; done).
  assert (is_Some (started_ids (at_site (SWorker k) full) !! i)) as [t Ht].
  { apply lookup_lt_is_Some_2. rewrite started_ids_length. by eapply lookup_lt_Some. }
  assert (Hin : Started t (conn j fd) ∈ at_site (SWorker k) full) by (by eapply started_pair).
  exists t. split; [done|]. intros Hq c.
  eapply prefix_lookup_Some in Hi; [|by apply posts_to_prefix, (delivered_prefix s full)].
  destruct (kr_clients _ _ Hfull _ _ _ _ _ Ht Hi) as [Hok Hrep].
  apply (client_status fs docroot timeout fuel w t c); [done|done|].
  by apply (agree_status not_timeout w (ready w)).
Qed.

(** An accept loop that is not to be resumed has posted every accept it heard. *)
Lemma accept_posts_all s :
  Running s full -> ready (acceptor s) = [] -> calls_posted (effects (acceptor s)).*2 = all_posts.
Proof.
  intros Hr Hq. pose proof (rn_acceptor _ _ Hr) as Ha. rewrite Hq in Ha.
  rewrite (accept_effects s full Hr).
  destruct (agree_status _ _ _ _ 0 accept Ha (accept_in s full Hr) (not_elem_of_nil _)) as [Hc Hst].
  rewrite Hc. destruct (accept_replay fuel listen_fd (Z.of_nat size_workers) w0 (heard 0 (at_site SAcceptor full)))
    as [_ [Hm|Hp]]; [apply Hfull..| |exact Hp].
  unfold accept_body in Hst. rewrite Hm in Hst.
  destruct (tasks (acceptor s) !! 0%nat) as [[]|]; [done|by destruct Hst as (? & _ & ?)|done|by destruct Hst].
Qed.
End run.
End invariant.

(** * Properties *)


(** Two clients that send [two_chunks] to a server of two workers, one after the
    other; the second is silent. *)
Definition hello_clients (j : nat) : client := hello_client (Z.of_nat j).
Definition two_accepts : list action :=
  [AcceptorRound []; AcceptorRound [(0%nat, 7, 0, [])]; AcceptorRound [(0%nat, 8, 0, [])]; AcceptorRound []].
Definition two_workers_acts : list action :=
  let c1 := lit "GET /hello HTTP/1.0" ++ crlf ++ lit "Ho" in
  let c2 := lit "st: a" ++ crlf ++ crlf in
  two_accepts ++
  [Deliver; WorkerRound 1 []; Deliver; WorkerRound 0 []; Deliver; WorkerRound 0 [(0%nat, size c1, 0, c1)]; Deliver;
   WorkerRound 1 []; WorkerRound 0 [(1%nat, size c2, 0, c2)]; WorkerRound 0 [(2%nat, 157, 0, [])]; WorkerRound 0 []].
Definition idle_world : World := mkWorld [] [] [] [] [] [] 0 [].

#[local] Abbreviation hello_trace :=
  (server_trace no_files (lit "/srv") 30000000000 400 16 3 2 idle_world (fun j => cl_world (hello_clients j))
     two_workers_acts).

(** The worker of the first client is idle, the client answered. *)
Example two_workers_end :
  match run_server no_files (lit "/srv") 30000000000 400 (fun j => cl_world (hello_clients j))
      (start_server 400 16 3 2 idle_world) two_workers_acts with
  | Ret s =>
      match workers s with
      | [w; w2] =>
          match tasks w !! 0%nat, tasks w2 !! 0%nat with
          | Some (TaskDone (Ret (UnitValue v))), Some (TaskWaiting _ _ _) =>
              bool_decide (w_sent v = answers no_files (lit "/srv") [hello_request] /\
                delivered_posts s = [(0, 7); (1, 8)])
          | _, _ => false
          end
      | _ => false
      end
  | _ => false
  end = true.
Proof. vm_compute. reflexivity. Qed.

Lemma two_accepts_run clock full :
  kernel_clock clock full.*2 -> Forall (fun t => t < 30000000000) clock ->
  heard 0 (at_site SAcceptor full) = [(SqAccept 3 526336 false, 7, []); (SqAccept 3 526336 false, 8, [])] ->
  (forall k, (k < 2)%nat -> started_ids (at_site (SWorker k) full) = [0%nat] /\
     client_replies_b (hello_client 7) (heard 0 (at_site (SWorker k) full)) = true) ->
  kernel_run no_files (lit "/srv") 30000000000 400 16 2 idle_world hello_clients clock full.
Proof.
  intros Hc Hshort Ha Hw. constructor; [done|lia|done|done|done|done|..]; rewrite ?Ha.
  - by repeat constructor.
  - cbn. lia.
  - intros k i t j fd Ht Hp. assert (Hlt : (k < 2)%nat).
    { apply list_elem_of_lookup_2, list_elem_of_omap in Hp as ([n [z fd']] & Hin & Hp). cbn in Hin, Hp.
      destruct (z =? Z.of_nat k) eqn:Hz; [|done]. zbool.
      apply list_elem_of_In in Hin as [Hin|[Hin|[]]]; injection Hin as <- <- <-;
        rewrite <- (Nat2Z.id k), <- Hz; vm_compute; lia. }
    destruct k as [|[|k]]; [| |lia];
      [destruct (Hw 0%nat) as [Hids Hrep]; [lia|]|destruct (Hw 1%nat) as [Hids Hrep]; [lia|]];
      rewrite Hids in Ht; (destruct i; [|done]); injection Ht as <-; injection Hp as <- <-;
      (split; [by apply hello_client_ok|exact (client_replies_compute _ _ Hrep)]).
Qed.

(** Each event takes a millisecond. *)
Definition hello_clock : list Z := (fun i => Z.of_nat i * 1000000) <$> seq 0 8.

Lemma hello_kernel_run :
  kernel_run no_files (lit "/srv") 30000000000 400 16 2 idle_world hello_clients hello_clock hello_trace.
Proof.
  apply two_accepts_run.
  { apply kernel_clock_compute. vm_compute. reflexivity. }
  { by repeat constructor. }
  { vm_compute. reflexivity. }
  intros k Hk. destruct k as [|[|k]]; [| |lia]; split; vm_compute; reflexivity.
Qed.

