(* ===== verification/Util.v ===== *)
(** * Util: the I/O helpers of WebServer/Util.cpp

    [readn], [writen] and [socket_bind_listen] over what the kernel answers: a
    list of results, one per call, after which a call fails with [EAGAIN] (the
    descriptors are non-blocking).  Sums of transferred bytes are [Z]: they are
    bounded by the bytes transferred. *)

From S2P Require Export CxxString.

Definition EINTR : Z := 4.
Definition EAGAIN : Z := 11.
Definition MAX_BUFF : Z := 4096.

(** A [read] returns bytes (none at the end of the stream) or fails. *)
Inductive read_result := ReadBytes (b : bytes) | ReadError (errno : Z).

(** A [write] accepts up to [n] of the bytes offered, or fails. *)
Inductive write_result := WriteUpTo (n : Z) | WriteError (errno : Z).

(** One call with a buffer of [n] bytes. *)
Definition sys_read (n : Z) (r : read_result) : read_result :=
  match r with ReadBytes b => ReadBytes (take (Z.to_nat n) b) | e => e end.

(** [readn(fd, buff, n)]: the result, the bytes stored and the results left. *)
Fixpoint readn_into (n : Z) (stored : bytes) (k : list read_result)
    : Z * bytes * list read_result :=
  if size stored <? n then
    match k with
    | [] => (size stored, stored, [])
    | r :: k' =>
        match sys_read (n - size stored) r with
        | ReadError e =>
            if e =? EINTR then readn_into n stored k'
            else if e =? EAGAIN then (size stored, stored, k')
            else (-1, stored, k')
        | ReadBytes b =>
            if size b =? 0 then (size stored, stored, k')
            else readn_into n (stored ++ b) k'
        end
    end
  else (size stored, stored, k).

(** [readn(fd, inBuffer, zero)] from [readSum] on: the result, the buffer, the
    flag and the results left. *)
Fixpoint readn (readSum : Z) (inBuffer : bytes) (zero : bool) (k : list read_result)
    : Z * bytes * bool * list read_result :=
  match k with
  | [] => (readSum, inBuffer, zero, [])
  | r :: k' =>
      match sys_read MAX_BUFF r with
      | ReadError e =>
          if e =? EINTR then readn readSum inBuffer zero k'
          else if e =? EAGAIN then (readSum, inBuffer, zero, k')
          else (-1, inBuffer, zero, k')
      | ReadBytes b =>
          if size b =? 0 then (readSum, inBuffer, true, k')
          else readn (readSum + size b) (inBuffer ++ b) zero k'
      end
  end.

(** [writen(fd, buff, n)] where [rest] is at [ptr]: the result, the bytes that
    were written and the results left. *)
Fixpoint writen_raw (writeSum : Z) (rest sent : bytes) (k : list write_result)
    : Z * bytes * list write_result :=
  if size rest =? 0 then (writeSum, sent, k)
  else
    match k with
    | [] => (writeSum, sent, [])
    | WriteError e :: k' =>
        if e =? EINTR then writen_raw writeSum rest sent k'
        else if e =? EAGAIN then (writeSum, sent, k')
        else (-1, sent, k')
    | WriteUpTo n :: k' =>
        let m := Z.to_nat (Z.max 0 (Z.min n (size rest))) in
        writen_raw (writeSum + Z.of_nat m) (drop m rest) (sent ++ take m rest) k'
    end.

(** The loop of [writen(fd, sbuff)]; [None] when it returns -1 at once. *)
Fixpoint writen_loop (writeSum : Z) (rest sent : bytes) (k : list write_result)
    : option Z * bytes * list write_result :=
  if size rest =? 0 then (Some writeSum, sent, k)
  else
    match k with
    | [] => (Some writeSum, sent, [])
    | WriteError e :: k' =>
        if e =? EINTR then writen_loop writeSum rest sent k'
        else if e =? EAGAIN then (Some writeSum, sent, k')
        else (None, sent, k')
    | WriteUpTo n :: k' =>
        let m := Z.to_nat (Z.max 0 (Z.min n (size rest))) in
        writen_loop (writeSum + Z.of_nat m) (drop m rest) (sent ++ take m rest) k'
    end.

(** [writen(fd, sbuff)]: the result, the new value of [sbuff], the bytes that
    were written and the results left. *)
Definition writen (sbuff : bytes) (k : list write_result)
    : outcome (Z * bytes * bytes * list write_result) :=
  match writen_loop 0 sbuff [] k with
  | (None, sent, k') => Ret (-1, sbuff, sent, k')
  | (Some writeSum, sent, k') =>
      if writeSum =? i32 (size sbuff) then Ret (writeSum, [], sent, k')
      else
        rest ← substr sbuff writeSum npos;
        Ret (writeSum, rest, sent, k')
  end.

(** [socket_bind_listen]: what [socket], [setsockopt], [bind] and [listen]
    return, then the result and the descriptors closed. *)
Definition socket_bind_listen (port sock_fd sockopt bind_rc listen_rc : Z) : Z * list Z :=
  if (port <? 0) || (port >? 65535) then (-1, [])
  else if sock_fd =? -1 then (-1, [])
  else if sockopt =? -1 then (-1, [sock_fd])
  else if bind_rc =? -1 then (-1, [sock_fd])
  else if listen_rc =? -1 then (-1, [sock_fd])
  else (sock_fd, []).

(** [setSocketNonBlocking]: what the two [fcntl] calls return. *)
Definition setSocketNonBlocking (get_rc set_rc : Z) : Z :=
  if get_rc =? -1 then -1 else if set_rc =? -1 then -1 else 0.

(** The options of a socket that the server sets: [O_NONBLOCK], [TCP_NODELAY],
    the seconds of [SO_LINGER], and whether its sending side was shut down. *)
Record socket_options := mkSocketOptions {
  so_nonblock : bool;
  so_nodelay : bool;
  so_linger : option Z;
  so_shut_wr : bool
}.

(** The results of these calls are not looked at. *)
Definition setSocketNodelay (o : socket_options) : socket_options :=
  mkSocketOptions (so_nonblock o) true (so_linger o) (so_shut_wr o).

Definition setSocketNoLinger (o : socket_options) : socket_options :=
  mkSocketOptions (so_nonblock o) (so_nodelay o) (Some 30) (so_shut_wr o).

Definition shutDownWR (o : socket_options) : socket_options :=
  mkSocketOptions (so_nonblock o) (so_nodelay o) (so_linger o) true.

(** [handle_for_sigpipe]: whether [SIGPIPE] is ignored, before and after, given
    the result of [sigaction]. *)
Definition handle_for_sigpipe (ignored : bool) (rc : Z) : bool := if rc =? 0 then true else ignored.

(** * Lemmas *)

(** The bytes that [readn] takes from [k]: up to the end of the stream or the
    first error other than [EINTR]. *)
Fixpoint received (k : list read_result) : bytes :=
  match k with
  | ReadBytes b :: k' => if size b =? 0 then [] else take (Z.to_nat MAX_BUFF) b ++ received k'
  | ReadError e :: k' => if e =? EINTR then received k' else []
  | [] => []
  end.

(** How that ends: end of stream, nothing more, or an error. *)
Inductive read_end := AtEnd | NoMore | Failed.

Fixpoint reads_end (k : list read_result) : read_end :=
  match k with
  | ReadBytes b :: k' => if size b =? 0 then AtEnd else reads_end k'
  | ReadError e :: k' =>
      if e =? EINTR then reads_end k' else if e =? EAGAIN then NoMore else Failed
  | [] => NoMore
  end.

Lemma size_take_max b : (size (take (Z.to_nat MAX_BUFF) b) =? 0) = (size b =? 0).
Proof.
  unfold size. rewrite length_take. apply Bool.eq_iff_eq_true. rewrite !Z.eqb_eq. unfold MAX_BUFF. lia.
Qed.

Lemma readn_spec k : forall readSum inBuffer zero, exists k',
  readn readSum inBuffer zero k =
  (match reads_end k with Failed => -1 | _ => readSum + size (received k) end,
   inBuffer ++ received k,
   match reads_end k with AtEnd => true | _ => zero end, k').
Proof.
  induction k as [|[b|e] k IH]; intros sum buf zero; cbn [readn received reads_end sys_read].
  - eexists. by rewrite app_nil_r, size_nil, Z.add_0_r.
  - rewrite size_take_max. case_if.
    + eexists. by rewrite app_nil_r, size_nil, Z.add_0_r.
    + destruct (IH (sum + size (take (Z.to_nat MAX_BUFF) b)) (buf ++ take (Z.to_nat MAX_BUFF) b) zero)
        as [k' ->]. exists k'. by rewrite size_app, Z.add_assoc, app_assoc.
  - case_if; [apply IH|]. case_if; eexists; by rewrite app_nil_r, ?size_nil, ?Z.add_0_r.
Qed.

Lemma writen_loop_spec k : forall sum rest sent r sent' k',
  sum = size sent -> writen_loop sum rest sent k = (r, sent', k') ->
  exists d, sent' = sent ++ d /\ d `prefix_of` rest /\
    match r with Some s => s = size sent' | None => True end.
Proof.
  induction k as [|[n|e] k IH]; intros sum rest sent r sent' k' Hsum; cbn [writen_loop].
  - case_if; intros [= <- <- <-]; exists []; rewrite app_nil_r; (split_and!; [done|apply prefix_nil|done]).
  - case_if; [intros [= <- <- <-]; exists []; rewrite app_nil_r; (split_and!; [done|apply prefix_nil|done])|].
    set (m := Z.to_nat _). intros H. apply IH in H as (d & -> & [t Ht] & Hr).
    + exists (take m rest ++ d). split_and!; [by rewrite app_assoc| |done].
      exists t. rewrite <- app_assoc, <- Ht. by rewrite take_drop.
    + rewrite size_app, Hsum. unfold size at 3. rewrite length_take. unfold m, size. lia.
  - case_if; [intros [= <- <- <-]; exists []; rewrite app_nil_r; (split_and!; [done|apply prefix_nil|done])|].
    case_if; [by apply IH|].
    case_if; intros [= <- <- <-]; exists []; rewrite app_nil_r; (split_and!; [done|apply prefix_nil|done]).
Qed.

Lemma substr_tail s p : fits s -> 0 <= p <= size s -> substr s p npos = Ret (drop (Z.to_nat p) s).
Proof.
  intros Hf Hp. rewrite substr_ok by lia. unfold fits, npos in *.
  rewrite take_ge; [done|]. rewrite length_drop. unfold size in *. lia.
Qed.

Lemma writen_cases sbuff k :
  size sbuff < 2 ^ 31 -> exists r sbuff' sent k', writen sbuff k = Ret (r, sbuff', sent, k') /\
    ((r = -1 /\ sbuff' = sbuff /\ sent `prefix_of` sbuff) \/
     (r = size sent /\ sbuff = sent ++ sbuff')).
Proof.
  intros Hs. unfold writen. destruct (writen_loop 0 sbuff [] k) as [[r sent] k'] eqn:E.
  apply writen_loop_spec in E as (d & -> & [t Ht] & Hr); [|done]. cbn [app] in *.
  destruct r as [s|].
  2: { eexists _, _, _, _. split; [done|]. left. split_and!; [done..|by exists t]. }
  subst s. pose proof (size_nonneg sbuff). pose proof (size_nonneg d). pose proof (size_nonneg t).
  rewrite i32_small by lia. case_if; zbool.
  - eexists _, _, _, _. split; [done|]. right. split; [done|].
    rewrite Ht, size_app in E. destruct t as [|c t]; [done|]. rewrite size_cons in E.
    pose proof (size_nonneg t). lia.
  - rewrite substr_tail; [|unfold fits; lia|rewrite Ht, size_app; lia].
    eexists _, _, _, _. split; [reflexivity|]. right. split; [done|].
    rewrite Ht at 2. unfold size. by rewrite Nat2Z.id, drop_app_length.
Qed.

(** * Properties *)

(** [writen] loses and repeats nothing. For any answers of the kernel it
    returns; on success the bytes written followed by what it leaves in the
    buffer are the buffer it was given, and the result counts the former; on
    failure it returns -1, has written a prefix and leaves the buffer. *)
Theorem writen_conserves sbuff k :
  size sbuff < 2 ^ 31 -> exists r sbuff' sent k', writen sbuff k = Ret (r, sbuff', sent, k') /\
    ((r = -1 /\ sbuff' = sbuff /\ sent `prefix_of` sbuff) \/
     (r = size sent /\ sbuff = sent ++ sbuff')).
Proof. apply writen_cases. Qed.

Lemma writen_conserves_witness :
  exists r sbuff' sent k',
    writen (lit "hello") [WriteUpTo 2; WriteError EINTR; WriteUpTo 1; WriteError EAGAIN]
      = Ret (r, sbuff', sent, k') /\
    ((r = -1 /\ sbuff' = lit "hello" /\ sent `prefix_of` lit "hello") \/
     (r = size sent /\ lit "hello" = sent ++ sbuff')).
Proof. apply writen_conserves. vm_compute. reflexivity. Defined.

(** [readn] appends exactly the bytes received up to the end of the stream,
    [EAGAIN] or an error, in order and across [EINTR]; the result counts them,
    or is -1 after an error, and [zero] is set exactly at the end of the
    stream. *)
Theorem readn_appends inBuffer k : exists k',
  readn 0 inBuffer false k =
  (match reads_end k with Failed => -1 | _ => size (received k) end,
   inBuffer ++ received k,
   match reads_end k with AtEnd => true | _ => false end, k').
Proof. apply (readn_spec k 0 inBuffer false). Qed.
