(* ===== verification/HttpData.v ===== *)
(** * HttpData: a connection of the epoll server (WebServer/HttpData.{h,cpp})

    The request line and header parsers, the analysis of a request and the
    event handlers of one connection.  A connection is its [HttpData] object
    with the events of its channel, what the kernel will answer to its reads
    and writes, the bytes it sent and the calls it made to its loop. *)

From S2P Require Export Util.

(** ** HttpData.h *)

Inductive ProcessState :=
  | STATE_PARSE_URI | STATE_PARSE_HEADERS | STATE_RECV_BODY | STATE_ANALYSIS | STATE_FINISH.
Inductive URIState := PARSE_URI_AGAIN | PARSE_URI_ERROR | PARSE_URI_SUCCESS.
Inductive HeaderState := PARSE_HEADER_SUCCESS | PARSE_HEADER_AGAIN | PARSE_HEADER_ERROR.
Inductive AnalysisState := ANALYSIS_SUCCESS | ANALYSIS_ERROR.
Inductive ParseState :=
  | H_START | H_KEY | H_COLON | H_SPACES_AFTER_COLON | H_VALUE | H_CR | H_LF | H_END_CR | H_END_LF.
Inductive ConnectionState := H_CONNECTED | H_DISCONNECTING | H_DISCONNECTED.
Inductive HttpMethod := METHOD_POST | METHOD_GET | METHOD_HEAD.
Inductive HttpVersion := HTTP_10 | HTTP_11.

#[export] Instance ProcessState_eq_dec : EqDecision ProcessState.
Proof. solve_decision. Defined.
#[export] Instance ParseState_eq_dec : EqDecision ParseState.
Proof. solve_decision. Defined.
#[export] Instance ConnectionState_eq_dec : EqDecision ConnectionState.
Proof. solve_decision. Defined.
#[export] Instance HttpMethod_eq_dec : EqDecision HttpMethod.
Proof. solve_decision. Defined.

(** [timer_] names the linked timer node; [events_] are the events of
    [channel_]. *)
Record HttpData := mkHttpData {
  inBuffer_ : bytes;
  outBuffer_ : bytes;
  error_ : bool;
  connectionState_ : ConnectionState;
  method_ : HttpMethod;
  HTTPVersion_ : HttpVersion;
  fileName_ : bytes;
  path_ : bytes;
  nowReadPos_ : Z;
  state_ : ProcessState;
  hState_ : ParseState;
  keepAlive_ : bool;
  headers_ : gmap bytes bytes;
  timer_ : option nat;
  events_ : Z
}.

(** The constructor; a channel starts without events. *)
Definition new_HttpData : HttpData :=
  mkHttpData [] [] false H_CONNECTED METHOD_GET HTTP_11 [] [] 0 STATE_PARSE_URI H_START false ∅
    None 0.

Section setters.
Context (d : HttpData).
Definition set_inBuffer v := mkHttpData v (outBuffer_ d) (error_ d) (connectionState_ d) (method_ d)
  (HTTPVersion_ d) (fileName_ d) (path_ d) (nowReadPos_ d) (state_ d) (hState_ d) (keepAlive_ d)
  (headers_ d) (timer_ d) (events_ d).
Definition set_outBuffer v := mkHttpData (inBuffer_ d) v (error_ d) (connectionState_ d) (method_ d)
  (HTTPVersion_ d) (fileName_ d) (path_ d) (nowReadPos_ d) (state_ d) (hState_ d) (keepAlive_ d)
  (headers_ d) (timer_ d) (events_ d).
Definition set_error v := mkHttpData (inBuffer_ d) (outBuffer_ d) v (connectionState_ d) (method_ d)
  (HTTPVersion_ d) (fileName_ d) (path_ d) (nowReadPos_ d) (state_ d) (hState_ d) (keepAlive_ d)
  (headers_ d) (timer_ d) (events_ d).
Definition set_connection v := mkHttpData (inBuffer_ d) (outBuffer_ d) (error_ d) v (method_ d)
  (HTTPVersion_ d) (fileName_ d) (path_ d) (nowReadPos_ d) (state_ d) (hState_ d) (keepAlive_ d)
  (headers_ d) (timer_ d) (events_ d).
Definition set_method v := mkHttpData (inBuffer_ d) (outBuffer_ d) (error_ d) (connectionState_ d) v
  (HTTPVersion_ d) (fileName_ d) (path_ d) (nowReadPos_ d) (state_ d) (hState_ d) (keepAlive_ d)
  (headers_ d) (timer_ d) (events_ d).
Definition set_version v := mkHttpData (inBuffer_ d) (outBuffer_ d) (error_ d) (connectionState_ d)
  (method_ d) v (fileName_ d) (path_ d) (nowReadPos_ d) (state_ d) (hState_ d) (keepAlive_ d)
  (headers_ d) (timer_ d) (events_ d).
Definition set_fileName v := mkHttpData (inBuffer_ d) (outBuffer_ d) (error_ d) (connectionState_ d)
  (method_ d) (HTTPVersion_ d) v (path_ d) (nowReadPos_ d) (state_ d) (hState_ d) (keepAlive_ d)
  (headers_ d) (timer_ d) (events_ d).
Definition set_state v := mkHttpData (inBuffer_ d) (outBuffer_ d) (error_ d) (connectionState_ d)
  (method_ d) (HTTPVersion_ d) (fileName_ d) (path_ d) (nowReadPos_ d) v (hState_ d) (keepAlive_ d)
  (headers_ d) (timer_ d) (events_ d).
Definition set_hState v h := mkHttpData (inBuffer_ d) (outBuffer_ d) (error_ d) (connectionState_ d)
  (method_ d) (HTTPVersion_ d) (fileName_ d) (path_ d) (nowReadPos_ d) (state_ d) v (keepAlive_ d)
  h (timer_ d) (events_ d).
Definition set_keepAlive v := mkHttpData (inBuffer_ d) (outBuffer_ d) (error_ d) (connectionState_ d)
  (method_ d) (HTTPVersion_ d) (fileName_ d) (path_ d) (nowReadPos_ d) (state_ d) (hState_ d) v
  (headers_ d) (timer_ d) (events_ d).
Definition set_timer v := mkHttpData (inBuffer_ d) (outBuffer_ d) (error_ d) (connectionState_ d)
  (method_ d) (HTTPVersion_ d) (fileName_ d) (path_ d) (nowReadPos_ d) (state_ d) (hState_ d)
  (keepAlive_ d) (headers_ d) v (events_ d).
Definition set_events v := mkHttpData (inBuffer_ d) (outBuffer_ d) (error_ d) (connectionState_ d)
  (method_ d) (HTTPVersion_ d) (fileName_ d) (path_ d) (nowReadPos_ d) (state_ d) (hState_ d)
  (keepAlive_ d) (headers_ d) (timer_ d) v.
End setters.

(** ** MimeType and the icon *)

Definition mime : gmap bytes bytes := list_to_map
  [(lit ".html", lit "text/html"); (lit ".avi", lit "video/x-msvideo"); (lit ".bmp", lit "image/bmp");
   (lit ".c", lit "text/plain"); (lit ".doc", lit "application/msword"); (lit ".gif", lit "image/gif");
   (lit ".gz", lit "application/x-gzip"); (lit ".htm", lit "text/html"); (lit ".ico", lit "image/x-icon");
   (lit ".jpg", lit "image/jpeg"); (lit ".png", lit "image/png"); (lit ".txt", lit "text/plain");
   (lit ".mp3", lit "audio/mp3"); (lit "default", lit "text/html")].

Definition getMime (suffix : bytes) : bytes :=
  match mime !! suffix with
  | Some m => m
  | None => default [] (mime !! lit "default")
  end.

Definition favicon : bytes := (fun n => ascii_of_N (Z.to_N n)) <$> [
    137; 80; 78; 71; 13; 10; 26; 10; 0; 0; 0; 13; 73; 72; 68; 82; 0; 0; 0; 16; 0; 0; 0; 16; 8;
    6; 0; 0; 0; 31; 243; 255; 97; 0; 0; 0; 25; 116; 69; 88; 116; 83; 111; 102; 116; 119; 97;
    114; 101; 0; 65; 100; 111; 98; 101; 32; 73; 109; 97; 103; 101; 82; 101; 97; 100; 121; 113;
    201; 101; 60; 0; 0; 1; 205; 73; 68; 65; 84; 120; 218; 148; 147; 57; 72; 3; 65; 20; 134; 255;
    93; 98; 167; 4; 82; 196; 109; 34; 30; 160; 70; 36; 8; 22; 22; 118; 10; 54; 186; 74; 154;
    128; 8; 65; 180; 113; 133; 88; 137; 71; 176; 73; 169; 81; 36; 205; 166; 8; 164; 72; 99; 145;
    66; 11; 175; 86; 193; 70; 180; 21; 207; 34; 88; 152; 11; 84; 72; 138; 100; 147; 141; 251;
    70; 103; 201; 26; 20; 125; 240; 102; 118; 102; 223; 124; 239; 231; 103; 70; 168; 213; 106;
    72; 36; 18; 42; 0; 5; 191; 71; 212; 239; 247; 47; 54; 236; 18; 32; 30; 143; 215; 170; 213;
    234; 175; 73; 53; 70; 170; 84; 95; 159; 34; 65; 42; 149; 10; 131; 229; 114; 57; 100; 179;
    89; 150; 153; 76; 6; 233; 116; 154; 37; 133; 44; 203; 84; 167; 196; 98; 49; 181; 94; 0; 3;
    104; 154; 198; 22; 130; 32; 88; 82; 20; 69; 54; 83; 148; 203; 101; 120; 189; 94; 170; 85;
    84; 35; 76; 192; 224; 226; 193; 143; 0; 158; 188; 9; 65; 124; 62; 31; 131; 68; 34; 17; 213;
    84; 64; 63; 56; 128; 119; 229; 51; 7; 184; 92; 46; 72; 146; 4; 135; 195; 129; 64; 32; 64;
    103; 152; 233; 54; 26; 166; 103; 21; 4; 227; 215; 200; 189; 21; 225; 105; 183; 67; 171; 234;
    120; 47; 106; 88; 146; 187; 24; 32; 159; 207; 51; 195; 184; 233; 78; 167; 211; 108; 74; 0;
    105; 54; 124; 142; 225; 254; 86; 132; 231; 60; 159; 114; 43; 58; 66; 123; 55; 102; 119; 174;
    142; 14; 243; 189; 82; 169; 100; 2; 66; 175; 133; 50; 102; 70; 186; 12; 217; 159; 29; 154;
    108; 34; 230; 199; 58; 44; 128; 239; 193; 21; 144; 7; 147; 162; 40; 160; 83; 106; 177; 184;
    223; 41; 53; 67; 14; 63; 88; 252; 152; 218; 121; 106; 80; 64; 0; 135; 174; 27; 23; 66; 180;
    58; 63; 190; 121; 199; 10; 38; 182; 238; 217; 154; 96; 20; 147; 219; 143; 13; 10; 46; 233;
    35; 149; 41; 88; 0; 39; 235; 110; 86; 112; 188; 214; 203; 214; 71; 171; 61; 108; 125; 184;
    210; 221; 160; 96; 131; 186; 239; 95; 164; 234; 204; 2; 78; 174; 94; 112; 26; 236; 179; 64;
    57; 172; 254; 242; 145; 137; 103; 145; 133; 33; 168; 135; 183; 88; 126; 126; 133; 187; 205;
    78; 78; 98; 116; 64; 250; 147; 137; 236; 30; 236; 134; 2; 72; 38; 147; 208; 117; 29; 127; 9;
    50; 149; 191; 31; 219; 215; 99; 138; 26; 247; 92; 193; 255; 34; 74; 195; 135; 0; 3; 0; 75;
    187; 248; 214; 42; 118; 152; 73; 0; 0; 0; 0; 73; 69; 78; 68; 174; 66; 96; 130].

(** ** parseURI

    Positions are [size_t]; a comparison [pos < 0] of such a position is never
    true, and is kept as the source has it. *)
Definition parseURI (d : HttpData) : outcome (URIState * HttpData) :=
  let str := inBuffer_ d in
  let pos := find_char CR str (u64 (nowReadPos_ d)) in
  if pos <? 0 then Ret (PARSE_URI_AGAIN, d)
  else
    request_line ← substr str 0 pos;
    str' ← (if u64 (pos + 1) <? size str then substr str (u64 (pos + 1)) npos else Ret []);
    let d := set_inBuffer d str' in
    let posGet := i32 (find (lit "GET") request_line 0) in
    let posPost := i32 (find (lit "POST") request_line 0) in
    let posHead := i32 (find (lit "HEAD") request_line 0) in
    let found :=
      if 0 <=? posGet then Some (posGet, METHOD_GET)
      else if 0 <=? posPost then Some (posPost, METHOD_POST)
      else if 0 <=? posHead then Some (posHead, METHOD_HEAD)
      else None in
    match found with
    | None => Ret (PARSE_URI_ERROR, d)
    | Some (pos, m) =>
        let d := set_method d m in
        let pos := find (lit "/") request_line pos in
        if pos <? 0 then
          Ret (PARSE_URI_SUCCESS, set_version (set_fileName d (lit "index.html")) HTTP_11)
        else
          let _pos := find_char SP request_line pos in
          if _pos <? 0 then Ret (PARSE_URI_ERROR, d)
          else
            fileName ←
              (if 1 <? u64 (_pos - pos) then
                 f ← substr request_line (u64 (pos + 1)) (u64 (_pos - pos - 1));
                 let __pos := find_char "?"%char f 0 in
                 if 0 <=? __pos then substr f 0 __pos else Ret f
               else Ret (lit "index.html"));
            let d := set_fileName d fileName in
            let pos := find (lit "/") request_line _pos in
            if pos <? 0 then Ret (PARSE_URI_ERROR, d)
            else if u64 (size request_line - pos) <=? 3 then Ret (PARSE_URI_ERROR, d)
            else
              ver ← substr request_line (u64 (pos + 1)) 3;
              if bytes_eqb ver (lit "1.0") then Ret (PARSE_URI_SUCCESS, set_version d HTTP_10)
              else if bytes_eqb ver (lit "1.1") then Ret (PARSE_URI_SUCCESS, set_version d HTTP_11)
              else Ret (PARSE_URI_ERROR, d)
    end.

(** ** parseHeaders

    The members [hState_] and [headers_], and the locals of the function. *)
Record HeaderScan := mkScan {
  hs_state : ParseState;
  hs_headers : gmap bytes bytes;
  key_start : Z;
  key_end : Z;
  value_start : Z;
  value_end : Z;
  now_read_line_begin : Z
}.

(** [string(str.begin() + a, str.begin() + b)]: undefined outside of [str]. *)
Definition str_range (str : bytes) (a b : Z) : outcome bytes :=
  if ((0 <=? a) && (a <=? b) && (b <=? size str))%bool then
    Ret (take (Z.to_nat (b - a)) (drop (Z.to_nat a) str))
  else UB.

(** What one turn of the loop does: continue, leave it ([notFinish] false) or
    return [PARSE_HEADER_ERROR]. *)
Inductive scan_step := ScanNext (s : HeaderScan) | ScanLast (s : HeaderScan) | ScanError (s : HeaderScan).

Definition header_char (str : bytes) (c : ascii) (i : Z) (s : HeaderScan) : outcome scan_step :=
  let '(mkScan st hs ks ke vs ve lb) := s in
  let is_cr := Ascii.eqb c CR in
  let is_lf := Ascii.eqb c LF in
  match st with
  | H_START =>
      if is_lf || is_cr then Ret (ScanNext s)
      else Ret (ScanNext (mkScan H_KEY hs (i32 i) ke vs ve (i32 i)))
  | H_KEY =>
      if Ascii.eqb c ":" then
        let ke := i32 i in
        if ke - ks <=? 0 then Ret (ScanError (mkScan st hs ks ke vs ve lb))
        else Ret (ScanNext (mkScan H_COLON hs ks ke vs ve lb))
      else if is_lf || is_cr then Ret (ScanError s)
      else Ret (ScanNext s)
  | H_COLON =>
      if Ascii.eqb c SP then Ret (ScanNext (mkScan H_SPACES_AFTER_COLON hs ks ke vs ve lb))
      else Ret (ScanError s)
  | H_SPACES_AFTER_COLON => Ret (ScanNext (mkScan H_VALUE hs ks ke (i32 i) ve lb))
  | H_VALUE =>
      if is_cr then
        let ve := i32 i in
        let s := mkScan H_CR hs ks ke vs ve lb in
        if ve - vs <=? 0 then Ret (ScanError s) else Ret (ScanNext s)
      else if 255 <? u64 (i - vs) then Ret (ScanError s)
      else Ret (ScanNext s)
  | H_CR =>
      if is_lf then
        key ← str_range str ks ke;
        value ← str_range str vs ve;
        Ret (ScanNext (mkScan H_LF (<[key := value]> hs) ks ke vs ve (i32 i)))
      else Ret (ScanError s)
  | H_LF =>
      if is_cr then Ret (ScanNext (mkScan H_END_CR hs ks ke vs ve lb))
      else Ret (ScanNext (mkScan H_KEY hs (i32 i) ke vs ve lb))
  | H_END_CR =>
      if is_lf then Ret (ScanNext (mkScan H_END_LF hs ks ke vs ve lb)) else Ret (ScanError s)
  | H_END_LF => Ret (ScanLast (mkScan st hs (i32 i) ke vs ve (i32 i)))
  end.

(** The loop from index [i], where [rest] is what [str] holds from there;
    [false] for [PARSE_HEADER_ERROR], and the final index. *)
Fixpoint header_loop (str rest : bytes) (i : Z) (s : HeaderScan)
    : outcome (bool * HeaderScan * Z) :=
  match rest with
  | [] => Ret (true, s, i)
  | c :: rest' =>
      r ← header_char str c i s;
      match r with
      | ScanNext s' => header_loop str rest' (i + 1) s'
      | ScanLast s' => Ret (true, s', i + 1)
      | ScanError s' => Ret (false, s', i)
      end
  end.

Definition parseHeaders (d : HttpData) : outcome (HeaderState * HttpData) :=
  let str := inBuffer_ d in
  '(ok, s, i) ← header_loop str str 0 (mkScan (hState_ d) (headers_ d) (-1) (-1) (-1) (-1) 0);
  let d := set_hState d (hs_state s) (hs_headers s) in
  if negb ok then Ret (PARSE_HEADER_ERROR, d)
  else if bool_decide (hs_state s = H_END_LF) then
    str' ← substr str i npos;
    Ret (PARSE_HEADER_SUCCESS, set_inBuffer d str')
  else
    str' ← substr str (u64 (now_read_line_begin s)) npos;
    Ret (PARSE_HEADER_AGAIN, set_inBuffer d str').

(** ** The world of a connection *)

(** What [stat], [open] and [mmap] answer for a file name: its size, whether it
    opens, and what is mapped for a length ([None]: [MAP_FAILED]). *)
Record Files := mkFiles {
  stat_size : bytes -> option Z;
  can_open : bytes -> bool;
  mmap_file : bytes -> Z -> option bytes
}.

(** A C string ends at its first NUL. *)
Definition c_string (s : bytes) : bytes :=
  take (count_while (fun c => negb (Ascii.eqb c NUL)) s) s.

(** Calls to the event loop and to the linked timer node. *)
Inductive loop_call :=
  | UpdatePoller (events timeout : Z)
  | AddToPoller (events timeout : Z)
  | RemoveFromPoller
  | RunHandleClose
  | ClearReq (timer : nat).

(** [live_timers]: the timer nodes that still exist. *)
Record conn := mkConn {
  http : HttpData;
  reads : list read_result;
  writes : list write_result;
  written : bytes;
  calls : list loop_call;
  live_timers : gset nat
}.

Definition set_http (w : conn) (d : HttpData) : conn :=
  mkConn d (reads w) (writes w) (written w) (calls w) (live_timers w).
Definition add_call (w : conn) (c : loop_call) : conn :=
  mkConn (http w) (reads w) (writes w) (written w) (calls w ++ [c]) (live_timers w).
Definition did_write (w : conn) (sent : bytes) (k : list write_result) : conn :=
  mkConn (http w) (reads w) k (written w ++ sent) (calls w) (live_timers w).
Definition did_read (w : conn) (b : bytes) (k : list read_result) : conn :=
  mkConn (set_inBuffer (http w) b) k (writes w) (written w) (calls w) (live_timers w).

(** ** Events *)

Definition EPOLLIN : Z := 1.
Definition EPOLLPRI : Z := 2.
Definition EPOLLOUT : Z := 4.
Definition EPOLLERR : Z := 8.
Definition EPOLLHUP : Z := 16.
Definition EPOLLRDHUP : Z := 8192.
Definition EPOLLONESHOT : Z := 2 ^ 30.
Definition EPOLLET : Z := 2 ^ 31.

Definition has_event (events flag : Z) : bool := negb (Z.land events flag =? 0).

Definition DEFAULT_EVENT : Z := Z.lor (Z.lor EPOLLIN EPOLLET) EPOLLONESHOT.
Definition DEFAULT_EXPIRED_TIME : Z := 2000.
Definition DEFAULT_KEEP_ALIVE_TIME : Z := 5 * 60 * 1000.

(** ** Errors *)

Definition DQUOTE : ascii := "034"%char.

Definition error_body (err_num : Z) (short_msg : bytes) : bytes :=
  lit "<html><title>哎~出错了</title>" ++
  lit "<body bgcolor=" ++ [DQUOTE] ++ lit "ffffff" ++ [DQUOTE] ++ lit ">" ++
  to_string err_num ++ short_msg ++
  lit "<hr><em> LinYa's Web Server</em>" ++ [LF] ++ lit "</body></html>".

Definition error_header (err_num : Z) (short_msg body_buff : bytes) : bytes :=
  lit "HTTP/1.1 " ++ to_string err_num ++ short_msg ++ crlf ++
  lit "Content-Type: text/html" ++ crlf ++
  lit "Connection: Close" ++ crlf ++
  lit "Content-Length: " ++ to_string (size body_buff) ++ crlf ++
  lit "Server: LinYa's Web Server" ++ crlf ++ crlf.

(** [handleError]; the buffer of 4096 bytes is undefined to overflow. *)
Definition handleError (w : conn) (err_num : Z) (short_msg : bytes) : outcome conn :=
  let short_msg := [SP] ++ short_msg in
  let body_buff := error_body err_num short_msg in
  let header_buff := error_header err_num short_msg body_buff in
  let header := c_string header_buff in
  let body := c_string body_buff in
  if (4096 <=? size header) || (4096 <=? size body) then UB
  else
    let '(_, sent1, k1) := writen_raw 0 header [] (writes w) in
    let '(_, sent2, k2) := writen_raw 0 body [] k1 in
    Ret (did_write w (sent1 ++ sent2) k2).

(** ** analysisRequest *)

Definition server_line : bytes := lit "Server: LinYa's Web Server" ++ crlf.

Definition hello_response : bytes :=
  lit "HTTP/1.1 200 OK" ++ crlf ++ lit "Content-type: text/plain" ++ crlf ++ crlf ++ lit "Hello World".

Definition wants_keep_alive (d : HttpData) : bool :=
  match headers_ d !! lit "Connection" with
  | Some v => bytes_eqb v (lit "Keep-Alive") || bytes_eqb v (lit "keep-alive")
  | None => false
  end.

(** A failure of [analysisRequest] after [outBuffer_] was cleared or not. *)
Definition not_found (w : conn) : outcome (AnalysisState * conn) :=
  w' ← handleError w 404 (lit "Not Found!");
  Ret (ANALYSIS_ERROR, w').

Definition analysisRequest (files : Files) (w : conn) : outcome (AnalysisState * conn) :=
  let d := http w in
  if bool_decide (method_ d = METHOD_POST) then Ret (ANALYSIS_ERROR, w)
  else
    let keep := wants_keep_alive d in
    let d := if keep then set_keepAlive d true else d in
    let w := set_http w d in
    let header :=
      lit "HTTP/1.1 200 OK" ++ crlf ++
      (if keep then lit "Connection: Keep-Alive" ++ crlf ++ lit "Keep-Alive: timeout=" ++
                    to_string DEFAULT_KEEP_ALIVE_TIME ++ crlf
       else []) in
    let dot_pos := i32 (find_char "."%char (fileName_ d) 0) in
    filetype ←
      (if dot_pos <? 0 then Ret (getMime (lit "default"))
       else suffix ← substr (fileName_ d) dot_pos npos; Ret (getMime suffix));
    if bytes_eqb (fileName_ d) (lit "hello") then
      Ret (ANALYSIS_SUCCESS, set_http w (set_outBuffer d hello_response))
    else if bytes_eqb (fileName_ d) (lit "favicon.ico") then
      let header := header ++ lit "Content-Type: image/png" ++ crlf ++
        lit "Content-Length: " ++ to_string (size favicon) ++ crlf ++ server_line ++ crlf in
      Ret (ANALYSIS_SUCCESS, set_http w (set_outBuffer d (outBuffer_ d ++ header ++ favicon)))
    else
      match stat_size files (c_string (fileName_ d)) with
      | None => not_found w
      | Some st_size =>
          let header := header ++ lit "Content-Type: " ++ filetype ++ crlf ++
            lit "Content-Length: " ++ to_string st_size ++ crlf ++ server_line ++ crlf in
          let out := outBuffer_ d ++ header in
          if bool_decide (method_ d = METHOD_HEAD) then
            Ret (ANALYSIS_SUCCESS, set_http w (set_outBuffer d out))
          else if negb (can_open files (c_string (fileName_ d))) then
            not_found (set_http w (set_outBuffer d []))
          else
            match mmap_file files (c_string (fileName_ d)) st_size with
            | None => not_found (set_http w (set_outBuffer d []))
            | Some mapped => Ret (ANALYSIS_SUCCESS, set_http w (set_outBuffer d (out ++ mapped)))
            end
      end.

(** ** Handlers *)

(** [seperateTimer]: a timer node that no longer exists is left linked. *)
Definition seperateTimer (w : conn) : conn :=
  match timer_ (http w) with
  | Some t =>
      if bool_decide (t ∈ live_timers w) then
        add_call (set_http w (set_timer (http w) None)) (ClearReq t)
      else w
  | None => w
  end.

Definition reset (w : conn) : conn :=
  let d := http w in
  seperateTimer (set_http w
    (mkHttpData (inBuffer_ d) (outBuffer_ d) (error_ d) (connectionState_ d) (method_ d)
       (HTTPVersion_ d) [] [] 0 STATE_PARSE_URI H_START (keepAlive_ d) ∅ (timer_ d) (events_ d))).

Definition handleWrite (w : conn) : outcome conn :=
  let d := http w in
  if negb (error_ d) && negb (bool_decide (connectionState_ d = H_DISCONNECTED)) then
    '(rc, out, sent, k) ← writen (outBuffer_ d) (writes w);
    let w := did_write w sent k in
    let d := set_outBuffer d out in
    let d := if rc <? 0 then set_error (set_events d 0) true else d in
    let d := if 0 <? size (outBuffer_ d) then set_events d (Z.lor (events_ d) EPOLLOUT) else d in
    Ret (set_http w d)
  else Ret w.

(** [error_ = true; handleError(fd_, 400, msg)] *)
Definition bad_request (w : conn) (msg : bytes) : outcome conn :=
  handleError (set_http w (set_error (http w) true)) 400 msg.

(** The [do { ... } while (false)] block of [handleRead] after the read: each
    [break] ends it. *)
Definition read_analysis (files : Files) (w : conn) : outcome conn :=
  '(flag, w) ← analysisRequest files w;
  match flag with
  | ANALYSIS_SUCCESS => Ret (set_http w (set_state (http w) STATE_FINISH))
  | ANALYSIS_ERROR => Ret (set_http w (set_error (http w) true))
  end.

Definition read_body (files : Files) (w : conn) : outcome conn :=
  if bool_decide (state_ (http w) = STATE_RECV_BODY) then
    match headers_ (http w) !! lit "Content-length" with
    | None => bad_request w (lit "Bad Request: Lack of argument (Content-length)")
    | Some v =>
        content_length ← stoi v;
        if i32 (size (inBuffer_ (http w))) <? content_length then Ret w
        else read_analysis files (set_http w (set_state (http w) STATE_ANALYSIS))
    end
  else if bool_decide (state_ (http w) = STATE_ANALYSIS) then read_analysis files w
  else Ret w.

Definition read_headers (files : Files) (w : conn) : outcome conn :=
  if bool_decide (state_ (http w) = STATE_PARSE_HEADERS) then
    '(flag, d) ← parseHeaders (http w);
    let w := set_http w d in
    match flag with
    | PARSE_HEADER_AGAIN => Ret w
    | PARSE_HEADER_ERROR => bad_request w (lit "Bad Request")
    | PARSE_HEADER_SUCCESS =>
        let next := if bool_decide (method_ d = METHOD_POST) then STATE_RECV_BODY else STATE_ANALYSIS in
        read_body files (set_http w (set_state d next))
    end
  else read_body files w.

Definition read_uri (files : Files) (w : conn) : outcome conn :=
  if bool_decide (state_ (http w) = STATE_PARSE_URI) then
    '(flag, d) ← parseURI (http w);
    match flag with
    | PARSE_URI_AGAIN => Ret (set_http w d)
    | PARSE_URI_ERROR => bad_request (set_http w (set_inBuffer d [])) (lit "Bad Request")
    | PARSE_URI_SUCCESS => read_headers files (set_http w (set_state d STATE_PARSE_HEADERS))
    end
  else read_headers files w.

Definition read_block (files : Files) (w : conn) : outcome conn :=
  let '(rc, inBuffer, zero, k) := readn 0 (inBuffer_ (http w)) false (reads w) in
  let read_num := i32 rc in
  let w := did_read w inBuffer k in
  if bool_decide (connectionState_ (http w) = H_DISCONNECTING) then
    Ret (set_http w (set_inBuffer (http w) []))
  else if read_num <? 0 then bad_request w (lit "Bad Request")
  else if zero then
    let w := set_http w (set_connection (http w) H_DISCONNECTING) in
    if read_num =? 0 then Ret w else read_uri files w
  else read_uri files w.

(** [handleRead]; it calls itself while requests stay in the buffer. *)
Fixpoint handleRead (fuel : nat) (files : Files) (w : conn) : outcome conn :=
  match fuel with
  | O => OutOfFuel
  | S fuel' =>
      w ← read_block files w;
      if error_ (http w) then Ret w
      else
        w ← (if 0 <? size (outBuffer_ (http w)) then handleWrite w else Ret w);
        let d := http w in
        if negb (error_ d) && bool_decide (state_ d = STATE_FINISH) then
          let w := reset w in
          if (0 <? size (inBuffer_ (http w))) &&
             negb (bool_decide (connectionState_ (http w) = H_DISCONNECTING))
          then handleRead fuel' files w
          else Ret w
        else if negb (error_ d) && negb (bool_decide (connectionState_ d = H_DISCONNECTED)) then
          Ret (set_http w (set_events d (Z.lor (events_ d) EPOLLIN)))
        else Ret w
  end.

Definition handleConn (w : conn) : conn :=
  let w := seperateTimer w in
  let d := http w in
  let ev := events_ d in
  if negb (error_ d) && bool_decide (connectionState_ d = H_CONNECTED) then
    if negb (ev =? 0) then
      let timeout := if keepAlive_ d then DEFAULT_KEEP_ALIVE_TIME else DEFAULT_EXPIRED_TIME in
      let ev := if has_event ev EPOLLIN && has_event ev EPOLLOUT then EPOLLOUT else ev in
      let ev := Z.lor ev EPOLLET in
      add_call (set_http w (set_events d ev)) (UpdatePoller ev timeout)
    else
      let ev := Z.lor ev (Z.lor EPOLLIN EPOLLET) in
      let timeout :=
        if keepAlive_ d then DEFAULT_KEEP_ALIVE_TIME else Z.shiftr DEFAULT_KEEP_ALIVE_TIME 1 in
      add_call (set_http w (set_events d ev)) (UpdatePoller ev timeout)
  else if negb (error_ d) && bool_decide (connectionState_ d = H_DISCONNECTING) && has_event ev EPOLLOUT
  then set_http w (set_events d (Z.lor EPOLLOUT EPOLLET))
  else add_call w RunHandleClose.

Definition handleClose (w : conn) : conn :=
  add_call (set_http w (set_connection (http w) H_DISCONNECTED)) RemoveFromPoller.

Definition newEvent (w : conn) : conn :=
  add_call (set_http w (set_events (http w) DEFAULT_EVENT)) (AddToPoller DEFAULT_EVENT DEFAULT_EXPIRED_TIME).

(** ** Channel::handleEvents with the handlers of [HttpData] *)
Definition handleEvents (fuel : nat) (files : Files) (revents : Z) (w : conn) : outcome conn :=
  let w := set_http w (set_events (http w) 0) in
  if has_event revents EPOLLHUP && negb (has_event revents EPOLLIN) then
    Ret (set_http w (set_events (http w) 0))
  else if has_event revents EPOLLERR then Ret (set_http w (set_events (http w) 0))
  else
    w ← (if has_event revents (Z.lor (Z.lor EPOLLIN EPOLLPRI) EPOLLRDHUP)
         then handleRead fuel files w else Ret w);
    w ← (if has_event revents EPOLLOUT then handleWrite w else Ret w);
    Ret (handleConn w).

(** * Lemmas *)

(** ** The header scanner on the parts of a line *)

Definition is_eol (c : ascii) : bool := Ascii.eqb c CR || Ascii.eqb c LF.

(** A header name, and a value, that the scanner accepts. *)
Definition key_ok (k : bytes) : Prop :=
  match k with
  | [] => False
  | c :: k' => c <> CR /\ c <> LF /\ Forall (fun c => c <> ":"%char /\ c <> CR /\ c <> LF) k'
  end.
Definition value_ok (v : bytes) : Prop :=
  match v with
  | [] => False
  | _ :: v' => (CR ∉ v') /\ size v' < 256
  end.

#[export] Instance key_ok_dec k : Decision (key_ok k).
Proof. destruct k; apply _. Defined.
#[export] Instance value_ok_dec v : Decision (value_ok v).
Proof. destruct v; cbn; apply _. Defined.

Lemma eqb_ne (c d : ascii) : c <> d -> Ascii.eqb c d = false.
Proof. apply Ascii.eqb_neq. Qed.

Lemma header_loop_skip str pre rest : forall i s,
  (forall c j, c ∈ pre -> i <= j < i + size pre -> header_char str c j s = Ret (ScanNext s)) ->
  header_loop str (pre ++ rest) i s = header_loop str rest (i + size pre) s.
Proof.
  induction pre as [|c pre IH]; intros i s Hs; [by rewrite size_nil, Z.add_0_r|].
  cbn [app header_loop]. pose proof (size_nonneg pre).
  rewrite Hs by (rewrite ?size_cons; (by left) || lia). cbn [mbind outcome_bind].
  rewrite IH; [by rewrite size_cons, Z.add_assoc|].
  intros d j Hd Hj. apply Hs; [by right|]. rewrite size_cons. lia.
Qed.

Lemma header_loop_key str k rest i hs ks ke vs ve lb :
  Forall (fun c => c <> ":"%char /\ c <> CR /\ c <> LF) k ->
  header_loop str (k ++ rest) i (mkScan H_KEY hs ks ke vs ve lb) =
  header_loop str rest (i + size k) (mkScan H_KEY hs ks ke vs ve lb).
Proof.
  intros Hk. apply header_loop_skip. intros c j Hc _.
  rewrite Forall_forall in Hk. destruct (Hk c Hc) as (H1 & H2 & H3).
  cbn. by rewrite !eqb_ne.
Qed.

Lemma header_loop_value str v rest i hs ks ke vs ve lb :
  CR ∉ v -> 0 <= i - vs -> i - vs + size v <= 256 ->
  header_loop str (v ++ rest) i (mkScan H_VALUE hs ks ke vs ve lb) =
  header_loop str rest (i + size v) (mkScan H_VALUE hs ks ke vs ve lb).
Proof.
  intros Hv H0 Hlen. apply header_loop_skip. intros c j Hc Hj.
  assert (c <> CR) by congruence. cbn. rewrite eqb_ne by done.
  rewrite u64_small by lia. by rewrite (proj2 (Z.ltb_ge _ _)) by lia.
Qed.

(** A line as it is written. *)
Definition header_text (h : bytes * bytes) : bytes := h.1 ++ lit ": " ++ h.2 ++ crlf.
Definition headers_text (l : list (bytes * bytes)) : bytes := concat (header_text <$> l).
Definition add_header (m : gmap bytes bytes) (h : bytes * bytes) : gmap bytes bytes := <[h.1 := h.2]> m.

Lemma str_range_middle a b c :
  str_range (a ++ b ++ c) (size a) (size a + size b) = Ret b.
Proof.
  unfold str_range. pose proof (size_nonneg a). pose proof (size_nonneg b). pose proof (size_nonneg c).
  rewrite !(proj2 (Z.leb_le _ _)) by (rewrite ?size_app; lia). cbn [andb].
  replace (size a + size b - size a) with (size b) by lia. by rewrite drop_size_app, take_size_app.
Qed.

Lemma header_text_eq k v rest :
  header_text (k, v) ++ rest = k ++ ":"%char :: SP :: v ++ CR :: LF :: rest.
Proof. unfold header_text. cbn. rewrite <- !app_assoc. cbn. by rewrite <- app_assoc. Qed.

(** The rest of a line, once its name has begun. *)
Lemma header_loop_line str pre kc k vc v rest hs ke vs ve lb :
  str = pre ++ (kc :: k) ++ ":"%char :: SP :: (vc :: v) ++ CR :: LF :: rest ->
  size str < 2 ^ 31 -> key_ok (kc :: k) -> value_ok (vc :: v) ->
  exists ke' vs' ve' lb',
    header_loop str (k ++ ":"%char :: SP :: vc :: v ++ CR :: LF :: rest) (size pre + 1)
      (mkScan H_KEY hs (size pre) ke vs ve lb) =
    header_loop str rest (size str - size rest)
      (mkScan H_LF (<[kc :: k := vc :: v]> hs) (size pre) ke' vs' ve' lb').
Proof.
  intros Hstr Hsz (_ & _ & Hk) [Hcr Hlen].
  assert (Hpos : size str = size pre + 1 + size k + 2 + 1 + size v + 2 + size rest).
  { rewrite Hstr. repeat (rewrite size_app || rewrite size_cons). lia. }
  pose proof (size_nonneg pre). pose proof (size_nonneg k). pose proof (size_nonneg v).
  pose proof (size_nonneg rest).
  set (K := size pre + 1 + size k). set (V := K + 2).
  assert (Hkey : str_range str (size pre) K = Ret (kc :: k)).
  { unfold K. rewrite Hstr. replace (size pre + 1 + size k) with (size pre + size (kc :: k))
      by (rewrite size_cons; lia). exact (str_range_middle pre (kc :: k) _). }
  assert (Hval : str_range str V (V + 1 + size v) = Ret (vc :: v)).
  { replace str with ((pre ++ (kc :: k) ++ [":"%char; SP]) ++ (vc :: v) ++ CR :: LF :: rest)
      by (rewrite Hstr, <- !app_assoc; done).
    replace V with (size (pre ++ (kc :: k) ++ [":"%char; SP]))
      by (unfold V, K; repeat (rewrite size_app || rewrite size_cons || rewrite size_nil); lia).
    rewrite <- Z.add_assoc, <- (size_cons vc). exact (str_range_middle _ (vc :: v) _). }
  exists K, V, (V + 1 + size v), (V + 1 + size v + 1).
  rewrite header_loop_key by done. fold K. cbn [header_loop header_char].
  change (Ascii.eqb ":" ":") with true. cbv iota. rewrite (i32_small K) by lia.
  rewrite (proj2 (Z.leb_gt _ _)) by lia. cbn [mbind outcome_bind header_loop header_char].
  change (Ascii.eqb SP SP) with true. cbn [mbind outcome_bind header_loop header_char].
  replace (K + 1 + 1) with V by (unfold V; lia). rewrite (i32_small V) by lia.
  rewrite header_loop_value by (done || lia). cbn [header_loop header_char].
  change (Ascii.eqb CR CR) with true. cbv iota. rewrite (i32_small (V + 1 + size v)) by lia.
  rewrite (proj2 (Z.leb_gt _ _)) by lia. cbn [mbind outcome_bind header_loop header_char].
  change (Ascii.eqb LF LF) with true. cbv iota. rewrite Hkey, Hval.
  cbn [mbind outcome_bind]. rewrite i32_small by lia. do 2 f_equal. lia.
Qed.

Definition headers_ok (l : list (bytes * bytes)) : Prop :=
  Forall (fun h => key_ok h.1 /\ value_ok h.2) l.

#[export] Instance headers_ok_dec l : Decision (headers_ok l).
Proof. unfold headers_ok. apply _. Defined.

(** The state in which the scanner has seen the empty line, before index [i]. *)
Definition at_end (hs : gmap bytes bytes) (s : HeaderScan) : Prop :=
  hs_state s = H_END_LF /\ hs_headers s = hs.

Lemma header_loop_lines str l : forall pre rest hs ks ke vs ve lb,
  str = pre ++ headers_text l ++ CR :: LF :: rest -> size str < 2 ^ 31 -> headers_ok l ->
  exists s, at_end (foldl add_header hs l) s /\
    header_loop str (headers_text l ++ CR :: LF :: rest) (size pre) (mkScan H_LF hs ks ke vs ve lb) =
    header_loop str rest (size str - size rest) s.
Proof.
  induction l as [|[k v] l IH]; intros pre rest hs ks ke vs ve lb Hstr Hsz Hok.
  - unfold headers_text. cbn [fmap list_fmap concat app header_loop header_char].
    change (Ascii.eqb CR CR) with true. cbn [mbind outcome_bind header_loop header_char].
    change (Ascii.eqb LF LF) with true. cbn [mbind outcome_bind].
    exists (mkScan H_END_LF hs ks ke vs ve lb). split; [split; reflexivity|]. f_equal. rewrite Hstr.
    unfold headers_text. cbn. rewrite size_app, !size_cons. lia.
  - apply Forall_cons in Hok as [[Hk Hv] Hok]. cbn [fst snd] in Hk, Hv.
    unfold headers_text in *. cbn [fmap list_fmap concat] in *. fold (headers_text l) in *.
    rewrite <- !app_assoc in *. rewrite header_text_eq in *.
    destruct k as [|kc k]; [done|]. destruct v as [|vc v]; [done|].
    destruct Hk as (Hc1 & Hc2 & Hk). cbn [app header_loop header_char].
    rewrite (eqb_ne kc CR) by done. cbn [mbind outcome_bind].
    assert (0 <= size pre <= size str) by (rewrite Hstr, size_app; pose proof (size_nonneg pre);
      match goal with |- context [size ?a + size ?b] => pose proof (size_nonneg b) end; lia).
    rewrite i32_small by lia.
    destruct (header_loop_line str pre kc k vc v (headers_text l ++ CR :: LF :: rest) hs ke vs ve lb)
      as (ke' & vs' & ve' & lb' & ->); [done..|].
    set (pre' := pre ++ (kc :: k) ++ ":"%char :: SP :: (vc :: v) ++ [CR; LF]).
    assert (Hstr' : str = pre' ++ headers_text l ++ CR :: LF :: rest).
    { rewrite Hstr. unfold pre'. rewrite <- !app_assoc. cbn. by rewrite <- app_assoc. }
    replace (size str - size (headers_text l ++ CR :: LF :: rest)) with (size pre')
      by (rewrite Hstr', size_app; lia).
    by apply IH.
Qed.

(** The whole block that follows the CR of the request line. *)
Lemma header_loop_block hs l rest :
  let str := LF :: headers_text l ++ CR :: LF :: rest in
  l <> [] -> headers_ok l -> size str < 2 ^ 31 ->
  exists s, at_end (foldl add_header hs l) s /\
    header_loop str str 0 (mkScan H_START hs (-1) (-1) (-1) (-1) 0) =
    header_loop str rest (size str - size rest) s.
Proof.
  intros str Hl Hok Hsz. destruct l as [|[k v] l]; [done|]. unfold str at 2.
  apply Forall_cons in Hok as [[Hk Hv] Hok]. cbn [fst snd] in Hk, Hv.
  destruct k as [|kc k]; [done|]. destruct v as [|vc v]; [done|]. destruct Hk as (Hc1 & Hc2 & Hk).
  assert (Hstr : str = [LF] ++ (kc :: k) ++ ":"%char :: SP :: (vc :: v) ++ CR :: LF ::
    headers_text l ++ CR :: LF :: rest).
  { unfold str, headers_text. cbn [fmap list_fmap concat]. by rewrite <- !app_assoc, header_text_eq. }
  unfold headers_text. cbn [fmap list_fmap concat]. fold (headers_text l).
  rewrite <- !app_assoc, header_text_eq. cbn [app header_loop header_char].
  change (Ascii.eqb LF LF) with true. cbn [orb mbind outcome_bind header_loop header_char].
  rewrite (eqb_ne kc LF), (eqb_ne kc CR) by done. cbn [orb mbind outcome_bind].
  change (i32 (0 + 1)) with (size [LF]). change (0 + 1 + 1) with (size [LF] + 1).
  destruct (header_loop_line str [LF] kc k vc v (headers_text l ++ CR :: LF :: rest) hs (-1) (-1) (-1)
    (size [LF])) as (ke' & vs' & ve' & lb' & ->); [done..|].
  set (pre' := [LF] ++ (kc :: k) ++ ":"%char :: SP :: (vc :: v) ++ [CR; LF]).
  assert (Hstr' : str = pre' ++ headers_text l ++ CR :: LF :: rest).
  { rewrite Hstr. unfold pre'. rewrite <- !app_assoc. cbn. by rewrite <- app_assoc. }
  replace (size str - size (headers_text l ++ CR :: LF :: rest)) with (size pre')
    by (rewrite Hstr', size_app; lia).
  by apply (header_loop_lines str l pre').
Qed.

(** [parseHeaders] on such a block. One more byte than the block is dropped
    when there is one. *)
Lemma parseHeaders_block d l rest :
  inBuffer_ d = LF :: headers_text l ++ CR :: LF :: rest -> size (inBuffer_ d) < 2 ^ 31 ->
  hState_ d = H_START -> l <> [] -> headers_ok l ->
  parseHeaders d =
  Ret (PARSE_HEADER_SUCCESS,
       set_inBuffer (set_hState d H_END_LF (foldl add_header (headers_ d) l)) (drop 1 rest)).
Proof.
  intros Hb Hsz Hh Hl Hok. unfold parseHeaders. rewrite Hh, Hb in *.
  destruct (header_loop_block (headers_ d) l rest Hl Hok Hsz) as (s & [Hs Hhs] & ->).
  set (str := LF :: headers_text l ++ CR :: LF :: rest) in *.
  assert (Hsize : size str = size str - size rest + size rest) by lia.
  assert (Hd : drop (Z.to_nat (size str - size rest)) str = rest).
  { unfold str. replace (LF :: headers_text l ++ CR :: LF :: rest)
      with ((LF :: headers_text l ++ [CR; LF]) ++ rest) by (cbn; by rewrite <- app_assoc).
    rewrite size_app, Z.add_simpl_r. apply drop_size_app. }
  assert (Hfits : fits str) by (unfold fits; lia).
  destruct rest as [|c rest]; cbn [header_loop].
  - cbn [mbind outcome_bind negb]. rewrite Hs, Hhs, bool_decide_true by done.
    rewrite size_nil, Z.sub_0_r in *. rewrite substr_tail by (done || pose proof (size_nonneg str); lia).
    cbn [mbind outcome_bind]. by rewrite Hd.
  - destruct s as [st hs' ks ke vs ve lb]. cbn in Hs, Hhs. subst st hs'. cbn [header_char mbind outcome_bind negb].
    cbn [hs_state hs_headers]. rewrite bool_decide_true by done.
    rewrite size_cons in *. pose proof (size_nonneg rest).
    assert (0 <= size str - (1 + size rest)).
    { unfold str. rewrite size_cons, size_app, !size_cons. pose proof (size_nonneg (headers_text l)). lia. }
    rewrite substr_tail by (done || lia). cbn [mbind outcome_bind].
    replace (Z.to_nat (size str - (1 + size rest) + 1)) with (Z.to_nat (size str - (1 + size rest)) + 1)%nat by lia.
    by rewrite <- drop_drop, Hd.
Qed.

(** ** The request line *)

(** The path of a target: up to the first question mark. *)
Definition target_path (t : bytes) : bytes :=
  take (count_while (fun c => negb (Ascii.eqb c "?")) t) t.

Definition requested_file (t : bytes) : bytes :=
  if bytes_eqb t [] then lit "index.html" else target_path t.

Definition version_of (v : ascii) : HttpVersion := if Ascii.eqb v "0" then HTTP_10 else HTTP_11.

Definition request_line (t : bytes) (v : ascii) : bytes := lit "GET /" ++ t ++ lit " HTTP/1." ++ [v].

Lemma find_question t :
  fits t ->
  (let pos := find_char "?"%char t 0 in
   if 0 <=? pos then substr t 0 pos else Ret t) = Ret (target_path t).
Proof.
  intros Hf. cbv zeta. unfold target_path.
  set (f := fun c => negb (Ascii.eqb c "?")).
  destruct (drop (count_while f t) t) as [|c r] eqn:Ed.
  - assert (Hall : take (count_while f t) t = t).
    { pose proof (take_drop (count_while f t) t) as H. by rewrite Ed, app_nil_r in H. }
    rewrite Hall. rewrite find_char_absent.
    + change (0 <=? npos) with true. cbv iota. pose proof (size_nonneg t).
      by rewrite substr_tail by (done || lia).
    + intros Hin. pose proof (count_while_all f t) as Ha. rewrite Hall, Forall_forall in Ha.
      by specialize (Ha _ Hin).
  - assert (Hc : c = "?"%char).
    { assert (f c = false) as Hfc.
      { clear Hf. revert c r Ed. induction t as [|x t IH]; intros c r Ed; [done|].
        cbn in Ed. destruct (f x) eqn:E; cbn in Ed; [by apply (IH c r)|]. by injection Ed as -> <-. }
      unfold f in Hfc. apply negb_false_iff, Ascii.eqb_eq in Hfc. done. }
    subst c. assert (Ht : t = [] ++ take (count_while f t) t ++ ["?"%char] ++ r).
    { cbn. rewrite <- Ed. by rewrite take_drop. }
    assert (Hfind : find_char "?"%char t 0 = size (take (count_while f t) t)).
    { rewrite Ht at 1. unfold find_char. change 0 with (size []) at 1.
      rewrite find_at; [done|]. intros Hin.
      pose proof (count_while_all f t) as Ha. rewrite Forall_forall in Ha. by specialize (Ha _ Hin). }
    rewrite Hfind. rewrite (proj2 (Z.leb_le _ _)) by apply size_nonneg.
    pose proof (substr_prefix (take (count_while f t) t) (["?"%char] ++ r)) as Hsub.
    by rewrite <- (Ht : t = take (count_while f t) t ++ ["?"%char] ++ r) in Hsub.
Qed.

Lemma parseURI_get d t v rest :
  inBuffer_ d = request_line t v ++ CR :: rest -> nowReadPos_ d = 0 ->
  CR ∉ t -> SP ∉ t -> v = "0"%char \/ v = "1"%char -> size (inBuffer_ d) < 2 ^ 31 ->
  parseURI d = Ret (PARSE_URI_SUCCESS,
    set_version (set_fileName (set_method (set_inBuffer d rest) METHOD_GET) (requested_file t))
      (version_of v)).
Proof.
  intros Hb Hn Hcr Hsp Hv Hsz. unfold parseURI. rewrite Hb, Hn in *. set (line := request_line t v) in *.
  pose proof (size_nonneg rest). pose proof (size_nonneg t).
  assert (Hls : size line = 5 + size t + 9).
  { unfold line, request_line. rewrite !size_app. change (size (lit "GET /")) with 5.
    change (size (lit " HTTP/1.")) with 8. change (size [v]) with 1. lia. }
  assert (Hall : size (line ++ CR :: rest) = size line + 1 + size rest)
    by (rewrite size_app, size_cons; lia).
  assert (Hpos : find_char CR (line ++ CR :: rest) (u64 0) = size line).
  { change (u64 0) with (size []). change (line ++ CR :: rest) with ([] ++ line ++ [CR] ++ rest).
    unfold find_char. rewrite find_at; [done|]. unfold line, request_line.
    rewrite !elem_of_app. intros [Hi|[Hi|[Hi|Hi]]]; [by repeat (apply elem_of_cons in Hi as [Hi|Hi]; [done|]); apply elem_of_nil in Hi|done|
      by repeat (apply elem_of_cons in Hi as [Hi|Hi]; [done|]); apply elem_of_nil in Hi|].
    apply list_elem_of_singleton in Hi. by destruct Hv as [-> | ->]. }
  rewrite Hpos. rewrite (proj2 (Z.ltb_ge _ _)) by lia.
  rewrite substr_prefix. cbn [mbind outcome_bind]. rewrite (u64_small (size line + 1)) by lia.
  assert (Hstr : (if size line + 1 <? size (line ++ CR :: rest)
    then substr (line ++ CR :: rest) (size line + 1) npos else Ret []) = Ret rest).
  { case_if; zbool.
    - replace (line ++ CR :: rest) with ((line ++ [CR]) ++ rest) by (by rewrite <- app_assoc).
      replace (size line + 1) with (size (line ++ [CR])) by (by rewrite size_app).
      apply substr_suffix. unfold npos. lia.
    - destruct rest; [done|]. rewrite Hall, size_cons in E. pose proof (size_nonneg rest). lia. }
  rewrite Hstr. cbn [mbind outcome_bind].
  assert (Hget : find (lit "GET") line 0 = 0).
  { change 0 with (size []) at 1. exact (find_at "G" (lit "ET") [] [] (lit " /" ++ t ++ lit " HTTP/1." ++ [v])
      (not_elem_of_nil _)). }
  rewrite Hget. change (0 <=? i32 0) with true. cbv iota zeta. change (i32 0) with 0.
  assert (Hslash : find (lit "/") line 0 = 4).
  { change 0 with (size []) at 1.
    change line with ([] ++ lit "GET " ++ ["/"%char] ++ t ++ lit " HTTP/1." ++ [v]).
    rewrite (find_at "/" [] [] (lit "GET ")); [done|]. apply (bool_decide_unpack _). done. }
  rewrite Hslash. change (4 <? 0) with false. cbv iota.
  assert (Hspace : find_char SP line 4 = 4 + (1 + size t)).
  { change line with (lit "GET " ++ ("/"%char :: t) ++ lit " HTTP/1." ++ [v]).
    change 4 with (size (lit "GET ")) at 1. unfold find_char.
    change (lit " HTTP/1." ++ [v]) with ([SP] ++ lit "HTTP/1." ++ [v]).
    rewrite find_at; [by rewrite size_cons|]. by apply not_elem_of_cons. }
  rewrite Hspace. rewrite (proj2 (Z.ltb_ge _ _)) by lia.
  replace (4 + (1 + size t) - 4) with (1 + size t) by lia.
  rewrite !(u64_small (1 + size t)), (u64_small (4 + 1)) by lia.
  replace (1 + size t - 1) with (size t) by lia. rewrite (u64_small (size t)) by lia.
  assert (Hfile : (if 1 <? 1 + size t then
      f ← substr line (4 + 1) (size t);
      let __pos := find_char "?"%char f 0 in
      if 0 <=? __pos then substr f 0 __pos else Ret f
    else Ret (lit "index.html")) = Ret (requested_file t)).
  { unfold requested_file, bytes_eqb. case_if; zbool.
    - change (4 + 1) with (size (lit "GET /")). unfold line, request_line.
      rewrite substr_middle. cbn [mbind outcome_bind]. rewrite find_question by (unfold fits; lia).
      rewrite bool_decide_false; [done|]. intros ->. rewrite size_nil in E. lia.
    - destruct t; [done|]. rewrite size_cons in E. pose proof (size_nonneg t). lia. }
  cbv zeta in Hfile. rewrite Hfile. cbn [mbind outcome_bind].
  assert (Hver : find (lit "/") line (4 + (1 + size t)) = 4 + (1 + size t) + 5).
  { replace line with ((lit "GET /" ++ t) ++ lit " HTTP" ++ ["/"%char] ++ lit "1." ++ [v])
      by (unfold line, request_line; by rewrite <- app_assoc).
    replace (4 + (1 + size t)) with (size (lit "GET /" ++ t))
      by (rewrite size_app; change (size (lit "GET /")) with 5; lia).
    rewrite (find_at "/" []); [done|]. apply (bool_decide_unpack _). done. }
  rewrite Hver. rewrite (proj2 (Z.ltb_ge _ _)) by lia.
  replace (size line - (4 + (1 + size t) + 5)) with 4 by lia. change (u64 4 <=? 3) with false. cbv iota.
  rewrite (u64_small (4 + (1 + size t) + 5 + 1)) by lia.
  assert (Hsub : substr line (4 + (1 + size t) + 5 + 1) 3 = Ret (lit "1." ++ [v])).
  { replace line with ((lit "GET /" ++ t ++ lit " HTTP/") ++ lit "1." ++ [v])
      by (unfold line, request_line; by rewrite <- !app_assoc).
    replace (4 + (1 + size t) + 5 + 1) with (size (lit "GET /" ++ t ++ lit " HTTP/")).
    - by apply substr_suffix.
    - rewrite !size_app. change (size (lit "GET /")) with 5. change (size (lit " HTTP/")) with 6. lia. }
  rewrite Hsub. cbn [mbind outcome_bind]. by destruct Hv as [-> | ->].
Qed.

(** ** A request for a file *)

(** A connection between two requests. *)
Definition idle (d : HttpData) : Prop :=
  inBuffer_ d = [] /\ outBuffer_ d = [] /\ error_ d = false /\ connectionState_ d = H_CONNECTED /\
  nowReadPos_ d = 0 /\ state_ d = STATE_PARSE_URI /\ hState_ d = H_START /\ headers_ d = ∅.

(** [content] is the content of the file [f], which can be read. *)
Definition has_file (files : Files) (f content : bytes) : Prop :=
  stat_size files (c_string f) = Some (size content) /\ can_open files (c_string f) = true /\
  mmap_file files (c_string f) (size content) = Some content.

Definition content_type (f : bytes) : bytes :=
  getMime (if bool_decide ("."%char ∈ f) then drop (count_while (fun c => negb (Ascii.eqb c ".")) f) f
           else lit "default").

(** The answer to a [GET] of the file. *)
Definition file_response (keep : bool) (f content : bytes) : bytes :=
  lit "HTTP/1.1 200 OK" ++ crlf ++
  (if keep then lit "Connection: Keep-Alive" ++ crlf ++ lit "Keep-Alive: timeout=300000" ++ crlf else []) ++
  lit "Content-Type: " ++ content_type f ++ crlf ++
  lit "Content-Length: " ++ to_string (size content) ++ crlf ++
  lit "Server: LinYa's Web Server" ++ crlf ++ crlf ++ content.

(** A request as it is sent: target [t] after the slash, version 1.[v]. *)
Definition request_text (t : bytes) (v : ascii) (l : list (bytes * bytes)) : bytes :=
  request_line t v ++ CR :: LF :: headers_text l ++ CR :: LF :: [].

Definition parsed_headers (l : list (bytes * bytes)) : gmap bytes bytes := foldl add_header ∅ l.

Definition asks_keep_alive (h : gmap bytes bytes) : bool :=
  match h !! lit "Connection" with
  | Some v => bytes_eqb v (lit "Keep-Alive") || bytes_eqb v (lit "keep-alive")
  | None => false
  end.

Lemma count_while_split f t c r :
  drop (count_while f t) t = c :: r -> f c = false.
Proof.
  induction t as [|x t IH]; [done|]. cbn. destruct (f x) eqn:E; cbn; [done|]. by intros [= <- <-].
Qed.

Lemma filetype_eq f :
  size f < 2 ^ 31 ->
  (let dot_pos := i32 (find_char "."%char f 0) in
   if dot_pos <? 0 then Ret (getMime (lit "default"))
   else suffix ← substr f dot_pos npos; Ret (getMime suffix)) = Ret (content_type f).
Proof.
  intros Hsz. cbv zeta. unfold content_type. case_bool_decide as Hin.
  - set (g := fun c => negb (Ascii.eqb c ".")).
    destruct (drop (count_while g f) f) as [|c r] eqn:Ed.
    { pose proof (take_drop (count_while g f) f) as H. rewrite Ed, app_nil_r in H.
      pose proof (count_while_all g f) as Ha. rewrite H, Forall_forall in Ha. by specialize (Ha _ Hin). }
    pose proof (count_while_split g f c r Ed) as Hc. apply negb_false_iff, Ascii.eqb_eq in Hc. subst c.
    set (p := take (count_while g f) f).
    assert (Hf : f = [] ++ p ++ ["."%char] ++ r) by (cbn; rewrite <- Ed; symmetry; apply take_drop).
    assert (Hfind : find_char "."%char f 0 = size p).
    { transitivity (find_char "."%char ([] ++ p ++ ["."%char] ++ r) (size [])); [by rewrite <- Hf|].
      unfold find_char. rewrite find_at; [done|]. intros Hp.
      pose proof (count_while_all g f) as Ha. rewrite Forall_forall in Ha. by specialize (Ha _ Hp). }
    assert (Hlen : size p <= size f).
    { transitivity (size (p ++ "."%char :: r)); [rewrite size_app; pose proof (size_nonneg ("."%char :: r)); lia|].
      by rewrite <- (Hf : f = p ++ "."%char :: r). }
    pose proof (size_nonneg p). rewrite Hfind, i32_small by lia. rewrite (proj2 (Z.ltb_ge _ _)) by lia.
    rewrite substr_tail by (unfold fits; lia). cbn [mbind outcome_bind]. do 2 f_equal.
    pose proof (drop_size_app p ("."%char :: r)) as Hd.
    by rewrite <- (Hf : f = p ++ "."%char :: r) in Hd.
  - rewrite find_char_absent by done. done.
Qed.

Lemma analysisRequest_file files w f content :
  method_ (http w) = METHOD_GET -> fileName_ (http w) = f -> size f < 2 ^ 31 ->
  f <> lit "hello" -> f <> lit "favicon.ico" -> has_file files f content ->
  outBuffer_ (http w) = [] ->
  analysisRequest files w =
  let keep := asks_keep_alive (headers_ (http w)) in
  Ret (ANALYSIS_SUCCESS, set_http w (set_outBuffer
    (if keep then set_keepAlive (http w) true else http w) (file_response keep f content))).
Proof.
  intros Hm Hf Hsz Hh Hi (Hst & Hop & Hmm) Ho. unfold analysisRequest. rewrite Hm, bool_decide_false by done.
  change (wants_keep_alive (http w)) with (asks_keep_alive (headers_ (http w))).
  set (keep := asks_keep_alive _). cbv zeta.
  set (d := if keep then _ else _).
  assert (fileName_ d = f /\ outBuffer_ d = [] /\ method_ d = METHOD_GET) as (Hf' & Ho' & Hm')
    by (unfold d; destruct keep; done).
  rewrite Hf', Ho', Hm'. pose proof (filetype_eq f Hsz) as Ht. cbv zeta in Ht. rewrite Ht.
  cbn [mbind outcome_bind]. unfold bytes_eqb. rewrite !bool_decide_false by done.
  rewrite Hst, Hop. cbn [negb]. rewrite Hmm. unfold file_response, server_line.
  change (to_string DEFAULT_KEEP_ALIVE_TIME) with (lit "300000").
  do 4 f_equal. destruct keep; by repeat rewrite <- app_assoc.
Qed.

Lemma writen_all b n k :
  b <> [] -> size b < 2 ^ 31 -> size b <= n ->
  writen b (WriteUpTo n :: k) = Ret (size b, [], b, k).
Proof.
  intros Hb Hsz Hn. unfold writen. cbn [writen_loop]. pose proof (size_nonneg b).
  rewrite (proj2 (Z.eqb_neq _ _)).
  2:{ intros E. apply Hb. destruct b; [done|]. rewrite size_cons in E. pose proof (size_nonneg b). lia. }
  replace (Z.to_nat (Z.max 0 (Z.min n (size b)))) with (length b) by (unfold size in *; lia).
  rewrite drop_all, firstn_all. fold (size b). rewrite Z.add_0_l.
  replace (writen_loop (size b) [] ([] ++ b) k) with (Some (size b), b, k) by (by destruct k).
  by rewrite i32_small, Z.eqb_refl by lia.
Qed.

Lemma handleWrite_all w n k :
  error_ (http w) = false -> connectionState_ (http w) <> H_DISCONNECTED ->
  outBuffer_ (http w) <> [] -> size (outBuffer_ (http w)) < 2 ^ 31 ->
  writes w = WriteUpTo n :: k -> size (outBuffer_ (http w)) <= n ->
  handleWrite w = Ret (set_http (did_write w (outBuffer_ (http w)) k) (set_outBuffer (http w) [])).
Proof.
  intros He Hc Ho Hsz Hk Hn. unfold handleWrite. rewrite He, bool_decide_false by done. cbn [negb andb].
  rewrite Hk, writen_all by done. cbn [mbind outcome_bind].
  by rewrite (proj2 (Z.ltb_ge (size (outBuffer_ (http w))) 0)) by apply size_nonneg.
Qed.

(** What one read of a whole request does. *)
Lemma read_block_get files w t v l content :
  idle (http w) -> received (reads w) = request_text t v l -> reads_end (reads w) = NoMore ->
  CR ∉ t -> SP ∉ t -> v = "0"%char \/ v = "1"%char -> l <> [] -> headers_ok l ->
  size (request_text t v l) < 2 ^ 31 -> requested_file t <> lit "hello" ->
  requested_file t <> lit "favicon.ico" -> has_file files (requested_file t) content ->
  exists w', read_block files w = Ret w' /\
    writes w' = writes w /\ written w' = written w /\ calls w' = calls w /\
    let d := http w' in
    events_ d = events_ (http w) /\
    inBuffer_ d = [] /\ error_ d = false /\ connectionState_ d = H_CONNECTED /\ state_ d = STATE_FINISH /\
    outBuffer_ d = file_response (asks_keep_alive (parsed_headers l)) (requested_file t) content.
Proof.
  intros (Hin & Hout & Her & Hcon & Hpos & Hst & Hh & Hhs) Hrec Hend Hcr Hsp Hv Hl Hok Hsz Hhello Hicon Hfile.
  unfold read_block. destruct (readn_spec (reads w) 0 (inBuffer_ (http w)) false) as [k' ->].
  rewrite Hend, Hrec, Hin. cbn [app]. pose proof (size_nonneg (request_text t v l)).
  rewrite i32_small by lia.
  set (w1 := did_read w (request_text t v l) k').
  change (connectionState_ (http w1)) with (connectionState_ (http w)). rewrite Hcon, bool_decide_false by done.
  rewrite (proj2 (Z.ltb_ge _ _)) by lia.
  unfold read_uri. change (state_ (http w1)) with (state_ (http w)). rewrite Hst, bool_decide_true by done.
  rewrite (parseURI_get (http w1) t v (LF :: headers_text l ++ CR :: LF :: [])) by done.
  cbn [mbind outcome_bind]. set (d1 := set_version _ _).
  unfold read_headers. cbn [set_http http set_state state_]. rewrite bool_decide_true by done.
  rewrite (parseHeaders_block _ l []); [| done | | done | done | done].
  2:{ cbn [inBuffer_ set_state d1 set_version set_fileName set_method set_inBuffer].
      unfold request_text in Hsz. rewrite size_app, size_cons in Hsz.
      pose proof (size_nonneg (request_line t v)). lia. }
  change (headers_ (set_state d1 STATE_PARSE_HEADERS)) with (headers_ (http w)). rewrite Hhs.
  cbn [mbind outcome_bind]. unfold read_body. cbn [method_ set_inBuffer set_hState set_state d1
    set_version set_fileName set_method set_http http state_ drop].
  rewrite (bool_decide_false (METHOD_GET = METHOD_POST)) by done.
  rewrite (bool_decide_false (STATE_ANALYSIS = STATE_RECV_BODY)), bool_decide_true by done.
  unfold read_analysis.
  rewrite (analysisRequest_file files _ (requested_file t) content); [| done | done | | done | done | done | done].
  2:{ unfold requested_file, bytes_eqb. case_bool_decide; [done|]. unfold target_path.
      unfold request_text, request_line in Hsz. rewrite !size_app in Hsz.
      assert (size (take (count_while (fun c => negb (Ascii.eqb c "?")) t) t) <= size t)
        by (unfold size; rewrite length_take; lia).
      pose proof (size_nonneg (lit "GET /")). pose proof (size_nonneg (lit " HTTP/1.")).
      pose proof (size_nonneg [v]). pose proof (size_nonneg (CR :: LF :: headers_text l ++ [CR; LF])). lia. }
  cbv zeta. cbn [headers_ http]. fold (parsed_headers l).
  cbn [mbind outcome_bind]. eexists. split; [reflexivity|].
  change (asks_keep_alive (headers_ _)) with (asks_keep_alive (parsed_headers l)).
  destruct (asks_keep_alive _); cbn; by split_and!.
Qed.

(** A call that only clears a timer node. *)
Definition clears (c : loop_call) : Prop := match c with ClearReq _ => True | _ => False end.

Lemma seperateTimer_frame w :
  written (seperateTimer w) = written w /\ reads (seperateTimer w) = reads w /\
  (exists t, http (seperateTimer w) = set_timer (http w) t) /\
  exists cs, calls (seperateTimer w) = calls w ++ cs /\ Forall clears cs.
Proof.
  unfold seperateTimer. destruct (timer_ (http w)) as [t|] eqn:Et.
  - case_bool_decide; (split_and!; [done..| |]).
    + by exists None.
    + exists [ClearReq t]. split; [done|by repeat constructor].
    + exists (Some t). rewrite <- Et. by destruct (http w).
    + exists []. split; [by rewrite app_nil_r|constructor].
  - split_and!; [done..| |].
    + exists None. rewrite <- Et. by destruct (http w).
    + exists []. split; [by rewrite app_nil_r|constructor].
Qed.

Lemma reset_frame w :
  let d := http w in let d' := http (reset w) in
  written (reset w) = written w /\ reads (reset w) = reads w /\ inBuffer_ d' = inBuffer_ d /\
  outBuffer_ d' = outBuffer_ d /\ error_ d' = error_ d /\ connectionState_ d' = connectionState_ d /\
  nowReadPos_ d' = 0 /\ state_ d' = STATE_PARSE_URI /\ hState_ d' = H_START /\ headers_ d' = ∅ /\
  events_ d' = events_ d /\ exists cs, calls (reset w) = calls w ++ cs /\ Forall clears cs.
Proof.
  cbv zeta. unfold reset. destruct (seperateTimer_frame (set_http w (mkHttpData (inBuffer_ (http w))
    (outBuffer_ (http w)) (error_ (http w)) (connectionState_ (http w)) (method_ (http w))
    (HTTPVersion_ (http w)) [] [] 0 STATE_PARSE_URI H_START (keepAlive_ (http w)) ∅ (timer_ (http w))
    (events_ (http w))))) as (-> & -> & [t ->] & cs & -> & Hcs). split_and!; try done. by exists cs.
Qed.

(** What [handleRead] does with a whole request for a file. *)
Lemma handleRead_get fuel files w t v l content n k :
  idle (http w) -> received (reads w) = request_text t v l -> reads_end (reads w) = NoMore ->
  CR ∉ t -> SP ∉ t -> v = "0"%char \/ v = "1"%char -> l <> [] -> headers_ok l ->
  size (request_text t v l) < 2 ^ 31 -> requested_file t <> lit "hello" ->
  requested_file t <> lit "favicon.ico" -> has_file files (requested_file t) content ->
  let response := file_response (asks_keep_alive (parsed_headers l)) (requested_file t) content in
  writes w = WriteUpTo n :: k -> size response <= n -> size response < 2 ^ 31 ->
  exists w', handleRead (S fuel) files w = Ret w' /\
    written w' = written w ++ response /\ idle (http w') /\ events_ (http w') = events_ (http w) /\
    exists cs, calls w' = calls w ++ cs /\ Forall clears cs.
Proof.
  intros Hidle Hrec Hend Hcr Hsp Hv Hl Hok Hsz Hhello Hicon Hfile response Hw Hn Hlen.
  destruct (read_block_get files w t v l content) as (w1 & Hr & Hw1 & Hs1 & Hca & Hev & Hin & He & Hc & Hst & Ho);
    [done..|]. fold response in Ho.
  assert (Hne : response <> []) by done.
  cbn [handleRead]. rewrite Hr. cbn [mbind outcome_bind]. rewrite He, Ho.
  rewrite (proj2 (Z.ltb_lt 0 (size response))).
  2:{ destruct response as [|c r]; [done|]. rewrite size_cons. pose proof (size_nonneg r). lia. }
  rewrite (handleWrite_all w1 n k);
    [|done|congruence|by rewrite Ho|by rewrite Ho|by rewrite Hw1|by rewrite Ho].
  cbn [mbind outcome_bind set_http did_write http set_outBuffer error_ state_].
  rewrite He, Hst, bool_decide_true by done. cbn [negb andb].
  match goal with |- context [reset ?x] =>
    pose proof (reset_frame x) as Hf; set (r := reset x) in *; clearbody r end.
  destruct Hf as (Hwr & _ & Hin' & Hout' & He' & Hc' & Hp' & Hst' & Hh' & Hhs' & Hev' & cs & Hcs & Hclear).
  cbn [http set_http did_write set_outBuffer inBuffer_ outBuffer_ written calls events_] in *.
  rewrite Hin', Hin. cbn. eexists. split; [reflexivity|]. rewrite Hwr, Hs1, Ho. split; [done|].
  split; [unfold idle; rewrite Hin', Hout', He', Hc'; by split_and!|].
  split; [by rewrite Hev', Hev|]. exists cs. by rewrite Hcs, Hca.
Qed.

(** ** Requests in pieces *)

Definition mid_line (s : ParseState) : Prop :=
  s ∈ [H_KEY; H_COLON; H_SPACES_AFTER_COLON; H_VALUE; H_CR].

#[export] Instance mid_line_dec s : Decision (mid_line s).
Proof. unfold mid_line. apply _. Defined.

(** In the middle of a line whose key began in an earlier call, the scanner can
    only stay in the middle. *)
Definition stuck (s : HeaderScan) : Prop := mid_line (hs_state s) /\ key_start s = -1.

Lemma header_char_stuck str c i s r :
  stuck s -> header_char str c i s = Ret r ->
  match r with ScanNext s' => stuck s' | ScanLast _ => False | ScanError _ => True end.
Proof.
  unfold stuck, mid_line. destruct s as [st hs ks ke vs ve lb]. cbn [hs_state key_start].
  intros [Hst ->] H.
  repeat (apply elem_of_cons in Hst as [-> | Hst]); [..|by apply elem_of_nil in Hst]; cbn in H;
    repeat (case_match; try discriminate); simplify_eq; try done; (split; [|done]); cbn; set_solver.
Qed.

Lemma header_loop_stuck str rest : forall i s ok s' j,
  stuck s -> header_loop str rest i s = Ret (ok, s', j) -> ok = true -> stuck s'.
Proof.
  induction rest as [|c rest IH]; intros i s ok s' j Hs; cbn [header_loop]; [by intros [= <- <- <-]|].
  destruct (header_char str c i s) as [r| | |] eqn:E; cbn [mbind outcome_bind]; try done.
  pose proof (header_char_stuck _ _ _ _ _ Hs E) as Hr. destruct r as [s1|s1|s1]; [by apply IH|done|].
  by intros [= <- <- <-].
Qed.

(** ** Steps of the scanner and bytes left *)

Lemma header_loop_end str rest : forall i s s' j,
  header_loop str rest i s = Ret (true, s', j) -> i <= j <= i + size rest /\
  (hs_state s' = H_END_LF -> j = i -> hs_state s = H_END_LF).
Proof.
  induction rest as [|c rest IH]; intros i s s' j; cbn [header_loop].
  { intros [= <- <-]. rewrite size_nil. split; [lia|auto]. }
  rewrite size_cons. pose proof (size_nonneg rest).
  destruct (header_char str c i s) as [r| | |] eqn:E; cbn [mbind outcome_bind]; try done.
  destruct r as [s1|s1|s1]; [|intros [= <- <-]; split; lia|done].
  intros Hl. apply IH in Hl as [Hj _]. split; lia.
Qed.

(** ** Fuel: nothing but the recursion of [handleRead] consumes it *)

Definition no_fuel {A} (o : outcome A) : Prop := o <> OutOfFuel.

Lemma no_fuel_bind {A B} (o : outcome A) (f : A -> outcome B) :
  no_fuel o -> (forall a, no_fuel (f a)) -> no_fuel (a ← o; f a).
Proof. unfold no_fuel. destruct o; cbn; auto; congruence. Qed.

Lemma no_fuel_substr s p n : no_fuel (substr s p n).
Proof. unfold no_fuel, substr. by case_match. Qed.

Lemma no_fuel_stoi s : no_fuel (stoi s).
Proof. unfold no_fuel, stoi. by repeat case_match. Qed.

Ltac no_fuel_steps :=
  repeat first
    [ progress cbv zeta | assumption | match goal with |- forall _ : _, _ => intros ? end
    | apply no_fuel_substr | apply no_fuel_stoi
    | match goal with |- no_fuel (mbind _ _) => apply no_fuel_bind end | case_match | discriminate ].

Lemma no_fuel_parseURI d : no_fuel (parseURI d).
Proof. unfold parseURI. no_fuel_steps. Qed.

Lemma no_fuel_header_loop str rest : forall i s, no_fuel (header_loop str rest i s).
Proof.
  induction rest as [|c rest IH]; intros i s; cbn [header_loop]; [done|].
  apply no_fuel_bind; [|intros []; by first [apply IH | done]].
  unfold header_char, str_range. destruct s as [st hs ks ke vs ve lb]. no_fuel_steps.
Qed.

Lemma no_fuel_parseHeaders d : no_fuel (parseHeaders d).
Proof.
  unfold parseHeaders. apply no_fuel_bind; [apply no_fuel_header_loop|]. intros [[ok s] i]. no_fuel_steps.
Qed.

Lemma no_fuel_handleError w n m : no_fuel (handleError w n m).
Proof. unfold handleError. no_fuel_steps. Qed.

Lemma no_fuel_handleWrite w : no_fuel (handleWrite w).
Proof. unfold handleWrite, writen. no_fuel_steps. Qed.

Lemma no_fuel_analysisRequest files w : no_fuel (analysisRequest files w).
Proof. unfold analysisRequest, not_found. no_fuel_steps; apply no_fuel_handleError. Qed.

Lemma no_fuel_read_block files w : no_fuel (read_block files w).
Proof.
  assert (Ha : forall w, no_fuel (read_analysis files w)).
  { intros w'. unfold read_analysis. apply no_fuel_bind; [apply no_fuel_analysisRequest|]. no_fuel_steps. }
  assert (Hb : forall w, no_fuel (read_body files w)).
  { intros w'. unfold read_body, bad_request. no_fuel_steps; first [apply Ha | apply no_fuel_handleError]. }
  assert (Hh : forall w, no_fuel (read_headers files w)).
  { intros w'. unfold read_headers, bad_request. no_fuel_steps;
      first [apply Hb | apply no_fuel_handleError | apply no_fuel_parseHeaders]. }
  unfold read_block, read_uri, bad_request. no_fuel_steps;
    first [apply Hh | apply no_fuel_handleError | apply no_fuel_parseURI].
Qed.


(** The bytes that are buffered or will be read. *)
Definition stream_size (k : list read_result) : Z :=
  foldr (fun r n => match r with ReadBytes b => size b + n | ReadError _ => n end) 0 k.
Definition pending (w : conn) : Z := size (inBuffer_ (http w)) + stream_size (reads w).

Lemma pending_http w d : pending (set_http w d) = size (inBuffer_ d) + stream_size (reads w).
Proof. reflexivity. Qed.

Lemma stream_size_nonneg k : 0 <= stream_size k.
Proof. induction k as [|[b|e] k IH]; cbn; [lia| |done]. pose proof (size_nonneg b). fold (stream_size k). lia. Qed.

Lemma readn_size k : forall n b z r b' z' k',
  readn n b z k = (r, b', z', k') -> size b' + stream_size k' <= size b + stream_size k.
Proof.
  induction k as [|[c|e] k IH]; intros n b z r b' z' k'; cbn [readn sys_read]; [by intros [= <- <- <- <-]| |].
  - cbn [stream_size foldr]. fold (stream_size k). pose proof (size_nonneg c).
    assert (size (take (Z.to_nat MAX_BUFF) c) <= size c) by (unfold size; rewrite length_take; lia).
    case_if; [intros [= <- <- <- <-]; lia|]. intros Hr. apply IH in Hr. rewrite size_app in Hr. lia.
  - case_if; [apply IH|]. case_if; by intros [= <- <- <- <-].
Qed.

Lemma substr_len s p n t : substr s p n = Ret t -> size t <= size s.
Proof.
  unfold substr. case_if; [done|]. intros [= <-]. unfold size. rewrite length_take, length_drop. lia.
Qed.

Lemma parseURI_size d f d' :
  parseURI d = Ret (f, d') -> size (inBuffer_ d') <= size (inBuffer_ d) /\ hState_ d' = hState_ d /\
  state_ d' = state_ d.
Proof.
  unfold parseURI. intros H. case_if_in H; [by injection H as <- <-|].
  inv_bind H. inv_bind H.
  assert (Hb : size a0 <= size (inBuffer_ d)).
  { case_if_in Ha0; [by apply substr_len in Ha0|]. injection Ha0 as <-. apply size_nonneg. }
  cbv zeta in H.
  repeat first [case_match; try discriminate | inv_bind H]; simplify_eq; done.
Qed.

Lemma parseHeaders_size d f d' :
  parseHeaders d = Ret (f, d') -> size (inBuffer_ d') <= size (inBuffer_ d) /\ state_ d' = state_ d /\
  (f = PARSE_HEADER_SUCCESS -> hState_ d <> H_END_LF -> size (inBuffer_ d') < size (inBuffer_ d)).
Proof.
  unfold parseHeaders. intros H. inv_bind H. destruct a as [[ok s] i].
  destruct ok; cbn [negb] in H; [|by injection H as <- <-].
  case_bool_decide; inv_bind H; injection H as <- <-.
  - pose proof (substr_len _ _ _ _ Ha0). cbn. split_and!; [done|done|]. intros _ Hne.
    apply header_loop_end in Ha as [Hj Hd].
    assert (i <> 0) by (intros ->; apply Hne, Hd; done).
    unfold substr in Ha0. case_if_in Ha0; [done|]. zbool. injection Ha0 as <-.
    unfold size. rewrite length_take, length_drop. unfold size in *. lia.
  - pose proof (substr_len _ _ _ _ Ha0). by split_and!.
Qed.

Lemma handleError_frame w n m w' :
  handleError w n m = Ret w' -> http w' = http w /\ reads w' = reads w.
Proof. unfold handleError. intros H. repeat (case_match; try discriminate). by simplify_eq. Qed.

Lemma bad_request_frame w m w' :
  bad_request w m = Ret w' -> inBuffer_ (http w') = inBuffer_ (http w) /\ reads w' = reads w /\
  error_ (http w') = true.
Proof. intros [-> ->]%handleError_frame. done. Qed.

Lemma analysisRequest_frame files w f w' :
  analysisRequest files w = Ret (f, w') -> pending w' = pending w.
Proof.
  assert (Hn : forall w1, pending w1 = pending w -> not_found w1 = Ret (f, w') -> pending w' = pending w).
  { unfold not_found. intros w1 Hp H. inv_bind H. apply handleError_frame in Ha as [Hh Hr].
    injection H as _ <-. unfold pending in *. by rewrite Hh, Hr. }
  unfold analysisRequest. intros H. case_if_in H; [by injection H as _ <-|]. cbv zeta in H. inv_bind H.
  repeat (case_match; try discriminate).
  all: first [by injection H as _ <-; cbn | by (eapply Hn; [|exact H])].
Qed.

Lemma read_body_pending files w w' : read_body files w = Ret w' -> pending w' = pending w.
Proof.
  assert (Ha : forall w1, read_analysis files w1 = Ret w' -> pending w' = pending w1).
  { unfold read_analysis. intros w1 H. inv_bind H. destruct a as [[|] w2]; injection H as <-;
      by apply analysisRequest_frame in Ha. }
  unfold read_body. intros H. repeat (case_match; try discriminate).
  - inv_bind H. case_if_in H; [by injection H as <-|]. by apply Ha in H.
  - apply bad_request_frame in H as (Hi & Hr & _). unfold pending. by rewrite Hi, Hr.
  - by apply Ha.
  - by injection H as <-.
Qed.

(** A request is finished only after its header took at least a byte. *)
Lemma read_headers_pending files w w' :
  read_headers files w = Ret w' -> error_ (http w') = false -> pending w' <= pending w /\
  (state_ (http w) = STATE_PARSE_HEADERS -> hState_ (http w) <> H_END_LF ->
   state_ (http w') = STATE_FINISH -> pending w' < pending w).
Proof.
  unfold read_headers. case_bool_decide as Hs; intros H He.
  - inv_bind H. destruct a as [f d]. apply parseHeaders_size in Ha as (Hle & Hst & Hlt).
    destruct f.
    + apply read_body_pending in H. rewrite pending_http in H. unfold pending in *. cbn [inBuffer_ set_state] in H.
      change (reads (set_http w d)) with (reads w) in H.
      split; [lia|]. intros _ Hh _. specialize (Hlt eq_refl Hh). lia.
    + injection H as <-. rewrite pending_http. unfold pending. split; [lia|]. intros _ _. cbn [http set_http].
      by rewrite Hst, Hs.
    + apply bad_request_frame in H as (_ & _ & He'). congruence.
  - apply read_body_pending in H. split; [lia|]. done.
Qed.

Lemma read_block_pending files w w' :
  read_block files w = Ret w' -> error_ (http w') = false -> pending w' <= pending w /\
  (state_ (http w) = STATE_PARSE_URI -> hState_ (http w) = H_START ->
   state_ (http w') = STATE_FINISH -> pending w' < pending w).
Proof.
  unfold read_block. intros H He.
  destruct (readn 0 (inBuffer_ (http w)) false (reads w)) as [[[rc b] zero] k'] eqn:Er.
  apply readn_size in Er.
  assert (Hu : forall w1, inBuffer_ (http w1) = b -> reads w1 = k' -> state_ (http w1) = state_ (http w) ->
    hState_ (http w1) = hState_ (http w) -> read_uri files w1 = Ret w' -> pending w' <= pending w /\
    (state_ (http w) = STATE_PARSE_URI -> hState_ (http w) = H_START ->
     state_ (http w') = STATE_FINISH -> pending w' < pending w)).
  { intros w1 Hb Hk Hs Hh Hr. unfold read_uri in Hr. case_bool_decide as Hp.
    - inv_bind Hr. destruct a as [f d]. apply parseURI_size in Ha as (Hle & Hh' & Hs'). rewrite Hb in Hle.
      rewrite <- Hk in Er. destruct f.
      + injection Hr as <-. rewrite pending_http. unfold pending. split; [lia|]. cbn [http set_http].
        rewrite Hs', Hp. done.
      + apply bad_request_frame in Hr as (_ & _ & He'). congruence.
      + apply read_headers_pending in Hr as [H1 H2]; [|done]. unfold pending in *.
        cbn [inBuffer_ set_state set_http http reads] in *.
        split; [lia|]. intros _ Hst Hf. cbn [hState_ state_ set_state] in H2. rewrite Hh', Hh, Hst in H2.
        specialize (H2 eq_refl ltac:(done) Hf). lia.
    - apply read_headers_pending in Hr as [H1 H2]; [|done]. unfold pending in *.
      split; [subst; lia|]. congruence. }
  case_if_in H.
  { injection H as <-. rewrite pending_http. unfold pending. cbn [inBuffer_ set_inBuffer did_read reads].
    rewrite size_nil. pose proof (size_nonneg b).
    split; [lia|]. cbn. congruence. }
  case_if_in H; [apply bad_request_frame in H as (_ & _ & He'); congruence|].
  destruct zero; [|by eapply Hu; [..|exact H]].
  case_if_in H; [|by eapply Hu; [..|exact H]].
  injection H as <-. rewrite pending_http. unfold pending.
  cbn [inBuffer_ did_read reads http set_http set_connection set_inBuffer]. split; [lia|]. cbn. congruence.
Qed.

Lemma handleWrite_frame w w' :
  handleWrite w = Ret w' -> pending w' = pending w /\ state_ (http w') = state_ (http w).
Proof.
  unfold handleWrite. intros H. case_if_in H; [|by injection H as <-]. inv_bind H.
  destruct a as [[[rc out] sent] k]. injection H as <-. unfold pending.
  by repeat case_match.
Qed.

Lemma handleRead_fuel files fuel : forall w,
  pending w + (if bool_decide (state_ (http w) = STATE_PARSE_URI /\ hState_ (http w) = H_START)
               then 0 else 1) < Z.of_nat fuel ->
  no_fuel (handleRead fuel files w).
Proof.
  induction fuel as [|fuel IH]; intros w Hf.
  { unfold pending in Hf. pose proof (size_nonneg (inBuffer_ (http w))).
    pose proof (stream_size_nonneg (reads w)). case_if_in Hf; lia. }
  cbn [handleRead]. pose proof (no_fuel_read_block files w) as Hn.
  destruct (read_block files w) as [w1| | |] eqn:E1; try done. cbn [mbind outcome_bind].
  destruct (error_ (http w1)) eqn:E2; [done|]. apply read_block_pending in E1 as [Hle Hlt]; [|done].
  assert (Hc : forall w2, pending w2 = pending w1 -> state_ (http w2) = state_ (http w1) ->
    no_fuel (let d := http w2 in
      if negb (error_ d) && bool_decide (state_ d = STATE_FINISH) then
        let w := reset w2 in
        if (0 <? size (inBuffer_ (http w))) &&
           negb (bool_decide (connectionState_ (http w) = H_DISCONNECTING))
        then handleRead fuel files w else Ret w
      else if negb (error_ d) && negb (bool_decide (connectionState_ d = H_DISCONNECTED)) then
        Ret (set_http w2 (set_events d (Z.lor (events_ d) EPOLLIN)))
      else Ret w2)).
  { intros w2 Hp Hs. cbv zeta. destruct (_ && bool_decide (state_ (http w2) = STATE_FINISH)) eqn:Ef;
      [|by case_if].
    apply andb_true_iff in Ef as [_ Ef%bool_decide_eq_true]. case_if; [|done]. apply IH.
    destruct (reset_frame w2) as (_ & Hr & Hi & _ & _ & _ & _ & Hs2 & Hh2 & _ & _).
    rewrite bool_decide_true by done. rewrite Hs in Ef. unfold pending in *. rewrite Hr, Hi.
    case_if_in Hf; [|lia]. apply bool_decide_eq_true in E0 as [Hs0 Hh0]. specialize (Hlt Hs0 Hh0 Ef). lia. }
  case_if; [|by apply Hc].
  pose proof (no_fuel_handleWrite w1) as Hw. destruct (handleWrite w1) as [w2| | |] eqn:E3; try done.
  apply handleWrite_frame in E3 as [Hp Hs]. by apply Hc.
Qed.

(** ** A request line cut in its target *)

Lemma parseURI_cut d t :
  inBuffer_ d = lit "GET /" ++ t -> nowReadPos_ d = 0 -> CR ∉ t -> SP ∉ t ->
  size (inBuffer_ d) < 2 ^ 31 ->
  exists d', parseURI d = Ret (PARSE_URI_ERROR, d') /\ connectionState_ d' = connectionState_ d.
Proof.
  intros Hb Hn Hcr Hsp Hsz. unfold parseURI. rewrite Hb, Hn in *.
  set (b := lit "GET /" ++ t) in *. pose proof (size_nonneg t).
  assert (Hsize : size b = 5 + size t) by (unfold b; by rewrite size_app).
  assert (Hfits : fits b) by (unfold fits; lia).
  assert (Hpos : find_char CR b (u64 0) = npos).
  { apply find_char_absent. unfold b. rewrite elem_of_app. intros [Hi|Hi]; [|done].
    by apply (bool_decide_pack _) in Hi. }
  rewrite Hpos. change (npos <? 0) with false. cbv iota.
  rewrite substr_tail by (done || lia). change (drop (Z.to_nat 0) b) with b. cbn [mbind outcome_bind].
  change (u64 (npos + 1)) with 0. rewrite (proj2 (Z.ltb_lt _ _)) by lia.
  rewrite substr_tail by (done || lia). change (drop (Z.to_nat 0) b) with b. cbn [mbind outcome_bind].
  assert (Hget : find (lit "GET") b 0 = 0)
    by exact (find_at "G" (lit "ET") [] [] (lit " /" ++ t) (not_elem_of_nil _)).
  rewrite Hget. change (0 <=? i32 0) with true. cbv iota zeta. change (i32 0) with 0.
  assert (Hslash : find (lit "/") b 0 = 4).
  { apply (find_at "/" [] [] (lit "GET ") t). apply (bool_decide_unpack _). done. }
  rewrite Hslash. change (4 <? 0) with false. cbv iota.
  assert (Hspace : find_char SP b 4 = npos).
  { apply (find_char_absent_from SP (lit "GET ") ("/"%char :: t)). by apply not_elem_of_cons. }
  rewrite Hspace. change (npos <? 0) with false. change (1 <? u64 (npos - 4)) with true. cbv iota.
  change (u64 (4 + 1)) with 5. rewrite (substr_ok b 5) by lia. cbn [mbind outcome_bind].
  set (f := take _ (drop _ b)).
  assert (Hf : returns (if 0 <=? find_char "?" f 0 then substr f 0 (find_char "?" f 0) else Ret f)).
  { case_if; [|by apply returns_Ret]. apply substr_returns. apply size_nonneg. }
  destruct Hf as [name ->]. cbn [mbind outcome_bind].
  rewrite (find_beyond (lit "/") b npos) by (unfold npos; lia). change (npos <? 0) with false. cbv iota.
  replace (u64 (size b - npos)) with (size b + 1).
  2:{ unfold u64, npos. rewrite <- (Z_mod_plus_full _ 1). rewrite Z.mod_small; lia. }
  rewrite (proj2 (Z.leb_gt _ _)) by lia. change (u64 (npos + 1)) with 0.
  rewrite (substr_ok b 0) by lia. rewrite (Z.min_l 3) by lia. cbn [mbind outcome_bind].
  change (take (Z.to_nat 3) (drop (Z.to_nat 0) b)) with (lit "GET").
  change (bytes_eqb (lit "GET") (lit "1.0")) with false. change (bytes_eqb (lit "GET") (lit "1.1")) with false.
  eexists; by split.
Qed.

Lemma writen_raw_all b n k :
  b <> [] -> size b <= n -> exists r, writen_raw 0 b [] (WriteUpTo n :: k) = (r, b, k).
Proof.
  intros Hb Hn. cbn [writen_raw]. pose proof (size_nonneg b).
  rewrite (proj2 (Z.eqb_neq _ _)).
  2:{ intros E. apply Hb. destruct b; [done|]. rewrite size_cons in E. pose proof (size_nonneg b). lia. }
  replace (Z.to_nat (Z.max 0 (Z.min n (size b)))) with (length b) by (unfold size in *; lia).
  rewrite drop_all, firstn_all. eexists. destruct k; reflexivity.
Qed.

(** What a client gets for a request that cannot be parsed. *)
Definition bad_request_page : bytes :=
  let body := error_body 400 (lit " Bad Request") in error_header 400 (lit " Bad Request") body ++ body.

(** ** Calls to the loop *)

(** What [handleConn] asks of the loop for the connection itself. *)
Definition rearms (c : loop_call) : bool :=
  match c with UpdatePoller _ _ | RunHandleClose => true | _ => false end.

Definition rearm_count (l : list loop_call) : nat := foldr (fun c n => (Nat.b2n (rearms c) + n)%nat) 0%nat l.

Lemma rearm_count_snoc l c : rearm_count (l ++ [c]) = (rearm_count l + Nat.b2n (rearms c))%nat.
Proof. induction l as [|d l IH]; cbn; [lia|]. fold (rearm_count (l ++ [c])) (rearm_count l). lia. Qed.

Lemma seperateTimer_rearms w : rearm_count (calls (seperateTimer w)) = rearm_count (calls w).
Proof.
  unfold seperateTimer. repeat case_match; try done. cbn [calls add_call set_http].
  rewrite rearm_count_snoc. apply Nat.add_0_r.
Qed.

(** Handlers of events only clear timers until their last statement. *)
Definition cleared (w w' : conn) : Prop := exists cs, calls w' = calls w ++ cs /\ Forall clears cs.

#[export] Instance cleared_refl : Reflexive cleared.
Proof. intros w. exists []. by rewrite app_nil_r. Qed.

#[export] Instance cleared_trans : Transitive cleared.
Proof.
  intros w1 w2 w3 (cs1 & H1 & F1) (cs2 & H2 & F2). exists (cs1 ++ cs2).
  by rewrite H2, H1, <- app_assoc, Forall_app.
Qed.

Lemma cleared_same w w' : calls w' = calls w -> cleared w w'.
Proof. intros H. exists []. by rewrite app_nil_r. Qed.

Section handler_calls.
Context (files : Files).

Lemma handleError_calls w n msg w' : handleError w n msg = Ret w' -> calls w' = calls w.
Proof.
  unfold handleError. cbv zeta. case_if; [done|]. destruct (writen_raw _ _ _ _) as [[? ?] ?].
  destruct (writen_raw _ _ _ _) as [[? ?] ?]. by intros [= <-].
Qed.

Lemma bad_request_calls w msg w' : bad_request w msg = Ret w' -> calls w' = calls w.
Proof. unfold bad_request. intros H. by apply handleError_calls in H. Qed.

Lemma not_found_calls w flag w' : not_found w = Ret (flag, w') -> calls w' = calls w.
Proof. unfold not_found. intros H. inv_bind H. injection H as _ <-. by eapply handleError_calls. Qed.

Lemma analysisRequest_calls w flag w' : analysisRequest files w = Ret (flag, w') -> calls w' = calls w.
Proof.
  unfold analysisRequest. case_bool_decide as Hpost; [by intros [= _ <-]|].
  cbv zeta. generalize (wants_keep_alive (http w)). intros keep (ft & _ & H)%bind_Ret_inv.
  destruct (bytes_eqb _ _); [by injection H as _ <-|].
  destruct (bytes_eqb _ _); [by injection H as _ <-|].
  destruct (stat_size _ _); [|by apply not_found_calls in H].
  case_bool_decide; [by injection H as _ <-|].
  destruct (negb _); [by apply not_found_calls in H|].
  destruct (mmap_file _ _ _); [by injection H as _ <-|by apply not_found_calls in H].
Qed.

Lemma read_analysis_calls w w' : read_analysis files w = Ret w' -> calls w' = calls w.
Proof.
  unfold read_analysis. intros ([flag w1] & H1 & H)%bind_Ret_inv. apply analysisRequest_calls in H1.
  destruct flag; by injection H as <-.
Qed.

Lemma read_body_calls w w' : read_body files w = Ret w' -> calls w' = calls w.
Proof.
  unfold read_body. case_bool_decide as Hst.
  - destruct (headers_ (http w) !! _); [|by intros ?%bad_request_calls].
    intros H. inv_bind H. case_if_in H; [by injection H as <-|]. by apply read_analysis_calls in H.
  - case_bool_decide as Hst'; [by apply read_analysis_calls|]. by intros [= <-].
Qed.

Lemma read_headers_calls w w' : read_headers files w = Ret w' -> calls w' = calls w.
Proof.
  unfold read_headers. case_bool_decide as Hst; [|by apply read_body_calls].
  intros ([flag d] & _ & H)%bind_Ret_inv. destruct flag.
  - by apply read_body_calls in H.
  - by injection H as <-.
  - by apply bad_request_calls in H.
Qed.

Lemma read_uri_calls w w' : read_uri files w = Ret w' -> calls w' = calls w.
Proof.
  unfold read_uri. case_bool_decide as Hst; [|by apply read_headers_calls].
  intros ([flag d] & _ & H)%bind_Ret_inv. destruct flag.
  - by injection H as <-.
  - by apply bad_request_calls in H.
  - by apply read_headers_calls in H.
Qed.

Lemma read_block_calls w w' : read_block files w = Ret w' -> calls w' = calls w.
Proof.
  unfold read_block. destruct (readn _ _ _ _) as [[[rc b] zero] k]. cbv zeta.
  case_bool_decide as Hc; [by intros [= <-]|]. case_if; [by intros ?%bad_request_calls|].
  destruct zero; [case_if; [by intros [= <-]|]|]; by intros ?%read_uri_calls.
Qed.

Lemma handleWrite_calls w w' : handleWrite w = Ret w' -> calls w' = calls w.
Proof.
  unfold handleWrite. cbv zeta. destruct (_ && _); [|by intros [= <-]].
  intros ([[[rc out] sent] k] & _ & H)%bind_Ret_inv. by injection H as <-.
Qed.

Lemma handleRead_calls fuel : forall w w', handleRead fuel files w = Ret w' -> cleared w w'.
Proof.
  induction fuel as [|fuel IH]; intros w w'; cbn [handleRead]; [done|].
  intros (w1 & H1%read_block_calls & H)%bind_Ret_inv.
  destruct (error_ (http w1)); [injection H as <-; by apply cleared_same|].
  apply bind_Ret_inv in H as (w2 & H2 & H).
  assert (Hc2 : cleared w w2).
  { apply cleared_same. case_if_in H2; [apply handleWrite_calls in H2; congruence|congruence]. }
  etrans; [exact Hc2|]. cbv zeta in H. destruct (negb _ && _); cbn in H.
  - destruct (reset_frame w2) as (_&_&_&_&_&_&_&_&_&_&_& Hcl).
    etrans; [exact Hcl|]. case_if_in H; [by apply IH|injection H as <-; reflexivity].
  - case_if_in H; injection H as <-; by apply cleared_same.
Qed.
End handler_calls.

(** An event that [handleEvents] drops. *)
Definition dropped_event (revents : Z) : bool :=
  has_event revents EPOLLHUP && negb (has_event revents EPOLLIN) || has_event revents EPOLLERR.

(** The client has closed its half, and output is left. *)
Definition half_closed (d : HttpData) : bool :=
  negb (error_ d) && bool_decide (connectionState_ d = H_DISCONNECTING) && has_event (events_ d) EPOLLOUT.

Lemma handleConn_rearms w :
  rearm_count (calls (handleConn w)) = (rearm_count (calls w) + Nat.b2n (negb (half_closed (http w))))%nat /\
  half_closed (http (handleConn w)) = half_closed (http w).
Proof.
  unfold handleConn, half_closed. destruct (seperateTimer_frame w) as (_ & _ & [t Hh] & _).
  rewrite <- (seperateTimer_rearms w), Hh. cbn [error_ connectionState_ events_ set_timer keepAlive_].
  destruct (error_ (http w)) eqn:He, (connectionState_ (http w)) eqn:Hc; cbn [negb andb].
  all: repeat (rewrite bool_decide_false by done || rewrite bool_decide_true by done); cbn [andb].
  all: repeat (case_if; cbn [negb]);
    cbn [calls add_call set_http Nat.b2n http set_events error_ connectionState_ events_];
    rewrite ?rearm_count_snoc, ?Hh; cbn [set_timer error_ connectionState_ events_]; rewrite ?He, ?Hc;
    repeat (rewrite bool_decide_false by done || rewrite bool_decide_true by done); cbn [andb negb].
  all: split; [cbn; lia|try done].
Qed.

Lemma cleared_rearms w w' : cleared w w' -> rearm_count (calls w') = rearm_count (calls w).
Proof.
  intros (cs & -> & Hcs). induction cs as [|c cs IH] using rev_ind; [by rewrite app_nil_r|].
  apply Forall_app in Hcs as [Hcs [Hc _]%Forall_cons]. rewrite app_assoc, rearm_count_snoc, IH by done.
  destruct c; cbn; done || lia.
Qed.

(** * Properties *)

(** C30: A request for a file is served. A connection between two requests that
    receives a whole [GET] request (any target without a space or CR, either
    version, at least one header that the scanner accepts), in any number of
    pieces that one drain of the socket delivers, answers the status line, the
    [Connection] lines when they were asked for, the type of the file's suffix,
    its length and its content, and is between two requests again. The file is
    the target up to its question mark, used as it is. *)
Theorem get_request_served fuel files w t v l content n k :
  idle (http w) -> received (reads w) = request_text t v l -> reads_end (reads w) = NoMore ->
  CR ∉ t -> SP ∉ t -> v = "0"%char \/ v = "1"%char -> l <> [] -> headers_ok l ->
  size (request_text t v l) < 2 ^ 31 -> requested_file t <> lit "hello" ->
  requested_file t <> lit "favicon.ico" -> has_file files (requested_file t) content ->
  let response := file_response (asks_keep_alive (parsed_headers l)) (requested_file t) content in
  writes w = WriteUpTo n :: k -> size response <= n -> size response < 2 ^ 31 ->
  exists w', handleRead (S fuel) files w = Ret w' /\
    written w' = written w ++ response /\ idle (http w').
Proof.
  intros. destruct (handleRead_get fuel files w t v l content n k) as (w' & Hr & Hw' & Hi & _); [done..|].
  by exists w'.
Qed.

Lemma get_request_served_witness :
  let files := mkFiles (fun f => if bytes_eqb f (lit "../secret.txt") then Some 3 else None)
                 (fun _ => true) (fun _ _ => Some (lit "abc")) in
  let text := request_text (lit "../secret.txt?x=1") "1" [(lit "Host", lit "a"); (lit "Connection", lit "keep-alive")] in
  let w := mkConn new_HttpData [ReadBytes (take 20 text); ReadError EINTR; ReadBytes (drop 20 text)]
             [WriteUpTo 1000] [] [] ∅ in
  let response := file_response true (lit "../secret.txt") (lit "abc") in
  exists w', handleRead 1 files w = Ret w' /\ written w' = response /\ idle (http w').
Proof.
  intros files text w response.
  apply (get_request_served 0 files w (lit "../secret.txt?x=1") "1"
    [(lit "Host", lit "a"); (lit "Connection", lit "keep-alive")] (lit "abc") 1000 []).
  all: try (by vm_compute). all: try (by apply (bool_decide_unpack _); vm_compute).
Defined.

(** C31: [parseHeaders] reads back what was written. On the header lines [l]
    (names without colon or line end, values without CR of at most 256 bytes)
    and the empty line, it succeeds with every header stored, a later value of
    a name replacing the earlier one; the buffer keeps what follows the empty
    line, less one byte. *)
Theorem headers_parsed d l rest :
  inBuffer_ d = LF :: headers_text l ++ CR :: LF :: rest -> size (inBuffer_ d) < 2 ^ 31 ->
  hState_ d = H_START -> l <> [] -> headers_ok l ->
  parseHeaders d =
  Ret (PARSE_HEADER_SUCCESS,
       set_inBuffer (set_hState d H_END_LF (foldl add_header (headers_ d) l)) (drop 1 rest)).
Proof. apply parseHeaders_block. Qed.

Lemma headers_parsed_witness :
  let l := [(lit "Host", lit "a"); (lit "Accept", lit "*/*"); (lit "Host", lit "b:1")] in
  let d := set_inBuffer new_HttpData (LF :: headers_text l ++ CR :: LF :: lit "GET /next") in
  parseHeaders d =
  Ret (PARSE_HEADER_SUCCESS, set_inBuffer (set_hState d H_END_LF (foldl add_header ∅ l)) (lit "ET /next")).
Proof.
  intros l d. apply (headers_parsed d l (lit "GET /next")); [done|by vm_compute|done|done|].
  by apply (bool_decide_unpack _); vm_compute.
Defined.

(** A header that arrives in two reads cut inside a line is never parsed:
    from each of the states that a line leaves, [parseHeaders] does not succeed
    on any input, and while it asks for more it stays in such a state, as the
    indexes of the line begin again at -1. *)
Theorem cut_header_never_parsed d f d' :
  mid_line (hState_ d) -> parseHeaders d = Ret (f, d') ->
  f <> PARSE_HEADER_SUCCESS /\ (f = PARSE_HEADER_AGAIN -> mid_line (hState_ d')).
Proof.
  intros Hm H. unfold parseHeaders in H. inv_bind H. destruct a as [[ok s] i]. destruct ok; cbn [negb] in H.
  - apply header_loop_stuck in Ha as [Hs _]; [|done..].
    rewrite bool_decide_false in H by (intros E; rewrite E in Hs; by apply (bool_decide_pack _) in Hs).
    inv_bind H. injection H as <- <-. split; [done|]. intros _. exact Hs.
  - injection H as <- <-. done.
Qed.

Lemma cut_header_never_parsed_witness :
  let d1 := set_inBuffer new_HttpData (LF :: lit "Host: exam") in
  let d2 := set_inBuffer (set_hState new_HttpData H_VALUE ∅) (lit "Host: exam") in
  parseHeaders d1 = Ret (PARSE_HEADER_AGAIN, d2) /\
  (PARSE_HEADER_AGAIN <> PARSE_HEADER_SUCCESS /\
   (PARSE_HEADER_AGAIN = PARSE_HEADER_AGAIN -> mid_line (hState_ d2))) /\
  parseHeaders (set_inBuffer d2 (lit "Host: example" ++ crlf ++ crlf)) = UB.
Proof.
  intros d1 d2. split; [|split].
  - by vm_compute.
  - apply (cut_header_never_parsed d2 PARSE_HEADER_AGAIN d2); [|by vm_compute].
    by apply (bool_decide_unpack _); vm_compute.
  - by vm_compute.
Defined.

(** A request line that arrives cut in its target is refused instead of
    waited for: the client gets the 400 page and the connection is in error. *)
Theorem cut_target_refused fuel files w t n m k :
  idle (http w) -> received (reads w) = lit "GET /" ++ t -> reads_end (reads w) = NoMore ->
  CR ∉ t -> SP ∉ t -> size t < 2 ^ 31 - 5 -> writes w = WriteUpTo n :: WriteUpTo m :: k ->
  4096 <= n -> 4096 <= m ->
  exists w', handleRead (S fuel) files w = Ret w' /\ error_ (http w') = true /\
    written w' = written w ++ bad_request_page.
Proof.
  intros (Hin & _ & _ & Hcon & Hpos & Hst & _) Hrec Hend Hcr Hsp Hsz Hw Hn Hm.
  assert (Hl : size (lit "GET /" ++ t) = 5 + size t) by (by rewrite size_app).
  pose proof (size_nonneg t). cbn [handleRead]. unfold read_block.
  destruct (readn_spec (reads w) 0 (inBuffer_ (http w)) false) as [k' ->].
  rewrite Hend, Hrec, Hin. rewrite app_nil_l, i32_small by lia.
  set (w1 := did_read w _ k').
  change (connectionState_ (http w1)) with (connectionState_ (http w)). rewrite Hcon, bool_decide_false by done.
  rewrite (proj2 (Z.ltb_ge _ _)) by lia. unfold read_uri.
  change (state_ (http w1)) with (state_ (http w)). rewrite Hst, bool_decide_true by done.
  destruct (parseURI_cut (http w1) t) as (d' & -> & _); [done..| |].
  { change (size (lit "GET /" ++ t) < 2 ^ 31). lia. }
  cbn [mbind outcome_bind]. unfold bad_request, handleError. cbn [writes set_http]. change (writes w1) with (writes w). rewrite Hw.
  set (body := error_body _ _). set (head := error_header _ _ _).
  assert (Hc : c_string head = head /\ c_string body = body) by (by vm_compute). destruct Hc as [-> ->].
  change ((4096 <=? size head) || (4096 <=? size body)) with false. cbv iota.
  destruct (writen_raw_all head n (WriteUpTo m :: k)) as [r1 ->]; [done|by transitivity 4096|].
  destruct (writen_raw_all body m k) as [r2 ->]; [done|by transitivity 4096|].
  cbn [mbind outcome_bind]. eexists. by split.
Qed.

Lemma cut_target_refused_witness :
  let w := mkConn new_HttpData [ReadBytes (lit "GET /index.ht"); ReadError EAGAIN]
    [WriteUpTo 5000; WriteUpTo 5000] [] [] ∅ in
  exists w', handleRead 1 (mkFiles (fun _ => None) (fun _ => false) (fun _ _ => None)) w = Ret w' /\
    error_ (http w') = true /\ written w' = bad_request_page.
Proof.
  intros w. apply (cut_target_refused 0 _ w (lit "index.ht") 5000 5000 []).
  all: try (by vm_compute). all: by apply (bool_decide_unpack _); vm_compute.
Defined.

(** C32: [handleRead] stops, whatever the client sends in whatever pieces: each
    request it goes on to consumes at least a byte, so that its recursion is
    bounded by the bytes in the buffer and in the socket. *)
Theorem handleRead_terminates files w :
  handleRead (Z.to_nat (pending w) + 2) files w <> OutOfFuel.
Proof.
  apply handleRead_fuel. pose proof (size_nonneg (inBuffer_ (http w))).
  pose proof (stream_size_nonneg (reads w)). unfold pending in *. case_if; lia.
Qed.

(** C33: after an event. When a channel whose events the poller reported has run
    its handlers, the connection has asked its loop exactly once to watch it
    again or to close it, with these exceptions, in which it asked for neither:
    the event was a hangup without input or an error, which [handleEvents] drops
    before any handler of the connection, leaving its timer to close it; or the
    client has closed its half and output is left, and then its timer is
    detached too. *)
Theorem handleEvents_rearms fuel files revents w w' :
  handleEvents fuel files revents w = Ret w' ->
  (dropped_event revents = true -> calls w' = calls w /\ timer_ (http w') = timer_ (http w)) /\
  rearm_count (calls w') =
    (rearm_count (calls w) + Nat.b2n (negb (dropped_event revents || half_closed (http w'))))%nat.
Proof.
  unfold handleEvents, dropped_event. cbv zeta. intros H.
  destruct (has_event revents EPOLLHUP && negb (has_event revents EPOLLIN)).
  { injection H as <-. split; [done|]. cbn [orb negb Nat.b2n calls set_http]. lia. }
  destruct (has_event revents EPOLLERR).
  { injection H as <-. split; [done|]. cbn [orb negb Nat.b2n calls set_http]. lia. }
  split; [done|]. inv_bind H. inv_bind H. injection H as <-.
  destruct (handleConn_rearms a0) as [-> ->]. f_equal. apply cleared_rearms.
  transitivity a.
  - case_if_in Ha; [by apply handleRead_calls in Ha|injection Ha as <-; by apply cleared_same].
  - apply cleared_same. case_if_in Ha0; [by apply handleWrite_calls|congruence].
Qed.

Lemma handleEvents_rearms_witness :
  let w := mkConn new_HttpData [ReadBytes (lit "GET /"); ReadBytes []] [] [] [] ∅ in
  exists w', handleEvents 3 (mkFiles (fun _ => None) (fun _ => false) (fun _ _ => None)) EPOLLIN w = Ret w' /\
  (dropped_event EPOLLIN = true -> calls w' = calls w /\ timer_ (http w') = timer_ (http w)) /\
  rearm_count (calls w') =
    (rearm_count (calls w) + Nat.b2n (negb (dropped_event EPOLLIN || half_closed (http w'))))%nat.
Proof.
  intros w. eexists. split; [vm_compute; reflexivity|]. apply (handleEvents_rearms 3 (mkFiles (fun _ => None) (fun _ => false) (fun _ _ => None)) EPOLLIN w).
  vm_compute. reflexivity.
Defined.
