(* ===== verification/Timer.v ===== *)
(** * Timer: the expiry of connections (WebServer/Timer.{h,cpp})

    [TimerNode], and [TimerManager] with its priority queue of nodes.  The queue
    is used through the interface [TimerQueue], which states what
    [std::priority_queue] promises; nodes are shared with the connections, which
    hold weak references to them, so they live in a store. *)

From stdpp Require Import sorting.
From S2P Require Export Util.

(** ** The clock *)

(** What [gettimeofday] stores. *)
Record timeval := mkTimeval { tv_sec : Z; tv_usec : Z }.

Definition timeval_ok (t : timeval) : Prop := 0 <= tv_sec t < 2 ^ 40 /\ 0 <= tv_usec t < 1000000.

(** The milliseconds of the last 10000 seconds. *)
Definition now_ms (now : timeval) : Z :=
  Z.rem (tv_sec now) 10000 * 1000 + Z.quot (tv_usec now) 1000.

(** ** TimerNode *)

(** [SPHttpData] names the connection that the node keeps alive. *)
Record TimerNode := mkTimerNode {
  deleted_ : bool;
  expiredTime_ : Z;
  SPHttpData : option nat
}.

Definition new_TimerNode (requestData : option nat) (timeout : Z) (now : timeval) : TimerNode :=
  mkTimerNode false (u64 (now_ms now + timeout)) requestData.

Definition update (n : TimerNode) (timeout : Z) (now : timeval) : TimerNode :=
  mkTimerNode (deleted_ n) (u64 (now_ms now + timeout)) (SPHttpData n).

Definition setDeleted (n : TimerNode) : TimerNode := mkTimerNode true (expiredTime_ n) (SPHttpData n).

Definition isValid (n : TimerNode) (now : timeval) : bool * TimerNode :=
  let temp := u64 (now_ms now) in
  if temp <? expiredTime_ n then (true, n) else (false, setDeleted n).

Definition clearReq (n : TimerNode) : TimerNode := setDeleted (mkTimerNode (deleted_ n) (expiredTime_ n) None).

(** ** The priority queue *)

(** An entry: the expiry that [TimerCmp] compares, and the node. *)
Definition entry : Type := Z * nat.

(** [top] and [pop] together take an entry that no other precedes; which one of
    several is not said. *)
Class TimerQueue (H : Type) := {
  q_empty : H;
  q_push : entry -> H -> H;
  q_pop : H -> option (entry * H);
  q_elements : H -> list entry;
  q_empty_spec : q_elements q_empty = [];
  q_push_spec x h : q_elements (q_push x h) ≡ₚ x :: q_elements h;
  q_pop_spec h :
    match q_pop h with
    | None => q_elements h = []
    | Some (x, h') =>
        q_elements h ≡ₚ x :: q_elements h' /\ Forall (fun y => x.1 <= y.1) (q_elements h')
    end
}.

(** ** TimerManager *)

(** [nodes]: the nodes that some [shared_ptr] of the queue keeps; [link]: the
    node that a connection is linked to; [closed]: the connections on which the
    destructor of a node called [handleClose], in order. *)
Section manager.
Context {H : Type} `{TimerQueue H}.

Record TimerManager := mkManager {
  timerNodeQueue : H;
  nodes : gmap nat TimerNode;
  link : gmap nat nat;
  closed : list nat
}.

Definition new_manager : TimerManager := mkManager q_empty ∅ ∅ [].

(** [id] is the address of the new node. *)
Definition addTimer (m : TimerManager) (id conn : nat) (timeout : Z) (now : timeval) : TimerManager :=
  let n := new_TimerNode (Some conn) timeout now in
  mkManager (q_push (expiredTime_ n, id) (timerNodeQueue m)) (<[id := n]> (nodes m))
    (<[conn := id]> (link m)) (closed m).

(** [HttpData::seperateTimer] on the connection [conn]: [lock] fails when the
    node is gone, and the reference is then left. *)
Definition clear_timer (m : TimerManager) (conn : nat) : TimerManager :=
  match link m !! conn with
  | Some id =>
      match nodes m !! id with
      | Some n => mkManager (timerNodeQueue m) (<[id := clearReq n]> (nodes m)) (delete conn (link m)) (closed m)
      | None => m
      end
  | None => m
  end.

(** [pop], and the destructor of the node when the last reference goes. *)
Definition pop_node (m : TimerManager) (q : H) (id : nat) (n : TimerNode) : TimerManager :=
  mkManager q (delete id (nodes m)) (link m) (closed m ++ option_list (SPHttpData n)).

(** [handleExpiredEvent]; [clock i] is what the [i]-th call of [isValid] reads. *)
Fixpoint handleExpiredEvent (fuel : nat) (clock : nat -> timeval) (m : TimerManager)
    : outcome TimerManager :=
  match fuel with
  | O => OutOfFuel
  | S fuel' =>
      match q_pop (timerNodeQueue m) with
      | None => Ret m
      | Some ((_, id), q') =>
          match nodes m !! id with
          | None => UB
          | Some n =>
              if deleted_ n then handleExpiredEvent fuel' clock (pop_node m q' id n)
              else
                let '(valid, n') := isValid n (clock 0%nat) in
                if valid then Ret m
                else handleExpiredEvent fuel' (fun i => clock (S i)) (pop_node m q' id n')
          end
      end
  end.

(** * Lemmas *)

(** The queue holds the nodes of the store, each once, under its expiry. *)
Definition queue_ok (m : TimerManager) : Prop :=
  q_elements (timerNodeQueue m) ≡ₚ (fun p => (expiredTime_ p.2, p.1)) <$> map_to_list (nodes m).

Lemma new_manager_ok : queue_ok new_manager.
Proof. unfold queue_ok, new_manager. cbn. by rewrite q_empty_spec, map_to_list_empty. Qed.

Lemma addTimer_ok m id conn timeout now :
  nodes m !! id = None -> queue_ok m -> queue_ok (addTimer m id conn timeout now).
Proof.
  unfold queue_ok. intros Hid Hm. cbn. rewrite q_push_spec, map_to_list_insert by done. cbn. by rewrite Hm.
Qed.

Lemma queue_ok_split m q' e id :
  queue_ok m -> q_elements (timerNodeQueue m) ≡ₚ (e, id) :: q_elements q' ->
  exists n, nodes m !! id = Some n /\ e = expiredTime_ n /\
    q_elements q' ≡ₚ (fun p => (expiredTime_ p.2, p.1)) <$> map_to_list (delete id (nodes m)).
Proof.
  unfold queue_ok. intros Hm Hq. rewrite Hq in Hm.
  assert (Hin : (e, id) ∈ (fun p => (expiredTime_ p.2, p.1)) <$> map_to_list (nodes m)).
  { rewrite <- Hm. left. }
  apply list_elem_of_fmap in Hin as ([i n] & Heq & Hin). cbn in Heq. injection Heq as -> ->.
  apply elem_of_map_to_list in Hin. exists n. split_and!; [done..|].
  rewrite <- (map_to_list_delete (nodes m) i n Hin) in Hm. cbn in Hm. by apply Permutation_cons_inv in Hm.
Qed.

Lemma clear_timer_ok m conn : queue_ok m -> queue_ok (clear_timer m conn).
Proof.
  unfold queue_ok, clear_timer. intros Hm. destruct (link m !! conn) as [id|]; [|done].
  destruct (nodes m !! id) as [n|] eqn:En; [|done]. cbn. rewrite Hm.
  rewrite <- (map_to_list_delete (nodes m) id n) by done.
  rewrite <- insert_delete_eq, map_to_list_insert by apply lookup_delete_eq. done.
Qed.

Definition connections (ns : gmap nat TimerNode) : list nat :=
  omap (fun p => SPHttpData p.2) (map_to_list ns).

(** What [handleExpiredEvent] does from [m] to [m'] under a clock: only deleted
    and expired nodes are removed, the connections of the removed ones are
    closed, each once, and a node that is left expires after the last reading. *)
Record expired (clock : nat -> timeval) (m m' : TimerManager) : Prop := {
  expired_ok : queue_ok m';
  expired_subset : nodes m' ⊆ nodes m;
  expired_link : link m' = link m;
  expired_removed id n : nodes m !! id = Some n -> nodes m' !! id = None ->
    deleted_ n = true \/ exists i, expiredTime_ n <= now_ms (clock i);
  expired_closed : closed m' ≡ₚ closed m ++ connections (nodes m ∖ nodes m');
  expired_left : exists i, forall id n, nodes m' !! id = Some n ->
    now_ms (clock i) < expiredTime_ n
}.

Lemma now_ms_range t : timeval_ok t -> 0 <= now_ms t < 10000000.
Proof.
  intros [[H1 _] H2]. unfold now_ms. rewrite Z.rem_mod_nonneg, Z.quot_div_nonneg by lia.
  pose proof (Z.mod_pos_bound (tv_sec t) 10000). pose proof (Z.div_pos (tv_usec t) 1000).
  pose proof (Z.div_lt_upper_bound (tv_usec t) 1000 1000). lia.
Qed.

Lemma u64_now t : timeval_ok t -> u64 (now_ms t) = now_ms t.
Proof. intros Ht. apply now_ms_range in Ht. apply u64_small. lia. Qed.

Lemma expired_pop clock clock' m q' id n n' m' :
  nodes m !! id = Some n -> SPHttpData n' = SPHttpData n ->
  (deleted_ n = true \/ exists i, expiredTime_ n <= now_ms (clock i)) ->
  (forall i, exists j, clock' i = clock j) ->
  expired clock' (pop_node m q' id n') m' -> expired clock m m'.
Proof.
  intros Hid Hn' Hn Hclock [Hok Hsub Hlink Hrem Hcl [k Hleft]]. cbn in *.
  assert (Hid' : nodes m' !! id = None).
  { destruct (nodes m' !! id) as [x|] eqn:E; [|done].
    apply (lookup_weaken _ _ _ _ E) in Hsub. by rewrite lookup_delete_eq in Hsub. }
  split; [done| |done| | |].
  - etrans; [done|apply delete_subseteq].
  - intros j x Hj Hj'. destruct (decide (j = id)) as [->|Hne]; [by simplify_eq|].
    destruct (Hrem j x) as [?|[i Hi]]; [by rewrite lookup_delete_ne|done|by left|].
    right. destruct (Hclock i) as [i' Hi']. exists i'. by rewrite <- Hi'.
  - rewrite Hcl. rewrite <- app_assoc. apply Permutation_app; [done|]. unfold connections.
    assert (Hd : nodes m ∖ nodes m' = <[id := n]> (delete id (nodes m) ∖ nodes m')).
    { apply map_eq. intros j. destruct (decide (j = id)) as [->|Hne].
      - rewrite lookup_insert_eq. apply lookup_difference_Some. done.
      - rewrite lookup_insert_ne by done. rewrite !lookup_difference. by rewrite lookup_delete_ne by done. }
    rewrite Hd, map_to_list_insert.
    2:{ apply lookup_difference_None. left. apply lookup_delete_eq. }
    cbn. rewrite Hn'. by destruct (SPHttpData n).
  - destruct (Hclock k) as [k' Hk]. exists k'. intros j x Hj. rewrite <- Hk. by eapply Hleft.
Qed.

Lemma handleExpired_spec fuel : forall clock m,
  (forall i, timeval_ok (clock i)) -> queue_ok m -> (base.size (nodes m) < fuel)%nat ->
  exists m', handleExpiredEvent fuel clock m = Ret m' /\ expired clock m m'.
Proof.
  induction fuel as [|fuel IH]; intros clock m Hc Hm Hf; [lia|]. cbn [handleExpiredEvent].
  assert (Hstay : (forall id n, nodes m !! id = Some n -> now_ms (clock 0%nat) < expiredTime_ n) ->
                  expired clock m m).
  { intros Hl. split; [done|done|done| | |by exists 0%nat].
    - intros id n H1 H2. congruence.
    - unfold connections. by rewrite map_difference_diag, map_to_list_empty, app_nil_r. }
  pose proof (q_pop_spec (timerNodeQueue m)) as Hp.
  destruct (q_pop (timerNodeQueue m)) as [[[e id] q']|].
  2:{ exists m. split; [done|]. apply Hstay. intros id n Hn. unfold queue_ok in Hm. rewrite Hp in Hm.
      apply Permutation_nil_l in Hm; symmetry in Hm; apply fmap_nil_inv, map_to_list_empty_iff in Hm. by rewrite Hm in Hn. }
  destruct Hp as [Hq Hmin]. destruct (queue_ok_split m q' e id Hm Hq) as (n & Hn & -> & Hq').
  rewrite Hn.
  assert (Hsize : (base.size (nodes (pop_node m q' id n)) < fuel)%nat).
  { cbn. rewrite map_size_delete_Some by done. assert (base.size (nodes m) <> 0)%nat; [|lia].
    intros E. apply map_size_empty_inv in E. by rewrite E in Hn. }
  destruct (deleted_ n) eqn:Ed.
  - destruct (IH clock (pop_node m q' id n)) as (m' & -> & Hm'); [done..|]. exists m'. split; [done|].
    eapply expired_pop; [done|done|by left| |done]. intros i. by exists i.
  - unfold isValid. rewrite u64_now by done. case_if; zbool.
    + exists m. split; [done|]. apply Hstay. intros j x Hj.
      assert (Hin : (expiredTime_ x, j) ∈ (expiredTime_ n, id) :: q_elements q').
      { rewrite <- Hq. unfold queue_ok in Hm. rewrite Hm. apply list_elem_of_fmap. exists (j, x).
        split; [done|]. by apply elem_of_map_to_list. }
      apply elem_of_cons in Hin as [[= -> ->]|Hin]; [done|].
      rewrite Forall_forall in Hmin. specialize (Hmin _ Hin). cbn in Hmin. lia.
    + destruct (IH (fun i => clock (S i)) (pop_node m q' id (setDeleted n))) as (m' & -> & Hm'); [done..|].
      exists m'. split; [done|]. eapply expired_pop; [done|done|right; by exists 0%nat| |done].
      intros i. by exists (S i).
Qed.

End manager.
Arguments TimerManager : clear implicits.

(** ** A queue: the list of the entries in the order of their expiry *)

Fixpoint insert_entry (x : entry) (l : list entry) : list entry :=
  match l with
  | [] => [x]
  | y :: l' => if x.1 <=? y.1 then x :: l else y :: insert_entry x l'
  end.

Definition ordered (l : list entry) : Prop := StronglySorted (fun x y => x.1 <= y.1) l.

Definition OrderedQueue : Type := { l : list entry | ordered l }.

Lemma insert_entry_perm x l : insert_entry x l ≡ₚ x :: l.
Proof.
  induction l as [|y l IH]; cbn; [done|]. case_if; [done|]. rewrite IH. apply Permutation_swap.
Qed.

Lemma insert_entry_ordered x l : ordered l -> ordered (insert_entry x l).
Proof.
  induction 1 as [|y l Hl IH Hy]; cbn; [repeat constructor|]. case_if; zbool.
  - repeat constructor; [done|done|lia|]. eapply Forall_impl; [done|]. intros z Hz. cbn in *. lia.
  - constructor; [done|]. rewrite insert_entry_perm. constructor; [lia|done].
Qed.

Definition ordered_pop (h : OrderedQueue) : option (entry * OrderedQueue) :=
  let '(exist _ l Hl) := h in
  match l return ordered l -> _ with
  | [] => fun _ => None
  | x :: l' => fun Hl => Some (x, exist _ l' (proj1 (StronglySorted_inv Hl)))
  end Hl.

#[export, program] Instance ordered_queue : TimerQueue OrderedQueue := {
  q_empty := exist _ [] (SSorted_nil _);
  q_push x h := exist _ (insert_entry x (`h)) (insert_entry_ordered x (`h) (proj2_sig h));
  q_pop := ordered_pop;
  q_elements h := `h
}.
Next Obligation. done. Qed.
Next Obligation. intros x [l Hl]. apply insert_entry_perm. Qed.
Next Obligation.
  intros [[|x l] Hl]; cbn; [done|]. split; [done|]. by apply StronglySorted_inv in Hl as [_ ?].
Qed.

(** ** Real time *)

Definition wall_ms (t : timeval) : Z := tv_sec t * 1000 + tv_usec t / 1000.

(** Two times in the same span of 10000 seconds. *)
Definition same_window (t0 t1 : timeval) : Prop := tv_sec t0 / 10000 = tv_sec t1 / 10000.

Lemma now_wall t : timeval_ok t -> now_ms t = wall_ms t - tv_sec t / 10000 * 10000000.
Proof.
  intros [[H1 _] [H2 _]]. unfold now_ms, wall_ms. rewrite Z.rem_mod_nonneg, Z.quot_div_nonneg by lia.
  rewrite Z.mod_eq by lia. lia.
Qed.

Lemma isValid_new req timeout t0 t1 :
  timeval_ok t0 -> timeval_ok t1 -> 0 <= timeout < 2 ^ 31 ->
  (isValid (new_TimerNode req timeout t0) t1).1 = true <-> now_ms t1 < now_ms t0 + timeout.
Proof.
  intros H0 H1 Ht. unfold isValid, new_TimerNode. rewrite u64_now by done. cbn [expiredTime_].
  pose proof (now_ms_range t0 H0). rewrite u64_small by lia.
  case_if; zbool; cbn; split; intros; try done; lia.
Qed.

(** * Properties *)

(** C34: [handleExpiredEvent] ends after at most one turn per node. It removes
    only nodes that were deleted or have expired, closes the connection of each
    of them exactly once, and leaves no node that is not later than its last
    reading of the clock; the queue and the store stay in agreement. This holds
    for any priority queue and any clock. *)
Theorem handleExpiredEvent_expires `{TimerQueue Q} clock (m : TimerManager Q) :
  (forall i, timeval_ok (clock i)) -> queue_ok m ->
  exists m', handleExpiredEvent (S (base.size (nodes m))) clock m = Ret m' /\ expired clock m m'.
Proof. intros Hc Hm. apply handleExpired_spec; [done..|lia]. Qed.

Lemma handleExpiredEvent_expires_witness :
  let t s := mkTimeval s 0 in
  let m := clear_timer (addTimer (addTimer (addTimer (new_manager (H := OrderedQueue))
    7 1 2000 (t 100)) 8 2 1000 (t 100)) 9 3 5000 (t 100)) 2 in
  exists m', handleExpiredEvent 4 (fun _ => t 103) m = Ret m' /\ expired (fun _ => t 103) m m' /\ closed m' = [1%nat].
Proof.
  intros t m. destruct (handleExpiredEvent_expires (fun _ => t 103) m) as (m' & Hm & He).
  - intros _. unfold timeval_ok. cbn. lia.
  - apply clear_timer_ok, addTimer_ok; [done|]. apply addTimer_ok; [done|].
    apply addTimer_ok; [done|]. apply new_manager_ok.
  - exists m'. split; [done|]. split; [done|]. vm_compute in Hm. by injection Hm as <-.
Defined.

(** A timer is exact within a span of 10000 seconds: it is valid as long as
    less than the timeout has passed, to the millisecond. *)
Theorem timer_exact_in_window req timeout t0 t1 :
  timeval_ok t0 -> timeval_ok t1 -> 0 <= timeout < 2 ^ 31 -> same_window t0 t1 ->
  (isValid (new_TimerNode req timeout t0) t1).1 = true <-> wall_ms t1 - wall_ms t0 < timeout.
Proof.
  intros H0 H1 Ht Hw. rewrite isValid_new by done. rewrite !now_wall by done. unfold same_window in Hw. lia.
Qed.

Lemma timer_exact_in_window_witness :
  let t0 := mkTimeval 1700000000 250000 in let t1 := mkTimeval 1700000002 249999 in
  (isValid (new_TimerNode None 2000 t0) t1).1 = true <-> wall_ms t1 - wall_ms t0 < 2000.
Proof. apply timer_exact_in_window; [split; cbn; lia|split; cbn; lia|lia|by vm_compute]. Defined.

(** A timer that reaches past the end of its span of 10000 seconds never
    expires: whatever the clock reads and however much later, the node and the
    connection it keeps stay. *)
Theorem late_timer_never_expires `{TimerQueue Q} clock (m : TimerManager Q) id n t0 timeout req :
  (forall i, timeval_ok (clock i)) -> queue_ok m -> timeval_ok t0 -> 0 <= timeout < 2 ^ 31 ->
  n = new_TimerNode req timeout t0 -> nodes m !! id = Some n -> 10000000 <= now_ms t0 + timeout ->
  exists m', handleExpiredEvent (S (base.size (nodes m))) clock m = Ret m' /\ nodes m' !! id = Some n.
Proof.
  intros Hc Hm H0 Ht -> Hid Hlate.
  destruct (handleExpired_spec (S (base.size (nodes m))) clock m) as (m' & Hm' & He); [done|done|lia|].
  exists m'. split; [done|]. destruct (nodes m' !! id) as [x|] eqn:Ex.
  - pose proof (lookup_weaken _ _ _ _ Ex (expired_subset _ _ _ He)). congruence.
  - destruct (expired_removed _ _ _ He id _ Hid Ex) as [?|[i Hi]]; [done|]. cbn in Hi.
    pose proof (now_ms_range t0 H0). pose proof (now_ms_range _ (Hc i)). rewrite u64_small in Hi by lia. lia.
Qed.

Lemma late_timer_never_expires_witness :
  let t0 := mkTimeval 9800 0 in
  let m := addTimer (new_manager (H := OrderedQueue)) 1 5 300000 t0 in
  exists m', handleExpiredEvent 2 (fun i => mkTimeval (99999 + 7000 * Z.of_nat (Nat.min i 9)) 0) m = Ret m' /\
    nodes m' !! 1%nat = Some (new_TimerNode (Some 5%nat) 300000 t0).
Proof.
  intros t0 m. apply (late_timer_never_expires _ m 1%nat _ t0 300000 (Some 5%nat)).
  - intros i. unfold timeval_ok. cbn. lia.
  - apply addTimer_ok; [done|]. apply new_manager_ok.
  - unfold timeval_ok. cbn. lia.
  - lia.
  - done.
  - done.
  - by vm_compute.
Defined.
