(* ===== verification/Epoll.v ===== *)
(** * Epoll: channels and the poller (WebServer/{Channel,Epoll,EventLoopThreadPool,Server})

    The poller with its two tables and the timers, over the interest list of the
    kernel; the accepting side of the server that uses it.  Channels are shared,
    so they live in a store and are named by their address. *)

From S2P Require Export HttpData Timer.

(** ** Channel *)

(** [holder_] is the connection that holds the channel. *)
Record Channel := mkChannel {
  fd_ : Z;
  ch_events : Z;
  ch_revents : Z;
  ch_lastEvents : Z;
  holder_ : option nat
}.

Definition new_Channel (fd : Z) : Channel := mkChannel fd 0 0 0 None.

Definition setEvents (c : Channel) (ev : Z) : Channel :=
  mkChannel (fd_ c) ev (ch_revents c) (ch_lastEvents c) (holder_ c).
Definition setRevents (c : Channel) (ev : Z) : Channel :=
  mkChannel (fd_ c) (ch_events c) ev (ch_lastEvents c) (holder_ c).
Definition setHolder (c : Channel) (h : option nat) : Channel :=
  mkChannel (fd_ c) (ch_events c) (ch_revents c) (ch_lastEvents c) h.

Definition EqualAndUpdateLastEvents (c : Channel) : bool * Channel :=
  (ch_lastEvents c =? ch_events c,
   mkChannel (fd_ c) (ch_events c) (ch_revents c) (ch_events c) (holder_ c)).

(** ** The kernel's interest list

    A descriptor is registered with events; [armed] is false once an event was
    reported for a registration with [EPOLLONESHOT]. *)
Record interest := mkInterest { mask : Z; armed : bool }.

Inductive epoll_op := EPOLL_CTL_ADD | EPOLL_CTL_MOD | EPOLL_CTL_DEL.

(** [epoll_ctl], which fails on a wrong operation, and when [fails]. *)
Definition epoll_ctl (k : gmap Z interest) (op : epoll_op) (fd events : Z) (fails : bool)
    : gmap Z interest * Z :=
  if fails then (k, -1)
  else
    match op, k !! fd with
    | EPOLL_CTL_ADD, None => (<[fd := mkInterest events true]> k, 0)
    | EPOLL_CTL_MOD, Some _ => (<[fd := mkInterest events true]> k, 0)
    | EPOLL_CTL_DEL, Some _ => (delete fd k, 0)
    | _, _ => (k, -1)
    end.

(** The kernel reports an event for [fd]. *)
Definition report (k : gmap Z interest) (fd : Z) : gmap Z interest :=
  match k !! fd with
  | Some i => if has_event (mask i) EPOLLONESHOT then <[fd := mkInterest (mask i) false]> k else k
  | None => k
  end.

(** ** Epoll *)

Definition MAXFDS : Z := 100000.

Section epoll.
Context {Q : Type} `{TQ : TimerQueue Q}.

(** [channels]: the store of the channels; [alive]: the connections that still
    exist. *)
Record Epoll := mkEpoll {
  kernel : gmap Z interest;
  fd2chan_ : gmap Z nat;
  fd2http_ : gmap Z nat;
  timerManager_ : TimerManager Q;
  channels : gmap nat Channel;
  alive : gset nat
}.

Definition set_channel (p : Epoll) (c : nat) (ch : Channel) : Epoll :=
  mkEpoll (kernel p) (fd2chan_ p) (fd2http_ p) (timerManager_ p) (<[c := ch]> (channels p)) (alive p).
Definition set_tables (p : Epoll) (k : gmap Z interest) (fc fh : gmap Z nat) : Epoll :=
  mkEpoll k fc fh (timerManager_ p) (channels p) (alive p).

(** An access to the arrays [fd2chan_] and [fd2http_]. *)
Definition in_table (fd : Z) : outcome unit :=
  if (0 <=? fd) && (fd <? MAXFDS) then Ret tt else UB.

Definition get_channel (p : Epoll) (c : nat) : outcome Channel :=
  match channels p !! c with Some ch => Ret ch | None => UB end.

Definition getHolder (p : Epoll) (ch : Channel) : option nat :=
  match holder_ ch with
  | Some h => if bool_decide (h ∈ alive p) then Some h else None
  | None => None
  end.

(** [node] is the address of the timer node, if one is made. *)
Definition add_timer (p : Epoll) (ch : Channel) (timeout : Z) (node : nat) (now : timeval) : Epoll :=
  match getHolder p ch with
  | Some t =>
      mkEpoll (kernel p) (fd2chan_ p) (fd2http_ p) (addTimer (timerManager_ p) node t timeout now)
        (channels p) (alive p)
  | None => p
  end.

Definition set_or_reset (m : gmap Z nat) (fd : Z) (h : option nat) : gmap Z nat :=
  match h with Some x => <[fd := x]> m | None => delete fd m end.

Definition epoll_add (p : Epoll) (request : nat) (timeout : Z) (node : nat) (now : timeval)
    (fails : bool) : outcome Epoll :=
  ch ← get_channel p request;
  let fd := fd_ ch in
  _ ← in_table fd;
  let p :=
    if 0 <? timeout then
      let p := add_timer p ch timeout node now in
      set_tables p (kernel p) (fd2chan_ p) (set_or_reset (fd2http_ p) fd (getHolder p ch))
    else p in
  let events := ch_events ch in
  let p := set_channel p request (snd (EqualAndUpdateLastEvents ch)) in
  let p := set_tables p (kernel p) (<[fd := request]> (fd2chan_ p)) (fd2http_ p) in
  let '(k, rc) := epoll_ctl (kernel p) EPOLL_CTL_ADD fd events fails in
  if rc <? 0 then Ret (set_tables p k (delete fd (fd2chan_ p)) (fd2http_ p))
  else Ret (set_tables p k (fd2chan_ p) (fd2http_ p)).

Definition epoll_mod (p : Epoll) (request : nat) (timeout : Z) (node : nat) (now : timeval)
    (fails : bool) : outcome Epoll :=
  ch ← get_channel p request;
  let p := if 0 <? timeout then add_timer p ch timeout node now else p in
  let fd := fd_ ch in
  let '(equal, ch') := EqualAndUpdateLastEvents ch in
  let p := set_channel p request ch' in
  if negb equal then
    let '(k, rc) := epoll_ctl (kernel p) EPOLL_CTL_MOD fd (ch_events ch) fails in
    if rc <? 0 then
      _ ← in_table fd;
      Ret (set_tables p k (delete fd (fd2chan_ p)) (fd2http_ p))
    else Ret (set_tables p k (fd2chan_ p) (fd2http_ p))
  else Ret p.

Definition epoll_del (p : Epoll) (request : nat) (fails : bool) : outcome Epoll :=
  ch ← get_channel p request;
  let fd := fd_ ch in
  let '(k, rc) := epoll_ctl (kernel p) EPOLL_CTL_DEL fd (ch_lastEvents ch) fails in
  _ ← in_table fd;
  Ret (set_tables p k (delete fd (fd2chan_ p)) (delete fd (fd2http_ p))).

(** [getEventsRequest] on the events that [epoll_wait] stored: the channels to
    handle. *)
Fixpoint getEventsRequest (p : Epoll) (events : list (Z * Z)) : outcome (Epoll * list nat) :=
  match events with
  | [] => Ret (p, [])
  | (fd, ev) :: events' =>
      _ ← in_table fd;
      match fd2chan_ p !! fd with
      | Some c =>
          ch ← get_channel p c;
          '(p', l) ← getEventsRequest (set_channel p c (setEvents (setRevents ch ev) 0)) events';
          Ret (p', c :: l)
      | None => getEventsRequest p events'
      end
  end.

(** [poll], given what each [epoll_wait] reports: it returns with the first
    events that have a channel. *)
Fixpoint poll (p : Epoll) (waits : list (list (Z * Z))) : outcome (Epoll * list nat) :=
  match waits with
  | [] => OutOfFuel
  | w :: waits' =>
      let p := mkEpoll (foldl (fun k e => report k e.1) (kernel p) w) (fd2chan_ p) (fd2http_ p)
                 (timerManager_ p) (channels p) (alive p) in
      '(p, req_data) ← getEventsRequest p w;
      if bool_decide (req_data = []) then poll p waits' else Ret (p, req_data)
  end.

Definition handleExpired (p : Epoll) (fuel : nat) (clock : nat -> timeval) : outcome Epoll :=
  m ← handleExpiredEvent fuel clock (timerManager_ p);
  Ret (mkEpoll (kernel p) (fd2chan_ p) (fd2http_ p) m (channels p) (alive p)).

(** ** The poller over time *)

Definition new_Epoll : Epoll := mkEpoll ∅ ∅ ∅ new_manager ∅ ∅.

(** What the loop, the handlers and the destructors do to the poller. A channel
    is modified only while no other one is registered for its descriptor; a
    descriptor is closed, and so leaves the kernel's list, only after its
    channel left [fd2chan_]. *)
Inductive poller_step (p : Epoll) : Epoll -> Prop :=
  | step_new c fd holder :
      channels p !! c = None ->
      poller_step p (set_channel p c (setHolder (new_Channel fd) holder))
  | step_setEvents c ch ev :
      channels p !! c = Some ch -> poller_step p (set_channel p c (setEvents ch ev))
  | step_add c timeout node now fails p' :
      epoll_add p c timeout node now fails = Ret p' -> poller_step p p'
  | step_mod c ch timeout node now fails p' :
      channels p !! c = Some ch -> (forall c', fd2chan_ p !! fd_ ch = Some c' -> c' = c) ->
      epoll_mod p c timeout node now fails = Ret p' -> poller_step p p'
  | step_del c fails p' : epoll_del p c fails = Ret p' -> poller_step p p'
  | step_poll waits p' l : poll p waits = Ret (p', l) -> poller_step p p'
  | step_expired fuel clock p' : handleExpired p fuel clock = Ret p' -> poller_step p p'
  | step_alive a :
      poller_step p (mkEpoll (kernel p) (fd2chan_ p) (fd2http_ p) (timerManager_ p) (channels p) a)
  | step_close fd :
      fd2chan_ p !! fd = None ->
      poller_step p (set_tables p (delete fd (kernel p)) (fd2chan_ p) (fd2http_ p)).

(** * Lemmas *)

(** The kernel watches the last events of a registered channel; it stopped
    reporting only for [EPOLLONESHOT]. *)
Definition watched (k : gmap Z interest) (fd : Z) (ch : Channel) : Prop :=
  exists i, k !! fd = Some i /\ mask i = ch_lastEvents ch /\
    (has_event (mask i) EPOLLONESHOT = false -> armed i = true).

Definition registered (p : Epoll) : Prop :=
  forall fd c, fd2chan_ p !! fd = Some c ->
    exists ch, channels p !! c = Some ch /\ fd_ ch = fd /\ watched (kernel p) fd ch.

Lemma registered_new : registered new_Epoll.
Proof. intros fd c. done. Qed.

(** Only the last events and the descriptor of a channel matter. *)
Lemma registered_set_channel p c ch ch' :
  channels p !! c = Some ch -> fd_ ch' = fd_ ch -> ch_lastEvents ch' = ch_lastEvents ch ->
  registered p -> registered (set_channel p c ch').
Proof.
  intros Hc Hfd Hle Hr fd d Hd. destruct (Hr fd d Hd) as (ch0 & H0 & Hf & Hw). cbn.
  destruct (decide (d = c)) as [->|Hne].
  - rewrite lookup_insert_eq. exists ch'. simplify_eq. split_and!; [done|congruence|].
    unfold watched in *. by rewrite Hle.
  - rewrite lookup_insert_ne by done. by exists ch0.
Qed.

Lemma registered_delete p fd k fh :
  (forall fd', fd' <> fd -> k !! fd' = kernel p !! fd') ->
  registered p -> registered (set_tables p k (delete fd (fd2chan_ p)) fh).
Proof.
  intros Hk Hr fd' c Hc. cbn in *. apply lookup_delete_Some in Hc as [Hne Hc].
  destruct (Hr fd' c Hc) as (ch & Hch & Hfd & Hw). exists ch. split_and!; [done..|].
  unfold watched in *. rewrite Hk by done. done.
Qed.

Lemma epoll_ctl_other k op fd ev fails fd' :
  fd' <> fd -> fst (epoll_ctl k op fd ev fails) !! fd' = k !! fd'.
Proof.
  intros Hne. unfold epoll_ctl. repeat case_match; cbn; try done;
    by rewrite ?lookup_insert_ne, ?lookup_delete_ne.
Qed.

(** A successful [ADD] or [MOD] makes the kernel watch what it was given. *)
Lemma epoll_ctl_ok k op fd ev fails :
  op <> EPOLL_CTL_DEL -> snd (epoll_ctl k op fd ev fails) = 0 ->
  fst (epoll_ctl k op fd ev fails) !! fd = Some (mkInterest ev true).
Proof. unfold epoll_ctl. intros Hop. repeat case_match; cbn; try done; by rewrite lookup_insert_eq. Qed.

Lemma epoll_ctl_rc k op fd ev fails :
  snd (epoll_ctl k op fd ev fails) = 0 \/ snd (epoll_ctl k op fd ev fails) = -1.
Proof. unfold epoll_ctl. repeat case_match; cbn; auto. Qed.

(** Registering the channel [c] for its descriptor. *)
Lemma registered_insert p c ch fd fh :
  fd_ ch = fd -> registered p ->
  (forall fd', fd2chan_ p !! fd' = Some c -> fd' = fd) ->
  forall k, (forall fd', fd' <> fd -> k !! fd' = kernel p !! fd') ->
  k !! fd = Some (mkInterest (ch_lastEvents ch) true) ->
  registered (set_tables (set_channel p c ch) k (<[fd := c]> (fd2chan_ p)) fh).
Proof.
  intros Hfd Hr Hown k Hk Hkf fd' d Hd. cbn in *. destruct (decide (fd' = fd)) as [->|Hne].
  - rewrite lookup_insert_eq in Hd. injection Hd as <-. exists ch. rewrite lookup_insert_eq.
    split_and!; [done..|]. by eexists.
  - rewrite lookup_insert_ne in Hd by done. destruct (Hr fd' d Hd) as (ch0 & Hch0 & Hf0 & Hw).
    assert (d <> c) by (intros ->; by apply Hne, Hown).
    exists ch0. rewrite lookup_insert_ne by done. split_and!; [done..|].
    unfold watched in *. by rewrite Hk.
Qed.

(** The timers and the set of live connections do not matter. *)
Definition same_tables (p p' : Epoll) : Prop :=
  kernel p' = kernel p /\ fd2chan_ p' = fd2chan_ p /\ channels p' = channels p.

Lemma registered_same p p' : same_tables p p' -> registered p -> registered p'.
Proof. intros (Hk & Hf & Hc) Hr fd c. rewrite Hk, Hf, Hc. apply Hr. Qed.

Lemma add_timer_same p ch timeout node now : same_tables p (add_timer p ch timeout node now).
Proof. unfold add_timer, same_tables. by destruct (getHolder p ch). Qed.

Lemma get_channel_inv p c ch : get_channel p c = Ret ch -> channels p !! c = Some ch.
Proof. unfold get_channel. by destruct (channels p !! c) as [?|]; intros [= <-]. Qed.

(** [registered] for [fd] only through [c]. *)
Lemma registered_owner p c ch fd :
  registered p -> channels p !! c = Some ch -> fd2chan_ p !! fd = Some c -> fd = fd_ ch.
Proof. intros Hr Hc Hf. destruct (Hr fd c Hf) as (ch' & Hc' & Hfd & _). congruence. Qed.

(** The entries of other channels, and of other descriptors, survive. *)
Lemma registered_away p c ch' fd k fc fh :
  (forall fd', fd' <> fd -> k !! fd' = kernel p !! fd') ->
  (forall fd', fd2chan_ p !! fd' = Some c -> fd' = fd) ->
  (forall fd' d, fc !! fd' = Some d -> fd' <> fd /\ fd2chan_ p !! fd' = Some d) ->
  registered p -> registered (set_tables (set_channel p c ch') k fc fh).
Proof.
  intros Hk Hown Hfc Hr fd' d Hd. cbn in *. apply Hfc in Hd as [Hne Hd].
  destruct (Hr fd' d Hd) as (ch0 & Hch0 & Hf0 & Hw).
  assert (d <> c) by (intros ->; by apply Hne, Hown).
  exists ch0. rewrite lookup_insert_ne by done. split_and!; [done..|].
  unfold watched in *. by rewrite Hk.
Qed.

Lemma epoll_add_registered p c timeout node now fails p' :
  registered p -> epoll_add p c timeout node now fails = Ret p' -> registered p'.
Proof.
  intros Hr H. unfold epoll_add in H. inv_bind H. rename a into ch. apply get_channel_inv in Ha.
  inv_bind H. cbv zeta in H.
  set (p1 := if 0 <? timeout then _ else p) in H.
  assert (Hs : same_tables p p1).
  { unfold p1. case_if; [|done]. unfold same_tables. cbn.
    by destruct (add_timer_same p ch timeout node now) as (-> & -> & ->). }
  assert (Hr1 : registered p1) by (by eapply registered_same).
  destruct Hs as (_ & _ & Hc1). rewrite <- Hc1 in Ha. clearbody p1. clear p Hr Hc1 Ha0.
  cbn [EqualAndUpdateLastEvents snd set_tables set_channel kernel fd2chan_ fd2http_] in H.
  destruct (epoll_ctl (kernel p1) EPOLL_CTL_ADD (fd_ ch) (ch_events ch) fails) as [k rc] eqn:E.
  assert (Hk : forall fd', fd' <> fd_ ch -> k !! fd' = kernel p1 !! fd').
  { intros fd' Hne. replace k with (fst (epoll_ctl (kernel p1) EPOLL_CTL_ADD (fd_ ch) (ch_events ch) fails))
      by (by rewrite E). by apply epoll_ctl_other. }
  assert (Hown : forall fd', fd2chan_ p1 !! fd' = Some c -> fd' = fd_ ch)
    by (intros fd' Hf; by eapply registered_owner).
  case_if_in H; injection H as <-; zbool.
  - apply registered_away with (fd := fd_ ch) (p := p1); [done..| |done].
    intros fd' d. rewrite delete_insert_eq. by intros [? ?]%lookup_delete_Some.
  - apply registered_insert with (p := p1); [done..|].
    pose proof (epoll_ctl_ok (kernel p1) EPOLL_CTL_ADD (fd_ ch) (ch_events ch) fails) as Hok.
    rewrite E in Hok. apply Hok; [done|]. cbn.
    pose proof (epoll_ctl_rc (kernel p1) EPOLL_CTL_ADD (fd_ ch) (ch_events ch) fails) as Hrc.
    rewrite E in Hrc. cbn in Hrc. lia.
Qed.

(** [epoll_mod] on a registered channel, and what the kernel then watches. *)
Lemma epoll_mod_registered p c ch timeout node now fails p' :
  registered p -> channels p !! c = Some ch -> (forall c', fd2chan_ p !! fd_ ch = Some c' -> c' = c) ->
  epoll_mod p c timeout node now fails = Ret p' ->
  registered p' /\ channels p' !! c = Some (snd (EqualAndUpdateLastEvents ch)) /\
  (fails = false -> fd2chan_ p !! fd_ ch = Some c -> fd2chan_ p' !! fd_ ch = Some c).
Proof.
  intros Hr Hc Hother H. unfold epoll_mod in H. inv_bind H. apply get_channel_inv in Ha.
  rewrite Hc in Ha. injection Ha as <-. cbv zeta in H.
  set (p1 := if 0 <? timeout then _ else p) in H.
  assert (Hs : same_tables p p1) by (unfold p1; case_if; [apply add_timer_same|done]).
  assert (Hr1 : registered p1) by (by eapply registered_same).
  destruct Hs as (Hk1 & Hf1 & Hc1). rewrite <- Hc1 in Hc. rewrite <- Hf1 in Hother.
  rewrite <- Hf1. clearbody p1. clear p Hr Hc1 Hf1 Hk1.
  cbn [EqualAndUpdateLastEvents snd] in H |- *. set (ch' := mkChannel _ _ _ _ _) in *.
  assert (Hown : forall fd', fd2chan_ p1 !! fd' = Some c -> fd' = fd_ ch)
    by (intros fd' Hf; by eapply registered_owner).
  destruct (ch_lastEvents ch =? ch_events ch) eqn:Eq; cbn [negb] in H; zbool.
  { injection H as <-. split_and!; [|by apply lookup_insert_eq|done].
    by eapply registered_set_channel. }
  cbn [set_tables set_channel kernel fd2chan_ fd2http_] in H.
  destruct (epoll_ctl (kernel p1) EPOLL_CTL_MOD (fd_ ch) (ch_events ch) fails) as [k rc] eqn:E.
  assert (Hk : forall fd', fd' <> fd_ ch -> k !! fd' = kernel p1 !! fd').
  { intros fd' Hne. replace k with (fst (epoll_ctl (kernel p1) EPOLL_CTL_MOD (fd_ ch) (ch_events ch) fails))
      by (by rewrite E). by apply epoll_ctl_other. }
  pose proof (epoll_ctl_ok (kernel p1) EPOLL_CTL_MOD (fd_ ch) (ch_events ch) fails ltac:(done)) as Hok.
  pose proof (epoll_ctl_rc (kernel p1) EPOLL_CTL_MOD (fd_ ch) (ch_events ch) fails) as Hrc.
  rewrite E in Hok, Hrc. cbn in Hok, Hrc.
  case_if_in H; zbool.
  - inv_bind H. injection H as <-. split_and!; [|by apply lookup_insert_eq|].
    + apply registered_away with (fd := fd_ ch) (p := p1); [done..| |done].
      by intros fd' d [? ?]%lookup_delete_Some.
    + intros -> Hf. destruct (Hr1 _ _ Hf) as (_ & _ & _ & i & Hi & _).
      unfold epoll_ctl in E. rewrite Hi in E. injection E as <- <-. lia.
  - injection H as <-. split_and!; [|by apply lookup_insert_eq|done].
    destruct (fd2chan_ p1 !! fd_ ch) as [c0|] eqn:Ef.
    + pose proof (Hother c0 eq_refl) as ->.
      rewrite <- (insert_id (fd2chan_ p1) (fd_ ch) c) by done.
      apply registered_insert with (p := p1); [done..|]. apply Hok. lia.
    + apply registered_away with (fd := fd_ ch) (p := p1); [done..| |done].
      intros fd' d Hd. split; [congruence|done].
Qed.

Lemma epoll_del_registered p c fails p' :
  registered p -> epoll_del p c fails = Ret p' -> registered p'.
Proof.
  intros Hr H. unfold epoll_del in H. inv_bind H. cbv zeta in H.
  destruct (epoll_ctl (kernel p) EPOLL_CTL_DEL (fd_ a) (ch_lastEvents a) fails) as [k rc] eqn:E.
  inv_bind H. injection H as <-. apply registered_delete; [|done]. intros fd' Hne.
  replace k with (fst (epoll_ctl (kernel p) EPOLL_CTL_DEL (fd_ a) (ch_lastEvents a) fails)) by (by rewrite E).
  by apply epoll_ctl_other.
Qed.

Lemma report_watched k fd fd' ch : watched k fd' ch -> watched (report k fd) fd' ch.
Proof.
  intros (i & Hi & Hm & Ha). unfold report. destruct (k !! fd) as [j|] eqn:Ej; [|by exists i].
  destruct (has_event (mask j) EPOLLONESHOT) eqn:Eo; [|by exists i].
  destruct (decide (fd' = fd)) as [->|Hne].
  - simplify_eq. exists (mkInterest (mask i) false). rewrite lookup_insert_eq. cbn.
    split_and!; [done..|]. congruence.
  - exists i. by rewrite lookup_insert_ne.
Qed.

Lemma report_all_watched w : forall k fd ch,
  watched k fd ch -> watched (foldl (fun k (e : Z * Z) => report k e.1) k w) fd ch.
Proof.
  induction w as [|e w IH]; intros k fd ch Hw; [done|]. cbn. by apply IH, report_watched.
Qed.

Lemma getEventsRequest_registered events : forall p p' l,
  registered p -> getEventsRequest p events = Ret (p', l) -> registered p'.
Proof.
  induction events as [|[fd ev] events IH]; intros p p' l Hr H; cbn in H; [by injection H as <- <-|].
  inv_bind H. destruct (fd2chan_ p !! fd) as [c|] eqn:Ef; [|by eapply IH].
  inv_bind H. inv_bind H. destruct a1 as [p1 l1]. injection H as <- <-.
  apply get_channel_inv in Ha0. eapply IH; [|done]. by eapply registered_set_channel.
Qed.

Lemma poll_registered waits : forall p p' l,
  registered p -> poll p waits = Ret (p', l) -> registered p'.
Proof.
  induction waits as [|w waits IH]; intros p p' l Hr H; [done|]. cbn in H. inv_bind H.
  destruct a as [p1 l1].
  assert (Hr1 : registered p1).
  { eapply getEventsRequest_registered; [|done]. intros fd c Hc.
    destruct (Hr fd c Hc) as (ch & Hch & Hf & Hw). exists ch. split_and!; [done..|].
    by apply report_all_watched. }
  case_if_in H; [by eapply IH|]. by injection H as <- <-.
Qed.

Lemma poller_step_registered p p' : registered p -> poller_step p p' -> registered p'.
Proof.
  intros Hr Hs. destruct Hs.
  - intros fd' d Hd. destruct (Hr fd' d Hd) as (ch & Hch & Hw). exists ch.
    split; [|done]. cbn. rewrite lookup_insert_ne; [done|congruence].
  - by eapply registered_set_channel.
  - by eapply epoll_add_registered.
  - by eapply epoll_mod_registered.
  - by eapply epoll_del_registered.
  - by eapply poll_registered.
  - unfold handleExpired in *. match goal with E : _ = Ret p' |- _ => inv_bind E; injection E as <- end.
    by eapply registered_same.
  - by eapply registered_same.
  - intros fd' d Hd. destruct (Hr fd' d Hd) as (ch & Hch & Hf & i & Hi & Hw). exists ch.
    split_and!; [done..|]. exists i. split; [|done]. cbn. rewrite lookup_delete_ne; [done|].
    cbn in Hd. congruence.
Qed.

Lemma reachable_registered p : rtc poller_step new_Epoll p -> registered p.
Proof.
  intros Hp. assert (H0 : registered new_Epoll) by apply registered_new.
  induction Hp; [done|]. by apply IHHp; eapply poller_step_registered.
Qed.

End epoll.
Arguments Epoll : clear implicits.

(** ** The threads of the pool (EventLoopThreadPool) *)

(** The loops are numbered; the base loop is [None]. *)
Record EventLoopThreadPool := mkPool { numThreads_ : Z; next_ : Z; loops_ : list nat }.

(** The constructor aborts without threads ([None]). *)
Definition new_EventLoopThreadPool (numThreads : Z) : option EventLoopThreadPool :=
  if numThreads <=? 0 then None else Some (mkPool numThreads 0 []).

Definition pool_start (p : EventLoopThreadPool) : EventLoopThreadPool :=
  mkPool (numThreads_ p) (next_ p) (loops_ p ++ seq 0 (Z.to_nat (numThreads_ p))).

Definition getNextLoop (p : EventLoopThreadPool) : outcome (option nat * EventLoopThreadPool) :=
  if bool_decide (loops_ p = []) then Ret (None, p)
  else
    match loops_ p !! Z.to_nat (next_ p) with
    | Some l => Ret (Some l, mkPool (numThreads_ p) (Z.rem (next_ p + 1) (numThreads_ p)) (loops_ p))
    | None => UB
    end.

(** ** Server *)

(** One [accept]: the descriptor, and whether [setSocketNonBlocking] succeeds
    on it. *)
Record accepted := mkAccepted { accept_fd : Z; nonblocking : bool }.

(** What [handNewConn] does with a descriptor. *)
Inductive accept_action :=
  | CloseFd (fd : Z)
  | QueueNewEvent (loop : option nat) (fd : Z).

(** [handNewConn] on the results of [accept] (then it fails): the pool, the
    events of the accept channel and the actions. *)
Fixpoint handNewConn (pool : EventLoopThreadPool) (events : Z) (accepts : list accepted)
    : outcome (EventLoopThreadPool * Z * list accept_action) :=
  match accepts with
  | [] => Ret (pool, Z.lor EPOLLIN EPOLLET, [])
  | a :: accepts' =>
      if 0 <? accept_fd a then
        '(loop, pool) ← getNextLoop pool;
        if MAXFDS <=? accept_fd a then
          '(pool', ev, l) ← handNewConn pool events accepts';
          Ret (pool', ev, CloseFd (accept_fd a) :: l)
        else if negb (nonblocking a) then Ret (pool, events, [])
        else
          '(pool', ev, l) ← handNewConn pool events accepts';
          Ret (pool', ev, QueueNewEvent loop (accept_fd a) :: l)
      else Ret (pool, Z.lor EPOLLIN EPOLLET, [])
  end.

(** [handThisConn], with a timeout of 0. *)
Definition handThisConn `{TimerQueue Q} (p : Epoll Q) (accept_chan : nat) (now : timeval) (fails : bool)
    : outcome (Epoll Q) := epoll_mod p accept_chan 0 0 now fails.

(** [Channel::handleEvents] of the accept channel. *)
Definition accept_events `{TimerQueue Q} (p : Epoll Q) (accept_chan : nat) (pool : EventLoopThreadPool)
    (accepts : list accepted) (now : timeval) (fails : bool)
    : outcome (Epoll Q * EventLoopThreadPool * list accept_action) :=
  ch ← get_channel p accept_chan;
  '(pool, ev, l) ← handNewConn pool 0 accepts;
  p ← handThisConn (set_channel p accept_chan (setEvents ch ev)) accept_chan now fails;
  Ret (p, pool, l).

(** A pool of [n] started loops whose next one is [i]. *)
Definition started_pool (n i : nat) : EventLoopThreadPool := mkPool (Z.of_nat n) (Z.of_nat i) (seq 0 n).

Lemma getNextLoop_started n i :
  (i < n)%nat -> getNextLoop (started_pool n i) = Ret (Some i, started_pool n ((i + 1) mod n)).
Proof.
  intros Hi. unfold getNextLoop, started_pool. cbn [loops_ next_ numThreads_].
  rewrite bool_decide_false by (destruct n; [lia|done]). rewrite Nat2Z.id, lookup_seq_lt by lia.
  do 3 f_equal. rewrite Z.rem_mod_nonneg by lia. rewrite Nat2Z.inj_mod. f_equal; lia.
Qed.

(** What is done with the [j]-th descriptor. *)
Definition assign (n i j : nat) (a : accepted) : accept_action :=
  if MAXFDS <=? accept_fd a then CloseFd (accept_fd a)
  else QueueNewEvent (Some ((i + j) mod n)%nat) (accept_fd a).

Lemma assign_0 n i a :
  (i < n)%nat -> assign n i 0 a =
  (if MAXFDS <=? accept_fd a then CloseFd (accept_fd a) else QueueNewEvent (Some i) (accept_fd a)).
Proof. intros Hi. unfold assign. by rewrite Nat.add_0_r, Nat.mod_small. Qed.

Lemma imap_assign_shift n i l :
  imap (fun j => assign n i (S j)) l = imap (assign n ((i + 1) mod n)) l.
Proof.
  apply imap_ext. intros j a _. unfold assign. case_if; [done|]. do 2 f_equal.
  rewrite Nat.Div0.add_mod_idemp_l. f_equal. lia.
Qed.

Lemma handNewConn_good n ev l rest : forall i,
  (i < n)%nat -> Forall (fun a => 0 < accept_fd a /\ nonblocking a = true) l ->
  handNewConn (started_pool n i) ev (l ++ rest) =
  ('(p, e, acts) ← handNewConn (started_pool n ((i + length l) mod n)) ev rest;
   Ret (p, e, imap (assign n i) l ++ acts)).
Proof.
  induction l as [|a l IH]; intros i Hi Hl.
  - cbn. rewrite Nat.add_0_r, Nat.mod_small by done. by destruct (handNewConn _ _ _) as [[[? ?] ?]| | |].
  - apply Forall_cons in Hl as [[Hfd Hnb] Hl]. cbn [app handNewConn].
    rewrite (proj2 (Z.ltb_lt _ _)) by done. rewrite getNextLoop_started by done. cbn [mbind outcome_bind].
    rewrite Hnb. cbn [negb].
    assert (Hm : ((i + 1) mod n < n)%nat) by (apply Nat.mod_upper_bound; lia).
    rewrite IH by done. rewrite Nat.Div0.add_mod_idemp_l.
    replace (i + 1 + length l)%nat with (i + length (a :: l))%nat by (cbn; lia).
    cbn [imap]. change (imap (assign n i ∘ S) l) with (imap (fun j => assign n i (S j)) l).
    rewrite imap_assign_shift. rewrite assign_0 by done.
    destruct (handNewConn _ _ rest) as [[[p e] acts]| | |]; cbn; by case_if.
Qed.

Lemma epoll_mod_exact `{TimerQueue Q} (p : Epoll Q) c ch timeout node now :
  registered p -> channels p !! c = Some ch -> fd2chan_ p !! fd_ ch = Some c ->
  has_event (ch_events ch) EPOLLONESHOT = false ->
  exists p', epoll_mod p c timeout node now false = Ret p' /\
    kernel p' !! fd_ ch = Some (mkInterest (ch_events ch) true).
Proof.
  intros Hr Hc Hf Ho. destruct (Hr _ _ Hf) as (ch0 & Hc0 & _ & i & Hi & Hm & Ha).
  rewrite Hc in Hc0. injection Hc0 as <-.
  assert (Hret : exists p', epoll_mod p c timeout node now false = Ret p').
  { unfold epoll_mod, get_channel. rewrite Hc. cbn [mbind outcome_bind EqualAndUpdateLastEvents].
    destruct (ch_lastEvents ch =? ch_events ch); cbn [negb]; [by eexists|]. cbn [set_channel kernel].
    replace (kernel (if 0 <? timeout then add_timer p ch timeout node now else p)) with (kernel p)
      by (case_if; [by destruct (add_timer_same p ch timeout node now) as (-> & _)|done]).
    unfold epoll_ctl. rewrite Hi. cbn. by eexists. }
  destruct Hret as [p' Hp']. exists p'. split; [done|].
  destruct (epoll_mod_registered p c ch timeout node now false p') as (Hr' & Hc' & Hf'); [done|done| |done|].
  { intros c' Hc'. congruence. }
  destruct (Hr' _ _ (Hf' eq_refl Hf)) as (ch1 & Hc1 & _ & j & Hj & Hmj & Haj).
  rewrite Hc' in Hc1. injection Hc1 as <-. cbn in Hmj. destruct j as [m ar]. cbn in *. subst m.
  by rewrite Hj, (Haj Ho).
Qed.

(** A poller with the accept channel of a started server, listening on [fd]. *)
Definition listening_poller (fd : Z) (t : timeval) : Epoll OrderedQueue :=
  let ch := setEvents (setHolder (new_Channel fd) None) (Z.lor EPOLLIN EPOLLET) in
  let p := set_channel (set_channel new_Epoll 0 (setHolder (new_Channel fd) None)) 0 ch in
  match epoll_add p 0 0 0 t false with Ret p' => p' | _ => p end.

Lemma listening_poller_reachable t : rtc poller_step new_Epoll (listening_poller 5 t).
Proof.
  eapply rtc_l; [apply (step_new _ 0 5 None); done|].
  eapply rtc_l; [apply (step_setEvents _ 0 (setHolder (new_Channel 5) None) (Z.lor EPOLLIN EPOLLET)); done|].
  apply rtc_once. by apply (step_add _ 0 0 0 t false).
Qed.

(** * Properties *)

(** The poller asks the kernel for what a channel wants. After any history
    of the poller, [epoll_mod] on a registered channel that does not ask for
    [EPOLLONESHOT] leaves the kernel watching exactly the events of the channel,
    and reporting them, whether or not the system call was skipped because the
    events equal the last ones. *)
Theorem epoll_mod_watches `{TimerQueue Q} (p : Epoll Q) c ch timeout node now :
  rtc poller_step new_Epoll p -> channels p !! c = Some ch -> fd2chan_ p !! fd_ ch = Some c ->
  has_event (ch_events ch) EPOLLONESHOT = false ->
  exists p', epoll_mod p c timeout node now false = Ret p' /\
    kernel p' !! fd_ ch = Some (mkInterest (ch_events ch) true).
Proof. intros Hp. by apply epoll_mod_exact, reachable_registered. Qed.

Lemma epoll_mod_watches_witness :
  let t := mkTimeval 0 0 in let ch := mkChannel 5 (Z.lor EPOLLIN EPOLLET) 0 (Z.lor EPOLLIN EPOLLET) None in
  exists p', epoll_mod (listening_poller 5 t) 0 0 0 t false = Ret p' /\
    kernel p' !! 5 = Some (mkInterest (Z.lor EPOLLIN EPOLLET) true).
Proof.
  intros t ch. apply (epoll_mod_watches (listening_poller 5 t) 0 ch 0 0 t).
  - apply listening_poller_reachable.
  - done.
  - done.
  - done.
Defined.

(** New connections are distributed round robin. Over [n] loops, when every
    descriptor could be made non-blocking, each accepted one gets the next loop
    in turn, in the order of arrival, those past the limit are closed (and use
    up a turn), and the accept channel asks for events again. *)
Theorem handNewConn_distributes n i ev l :
  (i < n)%nat -> Forall (fun a => 0 < accept_fd a /\ nonblocking a = true) l ->
  handNewConn (started_pool n i) ev l =
  Ret (started_pool n ((i + length l) mod n), Z.lor EPOLLIN EPOLLET, imap (assign n i) l).
Proof.
  intros Hi Hl. rewrite <- (app_nil_r l) at 1. rewrite handNewConn_good by done. cbn. by rewrite app_nil_r.
Qed.

Lemma handNewConn_distributes_witness :
  let l := [mkAccepted 10 true; mkAccepted 100000 true; mkAccepted 11 true; mkAccepted 12 true] in
  handNewConn (started_pool 3 1) 0 l =
  Ret (started_pool 3 2, Z.lor EPOLLIN EPOLLET, imap (assign 3 1) l).
Proof. apply (handNewConn_distributes 3 1 0); [lia|]. repeat constructor. Defined.

(** One failure of [setSocketNonBlocking] ends the server. The handler
    returns early, so that the descriptor is neither closed nor given to a loop
    and the events of the accept channel stay 0; the kernel is then told to
    watch the listening socket for nothing. *)
Theorem accept_failure_ends_service `{TimerQueue Q} (p : Epoll Q) c ch n i l a rest now :
  rtc poller_step new_Epoll p -> channels p !! c = Some ch -> fd2chan_ p !! fd_ ch = Some c ->
  (i < n)%nat -> Forall (fun a => 0 < accept_fd a /\ nonblocking a = true) l ->
  0 < accept_fd a < MAXFDS -> nonblocking a = false ->
  exists p' pool', accept_events p c (started_pool n i) (l ++ a :: rest) now false =
    Ret (p', pool', imap (assign n i) l) /\
    kernel p' !! fd_ ch = Some (mkInterest 0 true).
Proof.
  intros Hp Hc Hf Hi Hl Hfd Hnb. unfold accept_events, get_channel. rewrite Hc. cbn [mbind outcome_bind].
  rewrite handNewConn_good by done.
  assert (Hm : ((i + length l) mod n < n)%nat) by (apply Nat.mod_upper_bound; lia).
  cbn [handNewConn]. rewrite (proj2 (Z.ltb_lt _ _)) by lia. rewrite getNextLoop_started by done.
  cbn [mbind outcome_bind]. rewrite (proj2 (Z.leb_gt _ _)) by lia. rewrite Hnb. cbn [negb mbind outcome_bind].
  destruct (epoll_mod_exact (set_channel p c (setEvents ch 0)) c (setEvents ch 0) 0 0 now) as (p' & Hp' & Hk).
  - eapply registered_set_channel; [done..|]. by apply reachable_registered.
  - apply lookup_insert_eq.
  - done.
  - done.
  - unfold handThisConn. rewrite Hp'. cbn. rewrite app_nil_r. by eexists _, _.
Qed.

Lemma accept_failure_ends_service_witness :
  let t := mkTimeval 0 0 in let ch := mkChannel 5 (Z.lor EPOLLIN EPOLLET) 0 (Z.lor EPOLLIN EPOLLET) None in
  exists p' pool',
    accept_events (listening_poller 5 t) 0 (started_pool 2 0) ([mkAccepted 9 true] ++ mkAccepted 10 false :: [mkAccepted 11 true])
      t false = Ret (p', pool', imap (assign 2 0) [mkAccepted 9 true]) /\
    kernel p' !! 5 = Some (mkInterest 0 true).
Proof.
  intros t ch. apply (accept_failure_ends_service (listening_poller 5 t) 0 ch 2 0 [mkAccepted 9 true] (mkAccepted 10 false)).
  - apply listening_poller_reachable.
  - done.
  - done.
  - lia.
  - by repeat constructor.
  - done.
  - done.
Defined.
