(* ===== verification/EpollServer.v ===== *)
(** * EpollServer: one loop of the epoll server, its parts put together

    The loop thread of WebServer/EventLoop.cpp with its poller, the connections
    it owns and the functors queued for it.  A turn is the body of
    [EventLoop::loop]: [poll], [handleEvents] of every channel returned,
    [doPendingFunctors], [handleExpired].  The calls a handler of [HttpData]
    makes to its loop ([loop_call]) are executed on the poller here; the
    poller is only touched by the last statements of a handler, so they are
    executed after it.  The kernel's answers are arguments. *)

From S2P Require Export Epoll.

(** Conditions of [epoll_ctl] and of the clock, numbered by the operations on
    the poller; the number of an operation is also the address of the timer
    node it makes. *)
Record environment := mkEnv { env_now : nat -> timeval; env_fails : nat -> bool }.

Section server.
Context {Q : Type} `{TQ : TimerQueue Q}.

(** [conns]: the connections with the address of their channel; [functors]:
    the connections whose [newEvent] is in [pendingFunctors_]; [ops]: operations
    on the poller so far. *)
Record LoopThread := mkLoopThread {
  poller : Epoll Q;
  conns : gmap nat (nat * conn);
  functors : list nat;
  ops : nat
}.

Definition set_poller (l : LoopThread) (p : Epoll Q) : LoopThread :=
  mkLoopThread p (conns l) (functors l) (ops l).
Definition set_conn (l : LoopThread) (h c : nat) (w : conn) : LoopThread :=
  mkLoopThread (poller l) (<[h := (c, w)]> (conns l)) (functors l) (ops l).
Definition set_functors (l : LoopThread) (fs : list nat) : LoopThread :=
  mkLoopThread (poller l) (conns l) fs (ops l).
Definition count_op (l : LoopThread) : LoopThread :=
  mkLoopThread (poller l) (conns l) (functors l) (S (ops l)).

Definition set_timers (p : Epoll Q) (m : TimerManager Q) : Epoll Q :=
  mkEpoll (kernel p) (fd2chan_ p) (fd2http_ p) m (channels p) (alive p).

(** The connection [h] as its handler finds it: [timer_] is the link the timer
    manager made, and nothing was called yet. *)
Definition enter (p : Epoll Q) (h : nat) (w : conn) : conn :=
  let m := timerManager_ p in
  mkConn (set_timer (http w) (link m !! h)) (reads w) (writes w) (written w) [] (dom (nodes m)).

Section turn.
Context (env : environment) (files : Files).

(** An operation on the poller with the channel's events set. *)
Definition with_events (l : LoopThread) (c : nat) (ev : Z) : outcome LoopThread :=
  ch ← get_channel (poller l) c;
  Ret (set_poller l (set_channel (poller l) c (setEvents ch ev))).

(** [handleClose] on [h], [removeFromPoller] included. *)
Definition close_connection (l : LoopThread) (h : nat) : outcome LoopThread :=
  match conns l !! h with
  | Some (c, w) =>
      p ← epoll_del (poller l) c (env_fails env (ops l));
      Ret (count_op (set_poller (set_conn l h c (handleClose w)) p))
  | None => UB
  end.

(** One call of a handler of [h], whose channel is [c]. [runInLoop] in the
    loop's thread calls [handleClose] at once. *)
Definition do_call (h c : nat) (l : LoopThread) (call : loop_call) : outcome LoopThread :=
  let now := env_now env (ops l) in
  let fails := env_fails env (ops l) in
  match call with
  | UpdatePoller ev timeout =>
      l ← with_events l c ev;
      p ← epoll_mod (poller l) c timeout (ops l) now fails;
      Ret (count_op (set_poller l p))
  | AddToPoller ev timeout =>
      l ← with_events l c ev;
      p ← epoll_add (poller l) c timeout (ops l) now fails;
      Ret (count_op (set_poller l p))
  | RemoveFromPoller =>
      p ← epoll_del (poller l) c fails;
      Ret (count_op (set_poller l p))
  | RunHandleClose => close_connection l h
  | ClearReq _ =>
      Ret (set_poller l (set_timers (poller l) (clear_timer (timerManager_ (poller l)) h)))
  end.

Definition do_calls (h c : nat) (cs : list loop_call) (l : LoopThread) : outcome LoopThread :=
  foldl (fun acc call => l ← acc; do_call h c l call) (Ret l) cs.

(** A handler of [h] ran: its connection and the events of its channel are
    stored, and its calls are made. *)
Definition leave (h c : nat) (w : conn) (l : LoopThread) : outcome LoopThread :=
  l ← with_events (set_conn l h c w) c (events_ (http w));
  do_calls h c (calls w) l.

(** [Channel::handleEvents] on a channel the poller returned. A channel without
    a holder is the wakeup channel of the loop: its read handler asks for the
    same events again (what it reads is in EventLoop.v).  The handlers of a channel are bound to the connection as a
    plain pointer. *)
Definition handle_channel (fuel : nat) (l : LoopThread) (c : nat) : outcome LoopThread :=
  ch ← get_channel (poller l) c;
  match holder_ ch with
  | None =>
      let rev := ch_revents ch in
      if (has_event rev EPOLLHUP && negb (has_event rev EPOLLIN)) || has_event rev EPOLLERR
      then with_events l c 0
      else
      l ← with_events l c
            (if has_event rev (Z.lor (Z.lor EPOLLIN EPOLLPRI) EPOLLRDHUP) then Z.lor EPOLLIN EPOLLET else 0);
      p ← epoll_mod (poller l) c 0 (ops l) (env_now env (ops l)) (env_fails env (ops l));
      Ret (count_op (set_poller l p))
  | Some h =>
      match conns l !! h with
      | None => UB
      | Some (_, w) =>
          w ← handleEvents fuel files (ch_revents ch) (enter (poller l) h w);
          leave h c w l
      end
  end.

(** The functor [HttpData::newEvent]; its [bind] holds the connection. *)
Definition run_functor (l : LoopThread) (h : nat) : outcome LoopThread :=
  match conns l !! h with
  | None => UB
  | Some (c, w) => leave h c (newEvent (enter (poller l) h w)) l
  end.

Definition handle_channels (fuel : nat) (ret : list nat) (l : LoopThread) : outcome LoopThread :=
  foldl (fun acc c => l ← acc; handle_channel fuel l c) (Ret l) ret.

Definition run_functors (fs : list nat) (l : LoopThread) : outcome LoopThread :=
  foldl (fun acc h => l ← acc; run_functor l h) (Ret l) fs.

(** [functors.swap(pendingFunctors_)], then the functors in order. *)
Definition doPendingFunctors (l : LoopThread) : outcome LoopThread :=
  run_functors (functors l) (set_functors l []).

(** [handleExpired]; the destructor of an expired node calls [handleClose]. *)
Definition expire (fuel : nat) (clock : nat -> timeval) (l : LoopThread) : outcome LoopThread :=
  p ← handleExpired (poller l) fuel clock;
  let closed_now := drop (length (closed (timerManager_ (poller l)))) (closed (timerManager_ p)) in
  foldl (fun acc h => l ← acc; close_connection l h) (Ret (set_poller l p)) closed_now.

(** One turn of the loop: up to the functors, then the timers. *)
Definition handle_turn (fuel : nat) (waits : list (list (Z * Z))) (l : LoopThread) : outcome LoopThread :=
  '(p, ret) ← poll (poller l) waits;
  l ← handle_channels fuel ret (set_poller l p);
  doPendingFunctors l.

Definition turn (fuel : nat) (waits : list (list (Z * Z))) (clock : nat -> timeval) (l : LoopThread)
    : outcome LoopThread :=
  l ← handle_turn fuel waits l;
  expire fuel clock l.
End turn.

(** The tail of [handNewConn], on the thread that accepts: the connection [h]
    with its channel [c] is made for [fd], and [newEvent] is queued. *)
Definition queue_connection (h c : nat) (fd : Z) (l : LoopThread) : LoopThread :=
  let p := set_channel (poller l) c (setHolder (new_Channel fd) (Some h)) in
  mkLoopThread
    (mkEpoll (kernel p) (fd2chan_ p) (fd2http_ p) (timerManager_ p) (channels p) ({[h]} ∪ alive p))
    (<[h := (c, mkConn new_HttpData [] [] [] [] ∅)]> (conns l)) (functors l ++ [h]) (ops l).

(** Between two turns: bytes for [h] reach the socket, and room to send. *)
Definition arrive (h : nat) (rs : list read_result) (ws : list write_result) (l : LoopThread) : LoopThread :=
  match conns l !! h with
  | Some (c, w) => set_conn l h c (mkConn (http w) rs ws (written w) (calls w) (live_timers w))
  | None => l
  end.

(** The connections some [shared_ptr] keeps. *)
Definition held (l : LoopThread) : list nat :=
  (map_to_list (fd2http_ (poller l))).*2 ++ connections (nodes (timerManager_ (poller l))) ++ functors l.

(** A connection no [shared_ptr] keeps is destroyed: its descriptor is closed,
    and its channel goes unless the poller keeps it. *)
Definition destroy (l : LoopThread) (h : nat) : LoopThread :=
  match conns l !! h with
  | Some (c, w) =>
      let p := poller l in
      let k := match channels p !! c with Some ch => delete (fd_ ch) (kernel p) | None => kernel p end in
      let chs := if bool_decide (c ∈ (map_to_list (fd2chan_ p)).*2) then channels p else delete c (channels p) in
      mkLoopThread (mkEpoll k (fd2chan_ p) (fd2http_ p) (timerManager_ p) chs (alive p ∖ {[h]}))
        (delete h (conns l)) (functors l) (ops l)
  | None => l
  end.

Definition collect (l : LoopThread) : LoopThread :=
  foldl (fun l' h => if bool_decide (h ∈ held l) then l' else destroy l' h) l (map_to_list (conns l)).*1.
End server.

(** * Lemmas *)

Arguments LoopThread : clear implicits.


Section frame.
Context {Q : Type} `{TQ : TimerQueue Q}.
Implicit Types (p : Epoll Q) (l : LoopThread Q).

(** ** What the operations for other descriptors leave alone *)

(** The descriptor and the holder of a channel never change. *)
Definition statics (chs : gmap nat Channel) : gmap nat (Z * option nat) :=
  (fun ch => (fd_ ch, holder_ ch)) <$> chs.

(** Nothing that concerns the descriptor [fd], its channel [c] and the
    connection [h] is different in [p']. *)
Record keeps (fd : Z) (c h : nat) (p p' : Epoll Q) : Prop := {
  keeps_channel : channels p' !! c = channels p !! c;
  keeps_statics : statics (channels p') = statics (channels p);
  keeps_fd2chan : fd2chan_ p' !! fd = fd2chan_ p !! fd;
  keeps_owner : forall fd', fd2chan_ p' !! fd' = Some c -> fd2chan_ p !! fd' = Some c;
  keeps_fd2http : fd2http_ p' !! fd = fd2http_ p !! fd;
  keeps_kernel : kernel p' !! fd = kernel p !! fd;
  keeps_alive : h ∈ alive p -> h ∈ alive p'
}.

#[local] Instance keeps_refl fd c h : Reflexive (keeps fd c h).
Proof. intros p. by split. Qed.

#[local] Instance keeps_trans fd c h : Transitive (keeps fd c h).
Proof.
  intros p1 p2 p3 [] []. split; try congruence; auto.
Qed.

Lemma statics_insert chs c ch ch' :
  chs !! c = Some ch -> fd_ ch' = fd_ ch -> holder_ ch' = holder_ ch ->
  statics (<[c := ch']> chs) = statics chs.
Proof.
  intros Hc Hf Hh. unfold statics. rewrite fmap_insert, insert_id; [done|].
  rewrite lookup_fmap, Hc. cbn. by rewrite Hf, Hh.
Qed.

(** A change of the channel [c2], and of the tables at its descriptor only. *)
Lemma keeps_update fd c h p c2 ch ch' k fc fh m fd2 :
  c2 <> c -> fd2 <> fd -> channels p !! c2 = Some ch -> fd_ ch' = fd_ ch -> holder_ ch' = holder_ ch ->
  (forall fd', fd' <> fd2 -> k !! fd' = kernel p !! fd') ->
  (fc = fd2chan_ p \/ fc = delete fd2 (fd2chan_ p) \/ fc = <[fd2 := c2]> (fd2chan_ p) \/
   fc = delete fd2 (<[fd2 := c2]> (fd2chan_ p))) ->
  (fh = fd2http_ p \/ fh = delete fd2 (fd2http_ p) \/ exists x, fh = <[fd2 := x]> (fd2http_ p)) ->
  keeps fd c h p (mkEpoll k fc fh m (<[c2 := ch']> (channels p)) (alive p)).
Proof.
  intros Hc Hfd Hch Hf Hh Hk Hfc Hfh. split; cbn.
  - by rewrite lookup_insert_ne.
  - by eapply statics_insert.
  - destruct Hfc as [-> | [-> | [-> | ->]]]; by rewrite ?lookup_delete_ne, ?lookup_insert_ne.
  - intros fd'. destruct Hfc as [-> | [-> | [-> | ->]]]; [done|..].
    + by intros [_ ?]%lookup_delete_Some.
    + rewrite lookup_insert_Some. by intros [[_ ?] | [_ ?]].
    + intros [_ H]%lookup_delete_Some. revert H. rewrite lookup_insert_Some. by intros [[_ ?] | [_ ?]].
  - destruct Hfh as [-> | [-> | [x ->]]]; by rewrite ?lookup_delete_ne, ?lookup_insert_ne.
  - by apply Hk.
  - done.
Qed.

Lemma Epoll_eta p :
  p = mkEpoll (kernel p) (fd2chan_ p) (fd2http_ p) (timerManager_ p) (channels p) (alive p).
Proof. by destruct p. Qed.

Lemma set_or_reset_cases m fd x :
  set_or_reset m fd x = m \/ set_or_reset m fd x = delete fd m \/ exists y, set_or_reset m fd x = <[fd := y]> m.
Proof. destruct x; cbn; eauto. Qed.

Lemma add_timer_id p ch timeout node now :
  exists m, add_timer p ch timeout node now
  = mkEpoll (kernel p) (fd2chan_ p) (fd2http_ p) m (channels p) (alive p).
Proof. unfold add_timer. destruct (getHolder p ch); eexists; [done|apply Epoll_eta]. Qed.

Section other.
Context (fd : Z) (c h : nat) (p : Epoll Q) (c2 : nat) (ch : Channel).
Hypothesis Hc2 : c2 <> c.
Hypothesis Hch : channels p !! c2 = Some ch.

Lemma keeps_set_channel ch' :
  fd_ ch' = fd_ ch -> holder_ ch' = holder_ ch -> keeps fd c h p (set_channel p c2 ch').
Proof. intros Hf Hh. apply (keeps_update _ _ _ _ _ ch _ _ _ _ _ (fd + 1)); auto; lia. Qed.

Hypothesis Hfd2 : fd_ ch <> fd.

Lemma epoll_add_keeps timeout node now fails p' :
  epoll_add p c2 timeout node now fails = Ret p' -> keeps fd c h p p'.
Proof.
  unfold epoll_add, get_channel. rewrite Hch. cbn [mbind outcome_bind].
  intros (u & _ & H)%bind_Ret_inv. cbv zeta in H.
  set (p1 := if 0 <? timeout then _ else p) in H.
  assert (Hp1 : exists m fh, p1 = mkEpoll (kernel p) (fd2chan_ p) fh m (channels p) (alive p) /\
    (fh = fd2http_ p \/ fh = delete (fd_ ch) (fd2http_ p) \/ exists x, fh = <[fd_ ch := x]> (fd2http_ p))).
  { unfold p1. case_if; [|eexists _, _; split; [apply Epoll_eta|by left]].
    destruct (add_timer_id p ch timeout node now) as [m ->]. eexists _, _. split; [reflexivity|].
    apply set_or_reset_cases. }
  destruct Hp1 as (m & fh & -> & Hfh). cbn in H.
  pose proof (epoll_ctl_other (kernel p) EPOLL_CTL_ADD (fd_ ch) (ch_events ch) fails) as Hk.
  destruct (epoll_ctl _ _ _ _ _) as [k rc]. cbn [fst] in Hk.
  case_if_in H; injection H as <-; unfold set_tables; cbn;
    (apply (keeps_update _ _ _ _ _ ch _ _ _ _ _ (fd_ ch)); auto).
Qed.

Lemma epoll_mod_keeps timeout node now fails p' :
  epoll_mod p c2 timeout node now fails = Ret p' -> keeps fd c h p p'.
Proof.
  unfold epoll_mod, get_channel. rewrite Hch. cbn [mbind outcome_bind].
  set (p1 := if 0 <? timeout then _ else p).
  assert (Hp1 : exists m, p1 = mkEpoll (kernel p) (fd2chan_ p) (fd2http_ p) m (channels p) (alive p)).
  { unfold p1. case_if; [apply add_timer_id|]. eexists. apply Epoll_eta. }
  destruct Hp1 as [m ->]. cbn [EqualAndUpdateLastEvents].
  pose proof (epoll_ctl_other (kernel p) EPOLL_CTL_MOD (fd_ ch) (ch_events ch) fails) as Hk.
  destruct (negb _); [|intros [= <-]; unfold set_channel; cbn;
    apply (keeps_update _ _ _ _ _ ch _ _ _ _ _ (fd_ ch)); auto].
  cbn [set_channel kernel]. destruct (epoll_ctl _ _ _ _ _) as [k rc]. cbn [fst] in Hk.
  case_if; intros H; [inv_bind H|]; injection H as <-; unfold set_tables; cbn;
    (apply (keeps_update _ _ _ _ _ ch _ _ _ _ _ (fd_ ch)); auto).
Qed.

Lemma epoll_del_keeps fails p' : epoll_del p c2 fails = Ret p' -> keeps fd c h p p'.
Proof.
  unfold epoll_del, get_channel. rewrite Hch. cbn [mbind outcome_bind].
  pose proof (epoll_ctl_other (kernel p) EPOLL_CTL_DEL (fd_ ch) (ch_lastEvents ch) fails) as Hk.
  destruct (epoll_ctl _ _ _ _ _) as [k rc]. cbn [fst] in Hk.
  intros H. inv_bind H. injection H as <-. unfold set_tables.
  rewrite <- (insert_id (channels p) c2 ch Hch) at 1.
  apply (keeps_update _ _ _ _ _ ch _ _ _ _ _ (fd_ ch)); auto.
Qed.
End other.

(** ** The same for the loop *)

(** No other channel is on the descriptor [fd] or held by [h], and no other
    connection has the channel [c]. *)
Record alone (fd : Z) (c h : nat) (l : LoopThread Q) : Prop := {
  alone_channels c' ch' : channels (poller l) !! c' = Some ch' -> c' <> c -> fd_ ch' <> fd /\ holder_ ch' <> Some h;
  alone_conns h' c' w' : conns l !! h' = Some (c', w') -> h' <> h -> c' <> c
}.

Record undisturbed (fd : Z) (c h : nat) (l l' : LoopThread Q) : Prop := {
  un_poller : keeps fd c h (poller l) (poller l');
  un_conn : conns l' !! h = conns l !! h;
  un_functors : functors l' = functors l;
  un_channels_of : fst <$> conns l' = fst <$> conns l
}.

#[local] Instance undisturbed_refl fd c h : Reflexive (undisturbed fd c h).
Proof. intros l. by split. Qed.

#[local] Instance undisturbed_trans fd c h : Transitive (undisturbed fd c h).
Proof. intros l1 l2 l3 [] []. split; [by etrans|congruence..]. Qed.

Lemma statics_lookup (chs chs' : gmap nat Channel) c ch' :
  statics chs' = statics chs -> chs' !! c = Some ch' ->
  exists ch, chs !! c = Some ch /\ fd_ ch = fd_ ch' /\ holder_ ch = holder_ ch'.
Proof.
  intros Hs Hc. assert (H : statics chs' !! c = Some (fd_ ch', holder_ ch'))
    by (unfold statics; by rewrite lookup_fmap, Hc).
  rewrite Hs in H. unfold statics in H. rewrite lookup_fmap in H.
  destruct (chs !! c) as [ch|]; [|done]. cbn in H. exists ch. split; [done|]. by simplify_eq.
Qed.

Lemma alone_undisturbed fd c h l l' : alone fd c h l -> undisturbed fd c h l l' -> alone fd c h l'.
Proof.
  intros [Ha Hb] [Hk Hc _ Hf]. split.
  - intros c' ch' Hch' Hne. destruct (statics_lookup _ _ _ _ (keeps_statics _ _ _ _ _ Hk) Hch')
      as (ch & Hch & <- & <-). by eapply Ha.
  - intros h' c' w' Hw' Hne. assert (Hl : (fst <$> conns l') !! h' = Some c') by (by rewrite lookup_fmap, Hw').
    rewrite Hf, lookup_fmap in Hl. destruct (conns l !! h') as [[c0 w0]|] eqn:E; [|done].
    cbn in Hl. injection Hl as ->. by eapply Hb.
Qed.

Section others.
Context (env : environment) (files : Files) (fd : Z) (c h : nat).

Lemma with_events_undisturbed l c2 ev l' :
  alone fd c h l -> c2 <> c -> with_events l c2 ev = Ret l' -> undisturbed fd c h l l'.
Proof.
  intros Ha Hc. unfold with_events, get_channel. destruct (channels (poller l) !! c2) as [ch|] eqn:E; [|done].
  cbn. intros [= <-]. split; [|done..].
  by apply (keeps_set_channel fd c h (poller l) c2 ch).
Qed.

(** An operation on the poller for another channel, then counted. *)
Lemma poller_op_undisturbed l c2 (op : Epoll Q -> outcome (Epoll Q)) l' :
  alone fd c h l -> c2 <> c ->
  (forall ch p', channels (poller l) !! c2 = Some ch -> fd_ ch <> fd -> op (poller l) = Ret p' ->
    keeps fd c h (poller l) p') ->
  (forall p', op (poller l) = Ret p' -> is_Some (channels (poller l) !! c2)) ->
  (p ← op (poller l); Ret (count_op (set_poller l p))) = Ret l' -> undisturbed fd c h l l'.
Proof.
  intros Ha Hc Hop Hsome H. inv_bind H. injection H as <-.
  destruct (Hsome _ Ha0) as [ch Hch]. destruct (alone_channels _ _ _ _ Ha _ _ Hch Hc).
  split; [by eapply Hop|done..].
Qed.

Lemma get_channel_some p c2 {B} (f : Channel -> outcome B) b :
  (ch ← get_channel p c2; f ch) = Ret b -> is_Some (channels p !! c2).
Proof. unfold get_channel. destruct (channels p !! c2); [by eexists|done]. Qed.

Lemma close_connection_undisturbed l h2 l' :
  alone fd c h l -> h2 <> h -> close_connection env l h2 = Ret l' -> undisturbed fd c h l l'.
Proof.
  intros Ha Hne. unfold close_connection. destruct (conns l !! h2) as [[c2 w]|] eqn:E; [|done].
  pose proof (alone_conns _ _ _ _ Ha _ _ _ E Hne) as Hc2. intros H.
  inv_bind H. injection H as <-. assert (Hs := Ha0). unfold epoll_del in Hs. apply get_channel_some in Hs as [ch Hch].
  destruct (alone_channels _ _ _ _ Ha _ _ Hch Hc2) as [Hfd _].
  split; cbn.
  - by apply (epoll_del_keeps fd c h (poller l) c2 ch Hc2 Hch Hfd (env_fails env (ops l))).
  - by rewrite lookup_insert_ne.
  - done.
  - rewrite fmap_insert, insert_id; [done|]. by rewrite lookup_fmap, E.
Qed.

Lemma do_call_undisturbed l h2 c2 call l' :
  alone fd c h l -> h2 <> h -> c2 <> c -> do_call env h2 c2 l call = Ret l' -> undisturbed fd c h l l'.
Proof.
  intros Ha Hh Hc. destruct call as [ev timeout|ev timeout| | |t]; cbn [do_call]; intros H.
  - inv_bind H. pose proof (with_events_undisturbed _ _ _ _ Ha Hc Ha0) as Hu. etrans; [exact Hu|].
    refine (poller_op_undisturbed _ c2 (fun p => epoll_mod p c2 timeout (ops a) _ _) _ _ Hc _ _ H).
    + by eapply alone_undisturbed.
    + intros ch p' Hch Hfd. by apply (epoll_mod_keeps fd c h (poller a) c2 ch Hc Hch Hfd).
    + intros p'. apply get_channel_some.
  - inv_bind H. pose proof (with_events_undisturbed _ _ _ _ Ha Hc Ha0) as Hu. etrans; [exact Hu|].
    refine (poller_op_undisturbed _ c2 (fun p => epoll_add p c2 timeout (ops a) _ _) _ _ Hc _ _ H).
    + by eapply alone_undisturbed.
    + intros ch p' Hch Hfd. by apply (epoll_add_keeps fd c h (poller a) c2 ch Hc Hch Hfd).
    + intros p'. apply get_channel_some.
  - refine (poller_op_undisturbed _ c2 (fun p => epoll_del p c2 _) _ Ha Hc _ _ H).
    + intros ch p' Hch Hfd. by apply (epoll_del_keeps fd c h (poller l) c2 ch Hc Hch Hfd).
    + intros p'. apply get_channel_some.
  - by eapply close_connection_undisturbed.
  - injection H as <-. split; [by split|done..].
Qed.

Lemma fold_undisturbed {X} (f : LoopThread Q -> X -> outcome (LoopThread Q)) (ok : X -> Prop)
    (I : LoopThread Q -> Prop) xs : forall l l',
  (forall l l', undisturbed fd c h l l' -> I l -> I l') ->
  (forall l x l', alone fd c h l -> I l -> ok x -> f l x = Ret l' -> undisturbed fd c h l l') ->
  alone fd c h l -> I l -> Forall ok xs ->
  foldl (fun acc x => l ← acc; f l x) (Ret l) xs = Ret l' -> undisturbed fd c h l l'.
Proof.
  intros l l' HI Hf. revert l. induction xs as [|x xs IH]; intros l Ha Hi Hok; cbn; [by intros [= <-]|].
  apply Forall_cons in Hok as [Hx Hok]. rewrite foldl_outcome. intros H. inv_bind H.
  pose proof (Hf _ _ _ Ha Hi Hx Ha0) as Hu. etrans; [exact Hu|].
  apply IH; [by eapply alone_undisturbed|by eapply HI|done|done].
Qed.

Lemma leave_undisturbed l h2 c2 w l' :
  alone fd c h l -> h2 <> h -> c2 <> c -> fst <$> conns l !! h2 = Some c2 ->
  leave env h2 c2 w l = Ret l' -> undisturbed fd c h l l'.
Proof.
  intros Ha Hh Hc Hold. unfold leave, do_calls. intros H. inv_bind H.
  assert (Hu0 : undisturbed fd c h l (set_conn l h2 c2 w)).
  { split; cbn; [done|by rewrite lookup_insert_ne|done|].
    rewrite fmap_insert, insert_id; [done|]. by rewrite lookup_fmap. }
  pose proof (alone_undisturbed _ _ _ _ _ Ha Hu0) as Ha1.
  pose proof (with_events_undisturbed _ _ _ _ Ha1 Hc Ha0) as Hu1.
  etrans; [exact Hu0|]. etrans; [exact Hu1|].
  eapply (fold_undisturbed (do_call env h2 c2) (fun _ => True) (fun _ => True) (calls w));
    [done| |by eapply alone_undisturbed|done|by apply Forall_true|exact H].
  intros l0 call l1 Ha2 _ _. by apply do_call_undisturbed.
Qed.

Lemma run_functor_undisturbed l h2 l' :
  alone fd c h l -> h2 <> h -> run_functor env l h2 = Ret l' -> undisturbed fd c h l l'.
Proof.
  intros Ha Hh. unfold run_functor. destruct (conns l !! h2) as [[c2 w]|] eqn:E; [|done].
  apply leave_undisturbed; [done..|by eapply alone_conns|by rewrite E].
Qed.

(** A channel and the connection that holds it agree. *)
Definition paired l : Prop :=
  forall c2 ch2 h2 c3 w, channels (poller l) !! c2 = Some ch2 -> holder_ ch2 = Some h2 ->
    conns l !! h2 = Some (c3, w) -> c3 = c2.

Lemma paired_undisturbed l l' : undisturbed fd c h l l' -> paired l -> paired l'.
Proof.
  intros [Hk _ _ Hf] Hp c2 ch2 h2 c3 w Hch Hh Hw.
  destruct (statics_lookup _ _ _ _ (keeps_statics _ _ _ _ _ Hk) Hch) as (ch & Hch0 & _ & Hh0).
  assert (Hl : (fst <$> conns l') !! h2 = Some c3) by (by rewrite lookup_fmap, Hw).
  rewrite Hf, lookup_fmap in Hl. destruct (conns l !! h2) as [[c0 w0]|] eqn:E; [|done].
  cbn in Hl. injection Hl as <-. eapply Hp; [done| |done]. congruence.
Qed.

Lemma handle_channel_undisturbed fuel l c2 l' :
  alone fd c h l -> paired l -> c2 <> c -> handle_channel env files fuel l c2 = Ret l' -> undisturbed fd c h l l'.
Proof.
  intros Ha Hp Hc. unfold handle_channel, get_channel at 1.
  destruct (channels (poller l) !! c2) as [ch|] eqn:E; [|done]. cbn [mbind outcome_bind].
  destruct (alone_channels _ _ _ _ Ha _ _ E Hc) as [Hfd Hhold].
  destruct (holder_ ch) as [h2|] eqn:Eh.
  - destruct (conns l !! h2) as [[c3 w]|] eqn:Ew; [|done]. intros H. inv_bind H.
    assert (c3 = c2) as -> by (by eapply Hp).
    apply (leave_undisturbed l h2 c2 a l' Ha); [by intros ->|done|by rewrite Ew|done].
  - cbv zeta. case_if; [by apply with_events_undisturbed|].
    intros H. inv_bind H. pose proof (with_events_undisturbed _ _ _ _ Ha Hc Ha0) as Hu. etrans; [exact Hu|].
    refine (poller_op_undisturbed _ c2 (fun p => epoll_mod p c2 0 (ops a) _ _) _ _ Hc _ _ H).
    + by eapply alone_undisturbed.
    + intros ch2 p' Hch2 Hfd2. by apply (epoll_mod_keeps fd c h (poller a) c2 ch2 Hc Hch2 Hfd2).
    + intros p'. apply get_channel_some.
Qed.
End others.

(** ** The events that the poller returns *)

Lemma getEvents_shape events : forall p p' ret,
  getEventsRequest p events = Ret (p', ret) ->
  exists chs, p' = mkEpoll (kernel p) (fd2chan_ p) (fd2http_ p) (timerManager_ p) chs (alive p) /\
              statics chs = statics (channels p).
Proof.
  induction events as [|[fd' ev] events IH]; intros p p' ret; cbn.
  - intros [= <- <-]. eexists. split; [apply Epoll_eta|done].
  - intros (u & _ & H)%bind_Ret_inv. destruct (fd2chan_ p !! fd') as [c2|]; [|by eapply IH].
    unfold get_channel in H. destruct (channels p !! c2) as [ch|] eqn:E; [|done]. cbn in H.
    apply bind_Ret_inv in H as ([p1 l1] & H1 & [= <- <-]).
    destruct (IH _ _ _ H1) as (chs & -> & Hs). exists chs. split; [done|]. cbn in Hs.
    rewrite Hs. by eapply statics_insert.
Qed.

Section events.
Context (fd : Z) (c : nat).

Definition owns p : Prop := forall fd', fd2chan_ p !! fd' = Some c -> fd' = fd.

(** Events of other descriptors do not return the channel. *)
Lemma getEvents_other events : forall p p' ret,
  owns p -> fd ∉ events.*1 -> getEventsRequest p events = Ret (p', ret) ->
  channels p' !! c = channels p !! c /\ (c ∉ ret).
Proof.
  induction events as [|[fd' ev] events IH]; intros p p' ret Ho Hfd; cbn.
  - intros [= <- <-]. split; [done|]. apply not_elem_of_nil.
  - cbn in Hfd. apply not_elem_of_cons in Hfd as [Hne Hfd].
    intros (u & _ & H)%bind_Ret_inv. destruct (fd2chan_ p !! fd') as [c2|] eqn:Ec; [|by eapply IH].
    unfold get_channel in H. destruct (channels p !! c2) as [ch|] eqn:E; [|done]. cbn in H.
    apply bind_Ret_inv in H as ([p1 l1] & H1 & [= <- <-]).
    assert (c2 <> c) by (intros ->; by apply Hne, eq_sym, Ho).
    destruct (IH (set_channel p c2 (setEvents (setRevents ch ev) 0)) _ _ Ho Hfd H1) as [Hch Hr]. split.
    + rewrite Hch. cbn. by rewrite lookup_insert_ne.
    + apply not_elem_of_cons. done.
Qed.

(** Nor does anything return a channel the poller has no entry for. *)
Lemma getEvents_untouched events : forall p p' ret,
  (forall fd', fd2chan_ p !! fd' <> Some c) -> getEventsRequest p events = Ret (p', ret) ->
  channels p' !! c = channels p !! c /\ (c ∉ ret).
Proof.
  induction events as [|[fd' ev] events IH]; intros p p' ret Ho; cbn.
  - intros [= <- <-]. split; [done|]. apply not_elem_of_nil.
  - intros (u & _ & H)%bind_Ret_inv. destruct (fd2chan_ p !! fd') as [c2|] eqn:Ec; [|by eapply IH].
    unfold get_channel in H. destruct (channels p !! c2) as [ch|] eqn:E; [|done]. cbn in H.
    apply bind_Ret_inv in H as ([p1 l1] & H1 & [= <- <-]).
    assert (c2 <> c) by (intros ->; by eapply Ho).
    destruct (IH (set_channel p c2 (setEvents (setRevents ch ev) 0)) _ _ Ho H1) as [Hch Hr]. split.
    + rewrite Hch. cbn. by rewrite lookup_insert_ne.
    + apply not_elem_of_cons. done.
Qed.

Lemma getEvents_app ev1 ev2 : forall p p' ret,
  getEventsRequest p (ev1 ++ ev2) = Ret (p', ret) ->
  exists p1 r1 r2, getEventsRequest p ev1 = Ret (p1, r1) /\ getEventsRequest p1 ev2 = Ret (p', r2) /\ ret = r1 ++ r2.
Proof.
  induction ev1 as [|[fd' ev] ev1 IH]; intros p p' ret; cbn.
  - intros H. by eexists _, [], _.
  - intros (u & Hu & H)%bind_Ret_inv. rewrite Hu. cbn.
    destruct (fd2chan_ p !! fd') as [c2|]; [|by apply IH].
    unfold get_channel in *. destruct (channels p !! c2) as [ch|]; [|done]. cbn in *.
    apply bind_Ret_inv in H as ([p1 l1] & H1 & [= <- <-]).
    destruct (IH _ _ _ H1) as (p2 & r1 & r2 & -> & H2 & ->). cbn. by eexists _, (c2 :: r1), r2.
Qed.

Lemma getEvents_mid pre ev post p p' ret ch :
  owns p -> fd2chan_ p !! fd = Some c -> channels p !! c = Some ch ->
  fd ∉ pre.*1 -> fd ∉ post.*1 ->
  getEventsRequest p (pre ++ (fd, ev) :: post) = Ret (p', ret) ->
  exists r1 r2, ret = r1 ++ c :: r2 /\ (c ∉ r1) /\ (c ∉ r2) /\
    channels p' !! c = Some (setEvents (setRevents ch ev) 0).
Proof.
  intros Ho Hf Hc Hpre Hpost H. apply getEvents_app in H as (p1 & r1 & r2 & H1 & H2 & ->).
  destruct (getEvents_other _ _ _ _ Ho Hpre H1) as [Hc1 Hr1]. rewrite Hc in Hc1.
  destruct (getEvents_shape _ _ _ _ H1) as (chs & -> & _). cbn in H2, Hc1.
  apply bind_Ret_inv in H2 as (u & _ & H2). rewrite Hf in H2. unfold get_channel in H2. cbn in H2.
  rewrite Hc1 in H2. cbn in H2. apply bind_Ret_inv in H2 as ([p2 l2] & H2 & [= <- <-]).
  apply getEvents_other in H2 as [Hc2 Hr2]; [|exact Ho|done].
  exists r1, l2. split_and!; [done..|]. rewrite Hc2. cbn. by rewrite lookup_insert_eq.
Qed.
End events.

(** ** One connection *)

Definition rearmed_events : Z := Z.lor EPOLLIN EPOLLET.

(** [h] is registered with the poller through [c] on [fd], and the kernel will
    report input. *)
Record registered_at (fd : Z) (c h : nat) (ev : Z) (arm : bool) p : Prop := {
  at_channel : exists ch, channels p !! c = Some ch /\ fd_ ch = fd /\ holder_ ch = Some h /\ ch_lastEvents ch = ev;
  at_fd2chan : fd2chan_ p !! fd = Some c;
  at_fd2http : fd2http_ p !! fd = Some h;
  at_kernel : kernel p !! fd = Some (mkInterest ev arm);
  at_alive : h ∈ alive p;
  at_owns : owns fd c p
}.

Lemma registered_at_keeps fd c h ev arm p p' :
  keeps fd c h p p' -> registered_at fd c h ev arm p -> registered_at fd c h ev arm p'.
Proof.
  intros [] [Hch ? ? ? ? Ho]. split; try congruence; auto.
  - destruct Hch as (ch & ? & ?). exists ch. split; [congruence|done].
  - intros fd' Hf. by apply Ho, keeps_owner0.
Qed.

(** Between two requests. *)
Record ready (fd : Z) (c h : nat) (l : LoopThread Q) (w : conn) : Prop := {
  ready_conn : conns l !! h = Some (c, w);
  ready_idle : idle (http w);
  ready_fd : 0 <= fd < MAXFDS;
  ready_poller : exists ev, (ev = DEFAULT_EVENT \/ ev = rearmed_events) /\ registered_at fd c h ev true (poller l);
  ready_alone : alone fd c h l;
  ready_paired : paired l;
  ready_functors : h ∉ functors l
}.

(** [epoll_mod] for the events a connection asks for after a request. *)
Lemma epoll_mod_rearms fd c h ch arm p timeout node now :
  registered_at fd c h (ch_lastEvents ch) arm p -> channels p !! c = Some ch ->
  ch_events ch = rearmed_events -> (ch_lastEvents ch = rearmed_events -> arm = true) ->
  exists p', epoll_mod p c timeout node now false = Ret p' /\
    registered_at fd c h rearmed_events true p' /\ statics (channels p') = statics (channels p).
Proof.
  intros [(ch0 & Hc0 & Hfd & Hh & _) Hfc Hfh Hk Hal Ho] Hc Hev Harm.
  rewrite Hc in Hc0. injection Hc0 as <-.
  unfold epoll_mod, get_channel. rewrite Hc. cbn [mbind outcome_bind].
  set (p1 := if 0 <? timeout then _ else p).
  assert (Hp1 : exists m, p1 = mkEpoll (kernel p) (fd2chan_ p) (fd2http_ p) m (channels p) (alive p)).
  { unfold p1. case_if; [apply add_timer_id|]. eexists. apply Epoll_eta. }
  destruct Hp1 as [m ->]. cbn [EqualAndUpdateLastEvents set_channel]. rewrite Hev.
  assert (Hst : forall ch', fd_ ch' = fd_ ch -> holder_ ch' = holder_ ch ->
    statics (<[c := ch']> (channels p)) = statics (channels p)) by (intros; by eapply statics_insert).
  destruct (ch_lastEvents ch =? rearmed_events) eqn:E; zbool; cbn [negb].
  - eexists. split; [reflexivity|]. split; [|by apply Hst].
    split; cbn; [|done|done| |done|done].
    + eexists. split_and!; [apply lookup_insert_eq|done..].
    + by rewrite Hk, E, Harm.
  - unfold epoll_ctl. cbn [set_channel kernel]. rewrite Hfd, Hk. cbn. eexists. split; [reflexivity|].
    split; [|by apply Hst].
    split; cbn; [|done|done| |done|done].
    + eexists. split_and!; [apply lookup_insert_eq|done..].
    + by rewrite lookup_insert_eq.
Qed.

Lemma statics_channel (chs chs' : gmap nat Channel) c ch :
  statics chs' = statics chs -> chs !! c = Some ch ->
  exists ch', chs' !! c = Some ch' /\ fd_ ch' = fd_ ch /\ holder_ ch' = holder_ ch.
Proof. intros Hs. apply statics_lookup. by symmetry. Qed.

(** Nothing static changes. *)
Record same_shape (l l' : LoopThread Q) : Prop := {
  shape_channels : statics (channels (poller l')) = statics (channels (poller l));
  shape_functors : functors l' = functors l;
  shape_conns : fst <$> conns l' = fst <$> conns l
}.

#[local] Instance same_shape_refl : Reflexive same_shape.
Proof. by split. Qed.

#[local] Instance same_shape_trans : Transitive same_shape.
Proof. intros l1 l2 l3 [] []. split; congruence. Qed.

Lemma undisturbed_shape fd c h l l' : undisturbed fd c h l l' -> same_shape l l'.
Proof. intros [Hk _ ? Hf]. split; [apply Hk|done..]. Qed.

Lemma conns_shape l l' h' c' w' :
  same_shape l l' -> conns l' !! h' = Some (c', w') -> exists w, conns l !! h' = Some (c', w).
Proof.
  intros [_ _ Hf] Hw. assert (Hl : (fst <$> conns l') !! h' = Some c') by (by rewrite lookup_fmap, Hw).
  rewrite Hf, lookup_fmap in Hl. destruct (conns l !! h') as [[c0 w0]|]; [|done].
  cbn in Hl. injection Hl as ->. by eexists.
Qed.

Lemma alone_shape fd c h l l' : same_shape l l' -> alone fd c h l -> alone fd c h l'.
Proof.
  intros Hs [Ha Hb]. split.
  - intros c' ch' Hch' Hne. destruct (statics_lookup _ _ _ _ (shape_channels _ _ Hs) Hch')
      as (ch & Hch & <- & <-). by eapply Ha.
  - intros h' c' w' Hw' Hne. destruct (conns_shape _ _ _ _ _ Hs Hw') as [w Hw]. by eapply Hb.
Qed.

Lemma paired_shape l l' : same_shape l l' -> paired l -> paired l'.
Proof.
  intros Hs Hp c2 ch2 h2 c3 w Hch Hh Hw.
  destruct (statics_lookup _ _ _ _ (shape_channels _ _ Hs) Hch) as (ch & Hch0 & _ & Hh0).
  destruct (conns_shape _ _ _ _ _ Hs Hw) as [w0 Hw0]. eapply Hp; [done| |done]. congruence.
Qed.

Lemma set_conn_shape l h c w w' : conns l !! h = Some (c, w) -> same_shape l (set_conn l h c w').
Proof.
  intros Hw. split; cbn; [done..|]. rewrite fmap_insert, insert_id; [done|]. by rewrite lookup_fmap, Hw.
Qed.

Section serve.
Context (env : environment) (files : Files).
Hypothesis Henv : forall n, env_fails env n = false.

Lemma do_clears h c cs : Forall clears cs -> forall l,
  exists m, do_calls env h c cs l = Ret (set_poller l (set_timers (poller l) m)).
Proof.
  unfold do_calls. induction 1 as [|call cs Hc Hcs IH]; intros l; cbn.
  - exists (timerManager_ (poller l)). destruct l as [p ? ? ?]. cbn. by destruct p.
  - destruct call; try done. cbn.
    destruct (IH (set_poller l (set_timers (poller l) (clear_timer (timerManager_ (poller l)) h)))) as [m ->].
    by exists m.
Qed.

Lemma do_calls_app h c cs cs' l :
  do_calls env h c (cs ++ cs') l = (l ← do_calls env h c cs l; do_calls env h c cs' l).
Proof. unfold do_calls. rewrite foldl_app. apply foldl_outcome. Qed.

(** A whole request for the file of [t], and room for the answer. *)
Record request_at (t : bytes) (v : ascii) (hs : list (bytes * bytes)) (content : bytes) (w : conn) : Prop := {
  rq_text : received (reads w) = request_text t v hs;
  rq_end : reads_end (reads w) = NoMore;
  rq_cr : CR ∉ t;
  rq_sp : SP ∉ t;
  rq_version : v = "0"%char \/ v = "1"%char;
  rq_some : hs <> [];
  rq_headers : headers_ok hs;
  rq_size : size (request_text t v hs) < 2 ^ 31;
  rq_hello : requested_file t <> lit "hello";
  rq_icon : requested_file t <> lit "favicon.ico";
  rq_file : has_file files (requested_file t) content;
  rq_room : exists n k, writes w = WriteUpTo n :: k /\
    size (file_response (asks_keep_alive (parsed_headers hs)) (requested_file t) content) <= n;
  rq_answer_size : size (file_response (asks_keep_alive (parsed_headers hs)) (requested_file t) content) < 2 ^ 31
}.

Definition answer_of (t : bytes) (hs : list (bytes * bytes)) (content : bytes) : bytes :=
  file_response (asks_keep_alive (parsed_headers hs)) (requested_file t) content.

Lemma handleConn_idle w :
  error_ (http w) = false -> connectionState_ (http w) = H_CONNECTED -> events_ (http w) = 0 ->
  exists cs timeout,
    calls (handleConn w) = calls w ++ cs ++ [UpdatePoller rearmed_events timeout] /\ Forall clears cs /\
    0 < timeout /\ written (handleConn w) = written w /\ events_ (http (handleConn w)) = rearmed_events /\
    (idle (http w) -> idle (http (handleConn w))).
Proof.
  intros He Hc Hev. unfold handleConn. destruct (seperateTimer_frame w) as (Hw & _ & [t Ht] & cs & Hcs & Hcl).
  rewrite Ht. cbn [error_ connectionState_ events_ set_timer keepAlive_]. rewrite He, Hc, Hev.
  rewrite bool_decide_true by done. cbn [negb andb Z.eqb].
  eexists cs, _. cbn [calls add_call set_http written http]. rewrite Hcs, Hw, <- app_assoc.
  split_and!; [reflexivity|done| |done|done|].
  - by destruct (keepAlive_ (http w)).
  - done.
Qed.

Lemma handleEvents_get fuel w t v hs content :
  idle (http w) -> request_at t v hs content w ->
  exists w' cs timeout, handleEvents (S fuel) files EPOLLIN w = Ret w' /\
    written w' = written w ++ answer_of t hs content /\ idle (http w') /\
    events_ (http w') = rearmed_events /\ 0 < timeout /\
    calls w' = calls w ++ cs ++ [UpdatePoller rearmed_events timeout] /\ Forall clears cs.
Proof.
  intros Hi []. destruct rq_room0 as (n & k & Hw & Hn). unfold handleEvents.
  change (has_event EPOLLIN EPOLLHUP) with false. change (has_event EPOLLIN EPOLLERR) with false.
  change (has_event EPOLLIN (Z.lor (Z.lor EPOLLIN EPOLLPRI) EPOLLRDHUP)) with true.
  change (has_event EPOLLIN EPOLLOUT) with false. cbn [andb].
  destruct (handleRead_get fuel files (set_http w (set_events (http w) 0)) t v hs content n k)
    as (w1 & -> & Hwr & Hi1 & Hev & cs & Hcs & Hcl); [exact Hi|done..|].
  cbn [mbind outcome_bind].
  destruct (handleConn_idle w1) as (cs' & timeout & Hca & Hcl' & Ht & Hw' & He' & Hi');
    [apply Hi1|apply Hi1|done|].
  exists (handleConn w1), (cs ++ cs'), timeout. split_and!; [done|..|by apply Forall_app].
  - by rewrite Hw', Hwr.
  - by apply Hi'.
  - done.
  - done.
  - rewrite Hca, Hcs. cbn. by rewrite <- !app_assoc.
Qed.

(** The handlers of [h] on a whole request: they return, the answer is sent and
    the connection is registered again. *)
Lemma handle_channel_get fuel fd c h ev arm l w t v hs content ch :
  conns l !! h = Some (c, w) -> idle (http w) -> request_at t v hs content w ->
  registered_at fd c h ev arm (poller l) -> channels (poller l) !! c = Some ch -> ch_revents ch = EPOLLIN ->
  (ev = rearmed_events -> arm = true) ->
  exists l' w', handle_channel env files (S fuel) l c = Ret l' /\
    conns l' !! h = Some (c, w') /\ idle (http w') /\ written w' = written w ++ answer_of t hs content /\
    registered_at fd c h rearmed_events true (poller l') /\ same_shape l l'.
Proof.
  intros Hconn Hi Hrq Hat Hch Hrev Harm.
  destruct (at_channel _ _ _ _ _ _ Hat) as (ch0 & Hch0 & Hfd & Hh & Hle). rewrite Hch in Hch0.
  injection Hch0 as <-. unfold handle_channel, get_channel at 1. rewrite Hch. cbn [mbind outcome_bind].
  rewrite Hh, Hconn, Hrev.
  destruct (handleEvents_get fuel (enter (poller l) h w) t v hs content)
    as (w' & cs & timeout & -> & Hwr & Hi' & Hev' & Ht & Hca & Hcl).
  { destruct Hi as (?&?&?&?&?&?&?&?). by split_and!. }
  { destruct Hrq. by split. }
  cbn [mbind outcome_bind]. unfold leave, with_events at 1, get_channel. cbn [set_conn poller].
  rewrite Hch. cbn [mbind outcome_bind]. rewrite Hev', Hca. cbn [enter calls app].
  rewrite do_calls_app. set (l1 := set_poller _ _).
  destruct (do_clears h c cs Hcl l1) as [m ->]. cbn [mbind outcome_bind].
  unfold do_calls. cbn [foldl mbind outcome_bind do_call]. unfold with_events, get_channel.
  assert (Hc1 : channels (poller (set_poller l1 (set_timers (poller l1) m))) !! c = Some (setEvents ch rearmed_events)).
  { unfold l1. cbn. by rewrite lookup_insert_eq. }
  rewrite Hc1. cbn [mbind outcome_bind]. rewrite Henv.
  set (p2 := set_channel _ c _).
  assert (Hs2 : statics (channels p2) = statics (channels (poller l))).
  { unfold p2. cbn. rewrite insert_insert_eq. by eapply statics_insert. }
  assert (Hat2 : registered_at fd c h ev arm p2).
  { destruct Hat. split; try done. exists (setEvents ch rearmed_events). split_and!; [|done..].
    unfold p2. cbn. apply lookup_insert_eq. }
  destruct (epoll_mod_rearms fd c h (setEvents ch rearmed_events) arm p2 timeout
    (ops l) (env_now env (ops l))) as (p3 & Hp3 & Hat3 & Hs3).
  { cbn. by rewrite Hle. }
  { unfold p2. cbn. apply lookup_insert_eq. }
  { done. }
  { cbn. rewrite Hle. done. }
  change (poller (set_poller (set_poller l1 (set_timers (poller l1) m)) p2)) with p2.
  change (ops (set_poller (set_poller l1 (set_timers (poller l1) m)) p2)) with (ops l).
  change (ops (set_poller l1 (set_timers (poller l1) m))) with (ops l).
  rewrite Hp3. cbn [mbind outcome_bind]. eexists _, w'. split; [reflexivity|].
  split_and!; [|done|done|done|].
  - cbn. by rewrite lookup_insert_eq.
  - split; cbn; [by rewrite Hs3|done|]. rewrite fmap_insert, insert_id; [done|].
    by rewrite lookup_fmap, Hconn.
Qed.
End serve.

(** ** Turns *)

Lemma report_other k evs fd : fd ∉ evs.*1 -> foldl (fun k (e : Z * Z) => report k e.1) k evs !! fd = k !! fd.
Proof.
  revert k; induction evs as [|[fd' ev] evs IH]; intros k Hfd; cbn; [done|].
  cbn in Hfd. apply not_elem_of_cons in Hfd as [Hne Hfd]. rewrite IH by done.
  unfold report. destruct (k !! fd') as [i|]; [|done]. case_if; [|done]. by rewrite lookup_insert_ne.
Qed.

Lemma report_mid k pre post fd e i :
  fd ∉ pre.*1 -> fd ∉ post.*1 -> k !! fd = Some (mkInterest i true) ->
  foldl (fun k (e : Z * Z) => report k e.1) k (pre ++ (fd, e) :: post) !! fd
  = Some (mkInterest i (negb (has_event i EPOLLONESHOT))).
Proof.
  intros Hpre Hpost Hk. rewrite foldl_app. cbn [foldl fst]. rewrite report_other by done.
  unfold report at 1. rewrite report_other, Hk by done. cbn [mask].
  destruct (has_event i EPOLLONESHOT); [by rewrite lookup_insert_eq|]. by rewrite report_other.
Qed.

(** The poller with the events [evs] reported by the kernel. *)
Definition reported p (evs : list (Z * Z)) : Epoll Q :=
  mkEpoll (foldl (fun k e => report k e.1) (kernel p) evs) (fd2chan_ p) (fd2http_ p) (timerManager_ p)
    (channels p) (alive p).

Lemma poll_one p evs p' ret : poll p [evs] = Ret (p', ret) -> getEventsRequest (reported p evs) evs = Ret (p', ret).
Proof.
  cbn. fold (reported p evs). destruct (getEventsRequest (reported p evs) evs) as [[p1 r1]| | |]; cbn; [|done..].
  case_bool_decide; [done|]. by intros [= <- <-].
Qed.

Section turns.
Context (env : environment) (files : Files).

Lemma handle_channels_app fuel r1 r2 l :
  handle_channels env files fuel (r1 ++ r2) l
  = (l ← handle_channels env files fuel r1 l; handle_channels env files fuel r2 l).
Proof. unfold handle_channels. rewrite foldl_app. apply foldl_outcome. Qed.

Lemma handle_channels_undisturbed fuel fd c h ret l l' :
  alone fd c h l -> paired l -> c ∉ ret -> handle_channels env files fuel ret l = Ret l' -> undisturbed fd c h l l'.
Proof.
  intros Ha Hp Hc H. unfold handle_channels in H.
  eapply (fold_undisturbed fd c h (handle_channel env files fuel) (fun c2 => c2 <> c) paired ret);
    [by intros; eapply paired_undisturbed| |done|done| |exact H].
  - intros l0 c2 l1 Ha0 Hp0 Hc2. by apply handle_channel_undisturbed.
  - apply Forall_forall. intros c2 Hin ->. done.
Qed.

Lemma run_functors_undisturbed fd c h fs l l' :
  alone fd c h l -> h ∉ fs -> run_functors env fs l = Ret l' -> undisturbed fd c h l l'.
Proof.
  intros Ha Hh H. unfold run_functors in H.
  eapply (fold_undisturbed fd c h (run_functor env) (fun h2 => h2 <> h) (fun _ => True) fs);
    [done| |done|done| |exact H].
  - intros l0 h2 l1 Ha0 _ Hh2. by apply run_functor_undisturbed.
  - apply Forall_forall. intros h2 Hin ->. done.
Qed.

Lemma ready_undisturbed fd c h l l' w : undisturbed fd c h l l' -> ready fd c h l w -> ready fd c h l' w.
Proof.
  intros Hu []. pose proof (undisturbed_shape _ _ _ _ _ Hu) as Hs. split; [|done|done|..].
  - by rewrite (un_conn _ _ _ _ _ Hu).
  - destruct ready_poller0 as (ev & Hev & Hat). exists ev. split; [done|].
    eapply registered_at_keeps; [by apply un_poller|done].
  - by eapply alone_shape.
  - by eapply paired_shape.
  - by rewrite (un_functors _ _ _ _ _ Hu).
Qed.

Lemma ready_set_functors fd c h l w fs : ready fd c h l w -> h ∉ fs -> ready fd c h (set_functors l fs) w.
Proof. intros [] Hh. split; try done. - by destruct ready_alone0. Qed.

(** The state in which the handlers find a ready connection with input. *)
Lemma poll_ready fd c h l w pre post p ret :
  ready fd c h l w -> fd ∉ pre.*1 -> fd ∉ post.*1 ->
  poll (poller l) [pre ++ (fd, EPOLLIN) :: post] = Ret (p, ret) ->
  exists r1 r2 ev arm ch, ret = r1 ++ c :: r2 /\ (c ∉ r1) /\ (c ∉ r2) /\
    registered_at fd c h ev arm p /\ channels p !! c = Some ch /\ ch_revents ch = EPOLLIN /\
    (ev = rearmed_events -> arm = true) /\ same_shape l (set_poller l p).
Proof.
  intros [] Hpre Hpost Hpoll. destruct ready_poller0 as (ev & Hev & [(ch & Hch & Hf & Hh & Hle) Hfc Hfh Hk Hal Ho]).
  apply poll_one in Hpoll. set (evs := pre ++ _) in *.
  destruct (getEvents_mid fd c pre EPOLLIN post (reported (poller l) evs) p ret ch Ho Hfc Hch Hpre Hpost Hpoll)
    as (r1 & r2 & -> & H1 & H2 & Hc).
  destruct (getEvents_shape _ _ _ _ Hpoll) as (chs & -> & Hs). cbn in Hs, Hc.
  eexists r1, r2, ev, (negb (has_event ev EPOLLONESHOT)), _. split_and!; try done.
  - split; cbn; try done.
    + by eexists.
    + unfold evs. by apply report_mid.
  - by intros ->.
Qed.

(** A turn in which the request of a ready connection is reported. *)
Lemma handle_turn_get fuel fd c h l w t v hs content pre post l' :
  (forall n, env_fails env n = false) ->
  ready fd c h l w -> request_at files t v hs content w -> fd ∉ pre.*1 -> fd ∉ post.*1 ->
  handle_turn env files (S fuel) [pre ++ (fd, EPOLLIN) :: post] l = Ret l' ->
  exists w', ready fd c h l' w' /\ written w' = written w ++ answer_of t hs content.
Proof.
  intros Henv Hr Hrq Hpre Hpost H. unfold handle_turn in H. apply bind_Ret_inv in H as ([p ret] & Hpoll & H).
  destruct (poll_ready _ _ _ _ _ _ _ _ _ Hr Hpre Hpost Hpoll)
    as (r1 & r2 & ev & arm & ch & -> & H1 & H2 & Hat & Hch & Hrev & Harm & Hs0).
  pose proof (alone_shape _ _ _ _ _ Hs0 (ready_alone _ _ _ _ _ Hr)) as Ha0.
  pose proof (paired_shape _ _ Hs0 (ready_paired _ _ _ _ _ Hr)) as Hp0.
  rewrite handle_channels_app in H. inv_bind H. inv_bind Ha. rename a0 into l1, Ha1 into E1.
  pose proof (handle_channels_undisturbed _ _ _ _ _ _ _ Ha0 Hp0 H1 E1) as Hu1.
  pose proof (alone_undisturbed _ _ _ _ _ Ha0 Hu1) as Ha1.
  unfold handle_channels in Ha. cbn [foldl] in Ha. rewrite foldl_outcome in Ha. inv_bind Ha.
  cbn [mbind outcome_bind] in Ha2. fold (handle_channels env files (S fuel) r2 a0) in Ha.
  assert (Hch1 : channels (poller l1) !! c = Some ch)
    by (rewrite (keeps_channel _ _ _ _ _ (un_poller _ _ _ _ _ Hu1)); done).
  destruct (handle_channel_get env files Henv fuel fd c h ev arm l1 w t v hs content ch)
    as (l2 & w' & E2 & Hconn & Hi' & Hwr & Hat2 & Hs2);
    [by rewrite (un_conn _ _ _ _ _ Hu1); apply Hr|apply Hr|done| |done|done|done|].
  { eapply registered_at_keeps; [by apply un_poller|done]. }
  rewrite E2 in Ha2. injection Ha2 as <-.
  assert (Hshape2 : same_shape l l2) by (etrans; [exact Hs0|]; etrans; [by eapply undisturbed_shape|done]).
  assert (Hr2 : ready fd c h l2 w').
  { split; [done|done|apply Hr| |by eapply alone_shape; [|apply Hr]|by eapply paired_shape; [|apply Hr]|].
    - exists rearmed_events. by split; [right|].
    - rewrite (shape_functors _ _ Hshape2). apply Hr. }
  pose proof (handle_channels_undisturbed _ _ _ _ _ _ _ (ready_alone _ _ _ _ _ Hr2)
    (ready_paired _ _ _ _ _ Hr2) H2 Ha) as Hu3.
  pose proof (ready_undisturbed _ _ _ _ _ _ Hu3 Hr2) as Hr3. exists w'. split; [|done].
  unfold doPendingFunctors in H. pose proof (ready_functors _ _ _ _ _ Hr3) as Hnf.
  eapply ready_undisturbed; [eapply run_functors_undisturbed; [|exact Hnf|exact H]|].
  - by destruct (ready_alone _ _ _ _ _ Hr3).
  - apply ready_set_functors; [done|]. apply not_elem_of_nil.
Qed.

(** ** The timers at the end of a turn *)

Lemma close_connection_timers l h l' :
  close_connection env l h = Ret l' -> timerManager_ (poller l') = timerManager_ (poller l).
Proof.
  unfold close_connection. destruct (conns l !! h) as [[c w]|]; [|done]. intros H. inv_bind H.
  injection H as <-. cbn. unfold epoll_del in Ha. inv_bind Ha.
  destruct (epoll_ctl _ _ _ _ _) as [k rc]. inv_bind Ha. by injection Ha as <-.
Qed.

Lemma expire_undisturbed fuel clock fd c h l l' :
  alone fd c h l -> expire env fuel clock l = Ret l' -> h ∉ closed (timerManager_ (poller l')) ->
  undisturbed fd c h l l'.
Proof.
  intros Ha H Hh. unfold expire in H. inv_bind H. unfold handleExpired in Ha0. inv_bind Ha0.
  injection Ha0 as <-. cbn [timerManager_] in H. set (l1 := set_poller l _) in H.
  assert (Hu1 : undisturbed fd c h l l1) by (by split; [split|..]).
  assert (Ht : timerManager_ (poller l') = a0).
  { change a0 with (timerManager_ (poller l1)). revert H. generalize l1. clear.
    induction (drop _ _) as [|x xs IH]; intros l1; cbn; [by intros [= <-]|].
    rewrite foldl_outcome. intros H. inv_bind H. rewrite (IH _ H). by eapply close_connection_timers. }
  rewrite Ht in Hh. etrans; [exact Hu1|].
  eapply (fold_undisturbed fd c h (close_connection env) (fun h2 => h2 <> h) (fun _ => True));
    [done| |by eapply alone_undisturbed|done| |exact H].
  - intros l0 h2 l2 Hal _ Hh2. by apply close_connection_undisturbed.
  - apply Forall_forall. intros h2 Hin ->. apply Hh. by eapply subseteq_drop.
Qed.

(** ** A new connection *)

(** [h] was queued for the loop: it is not registered yet, and its descriptor
    is not in the kernel's list. *)
Record queued (fd : Z) (c h : nat) (l : LoopThread Q) : Prop := {
  q_conn : exists w, conns l !! h = Some (c, w) /\ idle (http w) /\ written w = [];
  q_channel : exists ch, channels (poller l) !! c = Some ch /\ fd_ ch = fd /\ holder_ ch = Some h;
  q_fd : 0 <= fd < MAXFDS;
  q_kernel : kernel (poller l) !! fd = None;
  q_alive : h ∈ alive (poller l);
  q_unowned : forall fd', fd2chan_ (poller l) !! fd' <> Some c;
  q_alone : alone fd c h l;
  q_paired : paired l
}.

Lemma queued_undisturbed fd c h l l' : undisturbed fd c h l l' -> queued fd c h l -> queued fd c h l'.
Proof.
  intros Hu []. pose proof (undisturbed_shape _ _ _ _ _ Hu) as Hs.
  destruct (un_poller _ _ _ _ _ Hu) as []. split; try done.
  - by rewrite (un_conn _ _ _ _ _ Hu).
  - by rewrite keeps_channel0.
  - by rewrite keeps_kernel0.
  - auto.
  - intros fd' Hf. by eapply q_unowned0, keeps_owner0.
  - by eapply alone_shape.
  - by eapply paired_shape.
Qed.

Lemma epoll_add_new fd c h ch p node now :
  channels p !! c = Some ch -> fd_ ch = fd -> holder_ ch = Some h -> 0 <= fd < MAXFDS ->
  kernel p !! fd = None -> h ∈ alive p -> (forall fd', fd2chan_ p !! fd' <> Some c) ->
  exists p', epoll_add p c DEFAULT_EXPIRED_TIME node now false = Ret p' /\
    registered_at fd c h (ch_events ch) true p' /\ statics (channels p') = statics (channels p).
Proof.
  intros Hch Hf Hh Hfd Hk Hal Ho. unfold epoll_add, get_channel. rewrite Hch. cbn [mbind outcome_bind].
  unfold in_table. rewrite Hf, (proj2 (Z.leb_le 0 fd)), (proj2 (Z.ltb_lt fd MAXFDS)) by lia.
  cbn [andb mbind outcome_bind]. change (0 <? DEFAULT_EXPIRED_TIME) with true. cbv iota.
  unfold add_timer, getHolder. rewrite Hh, bool_decide_true by done. cbn [alive]. rewrite bool_decide_true by done.
  cbn [set_or_reset set_tables set_channel EqualAndUpdateLastEvents snd kernel fd2chan_ fd2http_
    timerManager_ channels alive]. unfold epoll_ctl. rewrite Hk. cbn.
  eexists. split; [reflexivity|]. split; [|by eapply statics_insert].
  split; cbn.
  - eexists. split_and!; [by rewrite lookup_insert_eq|done..].
  - by rewrite lookup_insert_eq.
  - by rewrite lookup_insert_eq.
  - by rewrite lookup_insert_eq.
  - done.
  - intros fd' Hf'. cbn in Hf'. apply lookup_insert_Some in Hf' as [[? _]|[_ Hf']]; [done|by apply Ho in Hf'].
Qed.

(** [newEvent] registers it. *)
Lemma run_functor_new fd c h l :
  (forall n, env_fails env n = false) -> queued fd c h l -> h ∉ functors l ->
  exists l' w, run_functor env l h = Ret l' /\ ready fd c h l' w /\ written w = [] /\ functors l' = functors l.
Proof.
  intros Henv [(w & Hw & Hi & Hwr) (ch & Hch & Hf & Hh) Hfd Hk Hal Ho Ha Hp] Hfun. unfold run_functor.
  rewrite Hw. set (w1 := newEvent (enter (poller l) h w)).
  assert (Hca : calls w1 = [AddToPoller DEFAULT_EVENT DEFAULT_EXPIRED_TIME]) by done.
  unfold leave, with_events at 1, get_channel. cbn [set_conn poller]. rewrite Hch.
  cbn [mbind outcome_bind]. unfold do_calls. rewrite Hca.
  cbn [foldl mbind outcome_bind do_call]. set (l1 := set_poller _ _).
  unfold with_events, get_channel.
  assert (Hc1 : channels (poller l1) !! c = Some (setEvents ch DEFAULT_EVENT))
    by (unfold l1; cbn; by rewrite lookup_insert_eq).
  rewrite Hc1. cbn [mbind outcome_bind]. rewrite Henv. set (p2 := set_channel (poller l1) c _).
  change (poller (set_poller l1 p2)) with p2. change (ops (set_poller l1 p2)) with (ops l). change (ops l1) with (ops l).
  assert (Hs2 : statics (channels p2) = statics (channels (poller l)))
    by (unfold p2, l1; cbn; rewrite insert_insert_eq; by eapply statics_insert).
  destruct (epoll_add_new fd c h (setEvents ch DEFAULT_EVENT) p2 (ops l) (env_now env (ops l)))
    as (p3 & -> & Hat & Hs3); [unfold p2; cbn; apply lookup_insert_eq|done..|].
  cbn [mbind outcome_bind]. eexists _, w1. split; [reflexivity|]. split_and!; [|done|done].
  set (l' := count_op _). assert (Hs : same_shape l l').
  { split; [unfold l'; cbn; by rewrite Hs3|done|].
    unfold l'. cbn. rewrite fmap_insert, insert_id; [done|]. by rewrite lookup_fmap, Hw. }
  split; [| |done| |by eapply alone_shape|by eapply paired_shape|done].
  - unfold l'. cbn. by rewrite lookup_insert_eq.
  - destruct Hi as (?&?&?&?&?&?&?&?). by split_and!.
  - exists DEFAULT_EVENT. split; [by left|]. exact Hat.
Qed.

(** The first turn after a connection was queued registers it, whatever else
    happens in the turn. *)
Lemma handle_turn_new fuel fd c h l evs f1 f2 l' :
  (forall n, env_fails env n = false) ->
  queued fd c h l -> functors l = f1 ++ h :: f2 -> h ∉ f1 -> h ∉ f2 -> fd ∉ evs.*1 ->
  handle_turn env files fuel [evs] l = Ret l' ->
  exists w, ready fd c h l' w /\ written w = [].
Proof.
  intros Henv Hq Hf H1 H2 Hfd H. unfold handle_turn in H. apply bind_Ret_inv in H as ([p ret] & Hpoll & H).
  apply poll_one in Hpoll. destruct (getEvents_shape _ _ _ _ Hpoll) as (chs & -> & Hs).
  destruct (getEvents_untouched c evs (reported (poller l) evs) _ _ (q_unowned _ _ _ _ Hq) Hpoll) as [Hch Hret]. cbn in Hs, Hch.
  set (l0 := set_poller l _) in H.
  assert (Hu0 : undisturbed fd c h l l0)
    by (split; [|done..]; split; try done; cbn; by rewrite report_other).
  inv_bind H. pose proof (queued_undisturbed _ _ _ _ _ Hu0 Hq) as Hq0.
  pose proof (handle_channels_undisturbed _ _ _ _ _ _ _ (q_alone _ _ _ _ Hq0) (q_paired _ _ _ _ Hq0) Hret Ha) as Hu1.
  pose proof (queued_undisturbed _ _ _ _ _ Hu1 Hq0) as Hq1.
  assert (Hfa : functors a = f1 ++ h :: f2)
    by (by rewrite (un_functors _ _ _ _ _ Hu1), (un_functors _ _ _ _ _ Hu0)).
  unfold doPendingFunctors in H. rewrite Hfa in H. clear Hq Hf Hpoll Hu0 Hq0 Hu1 Ha l0 Hch Hs Hret chs.
  assert (Hq2 : queued fd c h (set_functors a [])) by (destruct Hq1 as [? ? ? ? ? ? [] ?]; by split).
  unfold run_functors in H. rewrite foldl_app in H. rewrite foldl_outcome in H. inv_bind H.
  cbn [foldl] in H. rewrite foldl_outcome in H. inv_bind H. cbn [mbind outcome_bind] in Ha0.
  fold (run_functors env f1 (set_functors a [])) in Ha. fold (run_functors env f2 a1) in H.
  pose proof (run_functors_undisturbed _ _ _ _ _ _ (q_alone _ _ _ _ Hq2) H1 Ha) as Hu2.
  pose proof (queued_undisturbed _ _ _ _ _ Hu2 Hq2) as Hq3.
  assert (Hf0 : functors a0 = []) by (by rewrite (un_functors _ _ _ _ _ Hu2)).
  destruct (run_functor_new fd c h a0 Henv Hq3) as (l2 & w & E & Hr & Hw & _);
    [rewrite Hf0; apply not_elem_of_nil|].
  rewrite E in Ha0. injection Ha0 as <-. exists w. split; [|done].
  eapply ready_undisturbed; [eapply run_functors_undisturbed; [|exact H2|exact H]|done]. apply Hr.
Qed.

(** A turn without an event of [fd]. *)
Lemma handle_turn_other fuel fd c h l w evs l' :
  ready fd c h l w -> fd ∉ evs.*1 -> handle_turn env files fuel [evs] l = Ret l' -> ready fd c h l' w.
Proof.
  intros Hr Hfd H. unfold handle_turn in H. apply bind_Ret_inv in H as ([p ret] & Hpoll & H).
  apply poll_one in Hpoll. destruct (getEvents_shape _ _ _ _ Hpoll) as (chs & -> & Hs).
  destruct (ready_poller _ _ _ _ _ Hr) as (ev & _ & Hat).
  destruct (getEvents_other fd c evs (reported (poller l) evs) _ _ (at_owns _ _ _ _ _ _ Hat) Hfd Hpoll) as [Hch Hret].
  cbn in Hs, Hch. set (l0 := set_poller l _) in H.
  assert (Hu0 : undisturbed fd c h l l0)
    by (split; [|done..]; split; try done; cbn; by rewrite report_other).
  inv_bind H. pose proof (ready_undisturbed _ _ _ _ _ _ Hu0 Hr) as Hr0.
  pose proof (handle_channels_undisturbed _ _ _ _ _ _ _ (ready_alone _ _ _ _ _ Hr0)
    (ready_paired _ _ _ _ _ Hr0) Hret Ha) as Hu1.
  pose proof (ready_undisturbed _ _ _ _ _ _ Hu1 Hr0) as Hr1.
  eapply ready_undisturbed; [eapply run_functors_undisturbed; [|by apply Hr1|exact H]|].
  - by destruct (ready_alone _ _ _ _ _ Hr1).
  - apply ready_set_functors; [done|]. apply not_elem_of_nil.
Qed.

Lemma expire_ready fuel clock fd c h l w l' :
  ready fd c h l w -> expire env fuel clock l = Ret l' -> h ∉ closed (timerManager_ (poller l')) ->
  ready fd c h l' w.
Proof.
  intros Hr He Hh. eapply ready_undisturbed; [|done]. eapply expire_undisturbed; [apply Hr|done|done].
Qed.
End turns.

(** ** Bytes and connections that arrive between the turns *)

Lemma arrive_ready fd c h l w rs ws :
  ready fd c h l w ->
  ready fd c h (arrive h rs ws l) (mkConn (http w) rs ws (written w) (calls w) (live_timers w)).
Proof.
  intros Hr. unfold arrive. rewrite (ready_conn _ _ _ _ _ Hr). destruct Hr.
  pose proof (set_conn_shape l h c w (mkConn (http w) rs ws (written w) (calls w) (live_timers w)) ready_conn0) as Hs.
  split; try done.
  - cbn. by rewrite lookup_insert_eq.
  - by eapply alone_shape.
  - by eapply paired_shape.
Qed.

Lemma arrive_other fd c h l w h2 rs ws : h2 <> h -> ready fd c h l w -> ready fd c h (arrive h2 rs ws l) w.
Proof.
  intros Hne Hr. unfold arrive. destruct (conns l !! h2) as [[c2 w2]|] eqn:E; [|done].
  pose proof (set_conn_shape l h2 c2 w2 (mkConn (http w2) rs ws (written w2) (calls w2) (live_timers w2)) E) as Hs.
  destruct Hr. split; try done.
  - cbn. by rewrite lookup_insert_ne.
  - by eapply alone_shape.
  - by eapply paired_shape.
Qed.

(** The addresses [c] and [h] and the descriptor [fd] are not in use. *)
Record fresh_connection (fd : Z) (c h : nat) (l : LoopThread Q) : Prop := {
  fresh_channel : channels (poller l) !! c = None;
  fresh_conn : conns l !! h = None;
  fresh_holder c' ch' : channels (poller l) !! c' = Some ch' -> fd_ ch' <> fd /\ holder_ ch' <> Some h;
  fresh_owner h' c' w' : conns l !! h' = Some (c', w') -> c' <> c
}.

Lemma queue_paired fd c h l : fresh_connection fd c h l -> paired l -> paired (queue_connection h c fd l).
Proof.
  intros [] Hp c2 ch2 h2 c3 w. cbn. intros Hch Hh Hw.
  apply lookup_insert_Some in Hch as [[<- <-]|[Hc Hch]].
  - cbn in Hh. injection Hh as <-. rewrite lookup_insert_eq in Hw. by injection Hw as <- _.
  - apply lookup_insert_Some in Hw as [[<- [= <- <-]]|[Hne Hw]]; [|by eapply Hp].
    by destruct (fresh_holder0 _ _ Hch).
Qed.

(** A connection just accepted is queued. *)
Lemma queue_queued fd c h l :
  0 <= fd < MAXFDS -> fresh_connection fd c h l -> kernel (poller l) !! fd = None ->
  (forall fd', fd2chan_ (poller l) !! fd' <> Some c) -> paired l ->
  queued fd c h (queue_connection h c fd l).
Proof.
  intros Hfd Hf Hk Ho Hp. split; cbn; try done.
  - eexists. rewrite lookup_insert_eq. split_and!; [done| |done]. by split_and!.
  - eexists. rewrite lookup_insert_eq. by split_and!.
  - apply elem_of_union. left. by apply elem_of_singleton.
  - split; cbn.
    + intros c' ch' [[<- _]|[_ Hch]]%lookup_insert_Some Hne; [done|]. by eapply (fresh_holder _ _ _ _ Hf).
    + intros h' c' w' [[<- _]|[_ Hw]]%lookup_insert_Some Hne; [done|]. by eapply (fresh_owner _ _ _ _ Hf).
  - by apply queue_paired.
Qed.

Lemma queue_other fd c h l w fd2 c2 h2 :
  fd2 <> fd -> c2 <> c -> h2 <> h -> fresh_connection fd2 c2 h2 l ->
  ready fd c h l w -> ready fd c h (queue_connection h2 c2 fd2 l) w.
Proof.
  intros Hfd Hc Hh Hf []. split; cbn; try done.
  - by rewrite lookup_insert_ne.
  - destruct ready_poller0 as (ev & Hev & [(ch & Hch & ?) ? ? ? ? ?]). exists ev. split; [done|].
    split; cbn; try done; [|apply elem_of_union; by right]. exists ch. by rewrite lookup_insert_ne.
  - destruct ready_alone0 as [Ha Hb]. split; cbn.
    + intros c' ch' [[<- <-]|[_ Hch]]%lookup_insert_Some Hne; [|by eapply Ha]. cbn. split; [done|congruence].
    + intros h' c' w' [[<- [= <- _]]|[_ Hw]]%lookup_insert_Some Hne; [done|by eapply Hb].
  - by apply queue_paired.
  - rewrite not_elem_of_app. split; [done|]. by rewrite list_elem_of_singleton.
Qed.

(** The destruction of other connections does not matter. *)
Lemma destroy_other fd c h l w h2 : h2 <> h -> ready fd c h l w -> ready fd c h (destroy l h2) w.
Proof.
  intros Hne Hr. unfold destroy. destruct (conns l !! h2) as [[c2 w2]|] eqn:E; [|done].
  pose proof (alone_conns _ _ _ _ (ready_alone _ _ _ _ _ Hr) _ _ _ E Hne) as Hc2.
  set (k := match channels (poller l) !! c2 with Some _ => _ | None => _ end).
  assert (Hk : k !! fd = kernel (poller l) !! fd).
  { unfold k. destruct (channels (poller l) !! c2) as [ch2|] eqn:E2; [|done].
    destruct (alone_channels _ _ _ _ (ready_alone _ _ _ _ _ Hr) _ _ E2 Hc2). by rewrite lookup_delete_ne. }
  set (chs := if bool_decide _ then _ else _).
  assert (Hchs : forall c' ch', chs !! c' = Some ch' -> channels (poller l) !! c' = Some ch').
  { intros c' ch'. unfold chs. case_bool_decide; [done|]. by intros [_ ?]%lookup_delete_Some. }
  destruct Hr. split; cbn; try done.
  - by rewrite lookup_delete_ne.
  - destruct ready_poller0 as (ev & Hev & [(ch & Hch & Hx) ? ? Hker ? ?]). exists ev. split; [done|].
    split; cbn; try done; [|by rewrite Hk|apply elem_of_difference; by rewrite not_elem_of_singleton].
    exists ch. split; [|done]. unfold chs. case_bool_decide; [done|]. by rewrite lookup_delete_ne.
  - destruct ready_alone0 as [Ha Hb]. split; cbn.
    + intros c' ch' Hch' Hn. by eapply Ha; [apply Hchs|].
    + intros h' c' w' [_ Hw]%lookup_delete_Some Hn. by eapply Hb.
  - intros c' ch' h' c3 w'. cbn. intros Hch' Hh [_ Hw]%lookup_delete_Some. eapply ready_paired0; [by apply Hchs|done|done].
Qed.

Lemma collect_ready fd c h l w : ready fd c h l w -> ready fd c h (collect l) w.
Proof.
  intros Hr. assert (Hh : h ∈ held l).
  { destruct (ready_poller _ _ _ _ _ Hr) as (ev & _ & Hat). unfold held. rewrite elem_of_app. left.
    apply list_elem_of_fmap. exists (fd, h). split; [done|]. by apply elem_of_map_to_list, Hat. }
  unfold collect. cut (forall hs l0, ready fd c h l0 w ->
    ready fd c h (foldl (fun l' h' => if bool_decide (h' ∈ held l) then l' else destroy l' h') l0 hs) w);
    [by intros Hc; apply Hc|].
  induction hs as [|h' hs IH]; intros l0 Hr0; cbn; [done|]. apply IH.
  case_bool_decide; [done|]. apply destroy_other; [|done]. by intros ->.
Qed.

(** ** The life of a connection among the others

    [session fd c h answers l l']: the loop goes from [l] to [l'] in any number
    of turns, each time with any events, while other connections are accepted,
    get bytes and are destroyed; in some turns a whole request for a file is
    reported for [h], and [answers] are the answers to these, in order. No
    timer of [h] expires. *)
Inductive session (env : environment) (files : Files) (fd : Z) (c h : nat)
    : list bytes -> LoopThread Q -> LoopThread Q -> Prop :=
  | session_nil l : session env files fd c h [] l l
  | session_request answers l w rs ws t v hs content pre post fuel clock l1 l' :
      conns l !! h = Some (c, w) ->
      request_at files t v hs content (mkConn (http w) rs ws (written w) (calls w) (live_timers w)) ->
      fd ∉ pre.*1 -> fd ∉ post.*1 ->
      turn env files (S fuel) [pre ++ (fd, EPOLLIN) :: post] clock (arrive h rs ws l) = Ret l1 ->
      h ∉ closed (timerManager_ (poller l1)) ->
      session env files fd c h answers l1 l' ->
      session env files fd c h (answer_of t hs content :: answers) l l'
  | session_turn answers l evs fuel clock l1 l' :
      fd ∉ evs.*1 -> turn env files fuel [evs] clock l = Ret l1 ->
      h ∉ closed (timerManager_ (poller l1)) ->
      session env files fd c h answers l1 l' -> session env files fd c h answers l l'
  | session_arrive answers l h2 rs ws l' :
      h2 <> h -> session env files fd c h answers (arrive h2 rs ws l) l' ->
      session env files fd c h answers l l'
  | session_accept answers l fd2 c2 h2 l' :
      fd2 <> fd -> c2 <> c -> h2 <> h -> fresh_connection fd2 c2 h2 l ->
      session env files fd c h answers (queue_connection h2 c2 fd2 l) l' ->
      session env files fd c h answers l l'
  | session_collect answers l l' :
      session env files fd c h answers (collect l) l' -> session env files fd c h answers l l'.

Lemma session_ready env files fd c h answers l l' :
  (forall n, env_fails env n = false) -> session env files fd c h answers l l' ->
  forall w, ready fd c h l w -> exists w', ready fd c h l' w' /\ written w' = written w ++ concat answers.
Proof.
  intros Henv. induction 1 as
    [l|answers l w0 rs ws t v hs content pre post fuel clock l1 l' Hw0 Hrq Hpre Hpost Ht Hcl _ IH
    |answers l evs fuel clock l1 l' Hfd Ht Hcl _ IH|answers l h2 rs ws l' Hne _ IH
    |answers l fd2 c2 h2 l' Hfd Hc Hh Hf _ IH|answers l l' _ IH]; intros w Hr.
  - exists w. by rewrite app_nil_r.
  - rewrite (ready_conn _ _ _ _ _ Hr) in Hw0. injection Hw0 as <-.
    pose proof (arrive_ready _ _ _ _ _ rs ws Hr) as Hra.
    unfold turn in Ht. inv_bind Ht.
    destruct (handle_turn_get env files fuel fd c h _ _ t v hs content pre post a Henv Hra Hrq Hpre Hpost Ha)
      as (w1 & Hr1 & Hw1). cbn in Hw1.
    destruct (IH w1) as (w' & Hr' & Hw'); [by eapply expire_ready|].
    exists w'. split; [done|]. by rewrite Hw', Hw1, <- app_assoc.
  - unfold turn in Ht. inv_bind Ht. apply IH. eapply expire_ready; [|done|done]. by eapply handle_turn_other.
  - apply IH. by apply arrive_other.
  - apply IH. by apply queue_other.
  - apply IH. by apply collect_ready.
Qed.
End frame.

(** * Properties *)

(** Composition of the parts of a loop of the epoll server. A connection
    that was accepted and queued for the loop is registered by the first turn
    of the loop, and from then on, whatever other connections are accepted,
    served, closed or destroyed in the same turns, gets for every whole request
    for a file that reaches it exactly the answer, in order and nothing else,
    and is registered and between two requests at the end, as long as no system
    call on the poller fails and its own timer does not expire. *)
Theorem accepted_connection_served `{TimerQueue Q} env files fd c h (l l1 l' : LoopThread Q) evs fuel clock answers :
  (forall n, env_fails env n = false) ->
  0 <= fd < MAXFDS -> fresh_connection fd c h l -> kernel (poller l) !! fd = None ->
  (forall fd', fd2chan_ (poller l) !! fd' <> Some c) -> paired l -> h ∉ functors l -> fd ∉ evs.*1 ->
  turn env files fuel [evs] clock (queue_connection h c fd l) = Ret l1 ->
  h ∉ closed (timerManager_ (poller l1)) ->
  session env files fd c h answers l1 l' ->
  exists w, ready fd c h l' w /\ written w = concat answers.
Proof.
  intros Henv Hfd Hf Hk Ho Hp Hh Hev Ht Hcl Hs.
  pose proof (queue_queued fd c h l Hfd Hf Hk Ho Hp) as Hq.
  unfold turn in Ht. inv_bind Ht.
  destruct (handle_turn_new env files fuel fd c h _ evs (functors l) [] a Henv Hq) as (w & Hr & Hw);
    [done|done|apply not_elem_of_nil|done|done|].
  destruct (session_ready env files fd c h answers l1 l' Henv Hs w) as (w' & Hr' & Hw').
  { by eapply expire_ready. }
  exists w'. split; [done|]. by rewrite Hw', Hw.
Qed.

(** A loop with its wakeup channel on descriptor 3, and its file system. *)
Definition idle_loop : LoopThread OrderedQueue :=
  mkLoopThread (listening_poller 3 (mkTimeval 100 0)) ∅ [] 0.

Definition steady : environment := mkEnv (fun n => mkTimeval (100 + Z.of_nat n) 0) (fun _ => false).

Definition one_file : Files :=
  mkFiles (fun f => if bytes_eqb f (lit "a.txt") then Some 3 else None) (fun _ => true)
    (fun _ _ => Some (lit "abc")).

Definition result_or {A} (d : A) (m : outcome A) : A := match m with Ret a => a | _ => d end.
Definition is_ret {A} (m : outcome A) : bool := match m with Ret _ => true | _ => false end.

Lemma result_or_spec {A} (d : A) (m : outcome A) : is_ret m = true -> m = Ret (result_or d m).
Proof. by destruct m. Qed.

Definition noon : nat -> timeval := fun _ => mkTimeval 101 0.
Definition woken : list (Z * Z) := [(3, EPOLLIN)].
Definition loop1 : LoopThread OrderedQueue :=
  result_or idle_loop (turn steady one_file 9 [woken] noon (queue_connection 1 1 7 idle_loop)).
Definition sample_text : bytes := request_text (lit "a.txt") "1" [(lit "Host", lit "h")].
Definition input : list read_result := [ReadBytes sample_text].
Definition loop2 : LoopThread OrderedQueue :=
  result_or idle_loop (turn steady one_file 9 [woken ++ [(7, EPOLLIN)]] noon
    (arrive 1 input [WriteUpTo 1000] loop1)).
Definition sample_conn (l : LoopThread OrderedQueue) : conn :=
  match conns l !! 1%nat with Some (_, w) => w | None => mkConn new_HttpData [] [] [] [] ∅ end.

Example sample_answer :
  written (sample_conn loop2) = answer_of (lit "a.txt") [(lit "Host", lit "h")] (lit "abc").
Proof. vm_compute. reflexivity. Qed.

Lemma sample_request_at :
  let w := sample_conn loop1 in
  request_at one_file (lit "a.txt") "1" [(lit "Host", lit "h")] (lit "abc")
    (mkConn (http w) input [WriteUpTo 1000] (written w) (calls w) (live_timers w)).
Proof.
  split; try (by vm_compute); try (by apply (bool_decide_unpack _); vm_compute).
  exists 1000, []. by vm_compute.
Qed.

Lemma sample_session : session steady one_file 7 1 1
  [answer_of (lit "a.txt") [(lit "Host", lit "h")] (lit "abc")] loop1 loop2.
Proof.
  apply (session_request _ _ _ _ _ [] loop1 (sample_conn loop1) input [WriteUpTo 1000] (lit "a.txt") "1"
    [(lit "Host", lit "h")] (lit "abc") woken [] 8 noon loop2 loop2).
  - by vm_compute.
  - exact sample_request_at.
  - by apply (bool_decide_unpack _).
  - by apply (bool_decide_unpack _).
  - apply result_or_spec. by vm_compute.
  - apply (bool_decide_unpack _). by vm_compute.
  - constructor.
Qed.

Lemma idle_channels :
  channels (poller idle_loop) = {[0%nat := mkChannel 3 (Z.lor EPOLLIN EPOLLET) 0 (Z.lor EPOLLIN EPOLLET) None]}.
Proof. by vm_compute. Qed.

Lemma idle_fd2chan : fd2chan_ (poller idle_loop) = {[3 := 0%nat]}.
Proof. by vm_compute. Qed.

Lemma accepted_connection_served_witness :
  exists w, ready 7 1 1 loop2 w /\
    written w = concat [answer_of (lit "a.txt") [(lit "Host", lit "h")] (lit "abc")].
Proof.
  apply (accepted_connection_served steady one_file 7 1 1 idle_loop loop1 loop2 woken 9 noon).
  - done.
  - unfold MAXFDS. lia.
  - split; [by vm_compute|by vm_compute| |done].
    intros c' ch' Hch. rewrite idle_channels in Hch. by apply lookup_singleton_Some in Hch as [_ <-].
  - by vm_compute.
  - intros fd'. rewrite idle_fd2chan. by intros [_ ?]%lookup_singleton_Some.
  - by intros c2 ch2 h2 c3 w _ _ Hw.
  - apply not_elem_of_nil.
  - by apply (bool_decide_unpack _).
  - apply result_or_spec. by vm_compute.
  - apply (bool_decide_unpack _). by vm_compute.
  - exact sample_session.
Defined.

(** The handlers of such a connection return, whatever the request was cut
    into, when nothing else happens in the turn. *)
Theorem lone_request_returns `{TimerQueue Q} env files fuel fd c h (l : LoopThread Q) w t v hs content :
  (forall n, env_fails env n = false) -> ready fd c h l w -> functors l = [] ->
  request_at files t v hs content w ->
  exists l', handle_turn env files (S fuel) [[(fd, EPOLLIN)]] l = Ret l'.
Proof.
  intros Henv Hr Hf Hrq.
  assert (Hpoll : exists p ret, poll (poller l) [[(fd, EPOLLIN)]] = Ret (p, ret)).
  { destruct (ready_poller _ _ _ _ _ Hr) as (ev & _ & [(ch & Hch & _) Hfc _ _ _ _]).
    pose proof (ready_fd _ _ _ _ _ Hr) as Hfd. cbn. unfold in_table, get_channel.
    rewrite (proj2 (Z.leb_le 0 fd)), (proj2 (Z.ltb_lt fd MAXFDS)) by lia. cbn. rewrite Hfc, Hch.
    cbn. by eexists _, _. }
  destruct Hpoll as (p & ret & Hpoll). unfold handle_turn. rewrite Hpoll. cbn [mbind outcome_bind].
  destruct (poll_ready fd c h l w [] [] p ret Hr) as (r1 & r2 & ev & arm & ch & -> & H1 & H2 & Hat & Hch & Hrev & Harm & Hs);
    [apply not_elem_of_nil..|done|].
  assert (Hr12 : r1 = [] /\ r2 = []).
  { apply poll_one in Hpoll. cbn in Hpoll. apply bind_Ret_inv in Hpoll as (u & _ & Hpoll).
    revert Hpoll. cbn. destruct (fd2chan_ (poller l) !! fd) as [c2|]; [|by destruct r1].
    unfold get_channel. cbn. destruct (channels (poller l) !! c2); cbn; [|done].
    intros [= _ Heq]. destruct r1 as [|x r1]; [|by destruct r1]. by destruct r2. }
  destruct Hr12 as [-> ->]. cbn [app]. unfold handle_channels. cbn [foldl mbind outcome_bind].
  destruct (handle_channel_get env files Henv fuel fd c h ev arm (set_poller l p) w t v hs content ch)
    as (l' & w' & -> & _ & _ & _ & _ & Hs'); [apply Hr|apply Hr|done..|].
  cbn [mbind outcome_bind]. unfold doPendingFunctors. rewrite (shape_functors _ _ Hs'). cbn. rewrite Hf.
  by eexists.
Qed.
