(* ===== verification/LoopLife.v ===== *)
(** * LoopLife: the connections of a loop are alive when they are used

    Channels reach their connection through the plain pointer bound in their
    handlers, while the [shared_ptr]s that keep a connection are in [fd2http_],
    in timer nodes and in queued functors.  Here the turn of a loop
    (EpollServer.v) is taken apart: one step per handler, functor or expired
    timer, between any two of which other threads queue connections, bytes
    arrive and connections that nothing keeps are destroyed. *)

From S2P Require Export EpollServer.

(** What the loop thread has left of its turn: the channels that [poll]
    returned, the functors that were swapped out, the connections of the
    expired timers. *)
Inductive phase :=
  | Polling
  | Handling (ret : list nat)
  | Running (fs : list nat)
  | Closing (hs : list nat).

Section life.
Context {Q : Type} `{TQ : TimerQueue Q}.
Context (env : environment) (files : Files).
Implicit Types (p : Epoll Q) (l : LoopThread Q).

(** The connections that the thread itself keeps: the functors it swapped out
    and the nodes it destroys hold theirs, channels hold none. *)
Definition kept (ph : phase) : list nat :=
  match ph with Running fs => fs | Closing hs => hs | _ => [] end.

(** [h] is kept by no [shared_ptr] and goes. *)
Definition unreferenced (l : LoopThread Q) (ph : phase) (h : nat) : Prop := h ∉ held l ++ kept ph.

(** The expired nodes leave the queue; their connections are closed one by one
    after it, which nothing in the queue depends on. *)
Definition take_expired (fuel : nat) (clock : nat -> timeval) (l : LoopThread Q)
    : outcome (LoopThread Q * list nat) :=
  p ← handleExpired (poller l) fuel clock;
  Ret (set_poller l p, drop (length (closed (timerManager_ (poller l)))) (closed (timerManager_ p))).

(** A descriptor just accepted and new objects: no object that exists has their
    addresses, and nothing in the loop is open under the descriptor. *)
Record new_connection (fd : Z) (c h : nat) (l : LoopThread Q) : Prop := {
  new_fd : 0 <= fd < MAXFDS;
  new_channel : channels (poller l) !! c = None;
  new_conn : conns l !! h = None;
  new_holder c' ch' : channels (poller l) !! c' = Some ch' -> fd_ ch' <> fd /\ holder_ ch' <> Some h
}.

(** The constructor of [EventLoop]: [createEventfd] aborts the process on a
    failure ([None]), and the wakeup channel is added to the poller. *)
Definition createEventfd (evtfd : Z) : option Z := if evtfd <? 0 then None else Some evtfd.

Definition new_loop (wakeupFd : Z) : outcome (LoopThread Q) :=
  let ch := setEvents (new_Channel wakeupFd) (Z.lor EPOLLIN EPOLLET) in
  p ← epoll_add (set_channel new_Epoll 0 ch) 0 0 0 (env_now env 0%nat) (env_fails env 0%nat);
  Ret (mkLoopThread p ∅ [] 1).

(** A step of the loop thread, or of what is around it. *)
Inductive loop_step : LoopThread Q * phase -> LoopThread Q * phase -> Prop :=
  | step_poll l waits p ret :
      Forall (fun evs => NoDup evs.*1) waits ->
      poll (poller l) waits = Ret (p, ret) ->
      loop_step (l, Polling) (set_poller l p, Handling ret)
  | step_channel l c ret fuel l' :
      handle_channel env files fuel l c = Ret l' ->
      loop_step (l, Handling (c :: ret)) (l', Handling ret)
  | step_swap l :
      loop_step (l, Handling []) (set_functors l [], Running (functors l))
  | step_functor l h fs l' :
      run_functor env l h = Ret l' ->
      loop_step (l, Running (h :: fs)) (l', Running fs)
  | step_expire l fuel clock l' hs :
      take_expired fuel clock l = Ret (l', hs) ->
      loop_step (l, Running []) (l', Closing hs)
  | step_close l h hs l' :
      close_connection env l h = Ret l' ->
      loop_step (l, Closing (h :: hs)) (l', Closing hs)
  | step_end l :
      loop_step (l, Closing []) (l, Polling)
  | step_queue l ph fd c h :
      new_connection fd c h l ->
      loop_step (l, ph) (queue_connection h c fd l, ph)
  | step_arrive l ph h rs ws :
      loop_step (l, ph) (arrive h rs ws l, ph)
  | step_destroy l ph h :
      unreferenced l ph h ->
      loop_step (l, ph) (destroy l h, ph).

(** * Lemmas *)

(** ** The calls of a handler *)

(** The calls of all handlers: connections are added to the poller by [newEvent]
    only, which sets a timeout. *)
Definition guarded (call : loop_call) : Prop := match call with AddToPoller _ t => 0 < t | _ => True end.

Lemma clears_guarded cs : Forall clears cs -> Forall guarded cs.
Proof. intros H. eapply Forall_impl; [exact H|]. by intros []. Qed.

Lemma handleConn_calls w : exists cs, calls (handleConn w) = calls w ++ cs /\ Forall guarded cs.
Proof.
  unfold handleConn. destruct (seperateTimer_frame w) as (_ & _ & _ & cs & Hcs & Hcl).
  apply clears_guarded in Hcl.
  destruct (_ && _); [destruct (negb _)|destruct (_ && _)]; cbn; rewrite Hcs, <- ?app_assoc;
    eexists; (split; [reflexivity|]); rewrite ?Forall_app; (split; [done|by repeat constructor]) || done.
Qed.

Lemma handleEvents_calls fuel rev w w' :
  handleEvents fuel files rev w = Ret w' -> calls w = [] -> Forall guarded (calls w').
Proof.
  unfold handleEvents. cbv zeta. intros H Hw.
  case_if_in H; [injection H as <-; cbn; by rewrite Hw|].
  case_if_in H; [injection H as <-; cbn; by rewrite Hw|].
  inv_bind H. inv_bind H. injection H as <-.
  assert (Ha' : cleared w a).
  { case_if_in Ha; [by apply handleRead_calls in Ha|]. injection Ha as <-. by apply cleared_same. }
  assert (Hb : cleared a a0).
  { apply cleared_same. case_if_in Ha0; [by apply handleWrite_calls|congruence]. }
  destruct (cleared_trans _ _ _ Ha' Hb) as (cs & Hcs & Hcl). destruct (handleConn_calls a0) as (cs' & -> & Hg).
  rewrite Hcs, Hw. apply Forall_app. split; [|done]. by apply clears_guarded.
Qed.

(** ** Operations on the poller *)

(** The timer queue has the nodes of the store, whose addresses are used up. *)
Definition timers_ok (n : nat) p : Prop :=
  queue_ok (timerManager_ p) /\ forall id, is_Some (nodes (timerManager_ p) !! id) -> (id < n)%nat.

(** What an operation for the channel [c] on [fd] with the holder [o] does:
    only the entries of [fd] change; an entry of [fd2chan_] that is new comes
    with its connection, and one that is left is as it was. *)
Record touches (fd : Z) (c : nat) (o : option nat) p p' : Prop := {
  t_statics : statics (channels p') = statics (channels p);
  t_alive : alive p' = alive p;
  t_fd2chan fd' : fd' <> fd -> fd2chan_ p' !! fd' = fd2chan_ p !! fd';
  t_fd2http fd' : fd' <> fd -> fd2http_ p' !! fd' = fd2http_ p !! fd';
  t_chan c' : fd2chan_ p' !! fd = Some c' ->
    (fd2chan_ p !! fd = Some c' /\ fd2http_ p' !! fd = fd2http_ p !! fd) \/
    (c' = c /\ forall h, o = Some h -> h ∈ alive p -> fd2http_ p' !! fd = Some h);
  t_http h : fd2http_ p' !! fd = Some h -> fd2http_ p !! fd = Some h \/ o = Some h /\ h ∈ alive p;
  t_nodes h : h ∈ connections (nodes (timerManager_ p')) ->
    h ∈ connections (nodes (timerManager_ p)) \/ o = Some h /\ h ∈ alive p
}.

#[local] Instance touches_refl fd c o : Reflexive (touches fd c o).
Proof. intros p. split; auto. Qed.

#[local] Instance touches_trans fd c o : Transitive (touches fd c o).
Proof.
  intros p1 p2 p3 [] []. split; try congruence.
  - intros fd' Hfd. by rewrite t_fd2chan1, t_fd2chan0.
  - intros fd' Hfd. by rewrite t_fd2http1, t_fd2http0.
  - intros c' [[H1 H1']|[-> H1]]%t_chan1.
    + destruct (t_chan0 _ H1) as [[H0 H0']|[-> H0]]; [left; split; [done|congruence]|].
      right. split; [done|]. intros h Ho Ha. rewrite H1'. by apply H0.
    + right. split; [done|]. intros h Ho Ha. apply H1; [done|]. by rewrite t_alive0.
  - intros h [H1|[H1 H1']]%t_http1; [by apply t_http0|]. right. split; [done|]. by rewrite <- t_alive0.
  - intros h [H1|[H1 H1']]%t_nodes1; [by apply t_nodes0|]. right. split; [done|]. by rewrite <- t_alive0.
Qed.

Lemma elem_of_connections (ns : gmap nat TimerNode) h :
  h ∈ connections ns <-> exists id n, ns !! id = Some n /\ SPHttpData n = Some h.
Proof.
  unfold connections. rewrite list_elem_of_omap. split.
  - intros ([id n] & Hin%elem_of_map_to_list & Hn). by exists id, n.
  - intros (id & n & Hid & Hn). exists (id, n). by rewrite elem_of_map_to_list.
Qed.

Lemma connections_insert ns id n h :
  h ∈ connections (<[id := n]> ns) -> h ∈ connections ns \/ SPHttpData n = Some h.
Proof.
  rewrite !elem_of_connections. intros (id' & n' & [[<- <-]|[Hne Hid]]%lookup_insert_Some & Hn); [by right|].
  left. by exists id', n'.
Qed.

Section operation.
Context (p : Epoll Q) (c : nat) (ch : Channel) (node : nat).
Hypothesis Hch : channels p !! c = Some ch.

Lemma getHolder_Some h : getHolder p ch = Some h <-> holder_ ch = Some h /\ h ∈ alive p.
Proof.
  unfold getHolder. destruct (holder_ ch) as [h'|]; [|by split; [|intros [? _]]].
  case_bool_decide; split; intros H'; [by simplify_eq|by destruct H' as [[= ->] _]|done|].
  by destruct H' as [[= ->] Hx].
Qed.

Lemma touches_set_channel ch' :
  fd_ ch' = fd_ ch -> holder_ ch' = holder_ ch -> touches (fd_ ch) c (holder_ ch) p (set_channel p c ch').
Proof. intros Hf Hh. split; cbn; auto. by eapply statics_insert. Qed.

Lemma add_timer_touches timeout now :
  let p' := add_timer p ch timeout node now in
  touches (fd_ ch) c (holder_ ch) p p' /\ (timers_ok node p -> timers_ok (S node) p').
Proof.
  unfold add_timer. destruct (getHolder p ch) as [h|] eqn:Eh; cbn.
  2:{ split; [reflexivity|]. intros [Hq Hi]. split; [done|]. intros id Hid. specialize (Hi id Hid). lia. }
  apply getHolder_Some in Eh as [Eh Ha]. split.
  - split; cbn; auto. intros h' [Hc|Hc]%connections_insert; [by left|right].
    cbn in Hc. simplify_eq. by split.
  - intros [Hq Hi]. split; cbn.
    + apply addTimer_ok; [|done]. destruct (nodes (timerManager_ p) !! node) eqn:E; [|done].
      specialize (Hi node (mk_is_Some _ _ E)). lia.
    + intros id Hid. destruct (decide (id = node)) as [->|Hne]; [lia|].
      rewrite lookup_insert_ne in Hid by done. specialize (Hi id Hid). lia.
Qed.

Lemma timers_ok_le n n' p' : (n <= n')%nat -> timers_ok n p' -> timers_ok n' p'.
Proof. intros Hn [Hq Hi]. split; [done|]. intros id Hid. specialize (Hi id Hid). lia. Qed.

Lemma in_table_ok fd : 0 <= fd < MAXFDS -> in_table fd = Ret tt.
Proof. intros H. unfold in_table. by rewrite (proj2 (Z.leb_le 0 fd)), (proj2 (Z.ltb_lt fd MAXFDS)) by lia. Qed.

Hypothesis Hfd : 0 <= fd_ ch < MAXFDS.

Lemma epoll_del_touches fails :
  exists p', epoll_del p c fails = Ret p' /\ touches (fd_ ch) c (holder_ ch) p p' /\
    timerManager_ p' = timerManager_ p.
Proof.
  unfold epoll_del, get_channel. rewrite Hch. cbn [mbind outcome_bind].
  destruct (epoll_ctl _ _ _ _ _) as [k rc]. rewrite in_table_ok by done. cbn [mbind outcome_bind].
  eexists. split; [reflexivity|]. split; [|done]. split; cbn; auto.
  - intros fd' Hne. by rewrite lookup_delete_ne.
  - intros fd' Hne. by rewrite lookup_delete_ne.
  - intros c'. by rewrite lookup_delete_eq.
  - intros h. by rewrite lookup_delete_eq.
Qed.

Lemma epoll_mod_touches timeout now fails :
  exists p', epoll_mod p c timeout node now fails = Ret p' /\ touches (fd_ ch) c (holder_ ch) p p' /\
    (timers_ok node p -> timers_ok (S node) p').
Proof.
  unfold epoll_mod, get_channel. rewrite Hch. cbn [mbind outcome_bind].
  set (p1 := if 0 <? timeout then _ else p).
  assert (Hp1 : touches (fd_ ch) c (holder_ ch) p p1 /\ (timers_ok node p -> timers_ok (S node) p1) /\
    channels p1 = channels p).
  { unfold p1. case_if; [|split_and!; [reflexivity| |done]; by apply timers_ok_le, le_S].
    destruct (add_timer_touches timeout now) as [Ht Hn]. split_and!; [done..|].
    by destruct (add_timer_id p ch timeout node now) as [m ->]. }
  destruct Hp1 as (Ht1 & Hn1 & Hc1). clearbody p1. cbn [EqualAndUpdateLastEvents].
  set (p2 := set_channel p1 c _).
  assert (Ht2 : touches (fd_ ch) c (holder_ ch) p p2).
  { etrans; [exact Ht1|]. unfold p2. split; cbn; auto. eapply statics_insert; [by rewrite Hc1|done..]. }
  assert (Hn2 : timers_ok node p -> timers_ok (S node) p2) by exact Hn1.
  destruct (negb _); [|by eexists]. destruct (epoll_ctl _ _ _ _ _) as [k rc].
  rewrite in_table_ok by done. cbn [mbind outcome_bind]. case_if; eexists; (split; [reflexivity|]);
    (split; [|done]); (etrans; [exact Ht2|]); split; cbn; auto.
  - intros fd' Hne. by rewrite lookup_delete_ne.
  - intros c'. by rewrite lookup_delete_eq.
Qed.

Lemma epoll_add_touches timeout now fails :
  0 < timeout ->
  exists p', epoll_add p c timeout node now fails = Ret p' /\ touches (fd_ ch) c (holder_ ch) p p' /\
    (timers_ok node p -> timers_ok (S node) p').
Proof.
  intros Hto. unfold epoll_add, get_channel. rewrite Hch. cbn [mbind outcome_bind].
  rewrite in_table_ok by done. cbn [mbind outcome_bind]. rewrite (proj2 (Z.ltb_lt 0 timeout)) by done.
  destruct (add_timer_touches timeout now) as [Ht Hn].
  destruct (add_timer_id p ch timeout node now) as [m Hm]. rewrite Hm in *. cbn in Ht, Hn.
  cbn [set_tables set_channel kernel fd2chan_ fd2http_ timerManager_ channels alive].
  destruct (epoll_ctl _ _ _ _ _) as [k rc].
  assert (Ho : forall h, set_or_reset (fd2http_ p) (fd_ ch) (getHolder p ch) !! fd_ ch = Some h <->
    holder_ ch = Some h /\ h ∈ alive p).
  { intros h. rewrite <- getHolder_Some. destruct (getHolder p ch); cbn; by rewrite ?lookup_insert_eq, ?lookup_delete_eq. }
  assert (Ho' : forall fd', fd' <> fd_ ch ->
    set_or_reset (fd2http_ p) (fd_ ch) (getHolder p ch) !! fd' = fd2http_ p !! fd').
  { intros fd' Hne. destruct (getHolder p ch); cbn; by rewrite ?lookup_insert_ne, ?lookup_delete_ne. }
  destruct Ht. change (getHolder (mkEpoll _ _ _ _ _ _) ch) with (getHolder p ch).
  case_if; eexists; (split; [reflexivity|]); (split; [|exact Hn]); split; cbn; auto.
  all: try (by eapply statics_insert).
  - intros fd' Hne. by rewrite lookup_delete_ne, lookup_insert_ne.
  - intros c'. by rewrite lookup_delete_eq.
  - intros h Hh. right. by apply Ho.
  - intros fd' Hne. by rewrite lookup_insert_ne.
  - intros c'. rewrite lookup_insert_eq. intros [= <-]. right. split; [done|].
    intros h Hh Ha. by apply Ho.
  - intros h Hh. right. by apply Ho.
Qed.
End operation.

(** ** Operations of the loop *)

(** What a handler, functor or timer of the channel [c] does to the loop. *)
Record acts (fd : Z) (c : nat) (o : option nat) l l' : Prop := {
  a_poller : touches fd c o (poller l) (poller l');
  a_conns : fst <$> conns l' = fst <$> conns l;
  a_functors : functors l' = functors l;
  a_timers : timers_ok (ops l) (poller l) -> timers_ok (ops l') (poller l')
}.

#[local] Instance acts_refl fd c o : Reflexive (acts fd c o).
Proof. intros l. by split. Qed.

#[local] Instance acts_trans fd c o : Transitive (acts fd c o).
Proof. intros l1 l2 l3 [] []. split; [by etrans|congruence|congruence|auto]. Qed.

Lemma acts_shape fd c o l l' : acts fd c o l l' -> same_shape l l'.
Proof. intros [Ht Hc Hf _]. split; [apply Ht|done..]. Qed.

(** The connection [h] and its channel [c] on [fd]. *)
Definition home (fd : Z) (c h : nat) l : Prop :=
  (exists ch, channels (poller l) !! c = Some ch /\ fd_ ch = fd /\ holder_ ch = Some h) /\
  exists w, conns l !! h = Some (c, w).

Lemma home_shape fd c h l l' : same_shape l l' -> home fd c h l -> home fd c h l'.
Proof.
  intros Hs [(ch & Hch & <- & Hh) [w Hw]]. split.
  - destruct (statics_channel _ _ _ _ (shape_channels _ _ Hs) Hch) as (ch' & Hch' & ? & Hh').
    exists ch'. by rewrite Hh'.
  - assert (Hl : (fst <$> conns l') !! h = Some c).
    { rewrite (shape_conns _ _ Hs), lookup_fmap, Hw. done. }
    rewrite lookup_fmap in Hl. destruct (conns l' !! h) as [[c' w']|]; [|done]. cbn in Hl.
    injection Hl as ->. by exists w'.
Qed.

Lemma set_conn_acts fd c h o l w : (exists w0, conns l !! h = Some (c, w0)) -> acts fd c o l (set_conn l h c w).
Proof. intros [w0 Hw]. destruct (set_conn_shape l h c w0 w Hw). by split. Qed.

Lemma count_op_acts fd c o l p :
  touches fd c o (poller l) p -> (timers_ok (ops l) (poller l) -> timers_ok (S (ops l)) p) ->
  acts fd c o l (count_op (set_poller l p)).
Proof. by split. Qed.

Lemma with_events_acts l c ch ev :
  channels (poller l) !! c = Some ch ->
  exists l', with_events l c ev = Ret l' /\ acts (fd_ ch) c (holder_ ch) l l' /\ ops l' = ops l.
Proof.
  intros Hch. unfold with_events, get_channel. rewrite Hch. cbn [mbind outcome_bind].
  eexists. split; [reflexivity|]. split; [|done]. split; [|done..]. by apply (touches_set_channel (poller l) c ch).
Qed.

Section home.
Context (fd : Z) (c h : nat).
Hypothesis Hfd : 0 <= fd < MAXFDS.

Lemma epoll_del_acts l :
  home fd c h l -> exists p', epoll_del (poller l) c (env_fails env (ops l)) = Ret p' /\
    acts fd c (Some h) l (count_op (set_poller l p')).
Proof.
  intros [(ch & Hch & <- & Hh) _]. rewrite <- Hh.
  destruct (epoll_del_touches (poller l) c ch Hch Hfd (env_fails env (ops l))) as (p' & Hp' & Ht & Htm).
  exists p'. split; [done|]. apply count_op_acts; [done|]. intros [Hq Hi]. unfold timers_ok. rewrite Htm.
  split; [done|]. intros id Hid. specialize (Hi id Hid). lia.
Qed.

Lemma close_connection_acts l :
  home fd c h l -> exists l', close_connection env l h = Ret l' /\ acts fd c (Some h) l l'.
Proof.
  intros Hl. unfold close_connection. destruct (Hl) as [_ [w Hw]]. rewrite Hw.
  destruct (epoll_del_acts l Hl) as (p' & -> & Ha). cbn [mbind outcome_bind].
  eexists. split; [reflexivity|]. etrans; [by eapply (set_conn_acts _ _ _ _ _ (handleClose w)); exists w|].
  destruct Ha as [Ht ? ? Hn]. by split.
Qed.

Lemma do_call_acts l call :
  guarded call -> home fd c h l -> exists l', do_call env h c l call = Ret l' /\ acts fd c (Some h) l l'.
Proof.
  intros Hg Hl. destruct (Hl) as [(ch & Hch & Hf & Hh) _].
  assert (Hop : forall ev (op : Epoll Q -> nat -> timeval -> bool -> outcome (Epoll Q)),
    (forall p ch node now fails, channels p !! c = Some ch -> 0 <= fd_ ch < MAXFDS ->
      exists p', op p node now fails = Ret p' /\ touches (fd_ ch) c (holder_ ch) p p' /\
        (timers_ok node p -> timers_ok (S node) p')) ->
    exists l', (l1 ← with_events l c ev;
      p ← op (poller l1) (ops l1) (env_now env (ops l)) (env_fails env (ops l));
      Ret (count_op (set_poller l1 p))) = Ret l' /\ acts fd c (Some h) l l').
  { intros ev op Hop. destruct (with_events_acts l c ch ev Hch) as (l1 & -> & Ha & Ho). cbn [mbind outcome_bind].
    rewrite Hf, Hh in Ha.
    destruct (home_shape _ _ _ _ _ (acts_shape _ _ _ _ _ Ha) Hl) as [(ch1 & Hch1 & Hf1 & Hh1) _].
    destruct (Hop (poller l1) ch1 (ops l1) (env_now env (ops l)) (env_fails env (ops l)))
      as (p' & -> & Ht & Hn); [done|by rewrite Hf1|]. cbn [mbind outcome_bind].
    rewrite Hf1, Hh1 in Ht. eexists. split; [reflexivity|]. etrans; [exact Ha|]. by apply count_op_acts. }
  destruct call as [ev timeout|ev timeout| | |t]; cbn [do_call].
  - apply (Hop ev (fun p => epoll_mod p c timeout)). intros. by apply epoll_mod_touches.
  - apply (Hop ev (fun p => epoll_add p c timeout)). intros. by apply epoll_add_touches.
  - destruct (epoll_del_acts l Hl) as (p' & -> & Ha). by eexists.
  - by apply close_connection_acts.
  - eexists. split; [reflexivity|]. split; [|done|done|].
    + split; cbn; auto. intros h' Hc. left. revert Hc. unfold clear_timer.
      destruct (link _ !! h) as [id|]; [|done]. destruct (nodes _ !! id); [|done]. cbn.
      by intros [?|?]%connections_insert.
    + intros [Hq Hi]. split; cbn; [by apply clear_timer_ok|]. unfold clear_timer.
      destruct (link _ !! h) as [id|]; [|done]. destruct (nodes _ !! id) eqn:E; [|done]. cbn.
      intros id' Hid. apply Hi. destruct (decide (id = id')) as [->|]; [by rewrite E|].
      by rewrite lookup_insert_ne in Hid.
Qed.

Lemma leave_acts l w :
  home fd c h l -> Forall guarded (calls w) ->
  exists l', leave env h c w l = Ret l' /\ acts fd c (Some h) l l'.
Proof.
  intros Hl Hg. unfold leave.
  pose proof (set_conn_acts fd c h (Some h) l w (proj2 Hl)) as H0.
  pose proof (home_shape _ _ _ _ _ (acts_shape _ _ _ _ _ H0) Hl) as Hl0.
  destruct (Hl0) as [(ch & Hch & Hf & Hh) _].
  destruct (with_events_acts _ c ch (events_ (http w)) Hch) as (l1 & -> & H1 & _). cbn [mbind outcome_bind].
  rewrite Hf, Hh in H1. pose proof (home_shape _ _ _ _ _ (acts_shape _ _ _ _ _ H1) Hl0) as Hl1.
  cut (exists l', do_calls env h c (calls w) l1 = Ret l' /\ acts fd c (Some h) l1 l').
  { intros (l' & -> & H2). exists l'. split; [done|]. etrans; [exact H0|]. by etrans. }
  clear - Hfd Hg Hl1. unfold do_calls. revert l1 Hl1.
  induction Hg as [|call cs Hc _ IH]; intros l Hl; cbn; [by exists l|].
  rewrite foldl_outcome. destruct (do_call_acts l call Hc Hl) as (l1 & -> & H1). cbn [mbind outcome_bind].
  destruct (IH l1) as (l' & -> & H2); [by eapply home_shape; [eapply acts_shape|]|].
  exists l'. split; [done|]. by etrans.
Qed.

Lemma run_functor_acts l : home fd c h l -> exists l', run_functor env l h = Ret l' /\ acts fd c (Some h) l l'.
Proof.
  intros Hl. unfold run_functor. destruct (Hl) as [_ [w Hw]]. rewrite Hw. apply leave_acts; [done|].
  cbn. by repeat constructor.
Qed.
End home.

(** ** Everything that is reached is alive *)

(** Every channel in a table exists under its descriptor, with its connection
    in the other table; connections and their channels name each other; what a
    [shared_ptr] keeps ([hs]: on the stack of the thread) exists. *)
Record sound l (hs : list nat) : Prop := {
  s_table fd c : fd2chan_ (poller l) !! fd = Some c ->
    exists ch, channels (poller l) !! c = Some ch /\ fd_ ch = fd /\
      forall h, holder_ ch = Some h -> fd2http_ (poller l) !! fd = Some h;
  s_conn h c w : conns l !! h = Some (c, w) ->
    exists ch, channels (poller l) !! c = Some ch /\ holder_ ch = Some h;
  s_paired : paired l;
  s_held h : h ∈ held l ++ hs -> is_Some (conns l !! h);
  s_alive h : h ∈ alive (poller l) <-> is_Some (conns l !! h);
  s_fd c ch : channels (poller l) !! c = Some ch -> 0 <= fd_ ch < MAXFDS;
  s_timers : timers_ok (ops l) (poller l)
}.

Lemma elem_of_held l h :
  h ∈ held l <-> (exists fd, fd2http_ (poller l) !! fd = Some h) \/
    h ∈ connections (nodes (timerManager_ (poller l))) \/ h ∈ functors l.
Proof.
  unfold held. rewrite !elem_of_app. apply or_iff_compat_r. rewrite list_elem_of_fmap. split.
  - intros ([fd h'] & -> & Hin%elem_of_map_to_list). by exists fd.
  - intros [fd Hf]. exists (fd, h). by rewrite elem_of_map_to_list.
Qed.

Lemma conn_home l hs h c w :
  sound l hs -> conns l !! h = Some (c, w) -> exists fd, 0 <= fd < MAXFDS /\ home fd c h l.
Proof.
  intros Hs Hw. destruct (s_conn _ _ Hs _ _ _ Hw) as (ch & Hch & Hh). exists (fd_ ch).
  split; [by eapply s_fd|]. split; [by exists ch|by exists w].
Qed.

Lemma same_conn l l' h : fst <$> conns l' = fst <$> conns l -> is_Some (conns l' !! h) <-> is_Some (conns l !! h).
Proof.
  intros Hf. rewrite <- !(fmap_is_Some (fst (A := nat) (B := conn))), <- !lookup_fmap. by rewrite Hf.
Qed.

Lemma sound_acts fd c o ch l l' hs :
  sound l hs -> channels (poller l) !! c = Some ch -> fd_ ch = fd -> holder_ ch = o ->
  (forall h, o = Some h -> is_Some (conns l !! h)) -> acts fd c o l l' -> sound l' hs.
Proof.
  intros Hs Hch Hf Hh Ho Ha. pose proof (acts_shape _ _ _ _ _ Ha) as Hsh. destruct Ha as [[] Hc Hfun Htim].
  assert (Hal : forall h, o = Some h -> h ∈ alive (poller l)) by (intros; by apply (s_alive _ _ Hs), Ho).
  split.
  - intros fd' c' Hc'. destruct (decide (fd' = fd)) as [->|Hne].
    + destruct (t_chan0 _ Hc') as [[H1 H2]|[-> H2]].
      * destruct (s_table _ _ Hs _ _ H1) as (ch1 & Hch1 & Hf1 & Hh1).
        destruct (statics_channel _ _ _ _ t_statics0 Hch1) as (ch2 & ? & ? & ?).
        exists ch2. split_and!; [done|congruence|]. intros h ?. rewrite H2. apply Hh1. congruence.
      * destruct (statics_channel _ _ _ _ t_statics0 Hch) as (ch2 & ? & ? & ?).
        exists ch2. split_and!; [done|congruence|]. intros h ?. apply H2; [congruence|]. apply Hal. congruence.
    + rewrite t_fd2chan0 in Hc' by done. destruct (s_table _ _ Hs _ _ Hc') as (ch1 & Hch1 & Hf1 & Hh1).
      destruct (statics_channel _ _ _ _ t_statics0 Hch1) as (ch2 & ? & ? & ?).
      exists ch2. split_and!; [done|congruence|]. intros h ?. rewrite t_fd2http0 by done. apply Hh1. congruence.
  - intros h c' w' Hw'. destruct (conns_shape _ _ _ _ _ Hsh Hw') as [w Hw].
    destruct (s_conn _ _ Hs _ _ _ Hw) as (ch1 & Hch1 & Hh1).
    destruct (statics_channel _ _ _ _ t_statics0 Hch1) as (ch2 & ? & ? & ?). exists ch2. split; [done|congruence].
  - eapply paired_shape; [done|apply Hs].
  - intros h Hin. rewrite (same_conn l l') by done. apply elem_of_app in Hin as [Hin|Hin];
      [|apply (s_held _ _ Hs), elem_of_app; by right].
    apply elem_of_held in Hin as [[fd' Hf']|[Hin|Hin]].
    + destruct (decide (fd' = fd)) as [->|Hne].
      * destruct (t_http0 _ Hf') as [Hf''|[? _]]; [|by apply Ho].
        apply (s_held _ _ Hs), elem_of_app. left. apply elem_of_held. left. by exists fd.
      * rewrite t_fd2http0 in Hf' by done.
        apply (s_held _ _ Hs), elem_of_app. left. apply elem_of_held. left. by exists fd'.
    + destruct (t_nodes0 _ Hin) as [Hin'|[? _]]; [|by apply Ho].
      apply (s_held _ _ Hs), elem_of_app. left. apply elem_of_held. auto.
    + rewrite Hfun in Hin. apply (s_held _ _ Hs), elem_of_app. left. apply elem_of_held. auto.
  - intros h. rewrite t_alive0, (same_conn l l') by done. apply Hs.
  - intros c' ch' Hc'. destruct (statics_lookup _ _ _ _ t_statics0 Hc') as (ch1 & Hch1 & <- & _).
    by eapply s_fd.
  - apply Htim, Hs.
Qed.

Lemma sound_home fd c h l l' hs :
  sound l hs -> home fd c h l -> acts fd c (Some h) l l' -> sound l' hs.
Proof.
  intros Hs [(ch & Hch & Hf & Hh) [w Hw]] Ha.
  apply (sound_acts fd c (Some h) ch l l' hs); [done..| |done]. intros h' [= <-]. by rewrite Hw.
Qed.

Lemma sound_less l hs hs' : (forall h, h ∈ hs' -> h ∈ hs) -> sound l hs -> sound l hs'.
Proof.
  intros Hsub []. split; auto. intros h Hin. apply s_held0. apply elem_of_app in Hin as [Hin|Hin]; apply elem_of_app; [by left|right; by apply Hsub].
Qed.

(** The channels that were returned and not handled yet are registered. *)
Definition pending p (ret : list nat) : Prop := NoDup ret /\ forall c, c ∈ ret -> exists fd, fd2chan_ p !! fd = Some c.

Lemma pending_acts fd c o ch l l' hs ret :
  sound l hs -> pending (poller l) (c :: ret) -> channels (poller l) !! c = Some ch -> fd_ ch = fd ->
  acts fd c o l l' -> pending (poller l') ret.
Proof.
  intros Hs [[Hc Hnd]%NoDup_cons Hp] Hch Hf [[] _ _ _]. split; [done|]. intros c' Hin.
  destruct (Hp c') as [fd' Hf']; [by right|]. exists fd'. rewrite t_fd2chan0; [done|]. intros ->.
  destruct (Hp c) as [fd'' Hf'']; [by left|].
  destruct (s_table _ _ Hs _ _ Hf'') as (ch'' & Hch'' & Hx & _). congruence.
Qed.

(** ** Every step keeps it *)

Definition alive_phase (s : LoopThread Q * phase) : Prop :=
  sound s.1 (kept s.2) /\ match s.2 with Handling ret => pending (poller s.1) ret | _ => True end.

(** A change of the poller that leaves its tables and timers. *)
Lemma sound_poller l hs p :
  statics (channels p) = statics (channels (poller l)) -> fd2chan_ p = fd2chan_ (poller l) ->
  fd2http_ p = fd2http_ (poller l) -> timerManager_ p = timerManager_ (poller l) ->
  alive p = alive (poller l) -> sound l hs -> sound (set_poller l p) hs.
Proof.
  intros Hst Hfc Hfh Htm Hal Hs.
  assert (Hsh : same_shape l (set_poller l p)) by by split.
  split; cbn [poller set_poller conns ops].
  - intros fd c. rewrite Hfc, Hfh. intros Hc. destruct (s_table _ _ Hs _ _ Hc) as (ch & Hch & ? & ?).
    destruct (statics_channel _ _ _ _ Hst Hch) as (ch' & ? & ? & Hh). exists ch'. rewrite Hh. split_and!; [done|congruence|done].
  - intros h c w Hw. destruct (s_conn _ _ Hs _ _ _ Hw) as (ch & Hch & ?).
    destruct (statics_channel _ _ _ _ Hst Hch) as (ch' & ? & ? & ?). exists ch'. split; [done|congruence].
  - eapply paired_shape; [done|apply Hs].
  - intros h. rewrite elem_of_app, elem_of_held. cbn. rewrite Hfh, Htm, <- elem_of_held, <- elem_of_app. apply Hs.
  - intros h. rewrite Hal. apply Hs.
  - intros c ch Hc. destruct (statics_lookup _ _ _ _ Hst Hc) as (ch1 & Hch1 & <- & _). by eapply s_fd.
  - unfold timers_ok. rewrite Htm. apply Hs.
Qed.

(** The channels that a call of [epoll_wait] stands for. *)
Lemma getEvents_ret events : forall p p' ret,
  getEventsRequest p events = Ret (p', ret) -> ret = omap (fun e => fd2chan_ p !! e.1) events.
Proof.
  induction events as [|[fd ev] events IH]; intros p p' ret; cbn; [by intros [= _ <-]|].
  intros (u & _ & H)%bind_Ret_inv. destruct (fd2chan_ p !! fd) as [c2|]; [|by eapply IH].
  inv_bind H. apply bind_Ret_inv in H as ([p1 l1] & H1 & [= <- <-]). f_equal. by apply IH in H1.
Qed.

Lemma table_pending l hs (events : list (Z * Z)) :
  sound l hs -> NoDup events.*1 -> pending (poller l) (omap (fun e => fd2chan_ (poller l) !! e.1) events).
Proof.
  intros Hs Hnd. split.
  - induction events as [|[fd ev] events IH]; cbn; [constructor|].
    cbn in Hnd. apply NoDup_cons in Hnd as [Hfd Hnd]. specialize (IH Hnd).
    destruct (fd2chan_ (poller l) !! fd) as [c|] eqn:E; [|done]. apply NoDup_cons. split; [|done].
    intros ([fd' ev'] & Hin & Hc)%list_elem_of_omap. cbn in Hc.
    destruct (s_table _ _ Hs _ _ E) as (ch & Hch & Hf & _). destruct (s_table _ _ Hs _ _ Hc) as (ch' & Hch' & Hf' & _).
    assert (fd' = fd) as -> by congruence. apply Hfd, list_elem_of_fmap. by exists (fd, ev').
  - intros c ([fd ev] & _ & Hc)%list_elem_of_omap. by exists fd.
Qed.

Lemma poll_alive l waits p ret :
  sound l [] -> Forall (fun evs => NoDup evs.*1) waits -> poll (poller l) waits = Ret (p, ret) ->
  sound (set_poller l p) [] /\ pending p ret.
Proof.
  intros Hs Hw. revert l Hs. induction Hw as [|evs waits Hnd _ IH]; intros l Hs H; [done|].
  cbn [poll] in H. fold (reported (poller l) evs) in H. apply bind_Ret_inv in H as ([p1 r1] & H1 & H).
  pose proof (getEvents_ret _ _ _ _ H1) as Hr. destruct (getEvents_shape _ _ _ _ H1) as (chs & -> & Hst).
  cbn in Hst, Hr. match goal with _ : getEventsRequest _ _ = Ret (?p1, _) |- _ =>
    assert (Hs1 : sound (set_poller l p1) []) by (by apply sound_poller); set (p2 := p1) in * end.
  assert (Hp : pending p2 r1) by (rewrite Hr; by eapply (table_pending l [])).
  revert H. case_bool_decide.
  - intros Hpoll. by apply (IH (set_poller l p2)).
  - by intros [= <- <-].
Qed.

(** The expired nodes. *)
Lemma handleExpiredEvent_closed fuel : forall clock (m m' : TimerManager Q),
  queue_ok m -> handleExpiredEvent fuel clock m = Ret m' ->
  queue_ok m' /\ nodes m' ⊆ nodes m /\
  exists hs, closed m' = closed m ++ hs /\ forall h, h ∈ hs -> h ∈ connections (nodes m).
Proof.
  induction fuel as [|fuel IH]; intros clock m m' Hm; cbn [handleExpiredEvent]; [done|].
  pose proof (q_pop_spec (timerNodeQueue m)) as Hp.
  assert (Hstay : queue_ok m /\ nodes m ⊆ nodes m /\
    exists hs, closed m = closed m ++ hs /\ forall h, h ∈ hs -> h ∈ connections (nodes m)).
  { split_and!; [done..|]. exists []. rewrite app_nil_r. split; [done|]. by intros h ?%elem_of_nil. }
  destruct (q_pop (timerNodeQueue m)) as [[[e id] q']|]; [|by intros [= <-]].
  destruct Hp as [Hq _]. destruct (queue_ok_split m q' e id Hm Hq) as (n & Hn & -> & Hq'). rewrite Hn.
  assert (Hpop : forall n' clock', SPHttpData n' = SPHttpData n ->
    handleExpiredEvent fuel clock' (pop_node m q' id n') = Ret m' ->
    queue_ok m' /\ nodes m' ⊆ nodes m /\
    exists hs, closed m' = closed m ++ hs /\ forall h, h ∈ hs -> h ∈ connections (nodes m)).
  { intros n' clock' Hn' (H1 & H2 & hs & H3 & H4)%IH; [|exact Hq']. cbn in H2, H3, H4.
    pose proof (delete_subseteq (nodes m) id) as Hsub. split_and!; [done|by etrans|].
    exists (option_list (SPHttpData n') ++ hs). rewrite H3, app_assoc. split; [done|].
    intros h [Hin|Hin]%elem_of_app; apply elem_of_connections.
    - exists id, n. split; [done|]. rewrite Hn' in Hin.
      destruct (SPHttpData n); [by apply list_elem_of_singleton in Hin as ->|by apply elem_of_nil in Hin].
    - apply H4, elem_of_connections in Hin as (i & x & Hi & Hx). exists i, x. split; [|done].
      by eapply lookup_weaken. }
  destruct (deleted_ n); [by apply Hpop|]. unfold isValid. case_if; [by intros [= <-]|]. by apply Hpop.
Qed.

Lemma take_expired_alive fuel clock l l' hs :
  sound l [] -> take_expired fuel clock l = Ret (l', hs) -> sound l' hs.
Proof.
  intros Hs H. unfold take_expired, handleExpired in H. inv_bind H. inv_bind Ha. injection Ha as <-.
  injection H as <- <-. cbn [timerManager_].
  destruct (s_timers _ _ Hs) as [Hq Hi].
  destruct (handleExpiredEvent_closed _ _ _ _ Hq Ha0) as (Hq' & Hsub & hs & -> & Hin).
  rewrite drop_app_length.
  destruct Hs. split; try done.
  - intros h [Hh|Hh]%elem_of_app; apply s_held0, elem_of_app; left.
    + apply elem_of_held in Hh as [Hf|[Hn|Hf]]; apply elem_of_held; [by left| |by right; right].
      right. left. cbn in Hn. apply elem_of_connections in Hn as (id & n & Hid & Hn).
      apply elem_of_connections. exists id, n. split; [|done]. by eapply lookup_weaken.
    + apply elem_of_held. right. left. by apply Hin.
  - split; [done|]. intros id [n Hid]. apply Hi. cbn in Hid. exists n. by eapply lookup_weaken.
Qed.

(** A registered channel and the connection behind its plain pointer. *)
Lemma registered_home l hs fd c :
  sound l hs -> fd2chan_ (poller l) !! fd = Some c ->
  exists ch, channels (poller l) !! c = Some ch /\ fd_ ch = fd /\ 0 <= fd < MAXFDS /\
    forall h, holder_ ch = Some h -> home fd c h l.
Proof.
  intros Hs Hc. destruct (s_table _ _ Hs _ _ Hc) as (ch & Hch & Hf & Hh). exists ch.
  split_and!; [done|done|rewrite <- Hf; by eapply s_fd..|]. intros h Hho.
  destruct (s_held _ _ Hs h) as [[c' w] Hw].
  { apply elem_of_app. left. apply elem_of_held. left. exists fd. by apply Hh. }
  assert (c' = c) as -> by (by eapply (s_paired _ _ Hs)). split; [by exists ch|by exists w].
Qed.

(** Handlers that return, end in a loop that goes on. *)
Lemma handled_acts l fd c h fuel rev w0 w :
  0 <= fd < MAXFDS -> home fd c h l -> handleEvents fuel files rev (enter (poller l) h w0) = Ret w ->
  exists l', leave env h c w l = Ret l' /\ acts fd c (Some h) l l'.
Proof. intros Hfd Hl Hw. apply leave_acts; [done|done|]. by eapply handleEvents_calls. Qed.

Lemma handle_channel_acts l hs fd c fuel l' :
  sound l hs -> fd2chan_ (poller l) !! fd = Some c -> handle_channel env files fuel l c = Ret l' ->
  exists ch, channels (poller l) !! c = Some ch /\ fd_ ch = fd /\ acts fd c (holder_ ch) l l' /\
    forall h, holder_ ch = Some h -> home fd c h l.
Proof.
  intros Hs Hc H. destruct (registered_home _ _ _ _ Hs Hc) as (ch & Hch & Hf & Hfd & Hh). exists ch.
  split_and!; [done..| |done]. unfold handle_channel, get_channel at 1 in H. rewrite Hch in H.
  cbn [mbind outcome_bind] in H. destruct (holder_ ch) as [h|] eqn:Eh.
  - specialize (Hh h eq_refl). destruct (Hh) as [_ [w0 Hw0]]. rewrite Hw0 in H. inv_bind H.
    destruct (handled_acts _ _ _ _ _ _ _ _ Hfd Hh Ha) as (l1 & E & Hacts). congruence.
  - cbv zeta in H. case_if_in H.
    + destruct (with_events_acts l c ch 0 Hch) as (l1 & E1 & Hacts & _). rewrite Hf, Eh in Hacts. congruence.
    + set (ev := if has_event _ _ then _ else _) in H.
      destruct (with_events_acts l c ch ev Hch) as (l1 & E1 & Hacts & _). rewrite E1 in H.
      cbn [mbind outcome_bind] in H.
      destruct (statics_channel _ _ _ _ (t_statics _ _ _ _ _ (a_poller _ _ _ _ _ Hacts)) Hch)
        as (ch1 & Hch1 & Hf1 & Hh1).
      destruct (epoll_mod_touches (poller l1) c ch1 (ops l1) Hch1) with (timeout := 0)
        (now := env_now env (ops l1)) (fails := env_fails env (ops l1)) as (p' & E2 & Ht & Hn); [by rewrite Hf1, Hf|].
      rewrite E2 in H. cbn [mbind outcome_bind] in H. injection H as <-.
      rewrite Hf1, Hf, Hh1, Eh in Ht. rewrite Hf, Eh in Hacts. etrans; [exact Hacts|]. by apply count_op_acts.
Qed.

Lemma queue_sound fd c h l hs : new_connection fd c h l -> sound l hs -> sound (queue_connection h c fd l) hs.
Proof.
  intros [Hfd Hc Hh Hho] Hs.
  assert (Hown : forall h' c' w', conns l !! h' = Some (c', w') -> c' <> c).
  { intros h' c' w' Hw ->. destruct (s_conn _ _ Hs _ _ _ Hw) as (ch & Hch & _). congruence. }
  split; cbn.
  - intros fd' c' Hc'. destruct (s_table _ _ Hs _ _ Hc') as (ch & Hch & ? & ?). exists ch.
    rewrite lookup_insert_ne by congruence. done.
  - intros h' c' w' [[<- [= <- _]]|[Hne Hw]]%lookup_insert_Some.
    + eexists. by rewrite lookup_insert_eq.
    + destruct (s_conn _ _ Hs _ _ _ Hw) as (ch & Hch & ?). exists ch. rewrite lookup_insert_ne; [done|].
      intros <-. by eapply Hown.
  - apply queue_paired; [by split|apply Hs].
  - intros h' Hin. destruct (decide (h' = h)) as [->|Hne]; [by rewrite lookup_insert_eq|].
    rewrite lookup_insert_ne by done. apply (s_held _ _ Hs). revert Hin. rewrite !elem_of_app, !elem_of_held.
    cbn. rewrite elem_of_app, list_elem_of_singleton. intros [[?|[?|[?|?]]]|?]; auto. done.
  - intros h'. rewrite elem_of_union, elem_of_singleton, (s_alive _ _ Hs).
    destruct (decide (h' = h)) as [->|Hne]; [rewrite lookup_insert_eq|rewrite lookup_insert_ne by done]; naive_solver.
  - intros c' ch [[<- <-]|[_ Hch]]%lookup_insert_Some; [done|]. by eapply s_fd.
  - apply Hs.
Qed.

Lemma arrive_sound h rs ws l hs : sound l hs -> sound (arrive h rs ws l) hs.
Proof.
  intros Hs. unfold arrive. destruct (conns l !! h) as [[c w]|] eqn:E; [|done].
  set (w' := mkConn _ _ _ _ _ _). pose proof (set_conn_shape l h c w w' E) as Hsh.
  assert (Hc : forall h', is_Some (conns (set_conn l h c w') !! h') <-> is_Some (conns l !! h'))
    by (intros; apply same_conn, Hsh).
  destruct Hs. split; try done.
  - intros h' c' x Hx. destruct (conns_shape _ _ _ _ _ Hsh Hx) as [y Hy]. by eapply s_conn0.
  - by eapply paired_shape.
  - intros h' Hin. by apply Hc, s_held0.
  - intros h'. by rewrite Hc.
Qed.

Lemma destroy_sound h l hs : h ∉ held l ++ hs -> sound l hs -> sound (destroy l h) hs.
Proof.
  intros Hh Hs. unfold destroy. destruct (conns l !! h) as [[c w]|] eqn:E; [|done].
  assert (Hnc : forall fd, fd2chan_ (poller l) !! fd <> Some c).
  { intros fd Hc. destruct (s_table _ _ Hs _ _ Hc) as (ch & Hch & _ & Hx).
    destruct (s_conn _ _ Hs _ _ _ E) as (ch' & Hch' & Hho). apply Hh, elem_of_app. left. apply elem_of_held. left.
    exists fd. apply Hx. congruence. }
  rewrite bool_decide_false.
  2:{ intros ([fd x] & -> & Hin%elem_of_map_to_list)%list_elem_of_fmap. by eapply Hnc. }
  split; cbn.
  - intros fd c' Hc'. destruct (s_table _ _ Hs _ _ Hc') as (ch & Hch & ? & ?). exists ch.
    rewrite lookup_delete_ne; [done|]. intros ->. by eapply Hnc.
  - intros h' c' w' [Hne Hw]%lookup_delete_Some. destruct (s_conn _ _ Hs _ _ _ Hw) as (ch & Hch & Hho).
    exists ch. rewrite lookup_delete_ne; [done|]. intros <-.
    destruct (s_conn _ _ Hs _ _ _ E) as (ch' & Hch' & Hho'). congruence.
  - intros c2 ch2 h2 c3 w2. cbn. intros [_ Hch]%lookup_delete_Some Hho [_ Hw]%lookup_delete_Some.
    by eapply (s_paired _ _ Hs).
  - intros h' Hin. assert (Hin' : h' ∈ held l ++ hs).
    { revert Hin. by rewrite !elem_of_app, !elem_of_held. }
    rewrite lookup_delete_ne by congruence. by apply (s_held _ _ Hs).
  - intros h'. rewrite elem_of_difference, not_elem_of_singleton, (s_alive _ _ Hs).
    rewrite <- !not_eq_None_Some, lookup_delete_None. naive_solver.
  - intros c' ch [_ Hch]%lookup_delete_Some. by eapply s_fd.
  - apply Hs.
Qed.

Lemma destroy_fd2chan l h : fd2chan_ (poller (destroy l h)) = fd2chan_ (poller l).
Proof. unfold destroy. by destruct (conns l !! h) as [[c w]|]. Qed.

Lemma arrive_poller l h rs ws : poller (arrive h rs ws l) = poller l.
Proof. unfold arrive. by destruct (conns l !! h) as [[c w]|]. Qed.

Lemma loop_step_alive s s' : loop_step s s' -> alive_phase s -> alive_phase s'.
Proof.
  unfold alive_phase, pending. intros [l waits p ret Hnd Hp|l c ret fuel l' H|l|l h fs l' H|l fuel clock l' hs H|l h hs l' H|l
    |l ph fd c h Hn|l ph h rs ws|l ph h Hu] [Hs Hp']; cbn [fst snd kept] in *.
  - by eapply poll_alive.
  - destruct (proj2 Hp' c) as [fd Hc]; [by left|].
    destruct (handle_channel_acts _ _ _ _ _ _ Hs Hc H) as (ch & Hch & Hf & Ha & Hh). split.
    + eapply (sound_acts fd c _ ch l); [done..| |done]. intros h Ho. destruct (Hh h Ho) as [_ [w Hw]]. by rewrite Hw.
    + by eapply (pending_acts fd c).
  - split; [|done]. destruct Hs. split; try done. intros h. rewrite elem_of_app, elem_of_held. cbn. intros Hin.
    apply s_held0, elem_of_app. rewrite elem_of_held. left.
    destruct Hin as [[?|[?|[]%elem_of_nil]]|?]; auto.
  - split; [|done]. destruct (s_held _ _ Hs h) as [[c w] Hw]; [apply elem_of_app; right; by left|].
    destruct (conn_home _ _ _ _ _ Hs Hw) as (fd & Hfd & Hl).
    destruct (run_functor_acts fd c h Hfd l Hl) as (l1 & E & Ha). assert (l1 = l') as -> by congruence.
    eapply sound_home; [|done..]. eapply sound_less; [|done]. intros h' Hin. by right.
  - split; [|done]. by eapply take_expired_alive.
  - split; [|done]. destruct (s_held _ _ Hs h) as [[c w] Hw]; [apply elem_of_app; right; by left|].
    destruct (conn_home _ _ _ _ _ Hs Hw) as (fd & Hfd & Hl).
    destruct (close_connection_acts fd c h Hfd l Hl) as (l1 & E & Ha). assert (l1 = l') as -> by congruence.
    eapply sound_home; [|done..]. eapply sound_less; [|done]. intros h' Hin. by right.
  - done.
  - split; [by apply queue_sound|]. by destruct ph.
  - split; [by apply arrive_sound|]. destruct ph; [done| |done..]. by rewrite arrive_poller.
  - split; [by apply destroy_sound|]. destruct ph; [done| |done..]. by rewrite destroy_fd2chan.
Qed.

Lemma new_loop_alive fd l : 0 <= fd < MAXFDS -> new_loop fd = Ret l -> alive_phase (l, Polling).
Proof.
  intros Hfd. unfold new_loop, epoll_add, get_channel. cbn [set_channel channels]. rewrite lookup_insert_eq.
  cbn [mbind outcome_bind fd_ setEvents new_Channel]. rewrite in_table_ok by done. cbn [mbind outcome_bind].
  change (0 <? 0) with false. cbv iota. destruct (epoll_ctl _ _ _ _ _) as [k rc].
  intros H. split; [|done]. cbn [fst snd kept].
  set (ch := setEvents (new_Channel fd) (Z.lor EPOLLIN EPOLLET)).
  assert (Hl : exists fc, l = mkLoopThread
      (mkEpoll k fc ∅ new_manager {[0%nat := (EqualAndUpdateLastEvents ch).2]} ∅) ∅ [] 1 /\
      (fc = ∅ \/ fc = {[fd := 0%nat]})).
  { case_if_in H; injection H as <-; eexists; unfold set_tables; cbn;
      rewrite insert_insert_eq; (split; [reflexivity|]); [left|by right]. by rewrite delete_insert_eq, delete_empty. }
  clear H. destruct Hl as (fc & -> & Hfc). split; cbn.
  - intros fd' c Hc. assert (fd' = fd /\ c = 0%nat) as [-> ->].
    { destruct Hfc as [->| ->]; [done|]. by apply lookup_singleton_Some in Hc as [<- <-]. }
    eexists. rewrite lookup_singleton_eq. by split_and!.
  - done.
  - by intros c2 ch2 h2 c3 w2 _ _ Hw.
  - intros h [Hin|Hin]%elem_of_app; [|by apply elem_of_nil in Hin].
    apply elem_of_held in Hin as [[fd' Hf]|[Hin|Hin]]; [done|by apply elem_of_nil in Hin..].
  - intros h. split; [by intros ?%not_elem_of_empty|by intros [? ?]].
  - intros c ch' Hc. by apply lookup_singleton_Some in Hc as [_ <-].
  - split; [apply new_manager_ok|]. by intros id [? ?].
Qed.

(** ** Whole turns *)

Lemma handle_channels_steps fuel ret : forall l l' rest,
  handle_channels env files fuel ret l = Ret l' ->
  rtc loop_step (l, Handling (ret ++ rest)) (l', Handling rest).
Proof.
  unfold handle_channels. induction ret as [|c ret IH]; intros l l' rest; cbn; [by intros [= <-]|].
  rewrite foldl_outcome. intros H. inv_bind H. cbn in Ha. eapply rtc_l; [by eapply step_channel|]. by apply IH.
Qed.

Lemma run_functors_steps fs : forall l l',
  run_functors env fs l = Ret l' -> rtc loop_step (l, Running fs) (l', Running []).
Proof.
  unfold run_functors. induction fs as [|h fs IH]; intros l l'; cbn; [by intros [= <-]|].
  rewrite foldl_outcome. intros H. inv_bind H. cbn in Ha. eapply rtc_l; [by eapply step_functor|]. by apply IH.
Qed.

Lemma close_steps hs : forall l l',
  foldl (fun acc h => l ← acc; close_connection env l h) (Ret l) hs = Ret l' ->
  rtc loop_step (l, Closing hs) (l', Closing []).
Proof.
  induction hs as [|h hs IH]; intros l l'; cbn; [by intros [= <-]|].
  rewrite foldl_outcome. intros H. inv_bind H. cbn in Ha. eapply rtc_l; [by eapply step_close|]. by apply IH.
Qed.

(** A turn of EpollServer.v is a sequence of these steps. *)
Lemma turn_steps fuel waits clock l l' :
  Forall (fun evs => NoDup evs.*1) waits -> turn env files fuel waits clock l = Ret l' ->
  rtc loop_step (l, Polling) (l', Polling).
Proof.
  intros Hw H. unfold turn in H. apply bind_Ret_inv in H as (l1 & H1 & H2). unfold handle_turn in H1.
  apply bind_Ret_inv in H1 as ([p ret] & Hp & H1). inv_bind H1. unfold doPendingFunctors in H1.
  eapply rtc_l; [by eapply step_poll|].
  apply (handle_channels_steps _ _ _ _ []) in Ha. rewrite app_nil_r in Ha. etrans; [exact Ha|].
  eapply rtc_l; [apply step_swap|]. etrans; [by apply run_functors_steps|].
  unfold expire in H2. apply bind_Ret_inv in H2 as (p2 & Hp2 & H2). cbv zeta in H2. eapply rtc_l.
  { eapply (step_expire l1 fuel clock). unfold take_expired. rewrite Hp2. reflexivity. }
  etrans; [by apply close_steps|]. apply rtc_once, step_end.
Qed.

(** What the next action of the thread finds. A handler is undefined, throws
    or runs on for what it reads from its client only. *)
Definition next_is_safe (l : LoopThread Q) (ph : phase) : Prop :=
  match ph with
  | Polling | Handling [] | Closing [] => True
  | Handling (c :: _) =>
      exists ch, channels (poller l) !! c = Some ch /\
        forall h, holder_ ch = Some h -> exists w0, conns l !! h = Some (c, w0) /\
          forall fuel w, handleEvents fuel files (ch_revents ch) (enter (poller l) h w0) = Ret w ->
            returns (leave env h c w l)
  | Running (h :: _) => returns (run_functor env l h)
  | Running [] => forall clock, (forall i, timeval_ok (clock i)) ->
      returns (take_expired (S (base.size (nodes (timerManager_ (poller l))))) clock l)
  | Closing (h :: _) => returns (close_connection env l h)
  end.

Lemma alive_next_is_safe l ph : alive_phase (l, ph) -> next_is_safe l ph.
Proof.
  intros [Hs Hp]. cbn [fst snd] in Hs, Hp. destruct ph as [|[|c ret]|[|h fs]|[|h hs]]; cbn [next_is_safe]; try done.
  - destruct (proj2 Hp c) as [fd Hc]; [by left|].
    destruct (registered_home _ _ _ _ Hs Hc) as (ch & Hch & Hf & Hfd & Hh). exists ch. split; [done|].
    intros h Ho. pose proof (Hh h Ho) as Hl. destruct (Hl) as [_ [w0 Hw0]]. exists w0. split; [done|].
    intros fuel w Hw. destruct (handled_acts _ _ _ _ _ _ _ _ Hfd Hl Hw) as (l' & -> & _). by exists l'.
  - intros clock Hc. destruct (s_timers _ _ Hs) as [Hq _].
    destruct (handleExpired_spec (S (base.size (nodes (timerManager_ (poller l))))) clock _ Hc Hq) as (m' & Hm & _); [lia|].
    unfold take_expired, handleExpired. rewrite Hm. cbn. by eexists.
  - destruct (s_held _ _ Hs h) as [[c w] Hw]; [apply elem_of_app; right; by left|].
    destruct (conn_home _ _ _ _ _ Hs Hw) as (fd & Hfd & Hl).
    destruct (run_functor_acts fd c h Hfd l Hl) as (l' & -> & _). by exists l'.
  - destruct (s_held _ _ Hs h) as [[c w] Hw]; [apply elem_of_app; right; by left|].
    destruct (conn_home _ _ _ _ _ Hs Hw) as (fd & Hfd & Hl).
    destruct (close_connection_acts fd c h Hfd l Hl) as (l' & -> & _). by exists l'.
Qed.

Lemma reachable_alive fd l0 s :
  0 <= fd < MAXFDS -> new_loop fd = Ret l0 -> rtc loop_step (l0, Polling) s -> alive_phase s.
Proof.
  intros Hfd H0 Hr. pose proof (new_loop_alive _ _ Hfd H0) as Ha. clear H0.
  induction Hr as [|s1 s2 s3 Hs _ IH]; [done|]. apply IH. by eapply loop_step_alive.
Qed.
End life.

(** * Properties *)

(** C6: no use after free in a loop. From the constructor of the loop on, for
    any bytes from the clients, any events, any failures of [epoll_ctl], any
    clock, with connections queued by the accepting thread and unreferenced
    connections destroyed between any two actions: each channel that is handled
    exists and the connection behind the plain pointer of its handlers is alive
    and its own; the calls that a handler makes to the loop, every functor,
    every expired timer and the timer queue find all they use, so that they
    return. *)
Theorem connections_outlive_handlers `{TimerQueue Q} env files fd (l0 l : LoopThread Q) ph :
  0 <= fd < MAXFDS -> new_loop env fd = Ret l0 ->
  rtc (loop_step env files) (l0, Polling) (l, ph) -> next_is_safe env files l ph.
Proof. intros Hfd H0 Hr. apply alive_next_is_safe. by eapply (reachable_alive env files fd). Qed.

Definition sample_loop : LoopThread OrderedQueue := result_or idle_loop (new_loop steady 3).
Definition sample_polled : Epoll OrderedQueue * list nat :=
  result_or (poller idle_loop, []) (poll (poller sample_loop) [woken]).
Definition sample_woken : LoopThread OrderedQueue :=
  result_or idle_loop (handle_channel steady one_file 9
    (queue_connection 1 1 7 (set_poller sample_loop (sample_polled.1))) 0).

Lemma sample_polled_channels :
  channels sample_polled.1 = {[0%nat := mkChannel 3 0 EPOLLIN (Z.lor EPOLLIN EPOLLET) None]}.
Proof. by vm_compute. Qed.

Lemma connections_outlive_handlers_witness :
  next_is_safe steady one_file (set_functors sample_woken []) (Running [1%nat]).
Proof.
  apply (connections_outlive_handlers steady one_file 3 sample_loop).
  - unfold MAXFDS. lia.
  - apply result_or_spec. by vm_compute.
  - eapply rtc_l.
    { apply (step_poll _ _ sample_loop [woken] (sample_polled.1) (sample_polled.2)).
      - repeat constructor. by apply not_elem_of_nil.
      - by vm_compute. }
    eapply rtc_l.
    { apply (step_queue _ _ _ _ 7 1 1). split; [unfold MAXFDS; lia|by vm_compute|by vm_compute|].
      intros c' ch' Hc. change (channels sample_polled.1 !! c' = Some ch') in Hc.
      rewrite sample_polled_channels in Hc. by apply lookup_singleton_Some in Hc as [_ <-]. }
    eapply rtc_l.
    { apply (step_channel _ _ _ 0 [] 9 sample_woken). apply result_or_spec. by vm_compute. }
    apply rtc_once, step_swap.
Defined.
