(* ===== verification/EventLoop.v ===== *)
(** * EventLoop: the queue of functors and the wakeups (WebServer/EventLoop.cpp)

    One loop thread and any number of other threads that call [queueInLoop] and
    [quit], one access to the shared state per action.  The wakeup descriptor
    is an eventfd watched edge-triggered. *)

From S2P Require Export Prelude.

(** Functors are named by numbers. *)
Definition functor : Type := nat.

(** Where the loop thread is: before [loop()], in [poll], handling events (with
    the event of the wakeup descriptor still to be handled or not), before the
    swap of [doPendingFunctors], between two functors, inside one, inside one
    and about to call [wakeup], after them, and out of the loop. *)
Inductive loop_pc :=
  | LStart
  | LPoll
  | LHandle (woke : bool)
  | LCalling
  | LRun (functors : list functor)
  | LInside (functors : list functor)
  | LWake (functors : list functor)
  | LExpire
  | LExit.

#[export] Instance loop_pc_eq_dec : EqDecision loop_pc.
Proof. solve_decision. Defined.

(** [counter] and [edge]: the eventfd and the event that epoll has not reported
    yet; [waking]: the other threads between their change and their [wakeup];
    [queued] and [executed]: the functors ever queued and started. *)
Record EventLoop := mkLoop {
  pc : loop_pc;
  counter : Z;
  edge : bool;
  pendingFunctors_ : list functor;
  callingPendingFunctors_ : bool;
  quit_ : bool;
  waking : nat;
  queued : list functor;
  executed : list functor
}.

Definition new_EventLoop : EventLoop := mkLoop LStart 0 false [] false false 0 [] [].

Definition set_pc (l : EventLoop) (p : loop_pc) : EventLoop :=
  mkLoop p (counter l) (edge l) (pendingFunctors_ l) (callingPendingFunctors_ l) (quit_ l) (waking l)
    (queued l) (executed l).

(** [wakeup]: the write fails when the counter is full. *)
Definition wakeup (l : EventLoop) : EventLoop :=
  if counter l + 1 <? 2 ^ 64 - 1 then
    mkLoop (pc l) (counter l + 1) true (pendingFunctors_ l) (callingPendingFunctors_ l) (quit_ l)
      (waking l) (queued l) (executed l)
  else l.

(** [EventLoop::handleRead]: the read takes the whole counter. *)
Definition handle_wakeup (l : EventLoop) : EventLoop :=
  mkLoop (pc l) 0 (edge l) (pendingFunctors_ l) (callingPendingFunctors_ l) (quit_ l) (waking l)
    (queued l) (executed l).

(** The locked part of [queueInLoop], and whether it then calls [wakeup]. *)
Definition emplace (l : EventLoop) (f : functor) : EventLoop :=
  mkLoop (pc l) (counter l) (edge l) (pendingFunctors_ l ++ [f]) (callingPendingFunctors_ l) (quit_ l)
    (waking l) (queued l ++ [f]) (executed l).
Definition wakes (in_loop_thread : bool) (l : EventLoop) : bool :=
  negb in_loop_thread || callingPendingFunctors_ l.

Definition set_waking (l : EventLoop) (n : nat) : EventLoop :=
  mkLoop (pc l) (counter l) (edge l) (pendingFunctors_ l) (callingPendingFunctors_ l) (quit_ l) n
    (queued l) (executed l).
Definition set_quit (l : EventLoop) (b : bool) : EventLoop :=
  mkLoop (pc l) (counter l) (edge l) (pendingFunctors_ l) (callingPendingFunctors_ l) b (waking l)
    (queued l) (executed l).
Definition set_calling (l : EventLoop) (b : bool) : EventLoop :=
  mkLoop (pc l) (counter l) (edge l) (pendingFunctors_ l) b (quit_ l) (waking l) (queued l) (executed l).
Definition set_edge (l : EventLoop) (b : bool) : EventLoop :=
  mkLoop (pc l) (counter l) b (pendingFunctors_ l) (callingPendingFunctors_ l) (quit_ l) (waking l)
    (queued l) (executed l).

(** The wakeup descriptor has an event for [epoll_wait]. *)
Definition wake_ready (l : EventLoop) : bool := edge l && (0 <? counter l).

(** [functors.swap(pendingFunctors_)] *)
Definition swap_functors (l : EventLoop) : EventLoop :=
  mkLoop (LRun (pendingFunctors_ l)) (counter l) (edge l) [] (callingPendingFunctors_ l) (quit_ l)
    (waking l) (queued l) (executed l).

Definition start_functor (l : EventLoop) (f : functor) (fs : list functor) : EventLoop :=
  mkLoop (LInside fs) (counter l) (edge l) (pendingFunctors_ l) (callingPendingFunctors_ l) (quit_ l)
    (waking l) (queued l) (executed l ++ [f]).

(** Actions of the other threads, then of the loop thread. *)
Inductive action :=
  | OtherQueue (f : functor) | OtherQuit | OtherWakeup
  | Start | PollReturns (woke : bool) | HandleWakeup | QueueInLoop (f : functor) | Quit | Handled
  | Swap | RunFunctor | Wakeup | FunctorReturns | FinishFunctors | Check.

(** One action; [None] when it cannot happen. [poll] returns for the wakeup
    descriptor when it is ready, and for other descriptors at any time. *)
Definition step (l : EventLoop) (a : action) : option EventLoop :=
  match a, pc l with
  | OtherQueue f, _ =>
      let l := emplace l f in
      Some (if wakes false l then set_waking l (S (waking l)) else l)
  | OtherQuit, _ => Some (set_waking (set_quit l true) (S (waking l)))
  | OtherWakeup, _ =>
      match waking l with
      | O => None
      | S n => Some (wakeup (set_waking l n))
      end
  | Start, LStart =>
      let l := set_quit l false in Some (set_pc l (if quit_ l then LExit else LPoll))
  | PollReturns woke, LPoll =>
      if woke && negb (wake_ready l) then None
      else Some (set_pc (if woke then set_edge l false else l) (LHandle woke))
  | HandleWakeup, LHandle true => Some (set_pc (handle_wakeup l) (LHandle false))
  | QueueInLoop f, LHandle woke =>
      let l := emplace l f in Some (if wakes true l then wakeup l else l)
  | QueueInLoop f, LInside fs =>
      let l := emplace l f in Some (if wakes true l then set_pc l (LWake fs) else l)
  | Quit, (LHandle _ | LInside _) => Some (set_quit l true)
  | Handled, LHandle false => Some (set_pc (set_calling l true) LCalling)
  | Swap, LCalling => Some (swap_functors l)
  | RunFunctor, LRun (f :: fs) => Some (start_functor l f fs)
  | Wakeup, LWake fs => Some (set_pc (wakeup l) (LInside fs))
  | FunctorReturns, LInside fs => Some (set_pc l (LRun fs))
  | FinishFunctors, LRun [] => Some (set_pc (set_calling l false) LExpire)
  | Check, LExpire => Some (set_pc l (if quit_ l then LExit else LPoll))
  | _, _ => None
  end.

Fixpoint run_actions (l : EventLoop) (s : list action) : option EventLoop :=
  match s with
  | [] => Some l
  | a :: s' => l' ← step l a; run_actions l' s'
  end.

Definition reachable (l : EventLoop) : Prop := exists s, run_actions new_EventLoop s = Some l.

(** ** The specification: a queue

    The functors that were taken and not started, and how the actions look to a
    client. *)
Definition taken (p : loop_pc) : list functor :=
  match p with LRun fs | LInside fs | LWake fs => fs | _ => [] end.

(** The loop waits and nothing is ready to wake it. *)
Definition asleep (l : EventLoop) : Prop := pc l = LPoll /\ wake_ready l = false.

(** * Lemmas *)

(** Something will end a wait of the loop. *)
Definition will_wake (l : EventLoop) : Prop := wake_ready l = true \/ (0 < waking l)%nat.

(** The counter is unread only with its event ahead. *)
Definition counter_ok (n : Z) (e : bool) (p : loop_pc) : Prop :=
  0 <= n < 2 ^ 64 - 1 /\ (0 < n -> e = true \/ p = LHandle true).

(** [calling] is set exactly around the functors; a full counter is unread;
    when the loop is past the swap, functors that are pending, and a request to
    quit of another thread, have a wakeup ahead. *)
Record loop_ok (l : EventLoop) : Prop := {
  ok_calling : callingPendingFunctors_ l =
    match pc l with LCalling | LRun _ | LInside _ | LWake _ => true | _ => false end;
  ok_counter : counter_ok (counter l) (edge l) (pc l);
  ok_pending : pendingFunctors_ l <> [] ->
    match pc l with
    | LHandle _ | LCalling | LWake _ | LExit => True
    | _ => will_wake l
    end;
  ok_quit : quit_ l = true -> pc l = LPoll -> will_wake l;
  ok_fifo : queued l = executed l ++ taken (pc l) ++ pendingFunctors_ l
}.

Lemma loop_ok_new : loop_ok new_EventLoop.
Proof. split; cbn; try done; lia. Qed.

Lemma counter_ok_move n e p q : counter_ok n e p -> p <> LHandle true -> counter_ok n e q.
Proof. intros [Hc He] Hp. split; [done|]. intros H0. destruct (He H0); [by left|done]. Qed.

Lemma wakeup_ready l p : counter_ok (counter l) (edge l) p -> p <> LHandle true -> wake_ready (wakeup l) = true.
Proof.
  intros [Hc He] Hpc. unfold wakeup, wake_ready. case_if; zbool; cbn [edge counter].
  - apply andb_true_iff. split; [done|]. apply Z.ltb_lt. lia.
  - destruct He as [->|?]; [lia| |done]. apply Z.ltb_lt. lia.
Qed.

Lemma wakeup_frame l :
  pc (wakeup l) = pc l /\ pendingFunctors_ (wakeup l) = pendingFunctors_ l /\
  callingPendingFunctors_ (wakeup l) = callingPendingFunctors_ l /\ quit_ (wakeup l) = quit_ l /\
  queued (wakeup l) = queued l /\ executed (wakeup l) = executed l.
Proof. unfold wakeup. by case_if. Qed.

Lemma wakeup_counter l p :
  counter_ok (counter l) (edge l) p -> counter_ok (counter (wakeup l)) (edge (wakeup l)) p.
Proof.
  unfold counter_ok, wakeup. intros Hc. case_if; zbool; cbn [counter edge]; [|done].
  split; [lia|by left].
Qed.

(** A wakeup restores what a change without one breaks. *)
Lemma wakeup_ok l (p : loop_pc) :
  callingPendingFunctors_ l =
    match p with LCalling | LRun _ | LInside _ | LWake _ => true | _ => false end ->
  counter_ok (counter l) (edge l) (pc l) -> (pc l = LHandle true -> p = LHandle true) ->
  queued l = executed l ++ taken p ++ pendingFunctors_ l ->
  loop_ok (set_pc (wakeup l) p).
Proof.
  intros Hcall Hcnt Hp Hq. destruct (wakeup_frame l) as (Hf1 & Hf2 & Hf3 & Hf4 & Hf5 & Hf6).
  assert (Hready : pc l <> LHandle true -> will_wake (set_pc (wakeup l) p)).
  { intros Hne. left. exact (wakeup_ready l _ Hcnt Hne). }
  split; cbn.
  - by rewrite Hf3.
  - destruct (wakeup_counter l _ Hcnt) as [Hc He]. split; [done|]. intros H0. destruct (He H0); auto.
  - intros _. destruct (decide (pc l = LHandle true)) as [E|E]; [by rewrite (Hp E)|].
    destruct p; auto.
  - intros _ ->. destruct (decide (pc l = LHandle true)) as [E|E]; [by specialize (Hp E)|]. auto.
  - by rewrite Hf5, Hf6, Hf2.
Qed.

(** The thread is where an action of it can happen. *)
Ltac loop_cases p H :=
  destruct p as [| |[|]| |[|? ?]|?|?| |]; try discriminate H; try (injection H as <-).

Lemma step_ok l a l' : loop_ok l -> step l a = Some l' -> loop_ok l'.
Proof.
  destruct l as [p n e pf cp q wk qd ex]. intros [Hcall Hcnt Hpend Hquit Hq] Hs.
  cbn [pc counter edge pendingFunctors_ callingPendingFunctors_ quit_ waking queued executed] in *.
  assert (Hmove : forall y, p <> LHandle true -> counter_ok n e y)
    by (intros; by apply (counter_ok_move _ _ p)).
  destruct a; cbn [step pc] in Hs.
  - injection Hs as <-. cbn [emplace wakes negb orb set_waking waking]. split; cbn; [done|done| | |].
    + intros _. destruct p; done || (right; cbn; lia).
    + intros _ _. right. cbn. lia.
    + by rewrite Hq, !app_assoc.
  - injection Hs as <-. split; cbn; [done|done| | |done].
    + intros Hne. destruct p; done || (right; cbn; lia).
    + intros _ _. right. cbn. lia.
  - cbn [waking] in Hs. destruct wk as [|k]; [done|]. injection Hs as <-.
    match goal with |- loop_ok (wakeup ?x) => replace (wakeup x) with (set_pc (wakeup x) p) end.
    + by apply wakeup_ok.
    + unfold wakeup. by case_if.
  - loop_cases p Hs. cbn. split; cbn; try done; by apply Hmove.
  - loop_cases p Hs. destruct woke; cbn [andb] in Hs.
    + case_if_in Hs; [done|]. injection Hs as <-. split; cbn; try done. split; [apply Hcnt|by right].
    + injection Hs as <-. split; cbn; try done. by apply Hmove.
  - loop_cases p Hs. split; cbn; try done.
  - loop_cases p Hs; subst cp; split; cbn; try done; try (by apply Hmove); rewrite Hq; cbn; by rewrite <- ?app_assoc.
  - loop_cases p Hs; by split.
  - loop_cases p Hs. split; cbn; try done. by apply Hmove.
  - loop_cases p Hs. split; cbn; try done; [by apply Hmove|]. by rewrite Hq, app_nil_r.
  - loop_cases p Hs. split; cbn; try done; [by apply Hmove|]. by rewrite Hq, <- !app_assoc.
  - loop_cases p Hs. by apply wakeup_ok.
  - loop_cases p Hs; split; cbn; try done; by apply Hmove.
  - loop_cases p Hs. split; cbn; try done. by apply Hmove.
  - loop_cases p Hs. cbn. destruct q; split; cbn; try done; by apply Hmove.
Qed.

Lemma run_actions_ok s : forall l l', loop_ok l -> run_actions l s = Some l' -> loop_ok l'.
Proof.
  induction s as [|a s IH]; intros l l' Hl Hr; cbn in Hr; [by simplify_eq|].
  destruct (step l a) as [l1|] eqn:E; [|done]. eapply IH; [|done]. by eapply step_ok.
Qed.

Lemma reachable_ok l : reachable l -> loop_ok l.
Proof. intros [s Hs]. eapply run_actions_ok; [apply loop_ok_new|done]. Qed.

(** One turn of the loop for the wakeup descriptor, with [n] functors that
    queue nothing. *)
Definition run_functors (n : nat) : list action := concat (replicate n [RunFunctor; FunctorReturns]).
Definition wake_turn (n : nat) : list action :=
  [PollReturns true; HandleWakeup; Handled; Swap] ++ run_functors n ++ [FinishFunctors; Check].

Lemma run_actions_app s t l :
  run_actions l (s ++ t) = (l' ← run_actions l s; run_actions l' t).
Proof. revert l; induction s as [|a s IH]; intros l; cbn; [done|]. destruct (step l a); [apply IH|done]. Qed.

Lemma run_functors_spec fs : forall l, pc l = LRun fs ->
  run_actions l (run_functors (length fs)) =
  Some (mkLoop (LRun []) (counter l) (edge l) (pendingFunctors_ l) (callingPendingFunctors_ l) (quit_ l)
          (waking l) (queued l) (executed l ++ fs)).
Proof.
  induction fs as [|f fs IH]; intros l Hl; destruct l as [p n e pf cp q wk qd ex]; cbn in Hl; subst p.
  - cbn. by rewrite app_nil_r.
  - change (run_functors (length (f :: fs))) with ([RunFunctor; FunctorReturns] ++ run_functors (length fs)).
    rewrite run_actions_app. cbn [run_actions step pc mbind option_bind start_functor set_pc].
    rewrite IH by done. cbn. by rewrite <- app_assoc.
Qed.

(** ** Requests to quit *)

(** [loop()] starts once. *)
Lemma step_start l a l' :
  step l a = Some l' -> (pc l' = LStart <-> pc l = LStart /\ a <> Start) /\ (a = Start -> pc l = LStart).
Proof.
  intros Hs. destruct l as [p n e pf cp q wk qd ex].
  destruct a, p as [| |[|]| |[|? ?]|?|?| |]; cbn in Hs; try discriminate Hs;
    repeat (case_match; try discriminate Hs); injection Hs as <-; cbn; unfold wakeup;
    repeat case_if; cbn; intuition congruence.
Qed.

Lemma started_at s : forall l0 l, pc l0 = LStart -> run_actions l0 s = Some l -> pc l <> LStart ->
  exists s1 s2 l1 l2, s = s1 ++ Start :: s2 /\ run_actions l0 s1 = Some l1 /\ step l1 Start = Some l2 /\
    run_actions l2 s2 = Some l /\ pc l2 <> LStart.
Proof.
  induction s as [|a s IH]; intros l0 l H0 Hr Hl; cbn in Hr; [by simplify_eq|].
  destruct (step l0 a) as [l1|] eqn:E; [|done]. cbn in Hr. destruct (step_start l0 a l1 E) as [Hpc _].
  destruct (decide (pc l1 = LStart)) as [H1|H1].
  - destruct (IH l1 l H1 Hr Hl) as (s1 & s2 & m1 & m2 & -> & Hs1 & H).
    exists (a :: s1), s2, m1, m2. split; [done|]. split; [|done]. cbn. by rewrite E.
  - assert (a = Start) as ->. { destruct a; try done; exfalso; by apply H1, Hpc. }
    by exists [], s, l0, l1.
Qed.

Lemma run_no_start s : forall l l', pc l <> LStart -> run_actions l s = Some l' -> Start ∉ s.
Proof.
  induction s as [|a s IH]; intros l l' Hl Hr; [apply not_elem_of_nil|]. cbn in Hr.
  destruct (step l a) as [l1|] eqn:E; [|done]. destruct (step_start l a l1 E) as [Hpc Ha].
  apply not_elem_of_cons. split; [by intros <-; auto|]. apply (IH l1 l'); [|done].
  intros H1. by apply Hl, Hpc.
Qed.

(** After [loop()] has begun, [quit_] stays set. *)
Lemma quit_stays l a l' :
  step l a = Some l' -> pc l <> LStart -> quit_ l = true \/ a = OtherQuit \/ a = Quit -> quit_ l' = true.
Proof.
  intros Hs Hl Hq. destruct l as [p n e pf cp q wk qd ex].
  destruct a, p as [| |[|]| |[|? ?]|?|?| |]; cbn in Hs, Hl, Hq; try discriminate Hs; try done;
    repeat (case_match; try discriminate Hs); injection Hs as <-; cbn; unfold wakeup;
    repeat case_if; cbn; intuition congruence.
Qed.

Lemma quit_heard s : forall l l', run_actions l s = Some l' -> pc l <> LStart ->
  quit_ l = true \/ OtherQuit ∈ s \/ Quit ∈ s -> quit_ l' = true.
Proof.
  induction s as [|a s IH]; intros l l' Hr Hl Hq; cbn in Hr.
  - simplify_eq. destruct Hq as [?|[?%elem_of_nil|?%elem_of_nil]]; done.
  - destruct (step l a) as [l1|] eqn:E; [|done]. destruct (step_start l a l1 E) as [Hpc _].
    apply (IH l1 l'); [done|by intros H1; apply Hl, Hpc|]. rewrite !elem_of_cons in Hq.
    pose proof (quit_stays l a l1 E Hl) as Hstay.
    destruct Hq as [Hq|[[Hq|Hq]|[Hq|Hq]]]; [left; apply Hstay; auto..|by right; left|left; apply Hstay; auto|by right; right].
Qed.

(** [quit] of another thread before [loop()] has started. *)
Lemma early_quit_lost :
  exists l, run_actions new_EventLoop
    [OtherQuit; OtherWakeup; Start; PollReturns true; HandleWakeup; Handled; Swap; FinishFunctors; Check] = Some l /\
    asleep l /\ waking l = O.
Proof. exists (mkLoop LPoll 0 false [] false false 0 [] []). split; [by vm_compute|done]. Qed.

(** * Properties *)

(** C16: No wakeup is lost. Whatever the interleaving of the threads that queue
    functors or quit with the loop and with functors that queue more, when the
    loop sleeps in [poll] with nothing to wake it and no thread is on its way to
    [wakeup], no functor is pending, [quit_] is false, and nobody has called
    [quit] since [loop()] began. A call of [quit] before [loop()] sets [quit_] to
    false is lost ([early_quit_lost]). *)
Theorem no_lost_wakeup s l :
  run_actions new_EventLoop s = Some l -> asleep l -> waking l = O ->
  pendingFunctors_ l = [] /\ quit_ l = false /\
  exists s1 s2, s = s1 ++ Start :: s2 /\ (Start ∉ s2) /\ (OtherQuit ∉ s2) /\ (Quit ∉ s2).
Proof.
  intros Hs [Hpc Hw] H0. destruct (reachable_ok l (ex_intro _ s Hs)) as [_ _ Hp Hq _]. rewrite Hpc in Hp.
  assert (Hn : ~ will_wake l) by (intros [?|?]; [congruence|lia]).
  assert (Hf : quit_ l = false) by (destruct (quit_ l); [exfalso; by apply Hn, Hq|done]).
  split_and!; [|done|].
  - destruct (pendingFunctors_ l) as [|f fs]; [done|]. exfalso. by apply Hn, Hp.
  - destruct (started_at s new_EventLoop l eq_refl Hs) as (s1 & s2 & l1 & l2 & -> & _ & _ & Hr & Hne); [by rewrite Hpc|].
    exists s1, s2. split_and!; [done|exact (run_no_start s2 l2 l Hne Hr)|..]; intros Hin;
      (enough (quit_ l = true) by congruence); by apply (quit_heard s2 l2 l); auto.
Qed.

Lemma no_lost_wakeup_witness :
  let s := [OtherQuit; OtherQueue 1%nat; Start; PollReturns false; Handled; Swap; RunFunctor; QueueInLoop 2%nat;
            OtherWakeup; OtherWakeup; Wakeup;
            FunctorReturns; FinishFunctors; Check; PollReturns true; HandleWakeup; Handled; Swap; RunFunctor;
            FunctorReturns; FinishFunctors; Check] in
  exists l, run_actions new_EventLoop s = Some l /\ pendingFunctors_ l = [] /\ quit_ l = false /\
    exists s1 s2, s = s1 ++ Start :: s2 /\ (Start ∉ s2) /\ (OtherQuit ∉ s2) /\ (Quit ∉ s2).
Proof.
  intros s. set (l := mkLoop LPoll 0 false [] false false 0 [1%nat; 2%nat] [1%nat; 2%nat]).
  assert (Hs : run_actions new_EventLoop s = Some l) by by vm_compute.
  exists l. split; [exact Hs|]. apply (no_lost_wakeup s l Hs); done.
Defined.

(** C17: Queued functors run, in order, exactly once. From any reachable state
    in which the loop polls, functors are pending and every thread that queued
    one has done its wakeup, one turn of the loop alone ends with every functor
    ever queued executed, in the order of the queue. *)
Theorem pending_functors_run l :
  reachable l -> pc l = LPoll -> waking l = O -> pendingFunctors_ l <> [] ->
  exists l', run_actions l (wake_turn (length (pendingFunctors_ l))) = Some l' /\
    executed l' = queued l /\ pendingFunctors_ l' = [] /\ pc l' = (if quit_ l then LExit else LPoll).
Proof.
  intros Hl Hpc H0 Hne. destruct (reachable_ok l Hl) as [_ _ Hp _ Hq]. rewrite Hpc in Hp, Hq.
  assert (Hw : wake_ready l = true) by (destruct (Hp Hne) as [?|?]; [done|lia]).
  destruct l as [p n e pf cp q wk qd ex]. cbn in Hpc, Hq, H0. subst p wk.
  unfold wake_turn. cbn [app run_actions step pc andb]. rewrite Hw. cbn [negb mbind option_bind].
  cbn [run_actions step pc set_pc set_edge handle_wakeup set_calling swap_functors mbind option_bind
       pendingFunctors_ counter edge callingPendingFunctors_ quit_ waking queued executed].
  rewrite run_actions_app, run_functors_spec by done.
  cbn [mbind option_bind]. eexists. split; [reflexivity|]. cbn. by rewrite Hq.
Qed.

Lemma pending_functors_run_witness :
  let s := [OtherQueue 4%nat; OtherQueue 7%nat; Start; OtherWakeup; OtherWakeup] in
  let l := mkLoop LPoll 2 true [4%nat; 7%nat] false false 0 [4%nat; 7%nat] [] in
  run_actions new_EventLoop s = Some l /\
  exists l', run_actions l (wake_turn 2) = Some l' /\
    executed l' = [4%nat; 7%nat] /\ pendingFunctors_ l' = [] /\ pc l' = LPoll.
Proof.
  intros s l. assert (Hs : run_actions new_EventLoop s = Some l) by by vm_compute.
  split; [exact Hs|]. apply (pending_functors_run l); [by exists s|done|done|done].
Defined.
