(* ===== verification/LogStream.v ===== *)
(** * LogStream: formatting a log line (WebServer/base/{LogStream,Logging}.cpp)

    [FixedBuffer] as the bytes before [cur_], the insertion operators of
    [LogStream] and the line that a [Logger] makes. *)

From S2P Require Export CxxString.

Definition kSmallBuffer : Z := 4000.
Definition kLargeBuffer : Z := 4000 * 1000.
Definition kMaxNumericSize : Z := 32.

(** ** FixedBuffer *)

(** A buffer of [SIZE] bytes is its bytes from [data_] to [cur_]. *)
Definition length_ (b : bytes) : Z := i32 (size b).
Definition avail (SIZE : Z) (b : bytes) : Z := i32 (SIZE - size b).

(** [append(buf, len)]: dropped when it does not fit. *)
Definition buffer_append (SIZE : Z) (b buf : bytes) : bytes :=
  if i32 (size buf) <? avail SIZE b then b ++ buf else b.

(** ** convert *)

Definition digits : bytes := lit "9876543210123456789".

(** [zero[lsd]], where [zero] is [digits + 9]. *)
Definition zero_at (lsd : Z) : outcome ascii :=
  match digits !! Z.to_nat (9 + lsd) with
  | Some c => if 0 <=? 9 + lsd then Ret c else UB
  | None => UB
  end.

(** The loop: the characters from [buf] to [p]. *)
Fixpoint convert_loop (fuel : nat) (i : Z) (written : bytes) : outcome bytes :=
  match fuel with
  | O => OutOfFuel
  | S fuel' =>
      let lsd := i32 (Z.rem i 10) in
      let i := Z.quot i 10 in
      c ← zero_at lsd;
      if negb (i =? 0) then convert_loop fuel' i (written ++ [c]) else Ret (written ++ [c])
  end.

(** [convert(buf, value)]: what [buf] holds before the final NUL. *)
Definition convert (value : Z) : outcome bytes :=
  p ← convert_loop 20 value [];
  let p := if value <? 0 then p ++ ["-"%char] else p in
  Ret (rev p).

(** ** LogStream *)

(** The arguments of the operators: [LCString None] is the null pointer, and a
    [double] comes with the text that [snprintf] prints for it. *)
Inductive log_item :=
  | LBool (v : bool)
  | LInteger (v : Z)
  | LDouble (text : bytes)
  | LChar (v : ascii)
  | LCString (str : option bytes)
  | LString (v : bytes).

Definition formatInteger (SIZE : Z) (b : bytes) (v : Z) : outcome bytes :=
  if kMaxNumericSize <=? avail SIZE b then p ← convert v; Ret (b ++ p) else Ret b.

Definition put (SIZE : Z) (b : bytes) (it : log_item) : outcome bytes :=
  match it with
  | LBool v => Ret (buffer_append SIZE b (lit (if v then "1" else "0")))
  | LInteger v => formatInteger SIZE b v
  | LDouble text => Ret (if kMaxNumericSize <=? avail SIZE b then b ++ text else b)
  | LChar v => Ret (buffer_append SIZE b [v])
  | LCString (Some str) => Ret (buffer_append SIZE b str)
  | LCString None => Ret (buffer_append SIZE b (lit "(null)"))
  | LString v => Ret (buffer_append SIZE b v)
  end.

Definition put_all (SIZE : Z) (b : bytes) (l : list log_item) : outcome bytes :=
  foldl (fun acc it => b ← acc; put SIZE b it) (Ret b) l.

(** ** Logger

    [LOG << items], in [fileName] at [line] at the time [str_t]: the bytes given
    to [output]. *)
Definition logger_line (str_t : bytes) (items : list log_item) (fileName : bytes) (line : Z)
    : outcome bytes :=
  put_all kSmallBuffer []
    (LCString (Some str_t) :: items ++
     [LCString (Some (lit " -- ")); LString fileName; LChar ":"; LInteger line; LChar LF]).

(** * Lemmas *)

(** What an item prints when there is room. *)
Definition render (it : log_item) : bytes :=
  match it with
  | LBool v => lit (if v then "1" else "0")
  | LInteger v => to_string v
  | LDouble text => text
  | LChar v => [v]
  | LCString (Some str) => str
  | LCString None => lit "(null)"
  | LString v => v
  end.

(** Integers of at most 64 bits, texts of [snprintf] within its limit, strings
    of at most 2 GiB. *)
Definition item_ok (it : log_item) : Prop :=
  match it with
  | LInteger v => - 2 ^ 63 <= v < 2 ^ 64
  | LDouble text => size text < kMaxNumericSize
  | _ => size (render it) < 2 ^ 31
  end.

Lemma dec_digits_acc fuel : forall n acc, dec_digits fuel n acc = dec_digits fuel n [] ++ acc.
Proof.
  induction fuel as [|fuel IH]; intros n acc; cbn [dec_digits]; [done|]. case_if; [done|].
  rewrite IH, (IH _ [_]). by rewrite <- app_assoc.
Qed.

Lemma zero_at_digit lsd : -9 <= lsd <= 9 -> zero_at lsd = Ret (digit_char (Z.abs lsd)).
Proof.
  intros H.
  assert (Hn : forall n, (n < 19)%nat ->
    zero_at (Z.of_nat n - 9) = Ret (digit_char (Z.abs (Z.of_nat n - 9)))).
  { intros n Hn. do 19 (destruct n as [|n]; [reflexivity|]). lia. }
  specialize (Hn (Z.to_nat (lsd + 9)) ltac:(lia)).
  by replace (Z.of_nat (Z.to_nat (lsd + 9)) - 9) with lsd in Hn by lia.
Qed.

(** The loop prints the digits of the absolute value, least significant first. *)
Lemma convert_loop_spec fuel : forall i written,
  (0 < fuel)%nat -> Z.abs i < 10 ^ Z.of_nat fuel ->
  convert_loop fuel i written = Ret (written ++ rev (dec_digits fuel (Z.abs i) [])).
Proof.
  induction fuel as [|fuel IH]; intros i written Hf Hi; [lia|]. cbn [convert_loop dec_digits].
  pose proof (Z.rem_bound_abs i 10 ltac:(lia)) as Hr. rewrite i32_small by lia.
  rewrite zero_at_digit by lia. cbn [mbind outcome_bind].
  pose proof (Z.rem_abs i 10 ltac:(lia)) as Hrem. pose proof (Z.quot_abs i 10 ltac:(lia)) as Hquot.
  rewrite Z.rem_mod_nonneg in Hrem by lia. rewrite Z.quot_div_nonneg in Hquot by lia.
  change (Z.abs 10) with 10 in *. rewrite <- Hrem, Hquot.
  rewrite Nat2Z.inj_succ, Z.pow_succ_r in Hi by lia.
  assert (Hq : Z.abs (Z.quot i 10) < 10 ^ Z.of_nat fuel)
    by (rewrite <- Hquot; apply Z.div_lt_upper_bound; lia).
  destruct (Z.quot i 10 =? 0) eqn:E; zbool; cbn [negb].
  - by rewrite E, Z.eqb_refl.
  - rewrite (proj2 (Z.eqb_neq _ _)) by lia. destruct fuel as [|fuel]; [simpl in Hq; lia|].
    rewrite IH by lia. rewrite (dec_digits_acc _ _ [_]), rev_app_distr. cbn [rev app].
    by rewrite <- app_assoc.
Qed.

Lemma convert_spec v : - 2 ^ 64 < v < 2 ^ 64 -> convert v = Ret (to_string v).
Proof.
  intros Hv. unfold convert, to_string. rewrite convert_loop_spec; [|lia|].
  2:{ change (Z.of_nat 20) with 20. lia. }
  cbn [mbind outcome_bind app]. case_if; zbool.
  - rewrite rev_app_distr, rev_involutive. cbn [rev app]. by rewrite Z.abs_neq by lia.
  - by rewrite rev_involutive, Z.abs_eq by lia.
Qed.

Lemma dec_digits_length fuel : forall n acc, (length (dec_digits fuel n acc) <= fuel + length acc)%nat.
Proof.
  induction fuel as [|fuel IH]; intros n acc; cbn [dec_digits]; [lia|]. case_if; [cbn; lia|].
  etrans; [apply IH|]. cbn. lia.
Qed.

(** A number, its sign and the NUL take at most 22 bytes. *)
Lemma to_string_length v : size (to_string v) <= 21.
Proof.
  unfold to_string, size. case_if; cbn [length];
    pose proof (dec_digits_length 20 (- v) []); pose proof (dec_digits_length 20 v []); cbn in *; lia.
Qed.

(** One insertion keeps the buffer within its bounds, and adds the item or
    nothing; it adds it when there is room. *)
Lemma put_spec SIZE b it :
  0 <= size b < SIZE -> SIZE < 2 ^ 31 -> item_ok it ->
  exists b', put SIZE b it = Ret b' /\ 0 <= size b' < SIZE /\ (b' = b ++ render it \/ b' = b) /\
    (size b + size (render it) + kMaxNumericSize <= SIZE -> b' = b ++ render it).
Proof.
  intros Hb HS Hit.
  assert (Happ : forall s, size s < 2 ^ 31 -> s = render it ->
    exists b', Ret (buffer_append SIZE b s) = Ret b' /\ 0 <= size b' < SIZE /\
      (b' = b ++ render it \/ b' = b) /\
      (size b + size (render it) + kMaxNumericSize <= SIZE -> b' = b ++ render it)).
  { intros s Hs <-. pose proof (size_nonneg s). unfold buffer_append, avail, kMaxNumericSize.
    rewrite !i32_small by lia. case_if; zbool; eexists; (split; [reflexivity|]).
    - rewrite size_app. split_and!; [lia|lia|by left|done].
    - split_and!; [lia|lia|by right|lia]. }
  assert (Hnum : forall s, size s < kMaxNumericSize -> s = render it ->
    exists b', (if kMaxNumericSize <=? avail SIZE b then Ret (b ++ s) else Ret b) = Ret b' /\
      0 <= size b' < SIZE /\ (b' = b ++ render it \/ b' = b) /\
      (size b + size (render it) + kMaxNumericSize <= SIZE -> b' = b ++ render it)).
  { intros s Hs <-. pose proof (size_nonneg s). unfold avail, kMaxNumericSize in *.
    rewrite i32_small by lia. case_if; zbool; eexists; (split; [reflexivity|]).
    - rewrite size_app. split_and!; [lia|lia|by left|done].
    - split_and!; [lia|lia|by right|lia]. }
  destruct it as [[|]|v|text|c|[str|]|v]; cbn [put render item_ok] in *; try (by apply Happ).
  - unfold formatInteger. rewrite convert_spec by lia. apply Hnum; [|done].
    pose proof (to_string_length v). unfold kMaxNumericSize. lia.
  - destruct (Hnum text Hit eq_refl) as (b' & Hb' & Hrest). exists b'. split; [|done].
    by case_if.
Qed.

Lemma put_all_cons SIZE b it l : put_all SIZE b (it :: l) = (b' ← put SIZE b it; put_all SIZE b' l).
Proof. unfold put_all. cbn [foldl]. apply foldl_outcome. Qed.

Lemma put_all_spec SIZE l : forall b,
  0 <= size b < SIZE -> SIZE < 2 ^ 31 -> Forall item_ok l ->
  exists kept, kept `sublist_of` l /\ put_all SIZE b l = Ret (b ++ concat (render <$> kept)) /\
    size (b ++ concat (render <$> kept)) < SIZE /\
    (size b + size (concat (render <$> l)) + kMaxNumericSize <= SIZE -> kept = l).
Proof.
  induction l as [|it l IH]; intros b Hb HS Hl.
  - exists []. cbn. rewrite app_nil_r. split_and!; [done|done|lia|done].
  - apply Forall_cons in Hl as [Hit Hl]. rewrite put_all_cons.
    destruct (put_spec SIZE b it Hb HS Hit) as (b' & -> & Hb' & Hcases & Hfit). cbn [mbind outcome_bind].
    destruct (IH b' Hb' HS Hl) as (kept & Hk & -> & Hsz & Hall).
    pose proof (size_nonneg (render it)). pose proof (size_nonneg (concat (render <$> l))).
    assert (Hadd : b' = b ++ render it \/
      (b' = b /\ SIZE < size b + size (render it) + kMaxNumericSize)).
    { destruct (Z_le_gt_dec (size b + size (render it) + kMaxNumericSize) SIZE); [auto|].
      destruct Hcases; [by left|right; split; [done|lia]]. }
    destruct Hadd as [->|[-> Hfull]].
    + exists (it :: kept). cbn [fmap list_fmap concat]. rewrite app_assoc. split_and!; [by constructor|done|done|].
      rewrite size_app. intros Hs. f_equal. apply Hall. rewrite size_app. lia.
    + exists kept. split_and!; [by constructor|done|done|].
      cbn [fmap list_fmap concat]. rewrite size_app. lia.
Qed.

(** The line of [logger_line]: the pieces that fitted. *)
Lemma logger_line_spec str_t items fileName line :
  let all := LCString (Some str_t) :: items ++
    [LCString (Some (lit " -- ")); LString fileName; LChar ":"; LInteger line; LChar LF] in
  size str_t < 2 ^ 31 -> Forall item_ok items -> size fileName < 2 ^ 31 -> - 2 ^ 31 <= line < 2 ^ 31 ->
  exists kept, kept `sublist_of` all /\
    logger_line str_t items fileName line = Ret (concat (render <$> kept)) /\
    size (concat (render <$> kept)) < kSmallBuffer /\
    (size (concat (render <$> all)) + kMaxNumericSize <= kSmallBuffer -> kept = all).
Proof.
  intros all Ht Hi Hf Hl.
  destruct (put_all_spec kSmallBuffer all []) as (kept & H1 & H2 & H3 & H4).
  - rewrite size_nil. unfold kSmallBuffer. lia.
  - done.
  - constructor; [done|]. apply Forall_app. split; [done|]. repeat constructor; cbn; lia.
  - exists kept. rewrite app_nil_l in *. by split_and!.
Qed.

(** * Properties *)

(** [convert] prints decimal. For every value of the signed and unsigned
    types of up to 64 bits, the most negative one included, it returns the
    decimal representation, without reading outside of its table. *)
Theorem convert_is_decimal v : - 2 ^ 63 <= v < 2 ^ 64 -> convert v = Ret (to_string v).
Proof. intros Hv. apply convert_spec. lia. Qed.

Lemma convert_is_decimal_witness : convert (- 2 ^ 63) = Ret (lit "-9223372036854775808").
Proof. apply (convert_is_decimal (- 2 ^ 63)). lia. Defined.

(** C35: A log line stays within its buffer. Whatever is inserted, the line is
    made without overflow, is shorter than the buffer of 4000 bytes, and is the
    concatenation of the inserted pieces less those that did not fit, each
    dropped whole; nothing is dropped from a line that leaves 32 bytes free. *)
Theorem logger_line_bounded str_t items fileName line :
  let all := LCString (Some str_t) :: items ++
    [LCString (Some (lit " -- ")); LString fileName; LChar ":"; LInteger line; LChar LF] in
  size str_t < 2 ^ 31 -> Forall item_ok items -> size fileName < 2 ^ 31 -> - 2 ^ 31 <= line < 2 ^ 31 ->
  exists kept, kept `sublist_of` all /\
    logger_line str_t items fileName line = Ret (concat (render <$> kept)) /\
    size (concat (render <$> kept)) < kSmallBuffer /\
    (size (concat (render <$> all)) + kMaxNumericSize <= kSmallBuffer -> kept = all).
Proof. apply logger_line_spec. Qed.

Lemma logger_line_bounded_witness :
  let items := [LCString (Some (lit "fd = ")); LInteger (-7); LBool true] in
  let all := LCString (Some (lit "2024-01-01 00:00:00")) :: items ++
    [LCString (Some (lit " -- ")); LString (lit "a.cpp"); LChar ":"; LInteger 12; LChar LF] in
  exists kept, kept `sublist_of` all /\
    logger_line (lit "2024-01-01 00:00:00") items (lit "a.cpp") 12 = Ret (concat (render <$> kept)) /\
    size (concat (render <$> kept)) < kSmallBuffer /\
    (size (concat (render <$> all)) + kMaxNumericSize <= kSmallBuffer -> kept = all).
Proof.
  intros items all. apply logger_line_bounded; [done| |done|lia]. repeat constructor; cbn; lia.
Defined.
