(* ===== verification/AsyncLogging.v ===== *)
(** * AsyncLogging: the double-buffered log (WebServer/base/{AsyncLogging,LogFile,FileUtil,CountDownLatch})

    Front ends inside [append], the thread inside [threadFunc] and [stop], one
    critical section, or one stretch of code on local data, per action.  Buffers
    have one owner at a time, so they are values; a moved-from pointer is
    [None]. *)

From S2P Require Export LogStream.

(** ** AppendFile and LogFile *)

(** [fwrite_unlocked] of [len] bytes: how many are taken. The list says what
    the next calls take; they take all once it is used up. *)
Definition fwrite (len : Z) (k : list Z) : Z * list Z :=
  match k with
  | [] => (len, [])
  | n :: k' => (Z.max 0 (Z.min n len), k')
  end.

(** The loop of [AppendFile::append] on what remains. *)
Fixpoint append_loop (k : list Z) (remain : bytes) : bytes * list Z :=
  if size remain =? 0 then ([], k)
  else
    match k with
    | [] => (remain, [])
    | n :: k' =>
        let x := Z.to_nat (Z.max 0 (Z.min n (size remain))) in
        if Nat.eqb x 0 then ([], k')
        else let '(out, k'') := append_loop k' (drop x remain) in (take x remain ++ out, k'')
    end.

(** [AppendFile::append]: the bytes written. *)
Definition AppendFile_append (k : list Z) (logline : bytes) : bytes * list Z :=
  let '(n, k) := fwrite (size logline) k in
  let '(out, k) := append_loop k (drop (Z.to_nat n) logline) in
  (take (Z.to_nat n) logline ++ out, k).

(** [stream]: what the file held when it was opened, for appending, and what
    went into the stream since; how much of it was flushed; the calls since the
    last flush; what the next [fwrite] calls take; [lost]: the rests of the
    lines that [append] gave up. [fopen] is assumed to succeed, and [fflush] to
    write out what the stream holds. *)
Record LogFile := mkLogFile {
  basename_ : bytes;
  stream : bytes;
  flushed : Z;
  count_ : Z;
  fwrites : list Z;
  lost : list bytes
}.

Definition flushEveryN : Z := 1024.

Definition new_LogFile (basename content : bytes) (k : list Z) : LogFile :=
  mkLogFile basename content (size content) 0 k [].

Definition file_flush (f : LogFile) : LogFile :=
  mkLogFile (basename_ f) (stream f) (size (stream f)) (count_ f) (fwrites f) (lost f).

Definition file_append (f : LogFile) (logline : bytes) : LogFile :=
  let '(out, k) := AppendFile_append (fwrites f) logline in
  let c := count_ f + 1 in
  let full := flushEveryN <=? c in
  let f := mkLogFile (basename_ f) (stream f ++ out) (flushed f) (if full then 0 else c) k
             (lost f ++ [drop (length out) logline]) in
  if full then file_flush f else f.

(** ** AsyncLogging *)

(** Where [threadFunc] is: before its loop, at the test of [running_], about to
    lock, waiting on the condition, past the critical section, and returned. *)
Inductive thread_pc :=
  | TStart | THead | TLock | TWait | TWrite (buffersToWrite : list bytes) | TDone.

(** [appended]: the lines of all calls of [append]; [discarded]: the buffers
    that were erased unwritten. *)
Record AsyncLogging := mkLogging {
  running_ : bool;
  currentBuffer_ : option bytes;
  nextBuffer_ : option bytes;
  buffers_ : list bytes;
  latch_ : Z;
  tpc : thread_pc;
  newBuffer1 : option bytes;
  newBuffer2 : option bytes;
  output : LogFile;
  appended : list bytes;
  discarded : list bytes
}.

(** The constructor and [start], up to the wait on the latch: the file [basename]
    holds [content], and the calls of [fwrite] take what [k] says. *)
Definition start_logging (basename content : bytes) (k : list Z) : AsyncLogging :=
  mkLogging true (Some []) (Some []) [] 1 TStart (Some []) (Some []) (new_LogFile basename content k) [] [].

Definition set_tpc (a : AsyncLogging) (p : thread_pc) : AsyncLogging :=
  mkLogging (running_ a) (currentBuffer_ a) (nextBuffer_ a) (buffers_ a) (latch_ a) p (newBuffer1 a)
    (newBuffer2 a) (output a) (appended a) (discarded a).

Definition assert_ (b : bool) : outcome unit := if b then Ret tt else UB.

(** [append]: the locked body. *)
Definition append (a : AsyncLogging) (logline : bytes) : outcome AsyncLogging :=
  match currentBuffer_ a with
  | None => UB
  | Some cur =>
      let set cur next bufs :=
        mkLogging (running_ a) (Some cur) next bufs (latch_ a) (tpc a) (newBuffer1 a) (newBuffer2 a)
          (output a) (appended a ++ [logline]) (discarded a) in
      if i32 (size logline) <? avail kLargeBuffer cur then
        Ret (set (buffer_append kLargeBuffer cur logline) (nextBuffer_ a) (buffers_ a))
      else
        let '(fresh, next) := match nextBuffer_ a with Some b => (b, None) | None => ([], None) end in
        Ret (set (buffer_append kLargeBuffer fresh logline) next (buffers_ a ++ [cur]))
  end.

(** [stop], up to the join. *)
Definition stop (a : AsyncLogging) : AsyncLogging :=
  mkLogging false (currentBuffer_ a) (nextBuffer_ a) (buffers_ a) (latch_ a) (tpc a) (newBuffer1 a)
    (newBuffer2 a) (output a) (appended a) (discarded a).

(** The end of the critical section of [threadFunc]. *)
Definition swap_buffers (a : AsyncLogging) : outcome AsyncLogging :=
  match currentBuffer_ a with
  | None => UB
  | Some cur =>
      let '(next, new2) :=
        match nextBuffer_ a with Some b => (Some b, newBuffer2 a) | None => (newBuffer2 a, None) end in
      Ret (mkLogging (running_ a) (newBuffer1 a) next [] (latch_ a) (TWrite (buffers_ a ++ [cur])) None new2
             (output a) (appended a) (discarded a))
  end.

(** Taking back a buffer from the end of [buffersToWrite]. *)
Definition refill (b : option bytes) (l : list bytes) : outcome (option bytes * list bytes) :=
  match b with
  | Some _ => Ret (b, l)
  | None =>
      _ ← assert_ (negb (bool_decide (l = [])));
      Ret (Some [], take (length l - 1) l)
  end.

(** What [threadFunc] does with [buffersToWrite] after the critical section. *)
Definition write_buffers (a : AsyncLogging) (l : list bytes) : outcome AsyncLogging :=
  _ ← assert_ (negb (bool_decide (l = [])));
  let erased := if 25 <? Z.of_nat (length l) then drop 2 l else [] in
  let l := if 25 <? Z.of_nat (length l) then take 2 l else l in
  let out := foldl file_append (output a) l in
  let l := if 2 <? Z.of_nat (length l) then take 2 l else l in
  '(new1, l) ← refill (newBuffer1 a) l;
  '(new2, l) ← refill (newBuffer2 a) l;
  Ret (mkLogging (running_ a) (currentBuffer_ a) (nextBuffer_ a) (buffers_ a) (latch_ a) THead new1 new2
         (file_flush out) (appended a) (discarded a ++ erased)).

Definition empty_buffer (b : option bytes) : bool := bool_decide (b = Some []).

(** One action of [threadFunc]. *)
Definition thread_action (a : AsyncLogging) : outcome AsyncLogging :=
  match tpc a with
  | TStart =>
      _ ← assert_ (running_ a);
      Ret (mkLogging (running_ a) (currentBuffer_ a) (nextBuffer_ a) (buffers_ a) (latch_ a - 1) THead
             (newBuffer1 a) (newBuffer2 a) (output a) (appended a) (discarded a))
  | THead =>
      if running_ a then
        _ ← assert_ (empty_buffer (newBuffer1 a));
        _ ← assert_ (empty_buffer (newBuffer2 a));
        Ret (set_tpc a TLock)
      else
        Ret (mkLogging (running_ a) (currentBuffer_ a) (nextBuffer_ a) (buffers_ a) (latch_ a) TDone
               (newBuffer1 a) (newBuffer2 a) (file_flush (output a)) (appended a) (discarded a))
  | TLock => if bool_decide (buffers_ a = []) then Ret (set_tpc a TWait) else swap_buffers a
  | TWait => swap_buffers a
  | TWrite l => write_buffers a l
  | TDone => Ret a
  end.

(** Calls of the other threads, and the thread. [stop] is called once [start]
    has returned: its wait on the latch is over. *)
Inductive logging_action := Append (logline : bytes) | Stop | Thread.

Definition logging_step (a : AsyncLogging) (act : logging_action) : outcome AsyncLogging :=
  match act with
  | Append l => append a l
  | Stop => if latch_ a =? 0 then Ret (stop a) else Ret a
  | Thread => thread_action a
  end.

Definition run_logging (a : AsyncLogging) (acts : list logging_action) : outcome AsyncLogging :=
  foldl (fun acc act => a ← acc; logging_step a act) (Ret a) acts.

(** * Lemmas *)

(** The lines that [Logger] makes, and more, fit into a buffer. *)
Definition action_ok (act : logging_action) : Prop :=
  match act with Append l => size l < kLargeBuffer | _ => True end.

(** The bytes accepted and not yet in the stream, in order. *)
Definition pending (a : AsyncLogging) : bytes :=
  concat (match tpc a with TWrite l => l | _ => [] end) ++ concat (buffers_ a) ++
  default [] (currentBuffer_ a).

(** The thread owns two empty buffers outside of [TWrite]; there it has lent
    the first, and the second if [append] had used up the spare one, in which
    case there are two buffers to take back. *)
Definition thread_ok (a : AsyncLogging) : Prop :=
  match tpc a with
  | TWrite l =>
      l <> [] /\ newBuffer1 a = None /\
      (newBuffer2 a = Some [] \/ (newBuffer2 a = None /\ (2 <= length l)%nat))
  | _ => newBuffer1 a = Some [] /\ newBuffer2 a = Some []
  end.

(** Every call of [fwrite] takes a byte. *)
Definition takes_some (k : list Z) : Prop := Forall (fun n => 0 < n) k.

(** [content] is what the file held, [k] what the calls of [fwrite] take. *)
Record logging_ok (content : bytes) (k : list Z) (a : AsyncLogging) : Prop := {
  ok_current : exists c, currentBuffer_ a = Some c /\ size c < kLargeBuffer;
  ok_next : nextBuffer_ a = Some [] \/ (nextBuffer_ a = None /\ buffers_ a <> []);
  ok_thread : thread_ok a;
  ok_latch : latch_ a = match tpc a with TStart => 1 | _ => 0 end /\ (tpc a = TStart -> running_ a = true);
  ok_file : flushed (output a) = size (stream (output a));
  ok_lost : takes_some k -> takes_some (fwrites (output a)) /\ concat (lost (output a)) = [];
  ok_bytes : size (stream (output a)) + size (concat (lost (output a))) + size (concat (discarded a)) +
             size (pending a) = size content + size (concat (appended a));
  ok_order : discarded a = [] -> concat (lost (output a)) = [] ->
             stream (output a) ++ pending a = content ++ concat (appended a)
}.

Lemma start_logging_ok basename content k : logging_ok content k (start_logging basename content k).
Proof. split; try done; [by exists []|by left|unfold pending; cbn; rewrite size_nil; lia]. Qed.

Lemma append_loop_spec k : forall remain,
  (append_loop k remain).1 `prefix_of` remain /\
  (takes_some k -> (append_loop k remain).1 = remain /\ takes_some (append_loop k remain).2).
Proof.
  induction k as [|n k IH]; intros remain; cbn [append_loop];
    (destruct (size remain =? 0) eqn:E; zbool;
     [destruct remain; [by cbn|rewrite size_cons in E; pose proof (size_nonneg remain); lia]|]).
  - cbn. split; [done|done].
  - set (x := Z.to_nat (Z.max 0 (Z.min n (size remain)))). destruct (Nat.eqb x 0) eqn:Ex.
    + cbn. split; [apply prefix_nil|]. intros [Hn _]%Forall_cons. apply Nat.eqb_eq in Ex.
      pose proof (size_nonneg remain). lia.
    + destruct (IH (drop x remain)) as [Hp Hall]. destruct (append_loop k _) as [out k'']. cbn [fst snd] in *.
      split.
      * destruct Hp as [r Hr]. exists r. by rewrite <- app_assoc, <- Hr, take_drop.
      * intros [_ Hk]%Forall_cons. destruct (Hall Hk) as [-> ?]. by rewrite take_drop.
Qed.

(** [append] writes a first part of a line, and all of it if every call of
    [fwrite] takes a byte. *)
Lemma AppendFile_append_spec k logline :
  let '(out, k') := AppendFile_append k logline in
  out ++ drop (length out) logline = logline /\
  (takes_some k -> takes_some k' /\ drop (length out) logline = []).
Proof.
  unfold AppendFile_append. destruct (fwrite (size logline) k) as [n k1] eqn:Ef.
  assert (Hk1 : takes_some k -> takes_some k1).
  { unfold fwrite in Ef. destruct k; injection Ef as _ <-; [done|]. by intros [_ ?]%Forall_cons. }
  destruct (append_loop_spec k1 (drop (Z.to_nat n) logline)) as [[r Hr] Hall].
  destruct (append_loop k1 _) as [out k2]. cbn [fst snd] in *.
  assert (Hl : logline = (take (Z.to_nat n) logline ++ out) ++ r) by (rewrite <- app_assoc, <- Hr; by rewrite take_drop).
  assert (Hd : drop (length (take (Z.to_nat n) logline ++ out)) logline = r).
  { rewrite Hl at 2. by apply drop_app_length. }
  rewrite Hd. split; [done|]. intros Hk. destruct (Hall (Hk1 Hk)) as [-> ?]. split; [done|].
  symmetry in Hr. rewrite <- (app_nil_r (drop _ _)) in Hr at 2. by apply app_inv_head in Hr.
Qed.

Lemma file_append_spec f b :
  let f' := file_append f b in
  (exists out rest, stream f' = stream f ++ out /\ lost f' = lost f ++ [rest] /\ b = out ++ rest /\
     (takes_some (fwrites f) -> takes_some (fwrites f') /\ rest = [])) /\ basename_ f' = basename_ f.
Proof.
  unfold file_append. pose proof (AppendFile_append_spec (fwrites f) b) as Hs.
  destruct (AppendFile_append _ b) as [out k]. destruct Hs as [Hb Hk]. cbv zeta.
  destruct (flushEveryN <=? _); (split; [|done]); exists out, (drop (length out) b); by split_and!.
Qed.

Lemma concat_snoc {A} (l : list (list A)) x : concat (l ++ [x]) = concat l ++ x.
Proof. rewrite concat_app. cbn. by rewrite app_nil_r. Qed.

Lemma file_appends_spec l : forall f,
  let f' := foldl file_append f l in
  size (stream f') + size (concat (lost f')) = size (stream f) + size (concat (lost f)) + size (concat l) /\
  (concat (lost f') = [] -> concat (lost f) = [] /\ stream f' = stream f ++ concat l) /\
  (takes_some (fwrites f) -> takes_some (fwrites f') /\ (concat (lost f) = [] -> concat (lost f') = [])) /\
  basename_ f' = basename_ f.
Proof.
  induction l as [|b l IH]; intros f; cbn [foldl concat].
  - rewrite app_nil_r, size_nil. split_and!; [lia|done..].
  - destruct (file_append_spec f b) as [(out & rest & Hs & Hl & Hb & Hk) Hn].
    destruct (IH (file_append f b)) as (IH1 & IH2 & IH3 & IH4). cbv zeta in *.
    rewrite Hs, Hl, Hn, concat_snoc in *. subst b. rewrite !size_app in *. split_and!.
    + lia.
    + intros H0. destruct (IH2 H0) as [[H1 ->]%app_nil Hst]. split; [done|].
      by rewrite Hst, app_nil_r, <- app_assoc.
    + intros Hf. destruct (Hk Hf) as [Hk' ->]. destruct (IH3 Hk') as [? H0]. split; [done|].
      intros Hl0. apply H0. by rewrite Hl0.
    + done.
Qed.

Lemma buffer_append_fits b s :
  size b + size s < kLargeBuffer -> buffer_append kLargeBuffer b s = b ++ s.
Proof.
  unfold buffer_append, avail, kLargeBuffer. intros H. pose proof (size_nonneg b). pose proof (size_nonneg s).
  rewrite !i32_small by lia. by rewrite (proj2 (Z.ltb_lt _ _)) by lia.
Qed.

Section invariant.
Context (content : bytes) (k : list Z).

Lemma append_ok a l :
  logging_ok content k a -> size l < kLargeBuffer -> exists a', append a l = Ret a' /\ logging_ok content k a'.
Proof.
  intros [(c & Hc & Hcs) Hn Ht Hl Hf Hk Hb Ho] Hsz. unfold append. rewrite Hc.
  pose proof (size_nonneg c). pose proof (size_nonneg l).
  assert (Hav : (i32 (size l) <? avail kLargeBuffer c) = (size c + size l <? kLargeBuffer)).
  { unfold avail, kLargeBuffer in *. rewrite !i32_small by lia.
    apply Bool.eq_iff_eq_true. rewrite !Z.ltb_lt. lia. }
  rewrite Hav. unfold pending in Hb, Ho. rewrite Hc in Hb, Ho. change (default [] (Some c)) with c in Hb, Ho.
  case_if; zbool.
  - eexists. split; [reflexivity|]. rewrite buffer_append_fits by done. split; cbn; try done.
    + exists (c ++ l). by rewrite size_app.
    + unfold pending. cbn [tpc buffers_ currentBuffer_ default id]. rewrite concat_snoc.
      rewrite !size_app in *. lia.
    + intros Hd Hlo. rewrite concat_snoc, (app_assoc content), <- (Ho Hd Hlo). unfold pending.
      cbn [tpc buffers_ currentBuffer_ default id]. by rewrite <- !app_assoc.
  - set (fresh := match nextBuffer_ a with Some b => (b, None) | None => ([], None) end).
    assert (Hfresh : fresh = ([], None)) by (unfold fresh; by destruct Hn as [->|[-> _]]).
    rewrite Hfresh. eexists. split; [reflexivity|]. rewrite buffer_append_fits by (rewrite size_nil; lia).
    split; cbn; try done.
    + by exists l.
    + right. split; [done|]. by destruct (buffers_ a).
    + unfold pending. cbn [tpc buffers_ currentBuffer_ default id app]. rewrite !concat_snoc.
      rewrite !size_app in *. lia.
    + intros Hd Hlo. unfold pending. cbn [tpc buffers_ currentBuffer_ default id app].
      rewrite !concat_snoc, (app_assoc content), <- (Ho Hd Hlo). by rewrite <- !app_assoc.
Qed.

Lemma swap_ok a :
  logging_ok content k a -> tpc a = TLock \/ tpc a = TWait -> exists a', swap_buffers a = Ret a' /\ logging_ok content k a'.
Proof.
  intros [(c & Hc & Hcs) Hn Ht Hl Hf Hk Hb Ho] Hpc. unfold swap_buffers. rewrite Hc.
  assert (Hnew : newBuffer1 a = Some [] /\ newBuffer2 a = Some []).
  { unfold thread_ok in Ht. by destruct Hpc as [E|E]; rewrite E in Ht. }
  assert (Hlat : latch_ a = 0) by (destruct Hl as [-> _]; by destruct Hpc as [-> | ->]).
  assert (Hpend : pending a = concat (buffers_ a ++ [c])).
  { unfold pending. rewrite Hc, concat_app. cbn. rewrite app_nil_r. by destruct Hpc as [-> | ->]. }
  rewrite Hpend in *. destruct Hnew as [H1 H2]. rewrite H1, H2.
  assert (Hswap : forall next new2, next = Some [] ->
    (new2 = Some [] \/ (new2 = None /\ (2 <= length (buffers_ a ++ [c]))%nat)) ->
    logging_ok content k (mkLogging (running_ a) (Some []) next [] (latch_ a) (TWrite (buffers_ a ++ [c])) None new2
      (output a) (appended a) (discarded a))).
  { intros next new2 -> H. split; cbn; try done.
    - by exists [].
    - by left.
    - unfold thread_ok. cbn. split; [by destruct (buffers_ a)|done].
    - unfold pending. cbn. rewrite !app_nil_r. done.
    - unfold pending. cbn. by rewrite !app_nil_r. }
  destruct Hn as [-> | [-> Hne]]; (eexists; split; [reflexivity|]); apply Hswap; try done; [by left|].
  right. split; [done|]. rewrite length_app. destruct (buffers_ a); [done|]. cbn. lia.
Qed.

(** What is written, and what is erased. *)
Definition kept (l : list bytes) : list bytes := if 25 <? Z.of_nat (length l) then take 2 l else l.
Definition erased (l : list bytes) : list bytes := if 25 <? Z.of_nat (length l) then drop 2 l else [].

Lemma kept_erased l : kept l ++ erased l = l.
Proof. unfold kept, erased. case_if; [apply take_drop|apply app_nil_r]. Qed.

Lemma kept_length l : l <> [] -> kept l <> [] /\ ((2 <= length l)%nat -> (2 <= length (kept l))%nat).
Proof.
  intros Hl. unfold kept. case_if; [|done]. destruct l as [|x [|y l]]; cbn in *; zbool; (split; [done|lia]).
Qed.

Lemma write_buffers_spec a l :
  l <> [] -> newBuffer1 a = None ->
  (newBuffer2 a = Some [] \/ (newBuffer2 a = None /\ (2 <= length l)%nat)) ->
  write_buffers a l =
  Ret (mkLogging (running_ a) (currentBuffer_ a) (nextBuffer_ a) (buffers_ a) (latch_ a) THead (Some []) (Some [])
         (file_flush (foldl file_append (output a) (kept l))) (appended a) (discarded a ++ erased l)).
Proof.
  intros Hl H1 H2. destruct (kept_length l Hl) as [Hk Hk2].
  unfold write_buffers. rewrite bool_decide_false by done. cbn [negb assert_ mbind outcome_bind]. cbv zeta.
  fold (kept l) (erased l). set (m := if 2 <? _ then _ else kept l).
  assert (Hm : length m = Nat.min 2 (length (kept l))).
  { unfold m. case_if; zbool; rewrite ?length_take; lia. }
  rewrite H1. unfold refill.
  assert (Hm1 : m <> []) by (intros E; rewrite E in Hm; destruct (kept l); cbn in Hm; [done|lia]).
  rewrite bool_decide_false by done. cbn [negb assert_ mbind outcome_bind].
  destruct H2 as [-> | [-> H2]]; [done|].
  rewrite bool_decide_false; [done|]. intros E%(f_equal length). rewrite length_take in E. cbn in E.
  specialize (Hk2 H2). lia.
Qed.

Lemma write_ok a l :
  logging_ok content k a -> tpc a = TWrite l -> exists a', write_buffers a l = Ret a' /\ logging_ok content k a'.
Proof.
  intros [Hc Hn Ht Hl Hf Hk Hb Ho] Hpc. unfold thread_ok in Ht. rewrite Hpc in Ht, Hl.
  destruct Ht as (Hne & H1 & H2). rewrite write_buffers_spec by done. eexists. split; [reflexivity|].
  destruct (file_appends_spec (kept l) (output a)) as (Hs & Hst & Hlost & _).
  unfold pending in Hb, Ho. rewrite Hpc in Hb, Ho.
  rewrite <- (kept_erased l), concat_app in Hb.
  split; cbn; try done.
  - split; [apply Hl|done].
  - intros Htk. destruct (Hk Htk) as [Hf1 Hf2]. destruct (Hlost Hf1) as [? Hf3]. split; [done|by apply Hf3].
  - unfold pending. cbn. rewrite concat_app, !size_app in *. lia.
  - intros [Hd He]%app_nil Hl0. destruct (Hst Hl0) as [Hl1 Hs1]. specialize (Ho Hd Hl1).
    rewrite <- Ho, Hs1. unfold pending. cbn.
    rewrite <- (kept_erased l) at 2. by rewrite He, app_nil_r, <- app_assoc.
Qed.

Lemma thread_action_ok a : logging_ok content k a -> exists a', thread_action a = Ret a' /\ logging_ok content k a'.
Proof.
  intros Hok. unfold thread_action. destruct (tpc a) as [| | | |l|] eqn:Hpc.
  - destruct Hok as [Hc Hn Ht [Hl Hr] Hf Hk Hb Ho]. unfold thread_ok, pending in *. rewrite Hpc in *.
    rewrite Hr by done. cbn [assert_ mbind outcome_bind]. eexists. split; [reflexivity|].
    split; cbn; try done. split; [lia|done].
  - destruct Hok as [Hc Hn Ht Hl Hf Hk Hb Ho]. unfold thread_ok, pending in *. rewrite Hpc in *.
    destruct Ht as [H1 H2]. destruct (running_ a) eqn:Er.
    + rewrite H1, H2. cbn. eexists. split; [reflexivity|]. split; cbn; try done. split; [apply Hl|done].
    + eexists. split; [reflexivity|]. split; cbn; try done. split; [apply Hl|done].
  - case_if; [|apply swap_ok; auto].
    destruct Hok as [Hc Hn Ht Hl Hf Hk Hb Ho]. unfold thread_ok, pending in *. rewrite Hpc in *.
    eexists. split; [reflexivity|]. split; cbn; try done. split; [apply Hl|done].
  - apply swap_ok; auto.
  - by apply write_ok.
  - by exists a.
Qed.

Lemma logging_step_ok a act :
  logging_ok content k a -> action_ok act -> exists a', logging_step a act = Ret a' /\ logging_ok content k a'.
Proof.
  intros Hok Hact. destruct act as [l| |]; cbn [logging_step].
  - by apply append_ok.
  - case_if; [|by exists a]. zbool. eexists. split; [reflexivity|].
    destruct Hok as [Hc Hn Ht [Hl Hr] Hf Hk Hb Ho]. split; try done. split; [done|].
    cbn. intros Hs. rewrite Hs in Hl. lia.
  - by apply thread_action_ok.
Qed.

Lemma run_logging_ok basename acts :
  Forall action_ok acts ->
  exists a, run_logging (start_logging basename content k) acts = Ret a /\ logging_ok content k a.
Proof.
  intros Hacts.
  destruct (foldl_outcome_returns logging_step (fun a l => logging_ok content k a /\ Forall action_ok l) acts
    (start_logging basename content k)) as (a & Ha & Hok & _).
  - intros a act l [Hok Hl]. apply Forall_cons in Hl as [Hact Hl].
    destruct (logging_step_ok a act Hok Hact) as (a' & Ha' & Hok'). by exists a'.
  - split; [apply start_logging_ok|done].
  - by exists a.
Qed.
End invariant.

(** * Properties *)

(** C19: The double-buffered log is safe and keeps its lines. The file holds
    [content] when it is opened, and each call of [fwrite] takes what the list
    [k] says. For any calls of [append] and [stop] and any interleaving with the
    thread, no assertion fails and no moved-from buffer is used; every byte
    accepted is in the file, in a buffer, in a buffer that was erased because
    more than 25 were waiting, or in the rest of an append that was given up
    after a call of [fwrite] that took nothing; if none was erased or given up,
    the file followed by the buffers is the content it had and exactly the lines
    in the order of the calls; and nothing is given up, however short the
    writes, as long as every call of [fwrite] takes a byte. *)
Theorem async_logging_conserves basename content k acts :
  Forall action_ok acts ->
  exists a, run_logging (start_logging basename content k) acts = Ret a /\
    size (stream (output a)) + size (concat (lost (output a))) + size (concat (discarded a)) +
      size (pending a) = size content + size (concat (appended a)) /\
    (discarded a = [] -> concat (lost (output a)) = [] ->
     stream (output a) ++ pending a = content ++ concat (appended a)) /\
    (Forall (fun n => 0 < n) k -> concat (lost (output a)) = []).
Proof.
  intros H. destruct (run_logging_ok content k basename acts H) as (a & Ha & [_ _ _ _ _ Hk Hb Ho]).
  exists a. split_and!; [done..|]. intros Hf. by apply Hk.
Qed.

(** Short writes, and one that takes nothing. *)
Lemma async_logging_conserves_witness :
  let acts := [Thread; Append (lit "one "); Thread; Thread; Append (lit "two "); Thread; Append (lit "three "); Thread;
               Thread; Thread; Thread; Thread] in
  let a0 := start_logging (lit "/tmp/log") (lit "old ") [1; 2; 7; 3; 0; 0] in
  exists a, run_logging a0 acts = Ret a /\
    size (stream (output a)) + size (concat (lost (output a))) + size (concat (discarded a)) +
      size (pending a) = size (lit "old ") + size (concat (appended a)) /\
    (discarded a = [] -> concat (lost (output a)) = [] ->
     stream (output a) ++ pending a = lit "old " ++ concat (appended a)) /\
    (Forall (fun n => 0 < n) [1; 2; 7; 3; 0; 0] -> concat (lost (output a)) = []).
Proof. intros acts a0. apply async_logging_conserves. repeat constructor. Defined.

(** The first buffer took three calls; the second was given up at the zero. *)
Example short_writes :
  let acts := [Thread; Append (lit "one "); Thread; Thread; Append (lit "two "); Thread; Append (lit "three "); Thread;
               Thread; Thread; Thread; Thread] in
  match run_logging (start_logging (lit "/tmp/log") (lit "old ") [1; 2; 7; 3; 0; 0]) acts with
  | Ret a => bool_decide (stream (output a) = lit "old one two thr" /\ concat (lost (output a)) = lit "ee ")
  | _ => false
  end = true.
Proof. vm_compute. reflexivity. Qed.

(** What [stop] leaves behind. From any reachable state in which [stop] has
    been called while the thread was writing, the thread finishes by writing
    what it had taken and returns; the lines accepted since its last critical
    section stay in the buffers and never reach the file. *)
Theorem stop_leaves_lines basename content acts a l :
  Forall action_ok acts -> run_logging (start_logging basename content []) acts = Ret a ->
  running_ a = false -> tpc a = TWrite l ->
  exists a', run_logging a [Thread; Thread] = Ret a' /\ tpc a' = TDone /\
    stream (output a') = stream (output a) ++ concat (kept l) /\
    flushed (output a') = size (stream (output a')) /\
    buffers_ a' = buffers_ a /\ currentBuffer_ a' = currentBuffer_ a.
Proof.
  intros Hacts Hrun Hr Hpc. destruct (run_logging_ok content [] basename acts Hacts) as (b & Hb & Hok).
  rewrite Hrun in Hb. injection Hb as <-. destruct Hok as [_ _ Ht _ _ Hk _ _].
  unfold thread_ok in Ht. rewrite Hpc in Ht. destruct Ht as (Hne & H1 & H2).
  unfold run_logging. cbn [foldl logging_step mbind outcome_bind]. unfold thread_action at 2. rewrite Hpc.
  rewrite write_buffers_spec by done. cbn [mbind outcome_bind thread_action tpc]. cbn [running_]. rewrite Hr.
  destruct (Hk (Forall_nil_2 _)) as [Hf Hl]. destruct (file_appends_spec (kept l) (output a)) as (_ & Hs & Hf' & _).
  eexists. split; [reflexivity|]. cbn. split_and!; [done| |done..]. by apply Hs, Hf'.
Qed.

Lemma stop_leaves_lines_witness :
  let acts := [Thread; Append (lit "kept "); Thread; Thread; Thread; Append (lit "lost "); Stop] in
  exists a, run_logging (start_logging (lit "/tmp/log") [] []) acts = Ret a /\ tpc a = TWrite [lit "kept "] /\
  exists a', run_logging a [Thread; Thread] = Ret a' /\ tpc a' = TDone /\
    stream (output a') = stream (output a) ++ concat (kept [lit "kept "]) /\
    flushed (output a') = size (stream (output a')) /\
    buffers_ a' = buffers_ a /\ currentBuffer_ a' = currentBuffer_ a.
Proof.
  intros acts.
  set (a := mkLogging false (Some (lit "lost ")) (Some []) [] 0 (TWrite [lit "kept "]) None (Some [])
    (new_LogFile (lit "/tmp/log") [] []) [lit "kept "; lit "lost "] []).
  assert (Ha : run_logging (start_logging (lit "/tmp/log") [] []) acts = Ret a) by by vm_compute.
  exists a. split; [exact Ha|]. split; [reflexivity|].
  apply (stop_leaves_lines (lit "/tmp/log") [] acts a [lit "kept "]); [repeat constructor|exact Ha|reflexivity|reflexivity].
Defined.
