(* ===== verification/LogSystem.v ===== *)
(** * LogSystem: the statements [LOG << ...] of the epoll server
      (WebServer/base/Logging.{h,cpp} over LogStream and AsyncLogging)

    The destructor of a [Logger] gives its line to [output], which makes and
    starts the one [AsyncLogging] of the process at its first call
    ([pthread_once]).  A step is a statement of any thread, a change of the file
    name, or an action of the log thread; the critical section of [append]
    orders the statements. *)

From S2P Require Export AsyncLogging.

(** ** The program's log *)

(** [AsyncLogger_] is null until the first statement. *)
Record log_system := mkLog { logFileName_ : bytes; AsyncLogger_ : option AsyncLogging }.

Definition initial_log : log_system := mkLog (lit "./WebServer.log") None.

Definition setLogFileName (s : log_system) (fileName : bytes) : log_system := mkLog fileName (AsyncLogger_ s).

(** [disk]: what the files hold at the start; [takes]: how many bytes the calls of
    [fwrite] take. *)
Section log.
Context (disk : bytes -> bytes) (takes : list Z).

(** [once_init]: the constructor, whose assertion on the name fails for a short
    one, and [start], which waits until the thread has opened the latch. *)
Definition once_init (s : log_system) : outcome AsyncLogging :=
  _ ← assert_ (1 <? size (logFileName_ s));
  thread_action (start_logging (logFileName_ s) (disk (logFileName_ s)) takes).

(** [output] *)
Definition output_line (s : log_system) (msg : bytes) : outcome log_system :=
  a ← match AsyncLogger_ s with None => once_init s | Some a => Ret a end;
  a ← append a msg;
  Ret (mkLog (logFileName_ s) (Some a)).

(** A statement at [line] of [fileName], with the text of its time. *)
Record statement := mkStatement { st_time : bytes; st_items : list log_item; st_file : bytes; st_line : Z }.

Definition log_statement (s : log_system) (st : statement) : outcome log_system :=
  msg ← logger_line (st_time st) (st_items st) (st_file st) (st_line st);
  output_line s msg.

Inductive log_action := SetLogFileName (fileName : bytes) | Log (st : statement) | LogThread.

Definition log_step (s : log_system) (act : log_action) : outcome log_system :=
  match act with
  | SetLogFileName n => Ret (setLogFileName s n)
  | Log st => log_statement s st
  | LogThread =>
      match AsyncLogger_ s with
      | None => Ret s
      | Some a => a ← thread_action a; Ret (mkLog (logFileName_ s) (Some a))
      end
  end.

Definition log_run (s : log_system) (acts : list log_action) : outcome log_system :=
  foldl (fun acc act => s ← acc; log_step s act) (Ret s) acts.

(** * Lemmas *)

(** What [item_ok] asks of the pieces, for the whole statement. *)
Definition statement_ok (st : statement) : Prop :=
  size (st_time st) < 2 ^ 31 /\ Forall item_ok (st_items st) /\ size (st_file st) < 2 ^ 31 /\
  - 2 ^ 31 <= st_line st < 2 ^ 31.

Definition log_action_ok (act : log_action) : Prop :=
  match act with SetLogFileName n => 1 < size n | Log st => statement_ok st | LogThread => True end.

(** The line of a statement. *)
Definition line_of (st : statement) : bytes :=
  match logger_line (st_time st) (st_items st) (st_file st) (st_line st) with Ret l => l | _ => [] end.

Definition lines_of (acts : list log_action) : list bytes :=
  omap (fun act => match act with Log st => Some (line_of st) | _ => None end) acts.

(** The file name at the first statement, from the name [n] on. *)
Fixpoint first_name (n : bytes) (acts : list log_action) : bytes :=
  match acts with
  | SetLogFileName n' :: acts' => first_name n' acts'
  | LogThread :: acts' => first_name n acts'
  | Log _ :: _ | [] => n
  end.

(** All pieces of a statement, the place of the statement after them. *)
Definition pieces (st : statement) : list log_item :=
  LCString (Some (st_time st)) :: st_items st ++
    [LCString (Some (lit " -- ")); LString (st_file st); LChar ":"; LInteger (st_line st); LChar LF].

Lemma line_of_spec st : statement_ok st ->
  logger_line (st_time st) (st_items st) (st_file st) (st_line st) = Ret (line_of st) /\
  size (line_of st) < kSmallBuffer /\
  (exists kept, kept `sublist_of` pieces st /\ line_of st = concat (render <$> kept)) /\
  (size (concat (render <$> pieces st)) + kMaxNumericSize <= kSmallBuffer ->
   line_of st = concat (render <$> pieces st)).
Proof.
  intros (Ht & Hi & Hf & Hl). destruct (logger_line_spec _ _ _ _ Ht Hi Hf Hl) as (kept & Hsub & Hr & Hs & Hall).
  unfold line_of. rewrite Hr. split_and!; [done|done|by exists kept|]. intros Hfit. by rewrite (Hall Hfit).
Qed.

(** The log thread runs, and was given exactly [ls]. *)
Definition log_ok (s : log_system) (ls : list bytes) : Prop :=
  1 < size (logFileName_ s) /\
  match AsyncLogger_ s with
  | None => ls = []
  | Some a =>
      logging_ok (disk (basename_ (output a))) takes a /\ running_ a = true /\ tpc a <> TStart /\ tpc a <> TDone /\
      appended a = ls
  end.

Lemma append_frame a l a' : append a l = Ret a' ->
  running_ a' = running_ a /\ tpc a' = tpc a /\ appended a' = appended a ++ [l] /\ output a' = output a.
Proof.
  unfold append. destruct (currentBuffer_ a); [|done]. case_if; [by intros [= <-]|].
  destruct (nextBuffer_ a); by intros [= <-].
Qed.

Lemma swap_frame a a' : swap_buffers a = Ret a' ->
  running_ a' = running_ a /\ (exists l, tpc a' = TWrite l) /\ appended a' = appended a /\
  buffers_ a' = [] /\ currentBuffer_ a' = newBuffer1 a /\ output a' = output a.
Proof.
  unfold swap_buffers. destruct (currentBuffer_ a); [|done].
  destruct (nextBuffer_ a); intros [= <-]; cbn; eauto 7.
Qed.

Lemma write_frame a l a' : write_buffers a l = Ret a' ->
  running_ a' = running_ a /\ tpc a' = THead /\ appended a' = appended a /\
  buffers_ a' = buffers_ a /\ currentBuffer_ a' = currentBuffer_ a /\
  basename_ (output a') = basename_ (output a).
Proof.
  unfold write_buffers. intros H. inv_bind H. inv_bind H. destruct a1 as [new1 l1]. inv_bind H. destruct a1 as [new2 l2].
  injection H as <-. split_and!; [done..|]. apply file_appends_spec.
Qed.

Lemma thread_frame a a' : thread_action a = Ret a' -> running_ a = true -> tpc a <> TDone ->
  running_ a' = true /\ tpc a' <> TStart /\ tpc a' <> TDone /\ appended a' = appended a /\
  basename_ (output a') = basename_ (output a).
Proof.
  unfold thread_action. intros H Hr Hd. destruct (tpc a) as [| | | |l|] eqn:E; try done.
  - rewrite Hr in H. by injection H as <-.
  - rewrite Hr in H. inv_bind H. inv_bind H. by injection H as <-.
  - case_bool_decide; [by injection H as <-|].
    apply swap_frame in H as (-> & (l & ->) & -> & _ & _ & ->). by split_and!.
  - apply swap_frame in H as (-> & (l & ->) & -> & _ & _ & ->). by split_and!.
  - apply write_frame in H as (-> & -> & -> & _ & _ & ->). by split_and!.
Qed.

Lemma once_init_ok s : 1 < size (logFileName_ s) ->
  exists a, once_init s = Ret a /\ basename_ (output a) = logFileName_ s /\
    logging_ok (disk (basename_ (output a))) takes a /\ running_ a = true /\ tpc a <> TStart /\ tpc a <> TDone /\
    appended a = [].
Proof.
  intros Hn. unfold once_init. rewrite (proj2 (Z.ltb_lt _ _)) by done. cbn [assert_ mbind outcome_bind].
  destruct (thread_action_ok _ _ _ (start_logging_ok (logFileName_ s) (disk (logFileName_ s)) takes)) as (a & Ha & Hok).
  exists a. split; [done|]. by injection Ha as <-.
Qed.

(** The name of the file, once the actions [acts] have taken place. *)
Definition file_name (s : log_system) (acts : list log_action) : bytes :=
  match AsyncLogger_ s with
  | Some a => basename_ (output a)
  | None => first_name (logFileName_ s) acts
  end.

Lemma log_step_ok s act ls :
  log_ok s ls -> log_action_ok act ->
  exists s', log_step s act = Ret s' /\ log_ok s' (ls ++ lines_of [act]) /\
    forall acts, file_name s' acts = file_name s (act :: acts).
Proof.
  intros [Hn Ha] Hact. destruct act as [n|st|]; cbn [log_step lines_of].
  - eexists. split; [done|]. rewrite app_nil_r. by split.
  - destruct (line_of_spec st Hact) as (Hl & Hs & _). unfold log_statement, output_line. rewrite Hl. cbn [mbind outcome_bind].
    assert (exists a, match AsyncLogger_ s with None => once_init s | Some a => Ret a end = Ret a /\
      (forall acts, basename_ (output a) = file_name s (Log st :: acts)) /\
      logging_ok (disk (basename_ (output a))) takes a /\ running_ a = true /\ tpc a <> TStart /\ tpc a <> TDone /\
      appended a = ls) as (a & -> & Hnm & Hok & Hr & H1 & H2 & Hls).
    { unfold file_name. destruct (AsyncLogger_ s) as [a|]; [by exists a|]. subst ls.
      destruct (once_init_ok s Hn) as (a & ? & Hnm & ?). exists a. by rewrite Hnm in *. }
    cbn [mbind outcome_bind]. destruct (append_ok _ _ a (line_of st) Hok) as (a' & Ha' & Hok').
    { unfold kSmallBuffer, kLargeBuffer in *. lia. }
    rewrite Ha'. eexists. split; [done|]. apply append_frame in Ha' as (Hr' & Ht' & Hap' & Ho'). split.
    + split; [done|]. cbn. rewrite Hr', Ht', Hap', Ho', Hls in *. by split_and!.
    + intros acts. unfold file_name at 1. cbn. by rewrite Ho'.
  - rewrite app_nil_r. destruct (AsyncLogger_ s) as [a|] eqn:Es.
    2: { exists s. split; [done|]. split; [split; [done|by rewrite Es]|]. intros acts. unfold file_name. by rewrite Es. }
    destruct Ha as (Hok & Hr & H1 & H2 & Hls). destruct (thread_action_ok _ _ a Hok) as (a' & Ha' & Hok').
    rewrite Ha'. eexists. split; [done|]. apply thread_frame in Ha' as (? & ? & ? & Hap & Hb); [|done..]. split.
    + split; [done|]. cbn. rewrite Hap, Hb. by split_and!.
    + intros acts. unfold file_name. cbn. by rewrite Es, Hb.
Qed.

Lemma lines_of_cons act acts : lines_of (act :: acts) = lines_of [act] ++ lines_of acts.
Proof. unfold lines_of. cbn. by destruct act. Qed.

Lemma log_run_cons s act acts : log_run s (act :: acts) = (s' ← log_step s act; log_run s' acts).
Proof. unfold log_run. cbn [foldl]. apply foldl_outcome. Qed.

Lemma log_run_ok acts : forall s ls, log_ok s ls -> Forall log_action_ok acts ->
  exists s', log_run s acts = Ret s' /\ log_ok s' (ls ++ lines_of acts) /\ file_name s' [] = file_name s acts.
Proof.
  induction acts as [|act acts IH]; intros s ls Hs Hacts.
  - exists s. split; [done|]. by rewrite app_nil_r.
  - apply Forall_cons in Hacts as [Hact Hacts]. destruct (log_step_ok s act ls Hs Hact) as (s1 & H1 & Hs1 & Hf1).
    destruct (IH s1 _ Hs1 Hacts) as (s' & H' & Hs' & Hf'). exists s'. rewrite log_run_cons, H1. split; [done|].
    by rewrite lines_of_cons, app_assoc, Hf', Hf1.
Qed.

Lemma initial_log_ok : log_ok initial_log [].
Proof. by split. Qed.

(** ** The log thread alone *)

Definition steps (n : nat) : list log_action := repeat LogThread n.

Lemma steps_ok n : Forall log_action_ok (steps n).
Proof. induction n; cbn; by constructor. Qed.

Lemma steps_lines n : lines_of (steps n) = [].
Proof. induction n as [|n IH]; [done|]. unfold steps in *. cbn [repeat]. by rewrite lines_of_cons, IH. Qed.

(** The steps of the thread from [a] on, as steps of the system. *)
Lemma log_thread_step n a a' k :
  thread_action a = Ret a' -> log_run (mkLog n (Some a)) (steps (S k)) = log_run (mkLog n (Some a')) (steps k).
Proof. intros Ha. cbn [steps repeat]. rewrite log_run_cons. cbn [log_step AsyncLogger_ logFileName_]. by rewrite Ha. Qed.

(** The thread has nothing left to write. *)
Definition idle (a : AsyncLogging) : Prop := tpc a = THead /\ pending a = [].

(** From its critical section the thread takes all there is and writes it. *)
Lemma section_flushes c n a :
  logging_ok c takes a -> swap_buffers a = thread_action a -> running_ a = true -> tpc a = TLock \/ tpc a = TWait ->
  exists a', log_run (mkLog n (Some a)) (steps 2) = Ret (mkLog n (Some a')) /\ logging_ok c takes a' /\ idle a'.
Proof.
  intros Hok Hsw Hr Hpc. destruct (thread_action_ok _ _ a Hok) as (a1 & Ha1 & Hok1).
  rewrite (log_thread_step n a a1 1 Ha1). destruct (thread_action_ok _ _ a1 Hok1) as (a2 & Ha2 & Hok2).
  rewrite (log_thread_step n a1 a2 0 Ha2). exists a2. split; [done|]. split; [done|].
  rewrite <- Hsw in Ha1. apply swap_frame in Ha1 as (_ & (l & Hl) & _ & Hb & Hc & _).
  unfold thread_action in Ha2. rewrite Hl in Ha2. apply write_frame in Ha2 as (_ & Ht & _ & Hb2 & Hc2 & _).
  split; [done|]. unfold pending. rewrite Ht, Hb2, Hb, Hc2, Hc. cbn.
  pose proof (ok_thread _ _ _ Hok) as Hth. unfold thread_ok in Hth. by destruct Hpc as [Hp|Hp]; rewrite Hp in Hth; destruct Hth as [-> _].
Qed.

Lemma lock_flushes c n a :
  logging_ok c takes a -> running_ a = true -> tpc a = TLock ->
  exists k a', (k <= 3)%nat /\ log_run (mkLog n (Some a)) (steps k) = Ret (mkLog n (Some a')) /\ logging_ok c takes a' /\ idle a'.
Proof.
  intros Hok Hr Hpc. destruct (decide (buffers_ a = [])) as [Hb|Hb].
  - destruct (thread_action_ok _ _ a Hok) as (a1 & Ha1 & Hok1).
    assert (a1 = set_tpc a TWait) as ->.
    { unfold thread_action in Ha1. rewrite Hpc, bool_decide_true in Ha1 by done. by injection Ha1 as <-. }
    destruct (section_flushes c n (set_tpc a TWait) Hok1) as (a' & Ha' & Hok' & Hi); [done|done|by right|].
    exists 3%nat, a'. split; [lia|]. by rewrite (log_thread_step n a _ 2 Ha1).
  - destruct (section_flushes c n a Hok) as (a' & Ha' & Hok' & Hi); [|done|by left|].
    { unfold thread_action. by rewrite Hpc, bool_decide_false. }
    exists 2%nat, a'. by split; [lia|].
Qed.

Lemma head_flushes c n a :
  logging_ok c takes a -> running_ a = true -> tpc a = THead ->
  exists k a', (k <= 4)%nat /\ log_run (mkLog n (Some a)) (steps k) = Ret (mkLog n (Some a')) /\ logging_ok c takes a' /\ idle a'.
Proof.
  intros Hok Hr Hpc. destruct (thread_action_ok _ _ a Hok) as (a1 & Ha1 & Hok1).
  assert (a1 = set_tpc a TLock) as ->.
  { unfold thread_action in Ha1. rewrite Hpc, Hr in Ha1. inv_bind Ha1. inv_bind Ha1. by injection Ha1 as <-. }
  destruct (lock_flushes c n (set_tpc a TLock) Hok1) as (k & a' & Hk & Ha' & Hok' & Hi); [done|done|].
  exists (S k), a'. split; [lia|]. by rewrite (log_thread_step n a _ k Ha1).
Qed.

(** At most five steps of the thread write everything. *)
Lemma thread_flushes c n a :
  logging_ok c takes a -> running_ a = true -> tpc a <> TStart -> tpc a <> TDone ->
  exists k a', (k <= 5)%nat /\ log_run (mkLog n (Some a)) (steps k) = Ret (mkLog n (Some a')) /\ logging_ok c takes a' /\ idle a'.
Proof.
  intros Hok Hr Hs Hd. destruct (tpc a) as [| | | |l|] eqn:Hpc; try done.
  - destruct (head_flushes c n a Hok Hr Hpc) as (k & a' & Hk & H). exists k, a'. split; [lia|done].
  - destruct (lock_flushes c n a Hok Hr Hpc) as (k & a' & Hk & H). exists k, a'. split; [lia|done].
  - destruct (section_flushes c n a Hok) as (a' & H); [by unfold thread_action; rewrite Hpc|done|by right|].
    exists 2%nat, a'. split; [lia|done].
  - destruct (thread_action_ok _ _ a Hok) as (a1 & Ha1 & Hok1).
    pose proof Ha1 as Hw. unfold thread_action in Hw. rewrite Hpc in Hw. apply write_frame in Hw as (Hr1 & Hp1 & _).
    destruct (head_flushes c n a1 Hok1) as (k & a' & Hk & Ha' & H); [congruence|done|].
    exists (S k), a'. split; [lia|]. by rewrite (log_thread_step n a _ k Ha1).
Qed.
End log.

(** * Properties *)

(** C20: every statement reaches the file as one line. For any statements of any
    threads, changes of the file name and actions of the log thread, in any
    order, no assertion fails. Each statement yields one string of less than
    4000 bytes, the concatenation of some of its pieces in their order, and of
    all of them, with the final newline, if they fit with 32 bytes to spare.
    Once there has been a statement, at most five steps of the log thread later
    the file of the name at the first statement, appended to and flushed, is what
    it held and then exactly these strings, in the order in which they were
    appended, provided that no buffer was erased and no append was given up by a
    failing [fwrite]; and none is given up while every call of [fwrite] takes a
    byte. *)
Theorem statements_reach_file disk takes acts :
  Forall log_action_ok acts ->
  exists s, log_run disk takes initial_log acts = Ret s /\
    (forall st, Log st ∈ acts -> size (line_of st) < kSmallBuffer /\
       (exists kept, kept `sublist_of` pieces st /\ line_of st = concat (render <$> kept)) /\
       (size (concat (render <$> pieces st)) + kMaxNumericSize <= kSmallBuffer ->
        line_of st = concat (render <$> pieces st))) /\
    match AsyncLogger_ s with
    | None => lines_of acts = []
    | Some _ =>
        let name := first_name (lit "./WebServer.log") acts in
        exists k a, (k <= 5)%nat /\ log_run disk takes s (steps k) = Ret (mkLog (logFileName_ s) (Some a)) /\
          basename_ (output a) = name /\ flushed (output a) = size (stream (output a)) /\
          (discarded a = [] -> concat (lost (output a)) = [] ->
           stream (output a) = disk name ++ concat (lines_of acts)) /\
          (Forall (fun n => 0 < n) takes -> concat (lost (output a)) = [])
    end.
Proof.
  intros Hacts. destruct (log_run_ok disk takes acts _ _ (initial_log_ok disk takes) Hacts) as (s & Hs & Hok & Hnm).
  exists s. split; [done|]. split.
  { intros st Hst. rewrite Forall_forall in Hacts. by apply line_of_spec, (Hacts _ Hst). }
  pose proof Hok as [Hn Ha]. destruct (AsyncLogger_ s) as [a|] eqn:Es; [|done].
  destruct Ha as (Hlok & Hr & H1 & H2 & _).
  destruct (thread_flushes disk takes _ (logFileName_ s) a Hlok Hr H1 H2) as (k & a' & Hk & Ha' & Hok' & _ & Hp).
  assert (Hseq : s = mkLog (logFileName_ s) (Some a)) by (destruct s; cbn in *; by subst).
  rewrite <- Hseq in Ha'. destruct (log_run_ok disk takes (steps k) s _ Hok (steps_ok k)) as (s' & Hs' & Hok2 & Hn2).
  rewrite Ha' in Hs'. injection Hs' as <-. unfold file_name in Hnm, Hn2. rewrite Es in Hnm, Hn2. cbn in Hn2.
  change (basename_ (output a) = first_name (lit "./WebServer.log") acts) in Hnm.
  exists k, a'. split_and!; [done|done|by rewrite Hn2|by apply Hok'| |by apply Hok'].
  intros Hd Hl. rewrite steps_lines, app_nil_r in Hok2. destruct Hok2 as [_ (_ & _ & _ & _ & Hap)].
  cbn [app] in Hap. rewrite <- Hap, <- Hnm, <- (ok_order _ _ _ Hok' Hd Hl), Hp. by rewrite app_nil_r.
Qed.

Definition sample_statement (n : Z) : statement :=
  mkStatement (lit "2024-01-01 00:00:00" ++ [LF]) [LCString (Some (lit "fd = ")); LInteger n] (lit "Server.cpp") 45.

Lemma statements_reach_file_witness :
  let acts := [SetLogFileName (lit "/tmp/log"); Log (sample_statement 7); LogThread; Log (sample_statement 8); LogThread] in
  let disk (n : bytes) := lit "before" ++ [LF] in
  exists s, log_run disk [3; 10] initial_log acts = Ret s /\
    (forall st, Log st ∈ acts -> size (line_of st) < kSmallBuffer /\
       (exists kept, kept `sublist_of` pieces st /\ line_of st = concat (render <$> kept)) /\
       (size (concat (render <$> pieces st)) + kMaxNumericSize <= kSmallBuffer ->
        line_of st = concat (render <$> pieces st))) /\
    match AsyncLogger_ s with
    | None => lines_of acts = []
    | Some _ =>
        exists k a, (k <= 5)%nat /\ log_run disk [3; 10] s (steps k) = Ret (mkLog (logFileName_ s) (Some a)) /\
          basename_ (output a) = lit "/tmp/log" /\ flushed (output a) = size (stream (output a)) /\
          (discarded a = [] -> concat (lost (output a)) = [] ->
           stream (output a) = disk (lit "/tmp/log") ++ concat (lines_of acts)) /\
          (Forall (fun n => 0 < n) [3; 10] -> concat (lost (output a)) = [])
    end.
Proof.
  intros acts disk. apply (statements_reach_file disk [3; 10] acts). unfold acts.
  repeat (apply Forall_cons; split); try apply Forall_nil; try done;
    (split_and!; try done; repeat constructor; done).
Defined.

(** The file name is read at the first statement: a short one fails the
    assertion then, and is not looked at later. *)
Example late_file_name :
  let st := Log (sample_statement 7) in
  log_run (fun _ => []) [] initial_log [SetLogFileName (lit "x"); st] = UB /\
  returns (log_run (fun _ => []) [] initial_log [st; SetLogFileName (lit "x"); st]).
Proof. split; [vm_compute; reflexivity|]. vm_compute. by eexists. Qed.
