(* ===== verification/ThreadPool.v ===== *)
(** * ThreadPool: the worker pool with a bounded queue (WebServer/ThreadPool.{h,cpp})

    Clients inside [threadpool_add] and [threadpool_destroy] and any number of
    workers inside [threadpool_thread], one critical section per action.  The
    mutex never fails; it is a flag because one path returns without unlocking
    it. *)

From S2P Require Export Prelude.

Definition THREADPOOL_LOCK_FAILURE : Z := -2.
Definition THREADPOOL_QUEUE_FULL : Z := -3.
Definition THREADPOOL_SHUTDOWN : Z := -4.
Definition THREADPOOL_THREAD_FAILURE : Z := -5.
Definition MAX_THREADS : Z := 1024.
Definition MAX_QUEUE : Z := 65535.

Inductive ShutDownOption := no_shutdown | immediate_shutdown | graceful_shutdown.

#[export] Instance ShutDownOption_eq_dec : EqDecision ShutDownOption.
Proof. solve_decision. Defined.

(** A task is named by a number; an empty function is [None]. *)
Definition task : Type := nat.

(** Where a worker is: about to lock, in [pthread_cond_wait] (notified or not),
    running a task, finished. *)
Inductive worker := WLock | WWaiting (notified : bool) | WRun (t : task) | WExit.

#[export] Instance worker_eq_dec : EqDecision worker.
Proof. solve_decision. Defined.

(** [added] and [taken]: the tasks accepted and taken so far. *)
Record ThreadPool := mkThreadPool {
  queue : list (option task);
  queue_size : Z;
  head : Z;
  tail : Z;
  count : Z;
  shutdown : ShutDownOption;
  started : Z;
  lock_held : bool;
  workers : list worker;
  added : list task;
  taken : list task
}.

Definition set_workers (p : ThreadPool) (w : list worker) : ThreadPool :=
  mkThreadPool (queue p) (queue_size p) (head p) (tail p) (count p) (shutdown p) (started p) (lock_held p) w
    (added p) (taken p).

(** The arguments that [threadpool_create] uses. *)
Definition pool_sizes (thread_count queue_size : Z) : Z * Z :=
  if (thread_count <=? 0) || (thread_count >? MAX_THREADS) || (queue_size <=? 0) || (queue_size >? MAX_QUEUE)
  then (4, 1024) else (thread_count, queue_size).

(** [threadpool_create]; [created] is how many calls of [pthread_create]
    succeed. *)
Definition threadpool_create (thread_count queue_size created : Z) : ThreadPool * Z :=
  let '(n, q) := pool_sizes thread_count queue_size in
  let k := Z.max 0 (Z.min created n) in
  (mkThreadPool (replicate (Z.to_nat q) None) q 0 0 0 no_shutdown k false (replicate (Z.to_nat k) WLock) [] [],
   if k =? n then 0 else -1).

(** [pthread_cond_signal] wakes the [w]-th worker if it is waiting and not yet
    notified, or nobody when nobody is. *)
Definition asleep (w : worker) : bool := match w with WWaiting false => true | _ => false end.

Definition signal (l : list worker) (w : nat) : option (list worker) :=
  if existsb asleep l then
    match l !! w with
    | Some (WWaiting false) => Some (<[w := WWaiting true]> l)
    | _ => None
    end
  else Some l.

Definition broadcast (l : list worker) : list worker :=
  (fun w => if asleep w then WWaiting true else w) <$> l.

(** [threadpool_add]: the body under the lock, and the result. *)
Definition threadpool_add (p : ThreadPool) (fun_ : task) (w : nat) : option (ThreadPool * Z) :=
  if lock_held p then None
  else
    let next := Z.rem (tail p + 1) (queue_size p) in
    if count p =? queue_size p then Some (p, THREADPOOL_QUEUE_FULL)
    else if negb (bool_decide (shutdown p = no_shutdown)) then Some (p, THREADPOOL_SHUTDOWN)
    else
      ws ← signal (workers p) w;
      Some (mkThreadPool (<[Z.to_nat (tail p) := Some fun_]> (queue p)) (queue_size p) (head p) next (count p + 1)
              (shutdown p) (started p) (lock_held p) ws (added p ++ [fun_]) (taken p), 0).

(** [threadpool_destroy] up to the joins: a second call leaves the lock held. *)
Definition threadpool_destroy (p : ThreadPool) (o : ShutDownOption) : option (ThreadPool * Z) :=
  if lock_held p then None
  else if negb (bool_decide (shutdown p = no_shutdown)) then
    Some (mkThreadPool (queue p) (queue_size p) (head p) (tail p) (count p) (shutdown p) (started p) true
            (workers p) (added p) (taken p), THREADPOOL_SHUTDOWN)
  else
    Some (mkThreadPool (queue p) (queue_size p) (head p) (tail p) (count p) o (started p) false
            (broadcast (workers p)) (added p) (taken p), 0).

(** [threadpool_free] after the joins: its result. *)
Definition threadpool_free (p : ThreadPool) : Z := if 0 <? started p then -1 else 0.

(** A worker with the lock: it waits, finishes or takes the task at [head]. *)
Definition worker_locked (p : ThreadPool) (w : nat) : option ThreadPool :=
  if (count p =? 0) && bool_decide (shutdown p = no_shutdown) then
    Some (set_workers p (<[w := WWaiting false]> (workers p)))
  else if bool_decide (shutdown p = immediate_shutdown) ||
          (bool_decide (shutdown p = graceful_shutdown) && (count p =? 0)) then
    Some (mkThreadPool (queue p) (queue_size p) (head p) (tail p) (count p) (shutdown p) (started p - 1)
            (lock_held p) (<[w := WExit]> (workers p)) (added p) (taken p))
  else
    match queue p !! Z.to_nat (head p) with
    | Some (Some t) =>
        Some (mkThreadPool (<[Z.to_nat (head p) := None]> (queue p)) (queue_size p)
                (Z.rem (head p + 1) (queue_size p)) (tail p) (count p - 1) (shutdown p) (started p) (lock_held p)
                (<[w := WRun t]> (workers p)) (added p) (taken p ++ [t]))
    | _ => None
    end.

(** One action of the [w]-th worker; [spurious] allows a wakeup without a
    notification. *)
Definition worker_action (p : ThreadPool) (w : nat) (spurious : bool) : option ThreadPool :=
  match workers p !! w with
  | Some WLock => if lock_held p then None else worker_locked p w
  | Some (WWaiting notified) =>
      if (notified || spurious) && negb (lock_held p) then worker_locked p w else None
  | Some (WRun _) => Some (set_workers p (<[w := WLock]> (workers p)))
  | _ => None
  end.

Inductive pool_action :=
  | Add (fun_ : task) (w : nat)
  | Destroy (o : ShutDownOption)
  | Worker (w : nat) (spurious : bool).

Definition pool_step (p : ThreadPool) (a : pool_action) : option ThreadPool :=
  match a with
  | Add f w => fst <$> threadpool_add p f w
  | Destroy o => if bool_decide (o = no_shutdown) then None else fst <$> threadpool_destroy p o
  | Worker w spurious => worker_action p w spurious
  end.

Fixpoint run_pool (p : ThreadPool) (l : list pool_action) : option ThreadPool :=
  match l with
  | [] => Some p
  | a :: l' => p' ← pool_step p a; run_pool p' l'
  end.

(** * Lemmas *)

(** The ring holds [ts], oldest first, from [head] on. *)
Definition ring (p : ThreadPool) (ts : list task) : Prop :=
  Z.of_nat (length ts) = count p /\
  forall i t, ts !! i = Some t ->
    queue p !! Z.to_nat ((head p + Z.of_nat i) mod queue_size p) = Some (Some t).

Definition awake (w : worker) : Prop := w <> WExit /\ asleep w = false.

Record pool_ok (p : ThreadPool) : Prop := {
  ok_size : 0 < queue_size p /\ Z.of_nat (length (queue p)) = queue_size p;
  ok_head : 0 <= head p < queue_size p;
  ok_tail : tail p = (head p + count p) mod queue_size p;
  ok_count : 0 <= count p <= queue_size p;
  ok_ring : exists ts, ring p ts /\ added p = taken p ++ ts;
  ok_running : shutdown p = no_shutdown ->
    lock_held p = false /\ (forall x, x ∈ workers p -> x <> WExit) /\
    (0 < count p -> workers p <> [] -> exists x, x ∈ workers p /\ awake x);
  ok_stopping : shutdown p <> no_shutdown -> forall x, x ∈ workers p -> asleep x = false;
  ok_graceful : shutdown p = graceful_shutdown -> WExit ∈ workers p -> count p = 0
}.

Lemma mod_distinct h i j n : 0 < n -> i < j < i + n -> (h + i) mod n <> (h + j) mod n.
Proof.
  intros Hn Hij E. pose proof (Z.div_mod (h + i) n ltac:(lia)). pose proof (Z.div_mod (h + j) n ltac:(lia)).
  set (a := (h + i) / n) in *. set (b := (h + j) / n) in *.
  assert (j - i = n * (b - a)) by lia. assert (b - a <= 0 \/ 1 <= b - a) as [?|?] by lia; nia.
Qed.

Lemma create_ok n q c : pool_ok (fst (threadpool_create n q c)).
Proof.
  unfold threadpool_create, pool_sizes. cbv zeta.
  set (b := if _ : bool then (4, 1024) else (n, q)).
  assert (Hb : 0 < b.2). { unfold b. case_if; cbn; [lia|]. zbool. lia. }
  destruct b as [m k]. cbn in Hb. cbn [fst]. split; cbn.
  - split; [done|]. rewrite length_replicate. lia.
  - lia.
  - by rewrite Z.mod_0_l by lia.
  - lia.
  - exists []. split; [|done]. by split.
  - intros _. split; [done|]. split; [|lia]. intros x Hx. apply elem_of_replicate in Hx as [-> _]. done.
  - intros ? x Hx. apply elem_of_replicate in Hx as [-> _]. done.
  - done.
Qed.

(** A worker changes its place. *)
Lemma elem_of_update {A} (l : list A) w x y : y ∈ <[w := x]> l -> y = x \/ y ∈ l.
Proof.
  intros [j Hj]%list_elem_of_lookup. apply list_lookup_insert_Some in Hj as [(_ & -> & _)|[_ Hj]]; [by left|].
  right. by eapply list_elem_of_lookup_2.
Qed.

Lemma update_elem_of {A} (l : list A) w (x y : A) : l !! w = Some y -> x ∈ <[w := x]> l.
Proof.
  intros Hw. apply list_elem_of_lookup_2 with (i := w). apply list_lookup_insert_eq.
  by eapply lookup_lt_Some.
Qed.

Lemma signal_spec l w l' :
  signal l w = Some l' ->
  (l' = l /\ (forall x, x ∈ l -> asleep x = false)) \/
  (l' = <[w := WWaiting true]> l /\ l !! w = Some (WWaiting false)).
Proof.
  unfold signal. destruct (existsb asleep l) eqn:E.
  - destruct (l !! w) as [[| [|] | |]|] eqn:Ew; try done. intros [= <-]. by right.
  - intros [= <-]. left. split; [done|]. intros x Hx. destruct (asleep x) eqn:Ex; [|done].
    assert (existsb asleep l = true); [|congruence]. apply existsb_exists. exists x.
    split; [by apply list_elem_of_In|done].
Qed.

Lemma ring_push p ts t :
  0 < queue_size p -> Z.of_nat (length (queue p)) = queue_size p -> ring p ts ->
  count p < queue_size p -> tail p = (head p + count p) mod queue_size p ->
  forall i x, (ts ++ [t]) !! i = Some x ->
    <[Z.to_nat (tail p) := Some t]> (queue p) !! Z.to_nat ((head p + Z.of_nat i) mod queue_size p) = Some (Some x).
Proof.
  intros Hq Hlen [Hl Hr] Hc Ht i x Hi.
  pose proof (Z.mod_pos_bound (head p + Z.of_nat i) (queue_size p) Hq).
  pose proof (Z.mod_pos_bound (head p + count p) (queue_size p) Hq).
  apply lookup_app_Some in Hi as [Hi|[Hge Hi]].
  - rewrite list_lookup_insert_ne; [by apply Hr|]. rewrite Ht. apply lookup_lt_Some in Hi.
    intros E%Z2Nat.inj; [|lia..]. by apply (mod_distinct (head p) (Z.of_nat i) (count p) (queue_size p)); [lia..|].
  - apply list_lookup_singleton_Some in Hi as [Hi <-].
    replace (Z.of_nat i) with (count p) by lia. rewrite <- Ht. apply list_lookup_insert_eq. lia.
Qed.

Lemma ring_pop p t ts :
  0 < queue_size p -> ring p (t :: ts) -> Z.of_nat (length ts) < queue_size p -> 0 <= head p < queue_size p ->
  queue p !! Z.to_nat (head p) = Some (Some t) /\
  forall i x, ts !! i = Some x ->
    <[Z.to_nat (head p) := None]> (queue p) !!
      Z.to_nat ((Z.rem (head p + 1) (queue_size p) + Z.of_nat i) mod queue_size p) = Some (Some x).
Proof.
  intros Hq [Hl Hr] Hsz Hh. split.
  - specialize (Hr O t eq_refl). by rewrite Z.add_0_r, Z.mod_small in Hr.
  - intros i x Hi. specialize (Hr (S i) x Hi). rewrite Z.rem_mod_nonneg, Z.add_mod_idemp_l by lia.
    replace (head p + 1 + Z.of_nat i) with (head p + Z.of_nat (S i)) by lia.
    rewrite list_lookup_insert_ne; [done|]. apply lookup_lt_Some in Hi.
    pose proof (Z.mod_pos_bound (head p + Z.of_nat (S i)) (queue_size p) Hq).
    intros E%Z2Nat.inj; [|lia..]. apply (mod_distinct (head p) 0 (Z.of_nat (S i)) (queue_size p)); [lia..|].
    rewrite Z.add_0_r, Z.mod_small by lia. done.
Qed.

Lemma add_ok p f w p' rc : pool_ok p -> threadpool_add p f w = Some (p', rc) -> pool_ok p'.
Proof.
  intros Hok H. unfold threadpool_add in H. destruct (lock_held p) eqn:El; [done|]. cbv zeta in H.
  case_if_in H; [by injection H as <- _|]. case_bool_decide as Hs; cbn [negb] in H; [|by injection H as <- _].
  destruct (signal (workers p) w) as [ws|] eqn:Ew; [|done]. cbn [mbind option_bind] in H. injection H as <- _.
  destruct Hok as [[Hq Hlen] Hh Ht Hc (ts & Hring & Hadd) Hrun Hstop Hgr]. zbool.
  destruct (Hrun Hs) as (_ & Hne & Haw).
  assert (Hin : forall x, x ∈ ws -> x <> WExit).
  { intros x Hx. apply signal_spec in Ew as [[-> _]|[-> _]]; [by apply Hne|].
    apply elem_of_update in Hx as [->|Hx]; [done|by apply Hne]. }
  split; cbn; try done.
  - by rewrite length_insert.
  - rewrite Z.rem_mod_nonneg by (rewrite ?Ht; pose proof (Z.mod_pos_bound (head p + count p) (queue_size p)); lia).
    rewrite Ht, Z.add_mod_idemp_l by lia. f_equal. lia.
  - lia.
  - exists (ts ++ [f]). split; [split|].
    + rewrite length_app. destruct Hring as [Hl _]. cbn. lia.
    + exact (ring_push p ts f Hq Hlen Hring ltac:(lia) Ht).
    + by rewrite Hadd, app_assoc.
  - intros _. split; [done|]. split; [done|]. intros _ Hws.
    apply signal_spec in Ew as [[-> Hall]|[-> Hw]].
    + destruct (workers p) as [|x l]; [done|]. exists x. split; [left|]. split; [apply Hin; left|apply Hall; left].
    + exists (WWaiting true). split; [by eapply update_elem_of|done].
  - congruence.
Qed.

Lemma broadcast_spec l x : x ∈ broadcast l -> asleep x = false /\ (x = WExit -> WExit ∈ l).
Proof.
  unfold broadcast. intros (y & -> & Hy)%list_elem_of_fmap. destruct (asleep y) eqn:E; [done|].
  split; [done|]. intros <-. done.
Qed.

Lemma destroy_ok p o p' rc : o <> no_shutdown -> pool_ok p -> threadpool_destroy p o = Some (p', rc) -> pool_ok p'.
Proof.
  intros Ho [Hq Hh Ht Hc Hring Hrun Hstop Hgr] H. unfold threadpool_destroy in H.
  destruct (lock_held p) eqn:El; [done|]. case_bool_decide as Hs; cbn [negb] in H; injection H as <- _.
  - split; cbn; try done.
    + intros _ x Hx. by apply broadcast_spec in Hx as [? _].
    + intros _ [_ Hx]%broadcast_spec. destruct (Hrun Hs) as (_ & Hne & _). by destruct (Hne _ (Hx eq_refl)).
  - split; cbn; done.
Qed.

Lemma worker_locked_ok p w x :
  pool_ok p -> lock_held p = false -> workers p !! w = Some x -> x <> WExit ->
  exists p', worker_locked p w = Some p' /\ pool_ok p'.
Proof.
  intros [[Hq Hlen] Hh Ht Hc (ts & Hring & Hadd) Hrun Hstop Hgr] Hlock Hw Hx. unfold worker_locked.
  assert (Hts : count p = 0 <-> ts = []).
  { destruct Hring as [Hl _]. destruct ts; cbn in Hl; split; try done; lia. }
  destruct ((count p =? 0) && bool_decide (shutdown p = no_shutdown)) eqn:E1.
  { apply andb_true_iff in E1 as [E1 Es%bool_decide_eq_true]. zbool. eexists. split; [reflexivity|].
    destruct (Hrun Es) as (_ & Hne & _). split; cbn; try done.
    - by exists ts.
    - intros _. split; [done|]. split; [|lia]. intros y Hy. apply elem_of_update in Hy as [->|Hy]; [done|by apply Hne]. }
  destruct (bool_decide (shutdown p = immediate_shutdown) || _) eqn:E2.
  { eexists. split; [reflexivity|]. assert (Hs : shutdown p <> no_shutdown).
    { intros Es. rewrite Es in E2. done. }
    split; cbn; try done.
    - by exists ts.
    - intros _ y Hy. apply elem_of_update in Hy as [->|Hy]; [done|by apply Hstop].
    - intros Hg _. rewrite Hg in E2. by apply Z.eqb_eq. }
  assert (Hne : ts <> []).
  { intros Hnil%Hts. rewrite Hnil in E1, E2. cbn in E1, E2. destruct (shutdown p); done. }
  destruct ts as [|t ts]; [done|]. pose proof Hring as [Hl _]. cbn in Hl.
  destruct (ring_pop p t ts Hq Hring ltac:(lia) Hh) as [Hqh Hr']. rewrite Hqh.
  eexists. split; [reflexivity|]. split; cbn.
  - by rewrite length_insert.
  - rewrite Z.rem_mod_nonneg by lia. apply Z.mod_pos_bound. lia.
  - rewrite Z.rem_mod_nonneg, Z.add_mod_idemp_l by lia. rewrite Ht. f_equal. lia.
  - lia.
  - exists ts. split; [split|].
    + cbn; lia.
    + exact Hr'.
    + by rewrite Hadd, <- app_assoc.
  - intros Hs. destruct (Hrun Hs) as (? & Hnx & _). split; [done|]. split.
    + intros y Hy. apply elem_of_update in Hy as [->|Hy]; [done|by apply Hnx].
    + intros _ _. exists (WRun t). split; [by eapply update_elem_of|done].
  - intros Hs y Hy. apply elem_of_update in Hy as [->|Hy]; [done|by apply Hstop].
  - intros Hg Hex. apply elem_of_update in Hex as [?|Hex]; [done|]. specialize (Hgr Hg Hex). lia.
Qed.

Lemma worker_returns_ok p w t :
  pool_ok p -> workers p !! w = Some (WRun t) -> pool_ok (set_workers p (<[w := WLock]> (workers p))).
Proof.
  intros [Hq Hh Ht Hc Hring Hrun Hstop Hgr] Hw. split; cbn; try done.
  - intros Hs. destruct (Hrun Hs) as (? & Hne & _). split; [done|]. split.
    + intros y Hy. apply elem_of_update in Hy as [->|Hy]; [done|by apply Hne].
    + intros _ _. exists WLock. split; [by eapply update_elem_of|done].
  - intros Hs y Hy. apply elem_of_update in Hy as [->|Hy]; [done|by apply Hstop].
  - intros Hg Hx. apply elem_of_update in Hx as [?|Hx]; [done|by apply Hgr].
Qed.

Lemma pool_step_ok p a p' : pool_ok p -> pool_step p a = Some p' -> pool_ok p'.
Proof.
  intros Hok H. destruct a as [f w|o|w sp]; cbn [pool_step] in H.
  - destruct (threadpool_add p f w) as [[q rc]|] eqn:E; [|done]. injection H as <-. by eapply add_ok.
  - case_bool_decide; [done|]. destruct (threadpool_destroy p o) as [[q rc]|] eqn:E; [|done].
    injection H as <-. by eapply destroy_ok.
  - unfold worker_action in H. destruct (workers p !! w) as [[|n|t|]|] eqn:Ew; try done.
    + destruct (lock_held p) eqn:El; [done|].
      destruct (worker_locked_ok p w WLock Hok El Ew) as (q & Hq & Hq'); [done|]. congruence.
    + destruct ((n || sp) && negb (lock_held p)) eqn:E; [|done]. apply andb_true_iff in E as [_ El].
      apply negb_true_iff in El.
      destruct (worker_locked_ok p w _ Hok El Ew) as (q & Hq & Hq'); [done|]. congruence.
    + injection H as <-. by eapply worker_returns_ok.
Qed.

Lemma run_pool_ok l : forall p p', pool_ok p -> run_pool p l = Some p' -> pool_ok p'.
Proof.
  induction l as [|a l IH]; intros p p' Hp H; cbn in H; [by simplify_eq|].
  destruct (pool_step p a) as [q|] eqn:E; [|done]. eapply IH; [|done]. by eapply pool_step_ok.
Qed.

(** Once a second [threadpool_destroy] has returned, the lock stays held. *)
Lemma lock_stays_held p a p' : lock_held p = true -> pool_step p a = Some p' -> lock_held p' = true.
Proof.
  intros Hl H. destruct a as [f w|o|w sp]; cbn [pool_step] in H.
  - unfold threadpool_add in H. by rewrite Hl in H.
  - case_bool_decide; [done|]. unfold threadpool_destroy in H. by rewrite Hl in H.
  - unfold worker_action in H. rewrite Hl in H. destruct (workers p !! w) as [[|n|t|]|] eqn:Ew; try done.
    + by rewrite andb_false_r in H.
    + by injection H as <-.
Qed.

Lemma second_destroy_keeps_lock p o p1 rc1 p2 rc2 l p3 :
  o <> no_shutdown -> lock_held p = false -> shutdown p = no_shutdown ->
  threadpool_destroy p o = Some (p1, rc1) -> threadpool_destroy p1 o = Some (p2, rc2) ->
  run_pool p2 l = Some p3 -> rc2 = THREADPOOL_SHUTDOWN /\ lock_held p3 = true.
Proof.
  intros Ho Hl Hs H1 H2 H3. unfold threadpool_destroy in H1. rewrite Hl, Hs in H1. injection H1 as <- <-.
  unfold threadpool_destroy in H2. cbn [lock_held shutdown] in H2. rewrite bool_decide_false in H2 by done.
  injection H2 as <- <-. split; [done|].
  match type of H3 with run_pool ?q _ = _ => assert (Hq : lock_held q = true) by done; revert H3; generalize q, Hq end.
  induction l as [|a l IH]; intros q Hq' H3; cbn in H3; [by simplify_eq|].
  destruct (pool_step q a) as [q'|] eqn:E; [|done]. eapply IH; [|done]. by eapply lock_stays_held.
Qed.

(** * Properties *)

(** C21: The pool's queue is a bounded FIFO. Whatever the clients and workers do
    and in whatever order, the tasks taken by the workers are the tasks
    accepted, each once and in order, followed by those that wait in the ring;
    the ring never holds more than its size; and after a graceful shutdown a
    worker ends only when every accepted task has been taken. *)
Theorem pool_is_fifo n q c acts p :
  run_pool (fst (threadpool_create n q c)) acts = Some p ->
  exists ts, added p = taken p ++ ts /\ Z.of_nat (length ts) = count p /\ count p <= queue_size p /\
    (shutdown p = graceful_shutdown -> WExit ∈ workers p -> ts = []).
Proof.
  intros H. destruct (run_pool_ok _ _ _ (create_ok n q c) H) as [_ _ _ Hc (ts & [Hl _] & Hadd) _ _ Hgr].
  exists ts. split_and!; [done|done|lia|]. intros Hg Hx. specialize (Hgr Hg Hx). destruct ts; [done|cbn in Hl; lia].
Qed.

Lemma pool_is_fifo_witness :
  let acts := [Worker 0 false; Add 7%nat 0; Add 8%nat 0; Add 9%nat 1; Worker 0 false; Worker 0 false; Destroy graceful_shutdown;
               Worker 0 false; Worker 1 true; Worker 1 false; Worker 1 false] in
  exists p, run_pool (fst (threadpool_create 2 3 2)) acts = Some p /\
  exists ts, added p = taken p ++ ts /\ Z.of_nat (length ts) = count p /\ count p <= queue_size p /\
    (shutdown p = graceful_shutdown -> WExit ∈ workers p -> ts = []).
Proof.
  intros acts. destruct (run_pool (fst (threadpool_create 2 3 2)) acts) as [p|] eqn:E.
  - exists p. split; [reflexivity|]. exact (pool_is_fifo 2 3 2 acts p E).
  - exfalso. vm_compute in E. discriminate E.
Defined.

(** The pool does not get stuck. In every reachable state in which the lock
    is free, either nothing is to be done, or all workers have finished, or some
    worker can go on without a spurious wakeup: a task that waits always has a
    worker that is awake or notified. *)
Theorem pool_not_stuck n q c acts p :
  run_pool (fst (threadpool_create n q c)) acts = Some p -> lock_held p = false ->
  (count p = 0 /\ shutdown p = no_shutdown) \/ (forall x, x ∈ workers p -> x = WExit) \/
  exists w p', worker_action p w false = Some p'.
Proof.
  intros H Hlock. pose proof (run_pool_ok _ _ _ (create_ok n q c) H) as Hok.
  assert (Hgo : forall x, x ∈ workers p -> awake x -> exists w p', worker_action p w false = Some p').
  { intros x [w Hw]%list_elem_of_lookup [Hx Ha]. exists w. unfold worker_action. rewrite Hw, Hlock.
    destruct x as [|[|]|t|]; try done.
    - destruct (worker_locked_ok p w _ Hok Hlock Hw) as (p' & -> & _); [done|]. by exists p'.
    - destruct (worker_locked_ok p w _ Hok Hlock Hw) as (p' & -> & _); [done|]. by exists p'.
    - by eexists. }
  destruct Hok as [_ _ _ Hc _ Hrun Hstop _].
  destruct (decide (shutdown p = no_shutdown)) as [Hs|Hs].
  - destruct (Hrun Hs) as (_ & _ & Haw). destruct (decide (count p = 0)) as [?|Hne]; [by left|].
    destruct (decide (workers p = [])) as [E|E]; [right; left; rewrite E; by intros x ?%elem_of_nil|].
    right. right. destruct Haw as (x & Hx & Ha); [lia|done|]. by apply (Hgo x).
  - destruct (decide (Exists (fun x => x <> WExit) (workers p))) as [Hex|Hex].
    + apply Exists_exists in Hex as (x & Hx & Hxe). right. right. apply (Hgo x Hx). split; [done|by apply Hstop].
    + right. left. intros x Hx. destruct (decide (x = WExit)); [done|]. destruct Hex.
      apply Exists_exists. by exists x.
Qed.

Lemma pool_not_stuck_witness :
  let acts := [Worker 0 false; Worker 1 false; Add 7%nat 1] in
  exists p, run_pool (fst (threadpool_create 2 3 2)) acts = Some p /\ count p = 1 /\
  ((count p = 0 /\ shutdown p = no_shutdown) \/ (forall x, x ∈ workers p -> x = WExit) \/
   exists w p', worker_action p w false = Some p').
Proof.
  intros acts. destruct (run_pool (fst (threadpool_create 2 3 2)) acts) as [p|] eqn:E.
  - exists p. assert (Hc : count p = 1 /\ lock_held p = false) by (vm_compute in E; by injection E as <-).
    split; [reflexivity|]. split; [apply Hc|]. exact (pool_not_stuck 2 3 2 acts p E (proj2 Hc)).
  - exfalso. vm_compute in E. discriminate E.
Defined.
