(* ===== verification/Unique.v ===== *)
(** * Unique: objects that own a resource, one owner each

    The accounting shared by [UniqueFd] (Ownership.v) and the [Task] handles
    (TaskHandle.v).  A store maps names to objects; an object holds at most one
    resource ([held]).  [owned m o g] says that the live resources [o] are
    exactly those held by an object of [m] and those given away ([g]), each by
    one owner. *)

From S2P Require Export Prelude.

Section unique.
Context {V R : Type} `{Countable R} (held : V -> option R).
Implicit Types (m : gmap nat V) (o g : gset R).

Definition owns m (x : nat) (r : R) : Prop := exists v, m !! x = Some v /\ held v = Some r.

Record owned m o g : Prop := mkOwned {
  ow_live : forall r, r ∈ o <-> r ∈ g \/ exists x, owns m x r;
  ow_unique : forall x y r, owns m x r -> owns m y r -> x = y;
  ow_given : forall x r, owns m x r -> r ∉ g
}.

(** One resource more, if there is one. *)
Definition add (r : option R) o : gset R := match r with Some r => {[r]} ∪ o | None => o end.
Definition remove (r : option R) o : gset R := match r with Some r => o ∖ {[r]} | None => o end.

Definition owns_nothing m (x : nat) : Prop := forall r, ~ owns m x r.

Lemma elem_of_add r r' o : r ∈ add r' o <-> r' = Some r \/ r ∈ o.
Proof.
  destruct r' as [r'|]; cbn; [|by split; [right|intros [?|?]]].
  rewrite elem_of_union, elem_of_singleton. split; intros [?|?]; simplify_eq; auto.
Qed.

Lemma elem_of_remove r r' o : r ∈ remove r' o <-> r' <> Some r /\ r ∈ o.
Proof.
  destruct r' as [r'|]; cbn; [|by split; [|intros [_ ?]]].
  rewrite elem_of_difference, elem_of_singleton. split; intros [? ?]; split; congruence.
Qed.

Lemma owns_insert m x v y r : owns (<[x := v]> m) y r <-> (y = x /\ held v = Some r) \/ (y <> x /\ owns m y r).
Proof.
  unfold owns. destruct (decide (y = x)) as [->|Hne].
  - rewrite lookup_insert_eq. split.
    + intros (v' & [= <-] & Hv). by left.
    + intros [[_ Hv]|[? _]]; [by exists v|done].
  - rewrite lookup_insert_ne by done. split; [by right|by intros [[? _]|[_ ?]]].
Qed.

Lemma owns_delete m x y r : owns (delete x m) y r <-> y <> x /\ owns m y r.
Proof.
  unfold owns. destruct (decide (y = x)) as [->|Hne].
  - rewrite lookup_delete_eq. split; [by intros (v & Hv & _)|by intros [? _]].
  - rewrite lookup_delete_ne by done. split; [done|by intros [_ ?]].
Qed.

Lemma delete_owns_nothing m x : owns_nothing (delete x m) x.
Proof. intros r [? _]%owns_delete. done. Qed.

Lemma absent_owns_nothing m x : m !! x = None -> owns_nothing m x.
Proof. intros Hx r (v & Hv & _). congruence. Qed.

Lemma owns_held m x v r : m !! x = Some v -> owns m x r <-> held v = Some r.
Proof. intros Hx. unfold owns. rewrite Hx. split; [by intros (v' & [= <-] & ?)|by exists v]. Qed.

(** An object that held nothing gets a new resource, or none. *)
Lemma owned_put m o g x v :
  owns_nothing m x -> (forall r, held v = Some r -> r ∉ o) -> owned m o g ->
  owned (<[x := v]> m) (add (held v) o) g.
Proof.
  intros Hx Hnew [Ho Hu Hg]. constructor.
  - intros r. rewrite elem_of_add, Ho. setoid_rewrite owns_insert. split.
    + intros [Hv|[?|[y Hy]]]; [right; exists x; by left|by left|].
      right. exists y. right. split; [|done]. intros ->. by destruct (Hx r).
    + intros [?|[y [[_ Hv]|[_ Hy]]]]; [by right; left|by left|right; right; by exists y].
  - intros y z r. rewrite !owns_insert. intros [[-> Hy]|[? Hy]] [[-> Hz]|[? Hz]]; [done|..|by eapply Hu].
    + destruct (Hnew r Hy). apply Ho. right. by exists z.
    + destruct (Hnew r Hz). apply Ho. right. by exists y.
  - intros y r. rewrite owns_insert. intros [[_ Hv]|[_ Hy]]; [|by eapply Hg].
    intros Hr. apply (Hnew r Hv), Ho. by left.
Qed.

(** The resource of an object ends, and the object with it. *)
Lemma owned_drop m o g x v :
  m !! x = Some v -> owned m o g ->
  (forall r, held v = Some r -> r ∈ o) /\ owned (delete x m) (remove (held v) o) g.
Proof.
  intros Hx [Ho Hu Hg]. pose proof (fun r => owns_held m x v r Hx) as Hv. split.
  { intros r Hr. apply Ho. right. exists x. by apply Hv. }
  constructor.
  - intros r. rewrite elem_of_remove, Ho. setoid_rewrite owns_delete. split.
    + intros [Hne [?|[y Hy]]]; [by left|right]. exists y. split; [|done]. intros ->. by apply Hne, Hv.
    + intros [Hr|[y [Hne Hy]]].
      * split; [|by left]. intros Hr'. by apply (Hg x r); [apply Hv|].
      * split; [|right; by exists y]. intros Hr'. apply Hne. apply (Hu y x r); [done|by apply Hv].
  - intros y z r. rewrite !owns_delete. intros [_ ?] [_ ?]. by eapply Hu.
  - intros y r. rewrite owns_delete. intros [_ ?]. by eapply Hg.
Qed.

(** The resource of [y] moves to [x], which held nothing. *)
Lemma owned_move m o g x y v v1 v0 :
  x <> y -> owns_nothing m x -> m !! y = Some v -> held v1 = held v -> held v0 = None ->
  owned m o g -> owned (<[x := v1]> (<[y := v0]> m)) o g.
Proof.
  intros Hxy Hx Hy H1 H0 [Ho Hu Hg]. pose proof (fun r => owns_held m y v r Hy) as Hv.
  assert (Hm : forall z r, owns (<[x := v1]> (<[y := v0]> m)) z r <->
    (z = x /\ owns m y r) \/ (z <> x /\ z <> y /\ owns m z r)).
  { intros z r. rewrite !owns_insert, H1, H0, <- Hv. split; [|tauto]. intros [?|[? [[_ ?]|[? ?]]]]; [tauto|done|tauto]. }
  constructor.
  - intros r. rewrite Ho. setoid_rewrite Hm. split.
    + intros [?|[z Hz]]; [by left|right]. destruct (decide (z = y)) as [->|]; [exists x; by left|].
      exists z. right. split; [|done]. intros ->. by destruct (Hx r).
    + intros [?|[z [[_ Hz]|(_ & _ & Hz)]]]; [by left|right; by exists y|right; by exists z].
  - intros z1 z2 r. rewrite !Hm. intros [[-> A]|(? & ? & A)] [[-> B]|(? & ? & B)]; try done.
    + by destruct (Hu _ _ _ A B).
    + by destruct (Hu _ _ _ A B).
    + by eapply Hu.
  - intros z r. rewrite Hm. intros [[_ A]|(_ & _ & A)]; by eapply Hg.
Qed.

(** The resource of [x] is given away. *)
Lemma owned_release m o g x v v0 :
  m !! x = Some v -> held v0 = None -> owned m o g -> owned (<[x := v0]> m) o (add (held v) g).
Proof.
  intros Hx H0 [Ho Hu Hg]. pose proof (fun r => owns_held m x v r Hx) as Hv.
  assert (Hm : forall y r, owns (<[x := v0]> m) y r <-> y <> x /\ owns m y r).
  { intros y r. rewrite owns_insert, H0. split; [by intros [[_ ?]|?]|by right]. }
  constructor.
  - intros r. rewrite elem_of_add, Ho, <- Hv. setoid_rewrite Hm. split.
    + intros [?|[y Hy]]; [by left; right|]. destruct (decide (y = x)) as [->|]; [by left; left|].
      right. by exists y.
    + intros [[?|?]|[y [_ ?]]]; [right; by exists x|by left|right; by exists y].
  - intros y z r. rewrite !Hm. intros [_ ?] [_ ?]. by eapply Hu.
  - intros y r. rewrite Hm, elem_of_add, <- Hv. intros [Hne Hy] [Hr|Hr]; [|by eapply Hg].
    by destruct (Hne (Hu _ _ _ Hy Hr)).
Qed.

(** A resource that was given away ends. *)
Lemma owned_end m o g r : r ∈ g -> owned m o g -> r ∈ o /\ owned m (o ∖ {[r]}) (g ∖ {[r]}).
Proof.
  intros Hr [Ho Hu Hg]. split; [apply Ho; by left|]. constructor; [|done|].
  - intros r'. rewrite !elem_of_difference, !elem_of_singleton, Ho. split.
    + intros [[?|?] ?]; [by left|by right].
    + intros [[? ?]|[x Hx]]; [split; [by left|done]|]. split; [right; by exists x|].
      intros ->. by apply (Hg x r).
  - intros x r' Hx. rewrite elem_of_difference. intros [Hr' _]. by apply (Hg x r').
Qed.

Lemma owned_empty : owned ∅ ∅ ∅.
Proof.
  constructor.
  - intros r. split; [set_solver|]. intros [?|(x & v & Hv & _)]; [set_solver|by rewrite lookup_empty in Hv].
  - intros x y r (v & Hv & _). by rewrite lookup_empty in Hv.
  - intros x r (v & Hv & _). by rewrite lookup_empty in Hv.
Qed.

(** Once every object is gone, what is live was given away. *)
Lemma owned_none_left o g : owned ∅ o g -> o = g.
Proof.
  intros [Ho _ _]. apply set_eq. intros r. rewrite Ho. split; [|by left].
  intros [?|(x & v & Hv & _)]; [done|by rewrite lookup_empty in Hv].
Qed.
End unique.
