(* ===== verification/Ownership.v ===== *)
(** * Ownership: the objects of class UniqueFd (coroutineWebServer/Types.h)
      over the descriptors of the process

    A store of named [UniqueFd] objects and the set of open descriptors.  Every
    member function is an action on the store; the descriptors it closes are
    closed in the process, where closing a descriptor that is not open is an
    error ([UB]: it may by then belong to someone else). *)

From S2P Require Export HttpTypes Unique.

(** [duplicate]; [dup_rc] is what [dup] returns. *)
Definition fd_duplicate (u : UniqueFd) (dup_rc : Z) : UniqueFd :=
  if fd_ u <? 0 then mkUniqueFd (-1) false else mkUniqueFd dup_rc (direct_ u).

(** [open_regular] and [open_direct]; [open_rc] is what [open] returns. *)
Definition fd_open_regular (open_rc : Z) : UniqueFd := mkUniqueFd open_rc false.
Definition fd_open_direct (open_rc : Z) : UniqueFd := mkUniqueFd open_rc true.

(** [released]: the open descriptors that [release] gave to its callers. *)
Record process := mkProcess {
  objects : gmap nat UniqueFd;
  open : gset Z;
  released : gset Z
}.

Definition empty_process : process := mkProcess ∅ ∅ ∅.

(** [close] of each descriptor of [l]. *)
Definition close_one (o : gset Z) (fd : Z) : outcome (gset Z) :=
  if bool_decide (fd ∈ o) then Ret (o ∖ {[fd]}) else UB.

Fixpoint close_all (o : gset Z) (l : list Z) : outcome (gset Z) :=
  match l with
  | [] => Ret o
  | fd :: l' => o' ← close_one o fd; close_all o' l'
  end.

(** What is done to the objects; [rc] is what a system call returns: a
    descriptor that is not open yet, or a negative number. *)
Inductive fd_action :=
  | FromCall (x : nat) (rc : Z) (direct : bool)   (** [UniqueFd(rc, direct)], [open_regular], [open_direct] *)
  | MoveConstruct (x y : nat)                     (** [UniqueFd x(std::move(y))] *)
  | MoveAssign (x y : nat)                        (** [x = std::move(y)] *)
  | Release (x : nat)
  | ResetTo (x : nat) (rc : Z) (direct : bool)    (** [x.reset(rc, direct)] *)
  | Duplicate (x y : nat) (rc : Z)                (** [UniqueFd x = y.duplicate()] *)
  | Destruct (x : nat).

(** A result of [open], [socket], [accept] or [dup]. *)
Definition fresh (p : process) (rc : Z) : bool := (rc <? 0) || bool_decide (rc ∉ open p).

Definition opened (o : gset Z) (rc : Z) : gset Z := if rc <? 0 then o else {[rc]} ∪ o.

(** [None]: not an action of a C++ program in this state (an object made
    twice or used outside its lifetime, a descriptor already open). *)
Definition fd_step (p : process) (a : fd_action) : option (outcome process) :=
  match a with
  | FromCall x rc direct =>
      match objects p !! x with
      | None => if fresh p rc
                then Some (Ret (mkProcess (<[x := mkUniqueFd rc direct]> (objects p)) (opened (open p) rc) (released p)))
                else None
      | Some _ => None
      end
  | MoveConstruct x y =>
      match objects p !! x, objects p !! y with
      | None, Some u =>
          let '(this, other) := fd_move_construct u in
          Some (Ret (mkProcess (<[x := this]> (<[y := other]> (objects p))) (open p) (released p)))
      | _, _ => None
      end
  | MoveAssign x y =>
      match objects p !! x, objects p !! y with
      | Some v, Some u =>
          if decide (x = y) then Some (Ret p)
          else
            let '(this, other, closed) := fd_move_assign v u in
            Some (o ← close_all (open p) closed;
                  Ret (mkProcess (<[x := this]> (<[y := other]> (objects p))) o (released p)))
      | _, _ => None
      end
  | Release x =>
      match objects p !! x with
      | Some u =>
          let '(fd, this) := fd_release u in
          Some (Ret (mkProcess (<[x := this]> (objects p)) (open p) (if fd <? 0 then released p else {[fd]} ∪ released p)))
      | None => None
      end
  | ResetTo x rc direct =>
      match objects p !! x with
      | Some u =>
          if fresh p rc then
            let '(this, closed) := fd_reset u rc direct in
            Some (o ← close_all (opened (open p) rc) closed;
                  Ret (mkProcess (<[x := this]> (objects p)) o (released p)))
          else None
      | None => None
      end
  | Duplicate x y rc =>
      match objects p !! x, objects p !! y with
      | None, Some u =>
          if fresh p rc then
            let o := if fd_ u <? 0 then open p else opened (open p) rc in
            Some (Ret (mkProcess (<[x := fd_duplicate u rc]> (objects p)) o (released p)))
          else None
      | _, _ => None
      end
  | Destruct x =>
      match objects p !! x with
      | Some u =>
          Some (o ← close_all (open p) (fd_destroy u);
                Ret (mkProcess (delete x (objects p)) o (released p)))
      | None => None
      end
  end.

Fixpoint fd_run (p : process) (l : list fd_action) : option (outcome process) :=
  match l with
  | [] => Some (Ret p)
  | a :: l' =>
      match fd_step p a with
      | Some (Ret p') => fd_run p' l'
      | r => r
      end
  end.

(** * Lemmas *)

(** The descriptor an object holds. *)
Definition held_fd (u : UniqueFd) : option Z := if fd_ u <? 0 then None else Some (fd_ u).

(** Every open descriptor has exactly one owner: one object or a caller of
    [release]. *)
Definition process_ok (p : process) : Prop := owned held_fd (objects p) (open p) (released p).

Lemma opened_add o rc d : opened o rc = add (held_fd (mkUniqueFd rc d)) o.
Proof. unfold opened, held_fd. cbn. by destruct (rc <? 0). Qed.

Lemma held_moved u d : held_fd (mkUniqueFd (fd_ u) d) = held_fd u.
Proof. done. Qed.

Lemma fresh_new p rc d r :
  fresh p rc = true -> held_fd (mkUniqueFd rc d) = Some r -> r ∉ open p.
Proof.
  unfold fresh, held_fd. cbn. destruct (rc <? 0); [done|]. cbn. by intros Hf%bool_decide_eq_true [= <-].
Qed.

(** Closing what an object that ends or is reset holds. *)
Lemma close_held m o g x u :
  m !! x = Some u -> owned held_fd m o g ->
  close_all o (if 0 <=? fd_ u then [fd_ u] else []) = Ret (remove (held_fd u) o) /\
  owned held_fd (delete x m) (remove (held_fd u) o) g.
Proof.
  intros Hx Hw. destruct (owned_drop held_fd m o g x u Hx Hw) as [Hin Hd]. split; [|done].
  unfold held_fd in *. rewrite Z.leb_antisym. destruct (fd_ u <? 0); cbn; [done|]. unfold close_one.
  by rewrite bool_decide_true by auto.
Qed.

Lemma fd_step_ok p a r :
  process_ok p -> fd_step p a = Some r -> exists p', r = Ret p' /\ process_ok p'.
Proof.
  intros Hp. unfold process_ok in *.
  destruct a as [x rc d|x y|x y|x|x rc d|x y rc|x]; cbn [fd_step];
    destruct (objects p !! x) as [v|] eqn:Ex; try done.
  - destruct (fresh p rc) eqn:Ef; [|done]. intros [= <-]. eexists; split; [done|]. cbn.
    rewrite (opened_add _ _ d). apply owned_put; [by apply absent_owns_nothing| |done].
    intros ?. by apply fresh_new.
  - destruct (objects p !! y) as [u|] eqn:Ey; [|done]. intros [= <-]. eexists; split; [done|].
    eapply owned_move; [congruence|by apply absent_owns_nothing|exact Ey|done|done|done].
  - destruct (objects p !! y) as [u|] eqn:Ey; [|done]. case_decide as Hxy; [intros [= <-]; by exists p|].
    unfold fd_move_assign, fd_reset. cbn [fst snd].
    destruct (close_held _ _ _ _ _ Ex Hp) as [-> Ho]. intros [= <-]. eexists; split; [done|].
    cbn [objects open released]. rewrite <- (insert_delete_eq (<[y := _]> _)).
    rewrite delete_insert_ne by done.
    eapply (owned_move held_fd _ _ _ x y u); [done|by apply delete_owns_nothing| |done|done|exact Ho].
    by rewrite lookup_delete_ne.
  - cbn [fd_release]. intros [= <-]. eexists; split; [done|]. cbn [objects open released].
    replace (if fd_ v <? 0 then _ else _) with (add (held_fd v) (released p))
      by (unfold held_fd; by destruct (fd_ v <? 0)).
    by apply owned_release.
  - destruct (fresh p rc) eqn:Ef; [|done]. unfold fd_reset.
    destruct (close_held _ _ _ _ _ Ex Hp) as [Hc Ho].
    assert (Hnew : forall r, held_fd (mkUniqueFd rc d) = Some r -> r ∉ open p) by (intros ?; by apply fresh_new).
    assert (Hc' : close_all (opened (open p) rc) (if 0 <=? fd_ v then [fd_ v] else [])
      = Ret (add (held_fd (mkUniqueFd rc d)) (remove (held_fd v) (open p)))).
    { rewrite (opened_add _ _ d). destruct (owned_drop held_fd _ _ _ _ _ Ex Hp) as [Hin _].
      unfold held_fd at 3. unfold held_fd in Hin. rewrite Z.leb_antisym.
      destruct (fd_ v <? 0); cbn [negb close_all mbind outcome_bind remove]; [done|]. unfold close_one.
      rewrite bool_decide_true by (apply elem_of_add; right; by apply Hin). cbn. f_equal.
      apply set_eq. intros z. rewrite elem_of_difference, !elem_of_add, elem_of_difference, !elem_of_singleton.
      split; [tauto|]. intros [Hz|?]; [|tauto]. split; [by left|]. intros ->. by apply (Hnew (fd_ v)), Hin. }
    rewrite Hc'. intros [= <-]. eexists; split; [done|]. cbn [objects open released].
    rewrite <- insert_delete_eq. apply owned_put; [by apply delete_owns_nothing| |done].
    intros z Hz. rewrite elem_of_remove. intros [_ ?]. by apply (Hnew z).
  - destruct (objects p !! y) as [u|] eqn:Ey; [|done]. destruct (fresh p rc) eqn:Ef; [|done].
    intros [= <-]. eexists; split; [done|]. cbn [objects open released]. unfold fd_duplicate.
    pose proof (absent_owns_nothing held_fd _ _ Ex) as Hx. destruct (fd_ u <? 0).
    + by apply (owned_put held_fd _ (open p) _ x (mkUniqueFd (-1) false)).
    + rewrite (opened_add _ _ (direct_ u)). apply owned_put; [done| |done]. intros ?. by apply fresh_new.
  - unfold fd_destroy, fd_reset. cbn [snd].
    destruct (close_held _ _ _ _ _ Ex Hp) as [-> Ho]. intros [= <-]. by eexists.
Qed.

Lemma fd_run_ok l : forall p r, process_ok p -> fd_run p l = Some r -> exists p', r = Ret p' /\ process_ok p'.
Proof.
  induction l as [|a l IH]; intros p r Hp Hr; cbn in Hr; [injection Hr as <-; by exists p|].
  destruct (fd_step p a) as [m|] eqn:E; [|done].
  destruct (fd_step_ok _ _ _ Hp E) as (p1 & -> & Hp1). by eapply IH.
Qed.

(** * Properties *)

(** C10: a descriptor is closed exactly once. Whatever is done with [UniqueFd]
    objects (construction, moves, release, reset, duplication, destruction, in
    any order, when the system calls return new descriptors or fail), no
    descriptor is closed that is not open; every open descriptor belongs to
    exactly one object or was released; and when the last object is gone, only
    released descriptors are open. *)
Theorem descriptors_owned l r :
  fd_run empty_process l = Some r ->
  exists p, r = Ret p /\
    (forall fd, fd ∈ open p <-> fd ∈ released p \/ exists x, owns held_fd (objects p) x fd) /\
    (forall x y fd, owns held_fd (objects p) x fd -> owns held_fd (objects p) y fd -> x = y) /\
    (objects p = ∅ -> open p = released p).
Proof.
  intros Hr. destruct (fd_run_ok _ empty_process _ (owned_empty held_fd) Hr) as (p & -> & Hp). exists p.
  split; [done|]. split; [apply Hp|]. split; [apply Hp|].
  intros He. unfold process_ok in Hp. rewrite He in Hp. by eapply owned_none_left.
Qed.

(** A connection: the descriptor is wrapped, moved into the frame of the
    coroutine, duplicated, one copy is released, the others are destroyed. *)
Definition connection_life : list fd_action :=
  [FromCall 0 7 false; MoveConstruct 1 0; Destruct 0; Duplicate 2 1 8; FromCall 3 (-1) false;
   MoveAssign 3 2; MoveAssign 1 1; ResetTo 1 9 false; Release 3; Destruct 1; Destruct 3; Destruct 2].

Lemma descriptors_owned_witness :
  exists p, fd_run empty_process connection_life = Some (Ret p) /\
  bool_decide (open p = {[8]}) = true /\
  exists p', Ret p = Ret p' /\
    (forall fd, fd ∈ open p' <-> fd ∈ released p' \/ exists x, owns held_fd (objects p') x fd) /\
    (forall x y fd, owns held_fd (objects p') x fd -> owns held_fd (objects p') y fd -> x = y) /\
    (objects p' = ∅ -> open p' = released p').
Proof.
  eexists. split; [vm_compute; reflexivity|]. split; [vm_compute; reflexivity|].
  apply (descriptors_owned connection_life). vm_compute. reflexivity.
Defined.
