(* ===== verification/TaskHandle.v ===== *)
(** * TaskHandle: the handles of class Task (coroutineWebServer/Task.h)

    A store of named [Task] objects, each with the coroutine frame its
    [handle_] refers to, if any, over the frames that are allocated.  A frame
    leaves its object by [start], which gives it to a scheduler, or by
    [co_await], which gives it to the awaiter of the expression; they destroy
    it.  What the bodies of the coroutines do is in Uring.v. *)

From S2P Require Export Unique.

(** ** The member functions

    [None] is the empty handle. The frames that are destroyed are results. *)

Definition handle : Type := option nat.

(** The frames that [handle_.destroy()] frees, if [handle_] is set. *)
Definition destroy_handle (h : handle) : list nat := match h with Some f => [f] | None => [] end.

(** [Task(Task&&)]: the new object and the moved-from one. *)
Definition task_move_construct (other : handle) : handle * handle := (other, None).

(** [operator=] for two different objects. *)
Definition task_move_assign (this other : handle) : handle * handle * list nat :=
  (other, None, destroy_handle this).

(** [~Task]. *)
Definition task_destroy (this : handle) : list nat := destroy_handle this.

Definition task_valid (this : handle) : bool := bool_decide (is_Some this).

(** [start]: what is enqueued, and the object after it. *)
Definition task_start (this : handle) : option nat * handle :=
  match this with Some f => (Some f, None) | None => (None, this) end.

(** [operator co_await]: the handle of the awaiter, and the object after it. *)
Definition task_co_await (this : handle) : handle * handle := (this, None).

(** ** A program that uses them *)

(** [started]: given to a scheduler; [awaited]: held by an awaiter. *)
Record frames := mkFrames {
  task_objects : gmap nat handle;
  live : gset nat;
  started : gset nat;
  awaited : gset nat
}.

Definition no_frames : frames := mkFrames ∅ ∅ ∅ ∅.

(** Destroying a frame that is not live is undefined. *)
Fixpoint destroy_all (o : gset nat) (l : list nat) : outcome (gset nat) :=
  match l with
  | [] => Ret o
  | f :: l' => if bool_decide (f ∈ o) then destroy_all (o ∖ {[f]}) l' else UB
  end.

Inductive task_action :=
  | Call (x f : nat)                   (** a coroutine is called: a new frame *)
  | MoveTask (x y : nat)               (** [Task x(std::move(y))] *)
  | AssignTask (x y : nat)             (** [x = std::move(y)] *)
  | DestroyTask (x : nat)
  | StartTask (x : nat)                (** [std::move(x).start(scheduler)] *)
  | CoAwait (x : nat)                  (** [co_await std::move(x)] *)
  | AwaitResume (f : nat) (threw : bool)  (** the awaited coroutine has finished *)
  | SchedulerDestroys (f : nat).       (** [resume_ready] of a finished root *)

(** [None]: not an action of a C++ program in this state. An awaiter with an
    empty handle is ready, and uses the promise of no frame. *)
Definition task_step (s : frames) (a : task_action) : option (outcome frames) :=
  let objs := task_objects s in
  match a with
  | Call x f =>
      match objs !! x with
      | None => if bool_decide (f ∉ live s)
                then Some (Ret (mkFrames (<[x := Some f]> objs) ({[f]} ∪ live s) (started s) (awaited s)))
                else None
      | Some _ => None
      end
  | MoveTask x y =>
      match objs !! x, objs !! y with
      | None, Some h =>
          let '(this, other) := task_move_construct h in
          Some (Ret (mkFrames (<[x := this]> (<[y := other]> objs)) (live s) (started s) (awaited s)))
      | _, _ => None
      end
  | AssignTask x y =>
      match objs !! x, objs !! y with
      | Some k, Some h =>
          if decide (x = y) then Some (Ret s)
          else
            let '(this, other, l) := task_move_assign k h in
            Some (o ← destroy_all (live s) l;
                  Ret (mkFrames (<[x := this]> (<[y := other]> objs)) o (started s) (awaited s)))
      | _, _ => None
      end
  | DestroyTask x =>
      match objs !! x with
      | Some h => Some (o ← destroy_all (live s) (task_destroy h);
                        Ret (mkFrames (delete x objs) o (started s) (awaited s)))
      | None => None
      end
  | StartTask x =>
      match objs !! x with
      | Some h =>
          let '(f, this) := task_start h in
          Some (Ret (mkFrames (<[x := this]> objs) (live s) (add f (started s)) (awaited s)))
      | None => None
      end
  | CoAwait x =>
      match objs !! x with
      | Some h =>
          let '(f, this) := task_co_await h in
          match f with
          | Some _ => Some (Ret (mkFrames (<[x := this]> objs) (live s) (started s) (add f (awaited s))))
          | None => Some UB
          end
      | None => None
      end
  | AwaitResume f threw =>
      if bool_decide (f ∈ awaited s) then
        Some (o ← destroy_all (live s) [f];
              if threw then UB else Ret (mkFrames objs o (started s) (awaited s ∖ {[f]})))
      else None
  | SchedulerDestroys f =>
      if bool_decide (f ∈ started s) then
        Some (o ← destroy_all (live s) [f]; Ret (mkFrames objs o (started s ∖ {[f]}) (awaited s)))
      else None
  end.

Fixpoint task_run (s : frames) (l : list task_action) : option (outcome frames) :=
  match l with
  | [] => Some (Ret s)
  | a :: l' =>
      match task_step s a with
      | Some (Ret s') => task_run s' l'
      | r => r
      end
  end.

(** * Lemmas *)

(** Every live frame belongs to one task, one awaiter or one scheduler. *)
Record frames_ok (s : frames) : Prop := mkFramesOk {
  fo_owned : owned id (task_objects s) (live s) (started s ∪ awaited s);
  fo_disjoint : started s ## awaited s
}.

(** The two ways to undefined behaviour: an exception that leaves the awaited
    coroutine, and an empty task that is awaited. *)
Definition undefined_action (s : frames) (a : task_action) : Prop :=
  match a with
  | AwaitResume _ true => True
  | CoAwait x => task_objects s !! x = Some None
  | _ => False
  end.

Lemma destroy_held (m : gmap nat handle) (o g : gset nat) x h :
  m !! x = Some h -> owned id m o g ->
  destroy_all o (destroy_handle h) = Ret (remove h o) /\ owned id (delete x m) (remove h o) g.
Proof.
  intros Hx Hw. destruct (owned_drop id m o g x h Hx Hw) as [Hin Hd]. split; [|done].
  destruct h as [f|]; cbn; [|done]. by rewrite bool_decide_true by (by apply Hin).
Qed.

Lemma given_not_held (m : gmap nat handle) (o g : gset nat) x f : owned id m o g -> m !! x = Some (Some f) -> f ∉ g.
Proof. intros Hw Hx. apply (ow_given _ _ _ _ Hw x). by exists (Some f). Qed.

Lemma task_step_ok s a r :
  frames_ok s -> task_step s a = Some r ->
  (exists s', r = Ret s' /\ frames_ok s') \/ (r = UB /\ undefined_action s a).
Proof.
  intros [Hw Hd]. destruct a as [x f|x y|x y|x|x|x|f threw|f]; cbn [task_step].
  - destruct (task_objects s !! x) eqn:Ex; [done|]. case_bool_decide as Hf; [|done]. intros [= <-].
    left. eexists. split; [done|]. constructor; cbn; [|done].
    apply (owned_put id _ _ _ x (Some f)); [by apply absent_owns_nothing|by intros r [= <-]|done].
  - destruct (task_objects s !! x) eqn:Ex; [done|]. destruct (task_objects s !! y) as [h|] eqn:Ey; [|done].
    intros [= <-]. left. eexists. split; [done|]. constructor; cbn; [|done].
    eapply owned_move; [congruence|by apply absent_owns_nothing|exact Ey|done|done|done].
  - destruct (task_objects s !! x) as [k|] eqn:Ex; [|done]. destruct (task_objects s !! y) as [h|] eqn:Ey; [|done].
    case_decide as Hxy; [intros [= <-]; left; by exists s|]. cbn [task_move_assign].
    destruct (destroy_held _ _ _ _ _ Ex Hw) as [-> Ho]. intros [= <-]. left. eexists. split; [done|].
    constructor; cbn; [|done]. rewrite <- (insert_delete_eq (<[y := _]> _)), delete_insert_ne by done.
    eapply (owned_move id _ _ _ x y h); [done|by apply delete_owns_nothing| |done|done|exact Ho].
    by rewrite lookup_delete_ne.
  - destruct (task_objects s !! x) as [h|] eqn:Ex; [|done]. unfold task_destroy.
    destruct (destroy_held _ _ _ _ _ Ex Hw) as [-> Ho]. intros [= <-]. left. by eexists.
  - destruct (task_objects s !! x) as [h|] eqn:Ex; [|done].
    assert (Heq : task_start h = (h, None)) by (by destruct h). rewrite Heq. intros [= <-].
    left. eexists. split; [done|]. constructor; cbn [task_objects live started awaited].
    + pose proof (owned_release id _ _ _ x h None Ex eq_refl Hw) as Hr. cbn [id] in Hr.
      replace (add h (started s) ∪ awaited s) with (add h (started s ∪ awaited s)); [done|].
      destruct h; cbn; [by rewrite (assoc_L (∪))|done].
    + destruct h as [f|]; cbn; [|done]. pose proof (given_not_held _ _ _ _ _ Hw Ex). set_solver.
  - destruct (task_objects s !! x) as [[f|]|] eqn:Ex; [|intros [= <-]; right; by split|done].
    cbn [task_co_await]. intros [= <-]. left. eexists. split; [done|].
    pose proof (given_not_held _ _ _ _ _ Hw Ex) as Hn.
    constructor; cbn [task_objects live started awaited]; [|cbn; set_solver].
    pose proof (owned_release id _ _ _ x (Some f) None Ex eq_refl Hw) as Hr. cbn in Hr |- *.
    by replace (started s ∪ ({[f]} ∪ awaited s)) with ({[f]} ∪ (started s ∪ awaited s)) by set_solver.
  - case_bool_decide as Hf; [|done]. cbn [destroy_all].
    destruct (owned_end id _ _ _ f ltac:(apply elem_of_union; right; exact Hf) Hw) as [Hl Ho].
    rewrite bool_decide_true by done. cbn [mbind outcome_bind].
    intros [= <-]. destruct threw; [right; by split|left]. eexists. split; [done|].
    constructor; cbn [task_objects live started awaited]; [|set_solver].
    replace (started s ∪ awaited s ∖ {[f]}) with ((started s ∪ awaited s) ∖ {[f]}); [done|].
    apply set_eq. intros z. set_solver.
  - case_bool_decide as Hf; [|done]. cbn [destroy_all].
    destruct (owned_end id _ _ _ f ltac:(apply elem_of_union; left; exact Hf) Hw) as [Hl Ho].
    rewrite bool_decide_true by done. cbn [mbind outcome_bind].
    intros [= <-]. left. eexists. split; [done|].
    constructor; cbn [task_objects live started awaited]; [|set_solver].
    replace (started s ∖ {[f]} ∪ awaited s) with ((started s ∪ awaited s) ∖ {[f]}); [done|].
    apply set_eq. intros z. set_solver.
Qed.

Lemma no_frames_ok : frames_ok no_frames.
Proof. constructor; cbn; [|set_solver]. rewrite (left_id_L ∅ (∪)). apply owned_empty. Qed.

Lemma task_run_ok l : forall s r, frames_ok s -> task_run s l = Some r ->
  (exists s', r = Ret s' /\ frames_ok s') \/
  (r = UB /\ exists l1 a l2 s1, l = l1 ++ a :: l2 /\ task_run s l1 = Some (Ret s1) /\ undefined_action s1 a).
Proof.
  induction l as [|a l IH]; intros s r Hs Hr; cbn in Hr; [injection Hr as <-; left; by exists s|].
  destruct (task_step s a) as [m|] eqn:E; [|done].
  destruct (task_step_ok _ _ _ Hs E) as [(s1 & -> & Hs1)|[-> Hu]].
  - destruct (IH s1 r Hs1 Hr) as [?|(-> & l1 & b & l2 & s2 & -> & H1 & Hu)]; [by left|].
    right. split; [done|]. exists (a :: l1), b, l2, s2. split; [done|]. split; [|done]. cbn. by rewrite E.
  - injection Hr as <-. right. split; [done|]. by exists [], a, l, s.
Qed.

(** * Properties *)

(** C25: a coroutine frame is destroyed exactly once. Whatever is done with
    [Task] objects, unless an exception leaves an awaited task or an empty task
    is awaited, no frame is destroyed that is not live; every live frame
    belongs to exactly one task object, awaiter or scheduler; and when no task
    object and no awaiter is left, only the frames given to schedulers are
    live. *)
Theorem frames_destroyed_once l r :
  task_run no_frames l = Some r ->
  (exists s, r = Ret s /\
    (forall f, f ∈ live s <-> (f ∈ started s \/ f ∈ awaited s) \/ exists x, task_objects s !! x = Some (Some f)) /\
    (forall x y f, task_objects s !! x = Some (Some f) -> task_objects s !! y = Some (Some f) -> x = y) /\
    started s ## awaited s /\
    (task_objects s = ∅ -> awaited s = ∅ -> live s = started s)) \/
  (r = UB /\ exists l1 a l2 s, l = l1 ++ a :: l2 /\ task_run no_frames l1 = Some (Ret s) /\ undefined_action s a).
Proof.
  intros Hr. destruct (task_run_ok l no_frames r no_frames_ok Hr) as [(s & -> & [Hw Hd])|H]; [left|by right].
  assert (Ho : forall x f, owns id (task_objects s) x f <-> task_objects s !! x = Some (Some f)).
  { intros x f. unfold owns. split; [|by exists (Some f)]. intros (v & Hv & Hf). unfold id in Hf. by subst v. }
  exists s. split; [done|]. split_and!; [| |done|].
  - intros f. rewrite (ow_live _ _ _ _ Hw), elem_of_union. by setoid_rewrite Ho.
  - intros x y f. rewrite <- !Ho. by apply (ow_unique _ _ _ _ Hw).
  - intros He Ha. rewrite He, Ha, (right_id_L ∅ (∪)) in Hw. by eapply owned_none_left.
Qed.

(** The tasks of one connection: [handle_connection] is started; it awaits a
    task that was moved on the way and finishes; one is dropped unawaited. *)
Definition connection_tasks : list task_action :=
  [Call 0 10; StartTask 0; DestroyTask 0; Call 1 11; MoveTask 2 1; CoAwait 2; AwaitResume 11 false;
   Call 3 12; AssignTask 1 3; DestroyTask 3; DestroyTask 2; DestroyTask 1].

Lemma frames_destroyed_once_witness :
  exists s, task_run no_frames connection_tasks = Some (Ret s) /\ bool_decide (live s = {[10%nat]}) = true /\
  ((exists s', Ret s = Ret s' /\
    (forall f, f ∈ live s' <-> (f ∈ started s' \/ f ∈ awaited s') \/ exists x, task_objects s' !! x = Some (Some f)) /\
    (forall x y f, task_objects s' !! x = Some (Some f) -> task_objects s' !! y = Some (Some f) -> x = y) /\
    started s' ## awaited s' /\
    (task_objects s' = ∅ -> awaited s' = ∅ -> live s' = started s')) \/
  (Ret s = UB /\ exists l1 a l2 s', connection_tasks = l1 ++ a :: l2 /\
     task_run no_frames l1 = Some (Ret s') /\ undefined_action s' a)).
Proof.
  eexists. split; [vm_compute; reflexivity|]. split; [vm_compute; reflexivity|].
  apply (frames_destroyed_once connection_tasks). vm_compute. reflexivity.
Defined.
