(* ===== verification/Memory.v ===== *)
(** * Memory: the frame memory of coroutineWebServer/MemoryResource.{h,cpp}

    Each thread has a [ThreadMemoryContext] with a pool of its own; the
    [operator new] and [operator delete] of a promise (Task.h) take the frame
    from, and return it to, the pool of the thread that calls them.  The pool is
    [std::pmr::unsynchronized_pool_resource]: its choice of an address is an
    argument of the definitions, its contract is that a block goes back to the
    pool that gave it, with the size and alignment of its allocation.  The
    second part runs the [Task] objects of TaskHandle.v on several threads. *)

From S2P Require Export TaskHandle.

(** ** Resources *)

(** The resources of the program; [Pool t] is the pool of thread [t]. *)
Inductive memory_resource := MimallocResource | new_delete_resource | Pool (t : nat).

#[export] Instance memory_resource_eq : EqDecision memory_resource.
Proof. solve_decision. Defined.

(** What a resource calls; [mimalloc] is [CWS_HAS_MIMALLOC]. *)
Inductive heap_call :=
  | mi_malloc_aligned (bytes alignment : Z)
  | operator_new (bytes : Z)
  | mi_free (p : nat)
  | operator_delete (p : nat).

Definition do_allocate (mimalloc : bool) (bytes alignment : Z) : heap_call :=
  if mimalloc then mi_malloc_aligned bytes alignment else operator_new bytes.

Definition do_deallocate (mimalloc : bool) (p : nat) (bytes alignment : Z) : heap_call :=
  if mimalloc then mi_free p else operator_delete p.

Definition do_is_equal (this other : memory_resource) : bool := bool_decide (this = other).

Definition global_fallback_resource (mimalloc : bool) : memory_resource :=
  if mimalloc then MimallocResource else new_delete_resource.

(** [max_blocks_per_chunk] and [largest_required_pool_block]. *)
Definition pool_options : Z * Z := (16, 1024).

(** ** Thread contexts *)

(** [blocks]: the blocks of the pool that are in use, with the bytes and the
    alignment of their allocation. *)
Record ThreadMemoryContext := mkContext {
  upstream : memory_resource;
  options : Z * Z;
  blocks : gmap nat (Z * Z)
}.

Definition set_blocks (c : ThreadMemoryContext) (b : gmap nat (Z * Z)) : ThreadMemoryContext :=
  mkContext (upstream c) (options c) b.

Definition new_context (mimalloc : bool) : ThreadMemoryContext :=
  mkContext (global_fallback_resource mimalloc) pool_options ∅.

(** [resource] and [fallback_resource] of the context of thread [t]. *)
Definition resource (t : nat) : memory_resource := Pool t.
Definition fallback_resource (c : ThreadMemoryContext) : memory_resource := upstream c.

(** The contexts of the threads that have one. *)
Notation contexts := (gmap nat ThreadMemoryContext).

(** [alignof(std::max_align_t)] *)
Definition max_align : Z := 16.

Section memory.
Context (mimalloc : bool).

(** [instance]: the context of the calling thread, made at its first use. *)
Definition instance (m : contexts) (t : nat) : ThreadMemoryContext :=
  match m !! t with Some c => c | None => new_context mimalloc end.

(** [allocate], where the pool returns [p]; [None] when [p] is in use there,
    which the pool does not return. *)
Definition allocate (m : contexts) (t p : nat) (bytes alignment : Z) : option contexts :=
  let c := instance m t in
  match blocks c !! p with
  | Some _ => None
  | None => Some (<[t := set_blocks c (<[p := (bytes, alignment)]> (blocks c))]> m)
  end.

(** [deallocate], undefined for a block that is not one of the pool or that
    was allocated with another size. *)
Definition deallocate (m : contexts) (t p : nat) (bytes alignment : Z) : outcome contexts :=
  let c := instance m t in
  if bool_decide (blocks c !! p = Some (bytes, alignment))
  then Ret (<[t := set_blocks c (delete p (blocks c))]> m) else UB.

Definition allocate_coroutine_frame (m : contexts) (t p : nat) (bytes : Z) : option contexts :=
  allocate m t p bytes max_align.

Definition deallocate_coroutine_frame (m : contexts) (t p : nat) (bytes : Z) : outcome contexts :=
  deallocate m t p bytes max_align.

(** ** Tasks on several threads

    The address of a frame is its name, [frame_size] its size, which the
    compiler gives to [operator new] and [operator delete]; [home] is the
    thread on which a [Task] object lives: a local of a function, or of a
    coroutine, whose scheduler resumes it on one thread. *)
Context (frame_size : nat -> Z) (home : nat -> nat).

(** [holder]: the thread of the scheduler or of the awaiter of a frame. *)
Record machine := mkMachine {
  task_state : frames;
  holder : gmap nat nat;
  memory : contexts
}.

Definition no_memory : machine := mkMachine no_frames ∅ ∅.

(** [by_thread] does [action]; a task that it starts goes to the scheduler that
    [target] runs. *)
Record thread_action := mkAction { by_thread : nat; action : task_action; target : nat }.

(** A thread works on its own objects, awaiters and scheduler. *)
Definition own_action (M : machine) (t : nat) (a : task_action) : bool :=
  match a with
  | Call x _ | DestroyTask x | StartTask x | CoAwait x => bool_decide (home x = t)
  | MoveTask x y | AssignTask x y => bool_decide (home x = t /\ home y = t)
  | AwaitResume f _ | SchedulerDestroys f => bool_decide (holder M !! f = Some t)
  end.

(** The frame that is destroyed, for which [operator delete] is called. *)
Definition destroyed_frame (s : frames) (a : task_action) : handle :=
  match a with
  | AssignTask x y => if decide (x = y) then None else mjoin (task_objects s !! x)
  | DestroyTask x => mjoin (task_objects s !! x)
  | AwaitResume f _ | SchedulerDestroys f => Some f
  | _ => None
  end.

(** Who holds the frames after the action. *)
Definition holder_after (M : machine) (a : thread_action) : gmap nat nat :=
  match action a with
  | StartTask x =>
      match task_objects (task_state M) !! x with
      | Some (Some f) => <[f := target a]> (holder M)
      | _ => holder M
      end
  | CoAwait x =>
      match task_objects (task_state M) !! x with
      | Some (Some f) => <[f := by_thread a]> (holder M)
      | _ => holder M
      end
  | _ => holder M
  end.

(** The memory: [operator new] for a call, [operator delete] for a frame that is
    destroyed. *)
Definition memory_after (M : machine) (a : thread_action) : option (outcome contexts) :=
  let t := by_thread a in
  match action a, destroyed_frame (task_state M) (action a) with
  | Call _ f, _ => Ret <$> allocate_coroutine_frame (memory M) t f (frame_size f)
  | _, Some f => Some (deallocate_coroutine_frame (memory M) t f (frame_size f))
  | _, None => Some (Ret (memory M))
  end.

Definition machine_step (M : machine) (a : thread_action) : option (outcome machine) :=
  if own_action M (by_thread a) (action a) then
    r ← task_step (task_state M) (action a);
    m ← memory_after M a;
    Some (s ← r; m ← m; Ret (mkMachine s (holder_after M a) m))
  else None.

Fixpoint machine_run (M : machine) (l : list thread_action) : option (outcome machine) :=
  match l with
  | [] => Some (Ret M)
  | a :: l' =>
      match machine_step M a with
      | Some (Ret M') => machine_run M' l'
      | r => r
      end
  end.

(** A task is started by the thread of its scheduler, as the functions that
    are posted to it do. *)
Definition started_at_home (a : thread_action) : Prop :=
  match action a with StartTask _ => target a = by_thread a | _ => True end.

(** * Lemmas *)

(** Frame [f] is held on thread [t]: by an object, or by an awaiter or a
    scheduler. *)
Definition held_by_object (m : gmap nat handle) (f t : nat) : Prop := exists x, owns id m x f /\ home x = t.

Definition on_thread (M : machine) (f t : nat) : Prop :=
  held_by_object (task_objects (task_state M)) f t \/
  ((f ∈ started (task_state M) \/ f ∈ awaited (task_state M)) /\ holder M !! f = Some t).

Definition frame_block (f : nat) : Z * Z := (frame_size f, max_align).

(** The pool of each thread has exactly the frames that are held there. *)
Record memory_ok (M : machine) : Prop := mkMemoryOk {
  mo_frames : frames_ok (task_state M);
  mo_blocks : forall t f b,
    blocks (instance (memory M) t) !! f = Some b <-> b = frame_block f /\ on_thread M f t
}.

Lemma owns_handle (m : gmap nat handle) x f : owns id m x f <-> m !! x = Some (Some f).
Proof. unfold owns. split; [|by exists (Some f)]. intros (v & Hv & Hf). unfold id in Hf. by subst v. Qed.

Section objects.
Context (m : gmap nat handle).
Context (o given : gset nat) (Hw : owned id m o given).

Lemma held_put x f g u :
  m !! x = None -> held_by_object (<[x := Some f]> m) g u <-> (g = f /\ u = home x) \/ held_by_object m g u.
Proof.
  intros Hx%(absent_owns_nothing id). unfold held_by_object. setoid_rewrite owns_insert. split.
  - intros (z & [[-> [= ->]]|[_ Hz]] & <-); [by left|right; by exists z].
  - intros [[-> ->]|(z & Hz & Hu)]; [exists x; split; [by left|done]|]. exists z. split; [|done].
    right. split; [|done]. intros ->. by destruct (Hx g).
Qed.

Lemma held_delete x h g u :
  m !! x = Some h -> held_by_object (delete x m) g u <-> h <> Some g /\ held_by_object m g u.
Proof.
  intros Hx. pose proof (fun r => owns_held id m x h r Hx) as Hv. unfold id in Hv at 2.
  unfold held_by_object. setoid_rewrite owns_delete. split.
  - intros (z & [Hne Hz] & Hu). split; [|by exists z]. intros Hg%Hv. by apply Hne, (ow_unique _ _ _ _ Hw z x g).
  - intros [Hg (z & Hz & Hu)]. exists z. split; [|done]. split; [|done]. intros ->. by apply Hg, Hv.
Qed.

Lemma held_clear x h g u :
  m !! x = Some h -> held_by_object (<[x := None]> m) g u <-> h <> Some g /\ held_by_object m g u.
Proof.
  intros Hx. rewrite <- (held_delete x h g u Hx). unfold held_by_object.
  setoid_rewrite owns_insert. setoid_rewrite owns_delete. split.
  - intros (z & [[_ [=]]|Hz] & Hu). by exists z.
  - intros (z & Hz & Hu). exists z. split; [by right|done].
Qed.

Lemma held_move x y h g u :
  x <> y -> m !! x = None -> m !! y = Some h -> home x = home y ->
  held_by_object (<[x := h]> (<[y := None]> m)) g u <-> held_by_object m g u.
Proof.
  intros Hxy Hx%(absent_owns_nothing id) Hy Hh. pose proof (fun r => owns_held id m y h r Hy) as Hv. unfold id in Hv at 2.
  unfold held_by_object. setoid_rewrite owns_insert. setoid_rewrite owns_insert. unfold id at 1 2. split.
  - intros (z & [[-> Hz]|[_ [[_ [=]]|[_ Hz]]]] & <-); [|by exists z]. exists y. split; [by apply Hv|done].
  - intros (z & Hz & <-). destruct (decide (z = y)) as [->|Hzy].
    + exists x. split; [|done]. left. split; [done|by apply Hv].
    + exists z. split; [|done]. right. split; [|by right]. intros ->. by destruct (Hx g).
Qed.

(** A frame that goes from an object of thread [t] to a holder of [t] stays there. *)
Lemma given_on_thread x f (P P' : Prop) (h : gmap nat nat) g u :
  m !! x = Some (Some f) -> (g = f -> ~ P) -> (P' <-> g = f \/ P) ->
  (Some f <> Some g /\ held_by_object m g u) \/ (P' /\ <[f := home x]> h !! g = Some u) <->
  held_by_object m g u \/ (P /\ h !! g = Some u).
Proof.
  intros Hx Hf HP. destruct (decide (g = f)) as [->|Hne].
  - rewrite lookup_insert_eq. split.
    + intros [[? _]|[_ [= <-]]]; [done|]. left. exists x. by rewrite owns_handle.
    + intros [(y & Hy & <-)|[HP0 _]]; [|by destruct (Hf eq_refl)]. right. split; [tauto|].
      f_equal. f_equal. apply (ow_unique _ _ _ _ Hw _ _ f); [by apply owns_handle|done].
  - rewrite lookup_insert_ne by done. split; [tauto|]. intros [?|?]; [|tauto]. left. split; [congruence|done].
Qed.
End objects.

Lemma on_thread_live M f t : frames_ok (task_state M) -> on_thread M f t -> f ∈ live (task_state M).
Proof.
  intros [Hw _] Ho. apply (ow_live _ _ _ _ Hw). rewrite elem_of_union.
  destruct Ho as [(x & Hx & _)|[Hf _]]; [right; by exists x|by left].
Qed.

(** A frame is held on one thread. *)
Lemma on_thread_unique M f t u : frames_ok (task_state M) -> on_thread M f t -> on_thread M f u -> t = u.
Proof.
  intros [Hw _].
  assert (Hg : forall x, owns id (task_objects (task_state M)) x f ->
    f ∈ started (task_state M) \/ f ∈ awaited (task_state M) -> False).
  { intros x Hx Hf. apply (ow_given _ _ _ _ Hw _ _ Hx). by rewrite elem_of_union. }
  intros [(x & Hx & <-)|[Hf Ht]] [(y & Hy & <-)|[Hf' Hu]]; [|by destruct (Hg x Hx)|by destruct (Hg y Hy)|congruence].
  by rewrite (ow_unique _ _ _ _ Hw x y f).
Qed.

Lemma instance_insert m t c u : instance (<[t := c]> m) u = if decide (u = t) then c else instance m u.
Proof.
  unfold instance. case_decide as Hu; [subst; by rewrite lookup_insert_eq|by rewrite lookup_insert_ne].
Qed.

Lemma allocate_blocks m t f n m' :
  allocate_coroutine_frame m t f n = Some m' ->
  forall u g b, blocks (instance m' u) !! g = Some b <->
    (u = t /\ g = f /\ b = (n, max_align)) \/ (~ (u = t /\ g = f) /\ blocks (instance m u) !! g = Some b).
Proof.
  unfold allocate_coroutine_frame, allocate. destruct (blocks _ !! f) eqn:E; [done|]. intros [= <-] u g b.
  rewrite instance_insert. case_decide as Hu; [subst u; cbn [blocks set_blocks]|by intuition].
  destruct (decide (g = f)) as [->|Hg]; [rewrite lookup_insert_eq|rewrite lookup_insert_ne by done; intuition].
  split; [intros [= <-]; by left|intros [(_ & _ & ->)|[[] ?]]; [done|by split]].
Qed.

Lemma deallocate_blocks m t f n :
  blocks (instance m t) !! f = Some (n, max_align) ->
  exists m', deallocate_coroutine_frame m t f n = Ret m' /\
    forall u g b, blocks (instance m' u) !! g = Some b <->
      ~ (u = t /\ g = f) /\ blocks (instance m u) !! g = Some b.
Proof.
  intros Hf. unfold deallocate_coroutine_frame, deallocate. rewrite bool_decide_true by done.
  eexists. split; [done|]. intros u g b.
  rewrite instance_insert. case_decide as Hu; [subst u; cbn [blocks set_blocks]|by intuition].
  destruct (decide (g = f)) as [->|Hg]; [rewrite lookup_delete_eq|rewrite lookup_delete_ne by done; intuition].
  split; [done|intros [[] _]; by split].
Qed.

(** The three effects of an action on who holds what: a new frame, nothing, or a
    frame less. *)
Lemma memory_ok_new M M' t f :
  memory_ok M -> frames_ok (task_state M') -> f ∉ live (task_state M) ->
  (forall g u, on_thread M' g u <-> (g = f /\ u = t) \/ on_thread M g u) ->
  allocate_coroutine_frame (memory M) t f (frame_size f) = Some (memory M') -> memory_ok M'.
Proof.
  intros [Hf Hb] Hf' Hnew Ho Ha. constructor; [done|]. intros u g b.
  rewrite (allocate_blocks _ _ _ _ _ Ha), Hb, Ho. unfold frame_block. split.
  - intros [(-> & -> & ->)|[_ [-> ?]]]; auto.
  - intros [-> [[-> ->]|Hg]]; [by left|right]. split; [|by split]. intros [-> ->].
    by apply Hnew, (on_thread_live _ _ t).
Qed.

Lemma memory_ok_same M M' :
  memory_ok M -> frames_ok (task_state M') -> (forall g u, on_thread M' g u <-> on_thread M g u) ->
  memory M' = memory M -> memory_ok M'.
Proof. intros [Hf Hb] Hf' Ho Hm. constructor; [done|]. intros u g b. by rewrite Hm, Ho, Hb. Qed.

Lemma memory_ok_destroy M t f :
  memory_ok M -> on_thread M f t ->
  exists m', deallocate_coroutine_frame (memory M) t f (frame_size f) = Ret m' /\
    forall s' h', let M' := mkMachine s' h' m' in
      frames_ok s' -> (forall g u, on_thread M' g u <-> g <> f /\ on_thread M g u) -> memory_ok M'.
Proof.
  intros [Hf Hb] Ht. destruct (deallocate_blocks (memory M) t f (frame_size f)) as (m' & Hd & Hm').
  { by apply Hb. }
  exists m'. split; [done|]. intros s' h' M' Hs' Ho. constructor; [done|]. intros u g b. cbn [memory M'].
  rewrite Hm', Hb, Ho. split.
  - intros [Hne [-> Hg]]. split_and!; [done| |done]. intros ->. apply Hne. split; [|done].
    by eapply on_thread_unique.
  - intros [-> [Hne Hg]]. split; [|by split]. by intros [_ ->].
Qed.

(** What an action that is defined does to the frames. *)
Lemma machine_step_inv M a r :
  machine_step M a = Some r ->
  own_action M (by_thread a) (action a) = true /\
  exists r0 m, task_step (task_state M) (action a) = Some r0 /\ memory_after M a = Some m /\
    r = (s ← r0; m ← m; Ret (mkMachine s (holder_after M a) m)).
Proof.
  unfold machine_step. destruct (own_action _ _ _); [|done]. destruct (task_step _ _) as [r0|]; [|done].
  cbn. destruct (memory_after _ _) as [m|]; [|done]. cbn. intros [= <-]. split; [done|]. by exists r0, m.
Qed.

(** A destroyed frame was held on the thread that destroys it, and nothing else
    changes hands. *)
Lemma destroy_on_thread M t a s' f :
  frames_ok (task_state M) -> own_action M t a = true ->
  task_step (task_state M) a = Some (Ret s') -> destroyed_frame (task_state M) a = Some f ->
  on_thread M f t /\
  forall m g u, on_thread (mkMachine s' (holder M) m) g u <-> g <> f /\ on_thread M g u.
Proof.
  intros [Hw Hd] Ho Hs Hf. unfold on_thread.
  assert (Hg : forall x, task_objects (task_state M) !! x = Some (Some f) -> f ∉ started (task_state M) /\ f ∉ awaited (task_state M)).
  { intros x Hx%owns_handle. apply (ow_given _ _ _ _ Hw) in Hx. set_solver. }
  assert (Hn : f ∈ started (task_state M) \/ f ∈ awaited (task_state M) -> forall u, ~ held_by_object (task_objects (task_state M)) f u).
  { intros Hf' u (x & Hx & _). apply owns_handle in Hx. destruct (Hg x Hx). tauto. }
  destruct a as [x f'|x y|x y|x|x|x|f' threw|f']; cbn in Ho, Hs, Hf; try done.
  - destruct (task_objects (task_state M) !! x) as [k|] eqn:Ex; [|done].
    destruct (task_objects (task_state M) !! y) as [h|] eqn:Ey; [|done].
    case_decide as Hxy; [done|]. cbn in Hf. subst k. apply bool_decide_eq_true in Ho as [Hx Hy].
    cbn in Hs. case_bool_decide; [|done]. injection Hs as <-. specialize (Hg x Ex).
    split; [left; exists x; by rewrite owns_handle|]. intros m g u. cbn.
    rewrite <- (insert_delete_eq (<[y := _]> _)), delete_insert_ne by done.
    rewrite held_move by (rewrite ?lookup_delete_ne by done; (congruence || apply lookup_delete_eq)).
    rewrite (held_delete _ _ _ Hw x) by done. naive_solver.
  - destruct (task_objects (task_state M) !! x) as [k|] eqn:Ex; [|done]. cbn in Hf. subst k.
    apply bool_decide_eq_true in Ho. cbn in Hs. case_bool_decide; [|done]. injection Hs as <-. specialize (Hg x Ex).
    split; [left; exists x; by rewrite owns_handle|]. intros m g u. cbn.
    rewrite (held_delete _ _ _ Hw x) by done. naive_solver.
  - injection Hf as ->. apply bool_decide_eq_true in Ho. case_bool_decide as Ha; [|done].
    case_bool_decide; [|done]. cbn in Hs. destruct threw; [done|]. injection Hs as <-.
    split; [right; auto|]. intros m g u. cbn. rewrite elem_of_difference, elem_of_singleton.
    destruct (decide (g = f)) as [->|]; [|tauto]. specialize (Hn (or_intror Ha) u). pose proof (Hd f). tauto.
  - injection Hf as ->. apply bool_decide_eq_true in Ho. case_bool_decide as Ha; [|done].
    case_bool_decide; [|done]. injection Hs as <-.
    split; [right; auto|]. intros m g u. cbn. rewrite elem_of_difference, elem_of_singleton.
    destruct (decide (g = f)) as [->|]; [|tauto]. specialize (Hn (or_introl Ha) u). pose proof (Hd f). tauto.
Qed.

(** The other actions, a call apart, keep every frame on its thread. *)
Lemma keep_on_thread M t u a s' :
  frames_ok (task_state M) ->
  own_action M t a = true -> match a with Call _ _ => False | StartTask _ => u = t | _ => True end ->
  task_step (task_state M) a = Some (Ret s') -> destroyed_frame (task_state M) a = None ->
  forall m g v, on_thread (mkMachine s' (holder_after M (mkAction t a u)) m) g v <-> on_thread M g v.
Proof.
  intros [Hw Hd] Ho Hu Hs Hf m g v. unfold on_thread.
  destruct a as [x f'|x y|x y|x|x|x|f' threw|f']; cbn in Ho, Hu, Hs, Hf; try done; cbn.
  - destruct (task_objects (task_state M) !! x) eqn:Ex; [done|].
    destruct (task_objects (task_state M) !! y) as [h|] eqn:Ey; [|done].
    injection Hs as <-. cbn. apply bool_decide_eq_true in Ho as [Hx Hy].
    rewrite held_move by congruence. done.
  - destruct (task_objects (task_state M) !! x) as [k|] eqn:Ex; [|done].
    destruct (task_objects (task_state M) !! y) as [h|] eqn:Ey; [|done].
    case_decide as Hxy; [by injection Hs as <-|]. cbn in Hf. subst k.
    cbn in Hs. injection Hs as <-. cbn. apply bool_decide_eq_true in Ho as [Hx Hy].
    rewrite <- (insert_delete_eq (<[y := _]> _)), delete_insert_ne by done.
    rewrite held_move by (rewrite ?lookup_delete_ne by done; (congruence || apply lookup_delete_eq)).
    rewrite (held_delete _ _ _ Hw x) by done. naive_solver.
  - destruct (task_objects (task_state M) !! x) as [k|] eqn:Ex; [|done]. cbn in Hf. subst k.
    cbn in Hs. injection Hs as <-. cbn. rewrite (held_delete _ _ _ Hw x) by done. naive_solver.
  - apply bool_decide_eq_true in Ho. destruct (task_objects (task_state M) !! x) as [[f|]|] eqn:Ex; [| |done];
      cbn in Hs; injection Hs as <-; cbn; rewrite (held_clear _ _ _ Hw x) by done; [|naive_solver].
    rewrite Hu, <- Ho. apply (given_on_thread _ _ _ Hw); [done| |set_solver].
    pose proof (ow_given _ _ _ _ Hw x f (proj2 (owns_handle _ _ _) Ex)). set_solver.
  - apply bool_decide_eq_true in Ho. destruct (task_objects (task_state M) !! x) as [[f|]|] eqn:Ex; [|done|done].
    cbn in Hs. injection Hs as <-. cbn. rewrite (held_clear _ _ _ Hw x) by done.
    rewrite <- Ho. apply (given_on_thread _ _ _ Hw); [done| |set_solver].
    pose proof (ow_given _ _ _ _ Hw x f (proj2 (owns_handle _ _ _) Ex)). set_solver.
Qed.

Lemma machine_step_ok M a r :
  memory_ok M -> started_at_home a -> machine_step M a = Some r ->
  (exists M', r = Ret M' /\ task_step (task_state M) (action a) = Some (Ret (task_state M')) /\ memory_ok M') \/
  (r = UB /\ task_step (task_state M) (action a) = Some UB).
Proof.
  intros HM Hh (Hown & r0 & m & Hr0 & Hm & ->)%machine_step_inv. pose proof (mo_frames _ HM) as Hf.
  destruct (task_step_ok _ _ _ Hf Hr0) as [(s' & -> & Hs')|[-> _]]; [left|by right].
  destruct a as [t a u]. cbn [action by_thread] in *. unfold memory_after in Hm. cbn [action by_thread] in Hm.
  destruct (destroyed_frame (task_state M) a) as [f|] eqn:Ed.
  - destruct (destroy_on_thread _ _ _ _ _ Hf Hown Hr0 Ed) as [Hft Ho].
    destruct (memory_ok_destroy M t f HM Hft) as (m' & Hm' & Hok).
    assert (m = Ret m' /\ holder_after M (mkAction t a u) = holder M) as [-> Hh'].
    { unfold holder_after. destruct a; cbn in Ed, Hm |- *; try done; rewrite Hm' in Hm; by injection Hm as <-. }
    eexists. split; [done|]. split; [done|]. rewrite Hh'. by apply Hok.
  - destruct (match a with Call _ _ => true | _ => false end) eqn:Ec.
    + destruct a as [x f| | | | | | |]; try done. destruct (allocate_coroutine_frame _ _ _ _) as [m'|] eqn:Ea; [|done].
      injection Hm as <-. eexists. split; [done|]. split; [done|]. cbn in Hr0, Hown.
      destruct (task_objects (task_state M) !! x) eqn:Ex; [done|]. case_bool_decide; [|done].
      apply bool_decide_eq_true in Hown. injection Hr0 as <-.
      eapply (memory_ok_new M (mkMachine _ _ m') t f HM Hs'); [done| |done]. intros g v. unfold on_thread. cbn.
      rewrite held_put by done. rewrite Hown. tauto.
    + assert (m = Ret (memory M)) as -> by (destruct a; try done; by injection Hm as <-).
      eexists. split; [done|]. split; [done|]. apply (memory_ok_same M); [done|done| |done].
      apply keep_on_thread; [done|done| |done|done]. by destruct a.
Qed.

Lemma machine_run_ok l : forall M r,
  memory_ok M -> Forall started_at_home l -> machine_run M l = Some r ->
  (exists M', r = Ret M' /\ task_run (task_state M) (action <$> l) = Some (Ret (task_state M')) /\ memory_ok M') \/
  (r = UB /\ task_run (task_state M) (action <$> l) = Some UB).
Proof.
  induction l as [|a l IH]; intros M r HM Hl Hr; cbn in Hr |- *; [injection Hr as <-; left; by exists M|].
  apply Forall_cons in Hl as [Ha Hl]. destruct (machine_step M a) as [r1|] eqn:E; [|done].
  destruct (machine_step_ok _ _ _ HM Ha E) as [(M1 & -> & H1 & HM1)|[-> H1]]; rewrite H1; [by apply IH|].
  injection Hr as <-. by right.
Qed.

Lemma no_memory_ok : memory_ok no_memory.
Proof.
  constructor; [apply no_frames_ok|]. intros t f b. unfold instance, on_thread, held_by_object, owns. cbn.
  rewrite !lookup_empty. split; [done|]. intros [_ [(x & (v & Hx & _) & _)|[[?|?] _]]]; set_solver.
Qed.
End memory.

(** * Properties *)

(** C26: every coroutine frame goes back to the pool it came from. When each
    task is started by the thread of its scheduler, as the functions that the
    accept loop posts do, then however the threads interleave, [operator delete]
    returns every frame to the pool of its thread, with the size it was
    allocated with: the run is undefined only where the same actions on [Task]
    objects are; a block is in use in the pool of a thread exactly when it is
    the frame of a task, an awaiter or a scheduler of that thread; and when
    none is left the pools of all threads are empty. *)
Theorem frames_return_to_their_pool mimalloc frame_size home l r :
  machine_run mimalloc frame_size home no_memory l = Some r -> Forall started_at_home l ->
  (exists M, r = Ret M /\ task_run no_frames (action <$> l) = Some (Ret (task_state M)) /\
    (forall t f b, blocks (instance mimalloc (memory M) t) !! f = Some b <->
       b = (frame_size f, max_align) /\ on_thread home M f t) /\
    (task_objects (task_state M) = ∅ -> started (task_state M) = ∅ -> awaited (task_state M) = ∅ ->
       forall t, blocks (instance mimalloc (memory M) t) = ∅)) \/
  (r = UB /\ task_run no_frames (action <$> l) = Some UB).
Proof.
  intros Hr Hl. destruct (machine_run_ok _ _ _ l _ _ (no_memory_ok mimalloc frame_size home) Hl Hr)
    as [(M & -> & HM & [Hf Hb])|?]; [left|by right].
  exists M. split_and!; [done|done|done|]. intros Ho Hs Ha t. apply map_empty. intros f.
  destruct (blocks _ !! f) as [b|] eqn:E; [|done]. apply Hb in E as [_ [(x & Hx%owns_handle & _)|[[?|?] _]]];
    [by rewrite Ho, lookup_empty in Hx|set_solver..].
Qed.

(** Two workers with the objects 0-9 and 10-19. The first one runs a posted
    function that starts a connection, whose coroutine awaits another; the
    second one has a connection of its own in between. *)
Definition two_workers : list thread_action :=
  [mkAction 1 (Call 0 100) 1; mkAction 2 (Call 10 200) 2; mkAction 1 (StartTask 0) 1; mkAction 1 (DestroyTask 0) 1;
   mkAction 2 (StartTask 10) 2; mkAction 1 (Call 1 101) 1; mkAction 1 (CoAwait 1) 1; mkAction 2 (SchedulerDestroys 200) 2;
   mkAction 1 (AwaitResume 101 false) 1; mkAction 1 (SchedulerDestroys 100) 1; mkAction 2 (DestroyTask 10) 2;
   mkAction 1 (DestroyTask 1) 1].

Definition worker_of (x : nat) : nat := if bool_decide (x < 10)%nat then 1 else 2.

Lemma frames_return_to_their_pool_witness :
  exists M, machine_run true (fun f => Z.of_nat f + 64) worker_of no_memory two_workers = Some (Ret M) /\
    bool_decide (task_objects (task_state M) = ∅) = true /\
  ((exists M', Ret M = Ret M' /\ task_run no_frames (action <$> two_workers) = Some (Ret (task_state M')) /\
    (forall t f b, blocks (instance true (memory M') t) !! f = Some b <->
       b = (Z.of_nat f + 64, max_align) /\ on_thread worker_of M' f t) /\
    (task_objects (task_state M') = ∅ -> started (task_state M') = ∅ -> awaited (task_state M') = ∅ ->
       forall t, blocks (instance true (memory M') t) = ∅)) \/
  (Ret M = UB /\ task_run no_frames (action <$> two_workers) = Some UB)).
Proof.
  eexists. split; [vm_compute; reflexivity|]. split; [vm_compute; reflexivity|].
  apply (frames_return_to_their_pool true (fun f => Z.of_nat f + 64) worker_of two_workers); [vm_compute; reflexivity|].
  repeat constructor.
Defined.

(** [HttpServer::start] creates the frame of [accept_loop] on its own thread and
    enqueues it on the acceptor, a scheduler of another thread. If the loop
    finds [running_] reset when it is first resumed, it finishes there and the
    acceptor's thread returns the frame to its own pool, which never had it. *)
Example accept_loop_frame_changes_thread :
  let start := [mkAction 0 (Call 0 100) 0; mkAction 0 (StartTask 0) 1; mkAction 0 (DestroyTask 0) 0;
                mkAction 1 (SchedulerDestroys 100) 1] in
  machine_run true (fun _ => 256) (fun _ => 0%nat) no_memory start = Some UB /\
  exists s, task_run no_frames (action <$> start) = Some (Ret s) /\ live s = ∅.
Proof. split; [vm_compute; reflexivity|]. eexists. split; [vm_compute; reflexivity|]. vm_compute. reflexivity. Qed.
