(* ===== verification/Startup.v ===== *)
(** * Startup: the two [main] functions and what they construct

    coroutineWebServer/CoroutineMain.cpp: its arguments, the constructor of
    [cws::HttpServer] with [create_listen_socket].  Main.cpp: its options as
    [getopt] returns them, and the constructor and [start] of [Server]
    (Server.cpp).  The answers of the system calls are arguments; the
    descriptors closed on an error path are results. *)

From S2P Require Import HttpServer Util Epoll.

(** * CoroutineMain.cpp *)

(** The locals [port], [threads], [log_path] and [docroot] of [main]. *)
Record options := mkOptions {
  opt_port : Z;
  opt_threads : Z;
  opt_log_path : bytes;
  opt_docroot : bytes
}.

#[export] Instance options_eq_dec : EqDecision options.
Proof. solve_decision. Defined.

Definition default_options (hardware_concurrency : Z) : options :=
  mkOptions 8080 (Z.max 4 hardware_concurrency) (lit "/tmp/coroutine-webserver.log") [].

Definition set_port (o : options) (p : Z) := mkOptions p (opt_threads o) (opt_log_path o) (opt_docroot o).
Definition set_threads (o : options) (n : Z) := mkOptions (opt_port o) n (opt_log_path o) (opt_docroot o).
Definition set_log_path (o : options) (l : bytes) := mkOptions (opt_port o) (opt_threads o) l (opt_docroot o).
Definition set_docroot (o : options) (d : bytes) := mkOptions (opt_port o) (opt_threads o) (opt_log_path o) d.

(** An option with its value. [None]: the argument is not such an option. *)
Definition set_option (o : options) (arg value : bytes) : option (outcome options) :=
  if bytes_eqb arg (lit "-p") then Some (n ← stoi value; Ret (set_port o (u16 n)))
  else if bytes_eqb arg (lit "-t") then Some (n ← stoul value; Ret (set_threads o (u64 n)))
  else if bytes_eqb arg (lit "-l") then Some (Ret (set_log_path o value))
  else if bytes_eqb arg (lit "-d") then Some (Ret (set_docroot o value))
  else None.

Definition is_help (arg : bytes) : bool :=
  bytes_eqb arg (lit "--help") || bytes_eqb arg (lit "-h").

(** The loop over [argv]: [Ret None] when the usage is printed. An option that
    is the last argument has no value and is ignored, like any other word. *)
Fixpoint parse_args (o : options) (args : list bytes) : outcome (option options) :=
  match args with
  | [] => Ret (Some o)
  | arg :: rest =>
      let skip := if is_help arg then Ret None else parse_args o rest in
      match rest with
      | value :: rest' =>
          match set_option o arg value with
          | Some o' => o' ← o'; parse_args o' rest'
          | None => skip
          end
      | [] => skip
      end
  end.

(** ** The constructor of HttpServer *)

(** [create_listen_socket] on what [socket], [bind] and [listen] return; the
    results of [setsockopt] are not looked at. *)
Definition create_listen_socket (sock_fd bind_rc listen_rc : Z) : outcome UniqueFd * list Z :=
  if sock_fd <? 0 then (Throw runtime_error, [])
  else if bind_rc <? 0 then (Throw runtime_error, [sock_fd])
  else if listen_rc <? 0 then (Throw runtime_error, [sock_fd])
  else (Ret (mkUniqueFd sock_fd false), []).

(** [HttpServer::Config] and [listen_fd_]. *)
Record HttpServer := mkHttpServer {
  config_port : Z;
  worker_count : Z;
  config_docroot : bytes;
  listen_fd_ : UniqueFd
}.

(** The members are constructed first; when the body throws, they are destroyed. *)
Definition new_HttpServer (fs : FileSystem) (current : option bytes) (retry : outcome bytes)
    (o : options) (sock_fd bind_rc listen_rc : Z) : outcome HttpServer * list Z :=
  match create_listen_socket sock_fd bind_rc listen_rc with
  | (Ret fd, closed) =>
      match detect_docroot fs current retry (opt_docroot o) with
      | Ret docroot =>
          (Ret (mkHttpServer (opt_port o) (normal_worker_count (opt_threads o)) docroot fd), closed)
      | Throw e => (Throw e, closed ++ fd_destroy fd)
      | UB => (UB, closed)
      | OutOfFuel => (OutOfFuel, closed)
      end
  | (Throw e, closed) => (Throw e, closed)
  | (UB, closed) => (UB, closed)
  | (OutOfFuel, closed) => (OutOfFuel, closed)
  end.

(** * Main.cpp *)

(** [threadNum], [port] and [logPath]. *)
Record main_options := mkMainOptions { threadNum : Z; port : Z; logPath : bytes }.

Definition default_main_options : main_options := mkMainOptions 4 80 (lit "./WebServer.log").

(** One turn of the [getopt] loop; [Ret None] is [abort()]. *)
Definition main_option (o : main_options) (opt : ascii) (optarg : bytes) : outcome (option main_options) :=
  if Ascii.eqb opt "t" then n ← atoi optarg; Ret (Some (mkMainOptions n (port o) (logPath o)))
  else if Ascii.eqb opt "l" then
    if (size optarg <? 2) || negb (Ascii.eqb (char_at optarg 0) "/") then Ret None
    else Ret (Some (mkMainOptions (threadNum o) (port o) optarg))
  else if Ascii.eqb opt "p" then n ← atoi optarg; Ret (Some (mkMainOptions (threadNum o) n (logPath o)))
  else Ret (Some o).

(** The [getopt] loop on what [getopt] returns. *)
Fixpoint main_loop (o : main_options) (opts : list (ascii * bytes)) : outcome (option main_options) :=
  match opts with
  | [] => Ret (Some o)
  | (opt, optarg) :: opts' =>
      o' ← main_option o opt optarg;
      match o' with Some o' => main_loop o' opts' | None => Ret None end
  end.

(** What the system calls of the constructor of [Server] return. *)
Record syscalls := mkSyscalls {
  sc_socket : Z; sc_setsockopt : Z; sc_bind : Z; sc_listen : Z; sc_getfl : Z; sc_setfl : Z
}.

(** The constructor of [Server]: its pool and [listenFd_]; [None] is
    [abort()]. [fcntl] fails on the descriptor -1. *)
Definition new_Server (threadNum port : Z) (k : syscalls) : option (EventLoopThreadPool * Z) :=
  pool ← new_EventLoopThreadPool threadNum;
  let fd := (socket_bind_listen port (sc_socket k) (sc_setsockopt k) (sc_bind k) (sc_listen k)).1 in
  let getfl := if fd =? -1 then -1 else sc_getfl k in
  if setSocketNonBlocking getfl (sc_setfl k) <? 0 then None else Some (pool, fd).

(** [Server::start]: the pool is started, and the accept channel is added to
    the poller of the base loop. *)
Definition server_start `{TimerQueue Q} (p : Epoll Q) (pool : EventLoopThreadPool) (accept_chan : nat)
    (now : timeval) (fails : bool) : outcome (Epoll Q * EventLoopThreadPool) :=
  let pool := pool_start pool in
  ch ← get_channel p accept_chan;
  let p := set_channel p accept_chan (setEvents ch (Z.lor EPOLLIN EPOLLET)) in
  p ← epoll_add p accept_chan 0 0 now fails;
  Ret (p, pool).

(** * Lemmas *)

(** ** Options *)

Lemma u16_small z : 0 <= z < 2 ^ 16 -> u16 z = z.
Proof. apply Z.mod_small. Qed.

Lemma stoi_to_string n : 0 <= n < 2 ^ 31 -> stoi (to_string n) = Ret n.
Proof.
  intros H. destruct (to_string_spec n ltac:(lia)) as (Hne & Hd & Hv).
  unfold stoi. rewrite <- (app_nil_r (to_string n)), parse_num_digits, Hv by done.
  by rewrite (proj2 (Z.ltb_ge _ _)), (proj2 (Z.ltb_ge _ _)) by lia.
Qed.

(** The types of the locals: [uint16_t] and [std::size_t]. *)
Definition options_ok (o : options) : Prop := 0 <= opt_port o < 2 ^ 16 /\ 0 <= opt_threads o < 2 ^ 64.

Lemma set_option_ok o arg value o' :
  options_ok o -> set_option o arg value = Some (Ret o') -> options_ok o'.
Proof.
  intros [Hp Ht]. unfold set_option.
  case_if; [intros [= (n & _ & [= <-])%bind_Ret_inv]; split; [apply Z.mod_pos_bound; lia|done]|].
  case_if; [intros [= (n & _ & [= <-])%bind_Ret_inv]; split; [done|apply u64_range]|].
  case_if; [by intros [= <-]|]. case_if; [by intros [= <-]|done].
Qed.

Lemma parse_args_ok args : forall o o', options_ok o -> parse_args o args = Ret (Some o') -> options_ok o'.
Proof.
  induction args as [args IH] using (induction_ltof1 _ (@length _)); unfold ltof in IH.
  intros o o' Ho. destruct args as [|arg rest]; cbn [parse_args]; [by intros [= <-]|].
  assert (Hskip : (if is_help arg then Ret None else parse_args o rest) = Ret (Some o') -> options_ok o').
  { case_if; [done|]. apply IH; [cbn; lia|done]. }
  destruct rest as [|value rest]; [done|].
  destruct (set_option o arg value) as [m|] eqn:E; [|done].
  intros (o1 & -> & H)%bind_Ret_inv. eapply IH; [|by eapply set_option_ok|exact H]. cbn. lia.
Qed.

(** The command line that sets every option. *)
Definition render_options (o : options) : list bytes :=
  [lit "-t"; to_string (opt_threads o); lit "-p"; to_string (opt_port o);
   lit "-l"; opt_log_path o; lit "-d"; opt_docroot o].

(** ** Sockets *)

Lemma detect_docroot_returns fs current retry configured :
  returns retry \/ is_Some current \/ configured <> [] ->
  returns (detect_docroot fs current retry configured).
Proof.
  unfold detect_docroot, bytes_eqb. intros H. case_bool_decide; cbn; [|apply returns_Ret].
  destruct H as [H|[[c ->]|]]; [|apply returns_Ret|done]. by destruct current; [apply returns_Ret|].
Qed.

Lemma new_Server_spec n port k pool fd :
  new_Server n port k = Some (pool, fd) ->
  0 < n /\ pool = mkPool n 0 [] /\ fd = sc_socket k /\ fd <> -1 /\ 0 <= port <= 65535.
Proof.
  unfold new_Server, new_EventLoopThreadPool. destruct (n <=? 0) eqn:En; cbn [mbind option_bind]; [done|].
  unfold setSocketNonBlocking, socket_bind_listen. zbool.
  destruct ((port <? 0) || (port >? 65535))%bool eqn:Ep; [done|]. apply orb_false_iff in Ep as [? ?]. zbool.
  destruct (sc_socket k =? -1) eqn:Es; [done|]. destruct (sc_setsockopt k =? -1); [done|].
  destruct (sc_bind k =? -1); [done|]. destruct (sc_listen k =? -1); [done|]. cbn [fst]. rewrite Es.
  repeat case_if; try done; intros [= <- <-]; zbool; split_and!; try done; lia.
Qed.

Lemma server_start_spec `{TimerQueue Q} (p : Epoll Q) n c ch now :
  0 < n -> channels p !! c = Some ch -> 0 <= fd_ ch < MAXFDS -> kernel p !! fd_ ch = None ->
  exists p', server_start p (mkPool n 0 []) c now false = Ret (p', started_pool (Z.to_nat n) 0) /\
    kernel p' !! fd_ ch = Some (mkInterest (Z.lor EPOLLIN EPOLLET) true) /\
    fd2chan_ p' !! fd_ ch = Some c.
Proof.
  intros Hn Hc [Hf1 Hf2] Hk. unfold server_start, get_channel. rewrite Hc. cbn [mbind outcome_bind].
  unfold epoll_add, get_channel. cbn [channels set_channel]. rewrite lookup_insert_eq.
  cbn [mbind outcome_bind setEvents fd_ ch_events]. unfold in_table.
  rewrite (proj2 (Z.leb_le _ _) Hf1), (proj2 (Z.ltb_lt _ _) Hf2). cbn [andb mbind outcome_bind].
  rewrite Z.ltb_irrefl. unfold epoll_ctl. cbn [kernel set_channel set_tables]. rewrite Hk.
  rewrite Z.ltb_irrefl. cbn [mbind outcome_bind]. eexists. split_and!.
  - unfold pool_start, started_pool. cbn. by rewrite Z2Nat.id by lia.
  - cbn. by rewrite lookup_insert_eq.
  - cbn. by rewrite lookup_insert_eq.
Qed.

(** * Properties *)

(** The command line is parsed back. Whatever the defaults, the words that
    set the four options to values of their types give exactly these values. *)
Theorem options_roundtrip o0 o :
  options_ok o -> parse_args o0 (render_options o) = Ret (Some o).
Proof.
  intros [Hp Ht]. unfold render_options. cbn [parse_args].
  change (set_option o0 (lit "-t")) with (fun v => Some (n ← stoul v; Ret (set_threads o0 (u64 n)))).
  cbv beta iota. rewrite stoul_to_string, bind_ret, bind_ret by done.
  set (o1 := set_threads _ _).
  change (set_option o1 (lit "-p")) with (fun v => Some (n ← stoi v; Ret (set_port o1 (u16 n)))).
  cbv beta iota. rewrite stoi_to_string, bind_ret, bind_ret by lia.
  cbn. unfold o1. rewrite u64_small, u16_small by done. by destruct o.
Qed.

Lemma options_roundtrip_witness :
  let o := mkOptions 80 16 (lit "/var/log/cws.log") (lit "/srv/www") in
  parse_args (default_options 8)
    [lit "-t"; lit "16"; lit "-p"; lit "80"; lit "-l"; lit "/var/log/cws.log"; lit "-d"; lit "/srv/www"]
  = Ret (Some o).
Proof.
  intros o. apply (options_roundtrip (default_options 8) o). split; cbn; lia.
Defined.

(** The options have their types. Whatever the arguments are, if the
    program goes on the port is a 16-bit number (a larger or negative one is
    taken modulo 2^16) and the thread count a [std::size_t]. *)
Theorem options_well_typed hw args o :
  0 <= hw < 2 ^ 64 -> parse_args (default_options hw) args = Ret (Some o) -> options_ok o.
Proof. intros Hw. apply parse_args_ok. split; cbn; lia. Qed.

Lemma options_well_typed_witness :
  parse_args (default_options 2) [lit "x"; lit "-p"; lit "70000"; lit "-t"; lit "-1"; lit "-p"] =
    Ret (Some (mkOptions 4464 (2 ^ 64 - 1) (lit "/tmp/coroutine-webserver.log") [])) /\
  options_ok (mkOptions 4464 (2 ^ 64 - 1) (lit "/tmp/coroutine-webserver.log") []).
Proof.
  assert (E : parse_args (default_options 2) [lit "x"; lit "-p"; lit "70000"; lit "-t"; lit "-1"; lit "-p"] =
    Ret (Some (mkOptions 4464 (2 ^ 64 - 1) (lit "/tmp/coroutine-webserver.log") [])))
    by (vm_compute; reflexivity).
  split; [exact E|]. exact (options_well_typed 2 _ _ ltac:(lia) E).
Defined.

(** The constructor of [HttpServer] owns its socket or has closed it. It
    returns a server that listens on the socket, with at least one worker and
    nothing closed, or throws, and has then closed the socket exactly once. *)
Theorem new_HttpServer_socket fs current retry o sock_fd bind_rc listen_rc :
  options_ok o -> (returns retry \/ exists e, retry = Throw e) ->
  match new_HttpServer fs current retry o sock_fd bind_rc listen_rc with
  | (Ret s, closed) =>
      closed = [] /\ listen_fd_ s = mkUniqueFd sock_fd false /\ 0 <= sock_fd /\
      0 <= bind_rc /\ 0 <= listen_rc /\ 1 <= worker_count s
  | (Throw _, closed) => closed = if sock_fd <? 0 then [] else [sock_fd]
  | _ => False
  end.
Proof.
  intros [_ Ht] Hr. unfold new_HttpServer, create_listen_socket.
  destruct (sock_fd <? 0) eqn:E1; [done|]. do 2 (case_if; [done|]). zbool.
  unfold fd_destroy, fd_reset. cbn [HttpTypes.fd_ snd app]. rewrite (proj2 (Z.leb_le 0 sock_fd)) by lia.
  assert (Hd : returns (detect_docroot fs current retry (opt_docroot o)) \/
    exists e, detect_docroot fs current retry (opt_docroot o) = Throw e).
  { destruct Hr as [?|[e ->]]; [left; apply detect_docroot_returns; by left|].
    unfold detect_docroot. case_if; [left; apply returns_Ret|].
    destruct current; [left; apply returns_Ret|right; by exists e]. }
  destruct Hd as [[d ->]|[e ->]]; [|done]. cbn. unfold normal_worker_count.
  split_and!; try done; try lia. case_if; zbool; lia.
Qed.

Lemma new_HttpServer_socket_witness :
  new_HttpServer no_files (Some (lit "/srv")) (Throw runtime_error) (default_options 1) 5 0 (-1)
    = (Throw runtime_error, [5]) /\
  match new_HttpServer no_files (Some (lit "/srv")) (Throw runtime_error) (default_options 1) 5 0 (-1) with
  | (Ret s, closed) =>
      closed = [] /\ listen_fd_ s = mkUniqueFd 5 false /\ 0 <= 5 /\
      0 <= 0 /\ 0 <= -1 /\ 1 <= worker_count s
  | (Throw _, closed) => closed = if 5 <? 0 then [] else [5]
  | _ => False
  end.
Proof.
  split; [reflexivity|]. apply (new_HttpServer_socket no_files (Some (lit "/srv")) (Throw runtime_error)).
  - split; cbn; lia.
  - right. by exists runtime_error.
Defined.

(** A constructed [Server] that is started listens. The pool then has one
    loop per thread, the first of which gets the first connection, and the
    kernel reports the events of the listening socket to the accept channel. *)
Theorem server_listens `{TimerQueue Q} (p : Epoll Q) n port k pool fd c ch now :
  new_Server n port k = Some (pool, fd) ->
  channels p !! c = Some ch -> fd_ ch = fd -> 0 <= fd < MAXFDS -> kernel p !! fd = None ->
  exists p', server_start p pool c now false = Ret (p', started_pool (Z.to_nat n) 0) /\
    kernel p' !! fd = Some (mkInterest (Z.lor EPOLLIN EPOLLET) true) /\ fd2chan_ p' !! fd = Some c.
Proof.
  intros Hs Hc <- Hf Hk. destruct (new_Server_spec _ _ _ _ _ Hs) as (Hn & -> & _).
  by apply server_start_spec.
Qed.

Lemma server_listens_witness :
  let ch := new_Channel 6 in
  let p : Epoll OrderedQueue := set_channel new_Epoll 3 ch in
  new_Server 4 8080 (mkSyscalls 6 0 0 0 2 0) = Some (mkPool 4 0 [], 6) /\
  exists p', server_start p (mkPool 4 0 []) 3 (mkTimeval 0 0) false = Ret (p', started_pool (Z.to_nat 4) 0) /\
    kernel p' !! 6 = Some (mkInterest (Z.lor EPOLLIN EPOLLET) true) /\ fd2chan_ p' !! 6 = Some 3%nat.
Proof.
  intros ch p. split; [reflexivity|].
  eapply (server_listens p 4 8080 (mkSyscalls 6 0 0 0 2 0) _ 6 3 ch); [done|done|done|split; [lia|reflexivity]|done].
Defined.
