(* ===== verification/ServerLoops.v ===== *)
(** * ServerLoops: the epoll server with all its loops

    [Server] of WebServer/Server.cpp put together with the loops of its pool:
    the base loop, whose thread accepts in [handNewConn], and one loop per
    thread of [EventLoopThreadPool].  [handNewConn] is taken apart into its
    iterations, between which the other threads run.  A loop touches nothing of
    another one, so that a turn of a loop (EpollServer.v) is one step; a
    connection queued while a turn runs is in [pendingFunctors_] as if it came
    just before or just after it. *)

From S2P Require Import LoopLife Startup.

Section server.
Context {Q : Type} `{TQ : TimerQueue Q}.
Context (env : option nat -> environment) (files : Files).
Implicit Types l : LoopThread Q.

(** [loops]: the loops of the pool; [base]: the loop of the main thread, and
    [acceptor] the address of [acceptChannel_]; [accepting]: the main thread is
    in [handNewConn]; [options]: the options set on the accepted sockets. *)
Record EpollServer := mkEpollServer {
  pool : EventLoopThreadPool;
  base : LoopThread Q;
  acceptor : nat;
  loops : gmap nat (LoopThread Q);
  accepting : bool;
  refused : list Z;
  sockets : gmap Z socket_options
}.

Definition set_pool (s : EpollServer) (p : EventLoopThreadPool) : EpollServer :=
  mkEpollServer p (base s) (acceptor s) (loops s) (accepting s) (refused s) (sockets s).
Definition set_base (s : EpollServer) (l : LoopThread Q) (b : bool) : EpollServer :=
  mkEpollServer (pool s) l (acceptor s) (loops s) b (refused s) (sockets s).
Definition set_loop (s : EpollServer) (i : nat) (l : LoopThread Q) : EpollServer :=
  mkEpollServer (pool s) (base s) (acceptor s) (<[i := l]> (loops s)) (accepting s) (refused s) (sockets s).
Definition refuse (s : EpollServer) (fd : Z) : EpollServer :=
  mkEpollServer (pool s) (base s) (acceptor s) (loops s) (accepting s) (refused s ++ [fd]) (sockets s).
Definition set_socket (s : EpollServer) (fd : Z) (o : socket_options) : EpollServer :=
  mkEpollServer (pool s) (base s) (acceptor s) (loops s) (accepting s) (refused s) (<[fd := o]> (sockets s)).

(** ** Construction *)

(** [EventLoopThreadPool::start]: a loop with its wakeup descriptor per
    thread. *)
Definition start_loops (wakeup : nat -> Z) (n : nat) : outcome (gmap nat (LoopThread Q)) :=
  foldl (fun acc i => m ← acc; l ← new_loop (env (Some i)) (wakeup i); Ret (<[i := l]> m)) (Ret ∅) (seq 0 n).

(** [main] of Main.cpp after its options: the base loop, the constructor of
    [Server] and [start]; [None] is [abort()]. *)
Definition start_server (threadNum port : Z) (k : syscalls) (base_wakeup : Z) (wakeup : nat -> Z)
    : option (outcome EpollServer) :=
  '(pool, listenFd) ← new_Server threadNum port k;
  Some (l ← new_loop (env None) base_wakeup;
        '(p, pool) ← server_start (set_channel (poller l) 1 (new_Channel listenFd)) pool 1
                       (env_now (env None) 1%nat) (env_fails (env None) 1%nat);
        ls ← start_loops wakeup (length (loops_ pool));
        Ret (mkEpollServer pool (mkLoopThread p ∅ [] 2) 1 ls false [] ∅)).

(** ** The accepting thread *)

(** [handThisConn], after [handNewConn] returned. *)
Definition finish_accept (s : EpollServer) : outcome EpollServer :=
  let l := base s in
  p ← handThisConn (poller l) (acceptor s) (env_now (env None) (ops l)) (env_fails (env None) (ops l));
  Ret (set_base s (count_op (set_poller l p)) false).

(** One iteration of the loop of [handNewConn], for what [accept] returns;
    [c] and [h] are the addresses of the new channel and connection. *)
Definition accept_next (s : EpollServer) (a : accepted) (c h : nat) : outcome EpollServer :=
  let fd := accept_fd a in
  if 0 <? fd then
    '(loop, pool') ← getNextLoop (pool s);
    let s := set_pool s pool' in
    if MAXFDS <=? fd then Ret (refuse s fd)
    else if negb (nonblocking a) then finish_accept s
    else
      let s := set_socket s fd (setSocketNodelay (mkSocketOptions true false None false)) in
      match loop with
      | None => Ret (set_base s (queue_connection h c fd (base s)) true)
      | Some i =>
          match loops s !! i with
          | Some l => Ret (set_loop s i (queue_connection h c fd l))
          | None => UB
          end
      end
  else
    ch ← get_channel (poller (base s)) (acceptor s);
    let p := set_channel (poller (base s)) (acceptor s) (setEvents ch (Z.lor EPOLLIN EPOLLET)) in
    finish_accept (set_base s (set_poller (base s) p) true).

(** ** Steps of the threads *)

(** What a step did, as far as others can tell. *)
Inductive event :=
  | Woken
  | Accepted (a : accepted)
  | Turned (i : nat) (evs : list (Z * Z)) (closed_now : list nat)
  | Arrived (i h : nat)
  | Collected (i : nat).

(** The kernel gives a descriptor that is not open, and [new] addresses that
    are not in use, in any loop. *)
Definition unused (fd : Z) (c h : nat) (s : EpollServer) : Prop :=
  map_Forall (fun _ l =>
    channels (poller l) !! c = None /\ conns l !! h = None /\ kernel (poller l) !! fd = None /\
    map_Forall (fun _ ch => fd_ ch <> fd /\ holder_ ch <> Some h) (channels (poller l))) (loops s).

#[local] Instance unused_dec fd c h s : Decision (unused fd c h s).
Proof. unfold unused. apply _. Defined.

Inductive server_step (s : EpollServer) : event -> EpollServer -> Prop :=
  | server_woken waits p :
      accepting s = false -> poll (poller (base s)) waits = Ret (p, [acceptor s]) ->
      server_step s Woken (set_base s (set_poller (base s) p) true)
  | server_accept a c h s' :
      accepting s = true -> unused (accept_fd a) c h s -> accept_next s a c h = Ret s' ->
      server_step s (Accepted a) s'
  | server_turn i l fuel evs clock l' :
      loops s !! i = Some l -> NoDup evs.*1 -> turn (env (Some i)) files fuel [evs] clock l = Ret l' ->
      server_step s (Turned i evs (closed (timerManager_ (poller l')))) (set_loop s i l')
  | server_arrive i l h rs ws :
      loops s !! i = Some l -> server_step s (Arrived i h) (set_loop s i (arrive h rs ws l))
  | server_collect i l :
      loops s !! i = Some l -> server_step s (Collected i) (set_loop s i (collect l)).

Inductive server_run : list event -> EpollServer -> EpollServer -> Prop :=
  | run_nil s : server_run [] s s
  | run_cons s e s1 es s2 : server_step s e s1 -> server_run es s1 s2 -> server_run (e :: es) s s2.

(** ** A connection among the others *)

(** The step does not report [fd] to the loop [i], gives no bytes to [h] and
    does not let a timer of [h] expire. *)
Definition spares (i : nat) (fd : Z) (h : nat) (e : event) : Prop :=
  match e with
  | Turned j evs closed_now => j = i -> fd ∉ evs.*1 /\ h ∉ closed_now
  | Arrived j h' => (j, h') <> (i, h)
  | _ => True
  end.

(** [served i fd c h answers s s']: any steps from [s] to [s'], among them turns
    of the loop [i] in which a whole request for a file has come for the
    connection [h], registered on [fd]; [answers] are the answers to these. *)
Inductive served (i : nat) (fd : Z) (c h : nat) : list bytes -> EpollServer -> EpollServer -> Prop :=
  | served_nil s : served i fd c h [] s s
  | served_request answers s l w rs ws t v hs content pre post fuel clock l1 s' :
      loops s !! i = Some l -> conns l !! h = Some (c, w) -> fd2chan_ (poller l) !! fd = Some c ->
      request_at files t v hs content (mkConn (http w) rs ws (written w) (calls w) (live_timers w)) ->
      NoDup (pre ++ (fd, EPOLLIN) :: post).*1 ->
      turn (env (Some i)) files (S fuel) [pre ++ (fd, EPOLLIN) :: post] clock (arrive h rs ws l) = Ret l1 ->
      h ∉ closed (timerManager_ (poller l1)) ->
      served i fd c h answers (set_loop s i l1) s' ->
      served i fd c h (answer_of t hs content :: answers) s s'
  | served_step answers s e s1 s' :
      server_step s e s1 -> spares i fd h e -> served i fd c h answers s1 s' ->
      served i fd c h answers s s'.

(** * Lemmas *)

(** ** The loops are sound *)

Definition sound_loops (s : EpollServer) : Prop := forall i l, loops s !! i = Some l -> alive_phase (l, Polling).

Lemma sound_set_loop s i l : sound_loops s -> alive_phase (l, Polling) -> sound_loops (set_loop s i l).
Proof. intros Hs Hl j l'. cbn. intros [[<- <-]|[_ Hj]]%lookup_insert_Some; [done|]. by eapply Hs. Qed.

Lemma start_loops_spec wakeup n : forall ls,
  (forall i, (i < n)%nat -> 0 <= wakeup i < MAXFDS) -> start_loops wakeup n = Ret ls ->
  (forall i l, ls !! i = Some l -> alive_phase (l, Polling)) /\ forall i, (i < n)%nat -> is_Some (ls !! i).
Proof.
  unfold start_loops. induction n as [|n IH]; intros ls Hw.
  - intros [= <-]. split; [done|lia].
  - rewrite seq_S, foldl_app. cbn. intros (m & Hm & H)%bind_Ret_inv. apply bind_Ret_inv in H as (l & Hl & [= <-]).
    destruct (IH m) as [Ha Hb]; [intros; apply Hw; lia|done|]. split.
    + intros i l' [[<- <-]|[_ Hi]]%lookup_insert_Some; [|by eapply Ha].
      eapply (new_loop_alive (env (Some n)) (wakeup n)); [by apply Hw; lia|done].
    + intros i Hi. destruct (decide (i = n)) as [->|Hne]; [by rewrite lookup_insert_eq|].
      rewrite lookup_insert_ne by done. apply Hb. lia.
Qed.

Lemma turn_sound e fuel evs clock l l' :
  NoDup evs.*1 -> turn e files fuel [evs] clock l = Ret l' -> alive_phase (l, Polling) -> alive_phase (l', Polling).
Proof.
  intros Hnd Ht Hl. apply (turn_steps e files) in Ht; [|by repeat constructor].
  remember (l, Polling) as s1 eqn:E1. remember (l', Polling) as s2 eqn:E2. clear E1.
  induction Ht as [s|s1 s2' s3 Hs _ IH]; [done|]. apply IH; [done|]. by eapply loop_step_alive.
Qed.

Lemma held_destroy l h : held (destroy l h) = held l.
Proof. unfold destroy. by destruct (conns l !! h) as [[c w]|]. Qed.

Lemma collect_sound l : alive_phase (l, Polling) -> alive_phase (collect l, Polling).
Proof.
  intros [Hs _]. split; [|done]. cbn [fst snd kept] in *. unfold collect.
  cut (forall hs l0, held l0 = held l -> sound l0 [] ->
    sound (foldl (fun l' h => if bool_decide (h ∈ held l) then l' else destroy l' h) l0 hs) []);
    [intros Hc; by apply Hc|].
  induction hs as [|h hs IH]; intros l0 Hh H0; cbn; [done|]. case_bool_decide; [by apply IH|].
  apply IH; [by rewrite held_destroy|]. apply destroy_sound; [|done]. by rewrite app_nil_r, Hh.
Qed.

Lemma unused_new fd c h s i l :
  unused fd c h s -> 0 < fd -> (MAXFDS <=? fd) = false -> loops s !! i = Some l -> new_connection fd c h l.
Proof.
  intros Hu Hfd Hm Hl. destruct (Hu i l Hl) as (? & ? & _ & ?). zbool. split; [lia|done..].
Qed.

Lemma finish_accept_loops s s' :
  finish_accept s = Ret s' -> loops s' = loops s /\ pool s' = pool s.
Proof. unfold finish_accept. intros H. inv_bind H. by injection H as <-. Qed.

(** An iteration of [handNewConn] changes the loops only by the connection. *)
Lemma accept_next_loops s a c h s' :
  accept_next s a c h = Ret s' ->
  loops s' = loops s \/
  exists i l, loops s !! i = Some l /\ loops s' = <[i := queue_connection h c (accept_fd a) l]> (loops s) /\
    0 < accept_fd a /\ (MAXFDS <=? accept_fd a) = false.
Proof.
  unfold accept_next. destruct (0 <? accept_fd a) eqn:E0.
  - intros ([loop pool'] & _ & H)%bind_Ret_inv. case_if_in H; [injection H as <-; by left|].
    case_if_in H; [apply finish_accept_loops in H as [H _]; by left|].
    destruct loop as [i|]; [|injection H as <-; by left].
    cbn [loops set_pool set_socket] in H. destruct (loops s !! i) as [l|] eqn:El; [|done].
    injection H as <-. right. exists i, l. zbool. by split_and!.
  - intros (ch & _ & H)%bind_Ret_inv. apply finish_accept_loops in H as [H _]. by left.
Qed.

Lemma accept_next_sound s a c h s' :
  unused (accept_fd a) c h s -> accept_next s a c h = Ret s' -> sound_loops s -> sound_loops s'.
Proof.
  intros Hu H Hs. destruct (accept_next_loops _ _ _ _ _ H) as [E|(i & l & Hl & E & H0 & Hm)].
  - intros j lj. rewrite E. apply Hs.
  - intros j lj. rewrite E. apply (sound_set_loop s i _ Hs). destruct (Hs _ _ Hl) as [Ha _]. split; [|done].
    apply queue_sound; [by eapply unused_new|done].
Qed.

Lemma server_step_sound s e s' : server_step s e s' -> sound_loops s -> sound_loops s'.
Proof.
  intros [waits p _ _|a c h s1 _ Hu H|i l fuel evs clock l' Hl Hnd Ht|i l h rs ws Hl|i l Hl] Hs.
  - done.
  - by eapply accept_next_sound.
  - apply sound_set_loop; [done|]. eapply turn_sound; [done..|]. by eapply Hs.
  - apply sound_set_loop; [done|]. destruct (Hs _ _ Hl) as [Ha _]. split; [|done]. by apply arrive_sound.
  - apply sound_set_loop; [done|]. by eapply collect_sound, Hs.
Qed.

(** ** Round robin *)

Definition takes (e : event) : nat := match e with Accepted a => Nat.b2n (0 <? accept_fd a) | _ => 0 end.

(** The connections accepted in a run. *)
Definition taken (es : list event) : nat := sum_list_with takes es.

Lemma accept_next_pool n k s a c h s' :
  (0 < n)%nat -> pool s = started_pool n (k mod n) -> accept_next s a c h = Ret s' ->
  pool s' = started_pool n ((Nat.b2n (0 <? accept_fd a) + k) mod n).
Proof.
  intros Hn Hp. unfold accept_next. destruct (0 <? accept_fd a) eqn:E0; cbn [Nat.b2n].
  - rewrite Hp, getNextLoop_started by (apply Nat.mod_upper_bound; lia). cbn [mbind outcome_bind].
    replace ((1 + k) mod n)%nat with ((k mod n + 1) mod n)%nat
      by (rewrite Nat.Div0.add_mod_idemp_l; f_equal; lia).
    case_if; [by intros [= <-]|]. case_if; [by intros [_ ->]%finish_accept_loops|].
    cbn [loops set_pool set_socket]. destruct (loops s !! _); [|done]. by intros [= <-].
  - intros (ch & _ & H)%bind_Ret_inv. by apply finish_accept_loops in H as [_ ->].
Qed.

Lemma server_step_pool n k s e s' :
  (0 < n)%nat -> server_step s e s' -> pool s = started_pool n (k mod n) ->
  pool s' = started_pool n ((takes e + k) mod n).
Proof.
  intros Hn [waits p _ _|a c h s1 _ Hu H|i l fuel evs clock l' Hl Hnd Ht|i l h rs ws Hl|i l Hl] Hp;
    [done| |done..]. by eapply accept_next_pool.
Qed.

Lemma server_run_inv n es s s' : (0 < n)%nat -> server_run es s s' -> forall k,
  pool s = started_pool n (k mod n) -> sound_loops s ->
  pool s' = started_pool n ((taken es + k) mod n) /\ sound_loops s'.
Proof.
  intros Hn. induction 1 as [s|s e s1 es s2 Hs _ IH]; intros k Hp Hl; [done|].
  destruct (IH (takes e + k)%nat) as [-> Hl2].
  - by eapply server_step_pool.
  - by eapply server_step_sound.
  - split; [|done]. unfold taken. cbn. do 2 f_equal. lia.
Qed.


(** ** A connection that waits for its first turn *)

(** [h] is among the pending functors, not registered yet. *)
Record waiting (fd : Z) (c h : nat) l : Prop := {
  w_queued : queued fd c h l;
  w_functor : exists f1 f2, functors l = f1 ++ h :: f2 /\ (h ∉ f1) /\ (h ∉ f2)
}.

Lemma waiting_undisturbed fd c h l l' : undisturbed fd c h l l' -> waiting fd c h l -> waiting fd c h l'.
Proof.
  intros Hu [Hq Hf]. split; [by eapply queued_undisturbed|]. by rewrite (un_functors _ _ _ _ _ Hu).
Qed.

Lemma arrive_undisturbed fd c h l h2 rs ws : h2 <> h -> undisturbed fd c h l (arrive h2 rs ws l).
Proof.
  intros Hne. unfold arrive. destruct (conns l !! h2) as [[c2 w2]|] eqn:E; [|by split; [split|..]].
  split; [by split|cbn; by rewrite lookup_insert_ne|done|]. by eapply shape_conns, set_conn_shape.
Qed.

Lemma alone_queue fd c h fd2 c2 h2 l :
  fd2 <> fd -> c2 <> c -> h2 <> h -> alone fd c h l -> alone fd c h (queue_connection h2 c2 fd2 l).
Proof.
  intros Hfd Hc Hh [Ha Hb]. split; cbn.
  - intros c' ch' [[<- <-]|[_ Hch]]%lookup_insert_Some Hne; [|by eapply Ha]. cbn. split; [done|congruence].
  - intros h' c' w' [[<- [= <- _]]|[_ Hw]]%lookup_insert_Some Hne; [done|by eapply Hb].
Qed.

Lemma queue_waiting fd c h l fd2 c2 h2 :
  fd2 <> fd -> c2 <> c -> h2 <> h -> fresh_connection fd2 c2 h2 l ->
  waiting fd c h l -> waiting fd c h (queue_connection h2 c2 fd2 l).
Proof.
  intros Hfd Hc Hh Hf [[] (f1 & f2 & E & H1 & H2)]. split.
  - split; cbn; try done.
    + by rewrite lookup_insert_ne.
    + by rewrite lookup_insert_ne.
    + apply elem_of_union; by right.
    + by apply alone_queue.
    + by apply queue_paired.
  - exists f1, (f2 ++ [h2]). cbn. rewrite E, <- app_assoc. split_and!; [done..|].
    rewrite not_elem_of_app, list_elem_of_singleton. by split.
Qed.

Lemma waiting_conn fd c h l : waiting fd c h l -> exists w, conns l !! h = Some (c, w).
Proof. intros [[(w & Hw & _) ? ? ? ? ? ? ?] _]. by exists w. Qed.

Lemma destroy_waiting fd c h l h2 : h2 <> h -> waiting fd c h l -> waiting fd c h (destroy l h2).
Proof.
  intros Hne [Hq Hfun]. split; [|unfold destroy; by destruct (conns l !! h2) as [[? ?]|]].
  unfold destroy. destruct (conns l !! h2) as [[c2 w2]|] eqn:E; [|done].
  pose proof (alone_conns _ _ _ _ (q_alone _ _ _ _ Hq) _ _ _ E Hne) as Hc2.
  set (k := match channels (poller l) !! c2 with Some _ => _ | None => _ end).
  assert (Hk : k !! fd = kernel (poller l) !! fd).
  { unfold k. destruct (channels (poller l) !! c2) as [ch2|] eqn:E2; [|done].
    destruct (alone_channels _ _ _ _ (q_alone _ _ _ _ Hq) _ _ E2 Hc2). by rewrite lookup_delete_ne. }
  set (chs := if bool_decide _ then _ else _).
  assert (Hchs : forall c' ch', chs !! c' = Some ch' -> channels (poller l) !! c' = Some ch').
  { intros c' ch'. unfold chs. case_bool_decide; [done|]. by intros [_ ?]%lookup_delete_Some. }
  destruct Hq. split; cbn; try done.
  - by rewrite lookup_delete_ne.
  - unfold chs. case_bool_decide; [done|]. by rewrite lookup_delete_ne.
  - by rewrite Hk.
  - apply elem_of_difference. by rewrite not_elem_of_singleton.
  - destruct q_alone as [Ha Hb]. split; cbn.
    + intros c' ch' Hch' Hn. by eapply Ha; [apply Hchs|].
    + intros h' c' w' [_ Hw]%lookup_delete_Some Hn. by eapply Hb.
  - intros c' ch' h' c3 w'. cbn. intros Hch' Hh [_ Hw]%lookup_delete_Some. eapply q_paired; [by apply Hchs|done|done].
Qed.

Lemma collect_waiting fd c h l : waiting fd c h l -> waiting fd c h (collect l).
Proof.
  intros Hw. assert (Hh : h ∈ held l).
  { destruct (w_functor _ _ _ _ Hw) as (f1 & f2 & E & _). unfold held. rewrite E, !elem_of_app.
    right. right. right. by left. }
  unfold collect. cut (forall hs l0, waiting fd c h l0 ->
    waiting fd c h (foldl (fun l' h' => if bool_decide (h' ∈ held l) then l' else destroy l' h') l0 hs));
    [by intros Hc; apply Hc|].
  induction hs as [|h' hs IH]; intros l0 Hw0; cbn; [done|]. apply IH.
  case_bool_decide; [done|]. apply destroy_waiting; [|done]. by intros ->.
Qed.

(** ** A connection from its queueing on *)

(** [h] in the loop [i] was sent [out]. *)
Definition tracked (i : nat) (fd : Z) (c h : nat) (s : EpollServer) (out : bytes) : Prop :=
  exists l w, loops s !! i = Some l /\ conns l !! h = Some (c, w) /\ written w = out /\
    (ready fd c h l w \/ waiting fd c h l).

Lemma tracked_intro i fd c h s l :
  loops s !! i = Some l -> forall out,
  (exists w, ready fd c h l w /\ written w = out) \/ (waiting fd c h l /\ out = []) -> tracked i fd c h s out.
Proof.
  intros Hl out [(w & Hr & Hw)|[Hw ->]]; exists l.
  - exists w. split_and!; [done|apply Hr|done|by left].
  - destruct (q_conn _ _ _ _ (w_queued _ _ _ _ Hw)) as (w & Hc & _ & Hwr). exists w. by split_and!; [..|right].
Qed.

(** The two cases of a tracked connection under a change of its loop. *)
Lemma tracked_map i fd c h s s' out l' :
  tracked i fd c h s out -> loops s' !! i = Some l' ->
  (forall l w, loops s !! i = Some l -> ready fd c h l w -> exists w', ready fd c h l' w' /\ written w' = written w) ->
  (forall l, loops s !! i = Some l -> waiting fd c h l ->
    waiting fd c h l' \/ exists w', ready fd c h l' w' /\ written w' = []) ->
  tracked i fd c h s' out.
Proof.
  intros (l & w & Hl & Hc & <- & [Hr|Hw]) Hl' H1 H2; eapply tracked_intro; [done| |done|].
  - left. destruct (H1 _ _ Hl Hr) as (w' & ? & ?). by exists w'.
  - destruct (q_conn _ _ _ _ (w_queued _ _ _ _ Hw)) as (w0 & Hc0 & _ & Hwr).
    assert (w0 = w) as -> by congruence. rewrite Hwr.
    destruct (H2 _ Hl Hw) as [?|?]; [by right|by left].
Qed.

Lemma tracked_other i fd c h s s' out :
  loops s' !! i = loops s !! i -> tracked i fd c h s out -> tracked i fd c h s' out.
Proof. intros E (l & w & Hl & H). exists l, w. by rewrite E. Qed.

Lemma sound_fresh fd c h s i l :
  sound_loops s -> unused fd c h s -> loops s !! i = Some l ->
  fresh_connection fd c h l /\ forall fd', fd2chan_ (poller l) !! fd' <> Some c.
Proof.
  intros Hs Hu Hl. destruct (Hs _ _ Hl) as [Ha _]. cbn [fst snd kept] in Ha.
  destruct (Hu i l Hl) as (Hc & Hh & _ & Hn). split; [split; [done..|]|].
  - intros h' c' w' Hw ->. destruct (s_conn _ _ Ha _ _ _ Hw) as (ch & Hch & _). congruence.
  - intros fd' Hf. destruct (s_table _ _ Ha _ _ Hf) as (ch & Hch & _). congruence.
Qed.

(** The objects of a tracked connection are in use. *)
Lemma tracked_used i fd c h l w fd2 c2 h2 s :
  unused fd2 c2 h2 s -> loops s !! i = Some l -> conns l !! h = Some (c, w) ->
  ready fd c h l w \/ waiting fd c h l -> fd2 <> fd /\ c2 <> c /\ h2 <> h.
Proof.
  intros Hu Hl Hc Ht. destruct (Hu i l Hl) as (H1 & H2 & _ & H4).
  assert (Hch : exists ch, channels (poller l) !! c = Some ch /\ fd_ ch = fd).
  { destruct Ht as [Hr|Hw].
    - destruct (ready_poller _ _ _ _ _ Hr) as (ev & _ & [(ch & ? & ? & _) ? ? ? ? ?]). by exists ch.
    - destruct (q_channel _ _ _ _ (w_queued _ _ _ _ Hw)) as (ch & ? & ? & _). by exists ch. }
  destruct Hch as (ch & Hch & Hf). split_and!; [|congruence..].
  destruct (H4 _ _ Hch) as [? _]. congruence.
Qed.

Lemma server_step_tracked i fd c h s e s' out :
  (forall n, env_fails (env (Some i)) n = false) -> server_step s e s' -> sound_loops s -> spares i fd h e ->
  tracked i fd c h s out -> tracked i fd c h s' out.
Proof.
  intros Henv [waits p _ _|a c2 h2 s1 _ Hu H|j l fuel evs clock l' Hl Hnd Ht|j l h2 rs ws Hl|j l Hl] Hs Hsp Htr;
    cbn [spares] in Hsp.
  - by eapply tracked_other.
  - destruct (accept_next_loops _ _ _ _ _ H) as [E|(j & l & Hl & E & H0 & Hm)];
      [by eapply tracked_other; [rewrite E|]|].
    destruct (decide (j = i)) as [->|Hne]; [|eapply tracked_other; [by rewrite E, lookup_insert_ne|done]].
    destruct (sound_fresh _ _ _ _ _ _ Hs Hu Hl) as [Hf _].
    assert (Hd : accept_fd a <> fd /\ c2 <> c /\ h2 <> h).
    { destruct Htr as (l0 & w & Hl0 & Hc0 & _ & Hrw). exact (tracked_used _ _ _ _ _ _ _ _ _ _ Hu Hl0 Hc0 Hrw). }
    destruct Hd as (Hd1 & Hd2 & Hd3).
    eapply tracked_map; [done|by rewrite E, lookup_insert_eq|..]; intros l0; rewrite Hl.
    + intros w [= <-] Hr. exists w. split; [by apply queue_other|done].
    + intros [= <-] Hw. left. by apply queue_waiting.
  - destruct (decide (j = i)) as [->|Hne]; [|eapply tracked_other; [cbn; by rewrite lookup_insert_ne|done]].
    destruct (Hsp eq_refl) as [Hev Hcl]. unfold turn in Ht. inv_bind Ht.
    eapply tracked_map; [done|cbn; by rewrite lookup_insert_eq|..]; intros l0; rewrite Hl.
    + intros w [= <-] Hr. exists w. split; [|done]. eapply expire_ready; [|done|done]. by eapply handle_turn_other.
    + intros [= <-] [Hq (f1 & f2 & Hf & H1 & H2)]. right.
      destruct (handle_turn_new (env (Some i)) files fuel fd c h l evs f1 f2 a Henv Hq Hf H1 H2 Hev Ha)
        as (w & Hr & Hw). exists w. split; [|done]. by eapply expire_ready.
  - destruct (decide (j = i)) as [->|Hne]; [|eapply tracked_other; [cbn; by rewrite lookup_insert_ne|done]].
    assert (Hh : h2 <> h) by congruence.
    eapply tracked_map; [done|cbn; by rewrite lookup_insert_eq|..]; intros l0; rewrite Hl.
    + intros w [= <-] Hr. exists w. split; [by apply arrive_other|done].
    + intros [= <-] Hw. left. eapply waiting_undisturbed; [by apply arrive_undisturbed|done].
  - destruct (decide (j = i)) as [->|Hne]; [|eapply tracked_other; [cbn; by rewrite lookup_insert_ne|done]].
    eapply tracked_map; [done|cbn; by rewrite lookup_insert_eq|..]; intros l0; rewrite Hl.
    + intros w [= <-] Hr. exists w. split; [by apply collect_ready|done].
    + intros [= <-] Hw. left. by apply collect_waiting.
Qed.

Lemma served_tracked i fd c h answers s s' :
  (forall n, env_fails (env (Some i)) n = false) -> served i fd c h answers s s' ->
  forall out, sound_loops s -> tracked i fd c h s out -> tracked i fd c h s' (out ++ concat answers).
Proof.
  intros Henv. induction 1 as [s|answers s l w rs ws t v hs content pre post fuel clock l1 s' Hl Hc Hreg Hrq Hnd Ht Hcl _ IH
    |answers s e s1 s' Hstep Hsp _ IH]; intros out Hs Htr.
  - by rewrite app_nil_r.
  - cbn [concat]. rewrite app_assoc. apply IH.
    { apply sound_set_loop; [done|]. eapply turn_sound; [done..|]. destruct (Hs _ _ Hl) as [Ha _]. split; [|done].
      by apply arrive_sound. }
    destruct Htr as (l0 & w0 & Hl0 & Hc0 & <- & Hrw). assert (l0 = l) as -> by congruence.
    assert (w0 = w) as -> by congruence.
    destruct Hrw as [Hr|Hw]; [|by destruct (q_unowned _ _ _ _ (w_queued _ _ _ _ Hw) fd)].
    pose proof (arrive_ready _ _ _ _ _ rs ws Hr) as Hra.
    rewrite fmap_app in Hnd. cbn in Hnd. apply NoDup_app in Hnd as (_ & Hpre & [Hpost _]%NoDup_cons).
    unfold turn in Ht. inv_bind Ht.
    destruct (handle_turn_get (env (Some i)) files fuel fd c h _ _ t v hs content pre post a Henv Hra Hrq)
      as (w1 & Hr1 & Hw1); [|done|done|].
    { intros Hin. apply (Hpre _ Hin). by left. }
    eapply tracked_intro; [cbn; apply lookup_insert_eq|]. left. exists w1. split; [by eapply expire_ready|done].
  - apply IH; [by eapply server_step_sound|]. by eapply server_step_tracked.
Qed.

(** The accepted connection in its loop. *)
Lemma accept_next_tracked n k s a c h s' :
  (0 < n)%nat -> pool s = started_pool n (k mod n) -> sound_loops s -> unused (accept_fd a) c h s ->
  0 < accept_fd a < MAXFDS -> nonblocking a = true -> accept_next s a c h = Ret s' ->
  tracked (k mod n)%nat (accept_fd a) c h s' [].
Proof.
  intros Hn Hp Hs Hu [H0 H1] Hnb H. unfold accept_next in H.
  rewrite (proj2 (Z.ltb_lt _ _)) in H by done. rewrite Hp, getNextLoop_started in H by (apply Nat.mod_upper_bound; lia).
  cbn [mbind outcome_bind] in H. rewrite (proj2 (Z.leb_gt _ _)) in H by done. rewrite Hnb in H. cbn [negb] in H.
  cbn [loops set_pool set_socket] in H. destruct (loops s !! _) as [l|] eqn:El; [|done]. injection H as <-.
  destruct (sound_fresh _ _ _ _ _ _ Hs Hu El) as [Hf Hun]. destruct (Hu _ _ El) as (_ & Hh & Hk & _).
  destruct (Hs _ _ El) as [Ha _]. cbn [fst snd kept] in Ha.
  assert (Hfun : h ∉ functors l).
  { intros Hin. destruct (s_held _ _ Ha h) as [x Hx]; [|congruence].
    apply elem_of_app. left. apply elem_of_held. auto. }
  eapply tracked_intro; [cbn; apply lookup_insert_eq|]. right. split; [|done]. split.
  - apply queue_queued; [lia|done..|]. apply Ha.
  - exists (functors l), []. split_and!; [done..|apply not_elem_of_nil].
Qed.

Lemma start_server_spec threadNum port k base_wakeup wakeup s :
  (forall i, (i < Z.to_nat threadNum)%nat -> 0 <= wakeup i < MAXFDS) ->
  start_server threadNum port k base_wakeup wakeup = Some (Ret s) ->
  (0 < Z.to_nat threadNum)%nat /\ pool s = started_pool (Z.to_nat threadNum) 0 /\ sound_loops s.
Proof.
  intros Hw. unfold start_server. destruct (new_Server threadNum port k) as [[p0 listenFd]|] eqn:En; [|done].
  apply new_Server_spec in En as (Hn & -> & _). cbn [mbind option_bind]. intros H. injection H as H.
  inv_bind H. apply bind_Ret_inv in H as ([p pool'] & Hp & H). apply bind_Ret_inv in H as (ls & Hls & [= <-]).
  assert (pool' = started_pool (Z.to_nat threadNum) 0) as ->.
  { unfold server_start in Hp. inv_bind Hp. inv_bind Hp. injection Hp as _ <-.
    unfold pool_start, started_pool. cbn. by rewrite Z2Nat.id by lia. }
  cbn in Hls. rewrite length_seq in Hls. split_and!; [lia|done|].
  intros i l. cbn. by apply (start_loops_spec wakeup (Z.to_nat threadNum)).
Qed.

(** ** The listening socket *)

Definition listening_events : Z := Z.lor EPOLLIN EPOLLET.

(** The kernel reports the connections to the accept channel, on [fd]. *)
Record watched (fd : Z) (c : nat) (p : Epoll Q) : Prop := {
  wd_channel : exists ch, channels p !! c = Some ch /\ fd_ ch = fd /\ ch_lastEvents ch = listening_events;
  wd_fd2chan : fd2chan_ p !! fd = Some c;
  wd_kernel : kernel p !! fd = Some (mkInterest listening_events true);
  wd_fd : 0 <= fd < MAXFDS
}.

Lemma watched_report fd c p evs : watched fd c p -> watched fd c (reported p evs).
Proof.
  intros []. split; cbn; try done.
  revert wd_kernel0. generalize (kernel p). clear. induction evs as [|[fd' ev] evs IH]; intros k Hk; cbn; [done|].
  apply IH. unfold report. destruct (decide (fd' = fd)) as [->|Hne].
  - rewrite Hk. cbn [mask]. by change (has_event listening_events EPOLLONESHOT) with false.
  - destruct (k !! fd'); [|done]. case_if; [|done]. by rewrite lookup_insert_ne.
Qed.

Lemma watched_set_channel fd c p c' ch ch' :
  channels p !! c' = Some ch -> fd_ ch' = fd_ ch -> ch_lastEvents ch' = ch_lastEvents ch ->
  watched fd c p -> watched fd c (set_channel p c' ch').
Proof.
  intros Hc Hf He [(ch0 & Hch0 & ? & ?) ? ? ?]. split; cbn; try done.
  destruct (decide (c' = c)) as [->|Hne]; [|exists ch0; by rewrite lookup_insert_ne].
  exists ch'. rewrite lookup_insert_eq. split_and!; [done|congruence..].
Qed.

Lemma watched_events fd c events : forall p p' ret,
  watched fd c p -> getEventsRequest p events = Ret (p', ret) -> watched fd c p'.
Proof.
  induction events as [|[fd' ev] events IH]; intros p p' ret Hw; cbn; [by intros [= <- _]|].
  intros (u & _ & H)%bind_Ret_inv. destruct (fd2chan_ p !! fd') as [c2|]; [|by eapply IH].
  unfold get_channel in H. destruct (channels p !! c2) as [ch|] eqn:E; [|done]. cbn in H.
  apply bind_Ret_inv in H as ([p1 l1] & H1 & [= <- _]). eapply IH; [|done]. by eapply watched_set_channel.
Qed.

Lemma watched_poll fd c waits : forall p p' ret, watched fd c p -> poll p waits = Ret (p', ret) -> watched fd c p'.
Proof.
  induction waits as [|evs waits IH]; intros p p' ret Hw; cbn [poll]; [done|].
  fold (reported p evs). intros ([p1 r1] & H1 & H)%bind_Ret_inv.
  pose proof (watched_events _ _ _ _ _ _ (watched_report _ _ _ evs Hw) H1) as Hw1.
  destruct (bool_decide _); [by eapply IH|]. by injection H as <- _.
Qed.

(** [epoll_mod] for the events the kernel has already. *)
Lemma watched_mod fd c p ch node now fails :
  watched fd c p -> channels p !! c = Some ch -> ch_events ch = listening_events ->
  exists p', epoll_mod p c 0 node now fails = Ret p' /\ watched fd c p'.
Proof.
  intros Hw Hch He. destruct (wd_channel _ _ _ Hw) as (ch0 & Hch0 & Hf & Hl).
  rewrite Hch in Hch0. injection Hch0 as <-. unfold epoll_mod, get_channel. rewrite Hch. cbn [mbind outcome_bind].
  change (0 <? 0) with false. cbv iota. cbn [EqualAndUpdateLastEvents]. rewrite Hl, He, Z.eqb_refl. cbn [negb].
  eexists. split; [reflexivity|]. eapply watched_set_channel; [done|done| |done]. cbn. congruence.
Qed.

(** The accept handler refuses no descriptor for [setSocketNonBlocking]. *)
Definition made_nonblocking (e : event) : Prop :=
  match e with Accepted a => 0 < accept_fd a < MAXFDS -> nonblocking a = true | _ => True end.

Lemma server_step_watched n k fd s e s' :
  (0 < n)%nat -> pool s = started_pool n (k mod n) -> made_nonblocking e -> server_step s e s' ->
  watched fd (acceptor s) (poller (base s)) ->
  watched fd (acceptor s') (poller (base s')) /\ acceptor s' = acceptor s.
Proof.
  intros Hn Hp Hnb Hs. revert Hnb.
  destruct Hs as [waits p _ Hpoll|a c h s1 _ _ H|i l fuel evs clock l' Hl _ _|i l h rs ws Hl|i l Hl]; intros Hnb Hw;
    [split; [by eapply watched_poll|done]| |done..].
  unfold accept_next in H. destruct (0 <? accept_fd a) eqn:E0.
  - rewrite Hp, getNextLoop_started in H by (apply Nat.mod_upper_bound; lia). cbn [mbind outcome_bind] in H.
    case_if_in H; [by injection H as <-|]. zbool. assert (Hn' : nonblocking a = true) by (apply Hnb; lia). rewrite Hn' in H.
    cbn [negb] in H. cbn [loops set_pool set_socket] in H. destruct (loops s !! _); [|done]. by injection H as <-.
  - apply bind_Ret_inv in H as (ch & Hch & H). unfold get_channel in Hch.
    destruct (channels _ !! _) as [ch0|] eqn:E; [|done]. injection Hch as ->.
    unfold finish_accept in H. cbn [set_base base acceptor set_poller poller ops] in H.
    destruct (watched_mod fd (acceptor s) (set_channel (poller (base s)) (acceptor s) (setEvents ch listening_events))
      (setEvents ch listening_events) 0 (env_now (env None) (ops (base s))) (env_fails (env None) (ops (base s))))
      as (p' & Hp' & Hw').
    + by eapply watched_set_channel.
    + apply lookup_insert_eq.
    + done.
    + unfold handThisConn in H. fold listening_events in H. rewrite Hp' in H. by injection H as <-.
Qed.

Lemma server_run_watched n fd es s s' : (0 < n)%nat -> server_run es s s' -> forall k,
  pool s = started_pool n (k mod n) -> Forall made_nonblocking es -> watched fd (acceptor s) (poller (base s)) ->
  watched fd (acceptor s') (poller (base s')).
Proof.
  intros Hn. induction 1 as [s|s e s1 es s2 Hs _ IH]; intros k Hp Hf Hw; [done|].
  apply Forall_cons in Hf as [He Hf]. destruct (server_step_watched _ _ _ _ _ _ Hn Hp He Hs Hw) as [Hw1 _].
  eapply (IH (takes e + k)%nat); [by eapply server_step_pool|done|done].
Qed.

Lemma new_loop_poller e fd l : new_loop e fd = Ret l ->
  (forall fd', fd' <> fd -> kernel (poller l) !! fd' = None) /\ forall c, c <> 0%nat -> channels (poller l) !! c = None.
Proof.
  unfold new_loop, epoll_add, get_channel. cbn [set_channel channels]. rewrite lookup_insert_eq.
  cbn [mbind outcome_bind fd_ setEvents new_Channel]. intros H. inv_bind H. inv_bind Ha.
  change (0 <? 0) with false in Ha. cbv iota in Ha. injection H as <-. cbn [poller].
  destruct (epoll_ctl _ _ _ _ _) as [k rc] eqn:Ek.
  assert (Hk : forall fd', fd' <> fd -> k !! fd' = None).
  { intros fd' Hne. change k with (fst (k, rc)). rewrite <- Ek, epoll_ctl_other by done. apply lookup_empty. }
  case_if_in Ha; injection Ha as <-; cbn; (split; [done|]); intros c Hc;
    by rewrite !lookup_insert_ne, lookup_empty.
Qed.

Lemma start_server_watched threadNum port k base_wakeup wakeup s :
  env_fails (env None) 1 = false -> base_wakeup <> sc_socket k -> 0 <= sc_socket k < MAXFDS ->
  start_server threadNum port k base_wakeup wakeup = Some (Ret s) ->
  watched (sc_socket k) (acceptor s) (poller (base s)).
Proof.
  intros Henv Hb Hfd. unfold start_server. destruct (new_Server threadNum port k) as [[p0 listenFd]|] eqn:En; [|done].
  apply new_Server_spec in En as (_ & -> & -> & _). cbn [mbind option_bind]. intros H. injection H as H.
  apply bind_Ret_inv in H as (l & Hl & H). apply bind_Ret_inv in H as ([p pool'] & Hp & H).
  apply bind_Ret_inv in H as (ls & _ & [= <-]). cbn [acceptor base poller].
  destruct (new_loop_poller _ _ _ Hl) as [Hk _]. specialize (Hk (sc_socket k) (not_eq_sym Hb)).
  unfold server_start, get_channel in Hp. cbn [set_channel channels] in Hp. rewrite lookup_insert_eq in Hp.
  cbn [mbind outcome_bind] in Hp. unfold epoll_add, get_channel in Hp. cbn [set_channel channels] in Hp.
  rewrite lookup_insert_eq in Hp. cbn [mbind outcome_bind fd_ setEvents new_Channel] in Hp.
  rewrite in_table_ok in Hp by done. cbn [mbind outcome_bind] in Hp. change (0 <? 0) with false in Hp. cbv iota in Hp.
  cbn [set_tables set_channel kernel fd2chan_ fd2http_ channels timerManager_ alive] in Hp.
  unfold epoll_ctl in Hp. rewrite Henv, Hk in Hp. cbn in Hp. injection Hp as <- _.
  split; cbn; [|by rewrite lookup_insert_eq|by rewrite lookup_insert_eq|done].
  eexists. by rewrite lookup_insert_eq.
Qed.

End server.
Arguments EpollServer : clear implicits.

(** * Properties *)

(** C5: composition of the epoll server, one request at a time. From the
    construction of a [Server] with any number of threads and after any run of all
    its threads, the connection accepted as number [k] (from 0) goes to the loop
    [k] modulo the number of threads. From then on let all threads run in any
    order, where no call on the poller of this loop fails, each whole request for
    a file arrives alone, in a turn of its own, with room in the socket for the
    answer, and in every other step the connection has no event and its timer
    does not expire ([served]). Then exactly the answers to these requests have
    been written to it, in order, and it waits in the functors of its loop or is
    registered there. Requests that arrive together in one turn are excluded: the
    byte that [headers_parsed] shows to be dropped is the first of the second. *)
Theorem server_serves_connections `{TimerQueue Q} env files threadNum port k base_wakeup wakeup
    (s0 s s1 s' : EpollServer Q) es a c h answers :
  (forall i n, env_fails (env (Some i)) n = false) ->
  (forall i, (i < Z.to_nat threadNum)%nat -> 0 <= wakeup i < MAXFDS) ->
  start_server env threadNum port k base_wakeup wakeup = Some (Ret s0) ->
  server_run env files es s0 s ->
  0 < accept_fd a < MAXFDS -> nonblocking a = true -> unused (accept_fd a) c h s ->
  accept_next env s a c h = Ret s1 ->
  let i := (taken es mod Z.to_nat threadNum)%nat in
  served env files i (accept_fd a) c h answers s1 s' ->
  exists l w, loops s' !! i = Some l /\ conns l !! h = Some (c, w) /\ written w = concat answers /\
    (ready (accept_fd a) c h l w \/ waiting (accept_fd a) c h l).
Proof.
  intros Henv Hw H0 Hrun Hfd Hnb Hu Ha i Hsv.
  destruct (start_server_spec _ _ _ _ _ _ _ Hw H0) as (Hn & Hp & Hs0).
  destruct (server_run_inv env files _ es s0 s Hn Hrun 0) as [Hps Hs];
    [by rewrite Nat.Div0.mod_0_l|done|]. rewrite Nat.add_0_r in Hps.
  eapply (served_tracked env files i _ _ _ _ _ _ (Henv i) Hsv []).
  - by eapply accept_next_sound.
  - by eapply accept_next_tracked.
Qed.

(** C18: the server keeps listening. From the construction of a [Server] whose
    socket could be added to the poller, after any run of all threads in which
    [setSocketNonBlocking] failed on no accepted descriptor (a server whose
    descriptors run out included), the kernel watches the listening socket for
    connections, edge-triggered, and the next one is reported to the accept
    channel. *)
Theorem server_keeps_listening `{TimerQueue Q} env files threadNum port k base_wakeup wakeup
    (s0 s : EpollServer Q) es :
  (forall i, (i < Z.to_nat threadNum)%nat -> 0 <= wakeup i < MAXFDS) ->
  env_fails (env None) 1 = false -> base_wakeup <> sc_socket k -> 0 <= sc_socket k < MAXFDS ->
  start_server env threadNum port k base_wakeup wakeup = Some (Ret s0) ->
  server_run env files es s0 s -> Forall made_nonblocking es ->
  kernel (poller (base s)) !! sc_socket k = Some (mkInterest (Z.lor EPOLLIN EPOLLET) true) /\
  exists p, poll (poller (base s)) [[(sc_socket k, EPOLLIN)]] = Ret (p, [acceptor s]).
Proof.
  intros Hw Henv Hb Hfd H0 Hrun Hes. destruct (start_server_spec _ _ _ _ _ _ _ Hw H0) as (Hn & Hp & _).
  pose proof (start_server_watched _ _ _ _ _ _ _ Henv Hb Hfd H0) as H1.
  destruct (server_run_watched env files _ (sc_socket k) es s0 s Hn Hrun 0) as [(ch & Hch & _) Hfc Hk _]; [by rewrite Nat.Div0.mod_0_l|done|done|].
  split; [done|]. cbn [poll getEventsRequest foldl fst]. rewrite in_table_ok by done. cbn [mbind outcome_bind fd2chan_].
  rewrite Hfc. unfold get_channel. cbn [channels]. rewrite Hch. cbn. by eexists.
Qed.

(** Two threads; the second connection, on descriptor 8, asks for a file. *)
Definition two_env : option nat -> environment := fun _ => steady.
Definition two_wakeup (i : nat) : Z := 4 + Z.of_nat i.
Definition no_server : EpollServer OrderedQueue :=
  mkEpollServer (mkPool 0 0 []) idle_loop 0 ∅ false [] ∅.
Definition two_threads : EpollServer OrderedQueue :=
  match start_server two_env 2 8080 (mkSyscalls 6 0 0 0 2 0) 3 two_wakeup with
  | Some m => result_or no_server m
  | None => no_server
  end.
Definition two_woken : EpollServer OrderedQueue :=
  match poll (poller (base two_threads)) [[(6, EPOLLIN)]] with
  | Ret (p, _) => set_base two_threads (set_poller (base two_threads) p) true
  | _ => no_server
  end.
Definition first_accepted : EpollServer OrderedQueue :=
  result_or no_server (accept_next two_env two_woken (mkAccepted 7 true) 10 10).
Definition second_accepted : EpollServer OrderedQueue :=
  result_or no_server (accept_next two_env first_accepted (mkAccepted 8 true) 11 11).
Definition loop_of (s : EpollServer OrderedQueue) (i : nat) : LoopThread OrderedQueue :=
  default idle_loop (loops s !! i).
Definition registered_second : LoopThread OrderedQueue :=
  result_or idle_loop (turn steady one_file 9 [[(5, EPOLLIN)]] noon (loop_of second_accepted 1)).
Definition answered_second : LoopThread OrderedQueue :=
  result_or idle_loop (turn steady one_file 9 [[(8, EPOLLIN)]] noon
    (arrive 11 input [WriteUpTo 1000] registered_second)).

Lemma registered_second_request :
  let w := match conns registered_second !! 11%nat with Some (_, w) => w | None => sample_conn loop1 end in
  request_at one_file (lit "a.txt") "1" [(lit "Host", lit "h")] (lit "abc")
    (mkConn (http w) input [WriteUpTo 1000] (written w) (calls w) (live_timers w)).
Proof.
  split; try (by vm_compute); try (by apply (bool_decide_unpack _); vm_compute).
  exists 1000, []. by vm_compute.
Qed.

Lemma second_served :
  served two_env one_file 1 8 11 11 [answer_of (lit "a.txt") [(lit "Host", lit "h")] (lit "abc")]
    second_accepted (set_loop (set_loop second_accepted 1 registered_second) 1 answered_second).
Proof.
  eapply served_step.
  { apply (server_turn _ _ second_accepted 1 (loop_of second_accepted 1) 9 [(5, EPOLLIN)] noon registered_second).
    - by vm_compute.
    - by apply (bool_decide_unpack _).
    - apply result_or_spec. by vm_compute. }
  { intros _. split; by apply (bool_decide_unpack _); vm_compute. }
  eapply (served_request two_env one_file 1 8 11 11 [] _ registered_second _ input [WriteUpTo 1000]
    (lit "a.txt") "1" [(lit "Host", lit "h")] (lit "abc") [] [] 8 noon answered_second).
  - apply lookup_insert_eq.
  - by vm_compute.
  - by vm_compute.
  - exact registered_second_request.
  - by apply (bool_decide_unpack _).
  - apply result_or_spec. by vm_compute.
  - by apply (bool_decide_unpack _); vm_compute.
  - constructor.
Qed.

Lemma first_run :
  server_run two_env one_file [Woken; Accepted (mkAccepted 7 true)] two_threads first_accepted.
Proof.
  eapply run_cons; [apply (server_woken _ _ two_threads [[(6, EPOLLIN)]]); by vm_compute|].
  eapply run_cons; [|constructor]. apply (server_accept _ _ _ (mkAccepted 7 true) 10 10).
  - done.
  - by apply (bool_decide_unpack _); vm_compute.
  - apply result_or_spec. by vm_compute.
Qed.

Lemma server_serves_connections_witness :
  exists l w, loops (set_loop (set_loop second_accepted 1 registered_second) 1 answered_second) !! 1%nat = Some l /\
    conns l !! 11%nat = Some (11%nat, w) /\
    written w = concat [answer_of (lit "a.txt") [(lit "Host", lit "h")] (lit "abc")] /\
    (ready 8 11 11 l w \/ waiting 8 11 11 l).
Proof.
  apply (server_serves_connections two_env one_file 2 8080 (mkSyscalls 6 0 0 0 2 0) 3 two_wakeup two_threads
    first_accepted second_accepted _ [Woken; Accepted (mkAccepted 7 true)] (mkAccepted 8 true) 11 11).
  - done.
  - intros i Hi. unfold two_wakeup, MAXFDS. cbn in Hi. lia.
  - by vm_compute.
  - exact first_run.
  - done.
  - done.
  - by apply (bool_decide_unpack _); vm_compute.
  - apply result_or_spec. by vm_compute.
  - exact second_served.
Defined.

Lemma server_keeps_listening_witness :
  kernel (poller (base first_accepted)) !! 6 = Some (mkInterest (Z.lor EPOLLIN EPOLLET) true) /\
  exists p, poll (poller (base first_accepted)) [[(6, EPOLLIN)]] = Ret (p, [acceptor first_accepted]).
Proof.
  apply (server_keeps_listening two_env one_file 2 8080 (mkSyscalls 6 0 0 0 2 0) 3 two_wakeup two_threads
    first_accepted [Woken; Accepted (mkAccepted 7 true)]).
  - intros i Hi. unfold two_wakeup, MAXFDS. cbn in Hi. lia.
  - done.
  - done.
  - unfold MAXFDS. cbn. lia.
  - by vm_compute.
  - exact first_run.
  - by repeat constructor.
Defined.
