(* ===== verification/Latch.v ===== *)
(** * Latch: CountDownLatch with MutexLock and Condition
      (WebServer/base/{CountDownLatch.{h,cpp},MutexLock.h,Condition.h})

    Any number of threads call [wait] and [countDown] on one latch.  A step is
    one call of the mutex or the condition variable, or one access to [count_];
    a sleeping thread wakes up after a notification or spuriously, once the
    mutex is free, and tests the count again. ThreadStart.v has the two callers
    of [Thread::start] in their context. *)

From S2P Require Export Prelude.

(** ** State

    Where a thread is in [wait] (before the guard, at the test, asleep, at the
    end of the guard, returned) or in [countDown] (before the guard, at
    [--count_], at the test, at the end of the guard, returned). *)
Inductive latch_pc :=
  | WEnter | WTest | WSleep (notified : bool) | WLeave | WDone
  | CEnter | CDecrement | CNotify | CLeave | CDone.

#[export] Instance latch_pc_eq_dec : EqDecision latch_pc.
Proof. solve_decision. Defined.

(** [mutex_]: the thread that holds it. *)
Record CountDownLatch := mkLatch {
  mutex_ : option nat;
  count_ : Z;
  callers : list latch_pc
}.

Definition new_CountDownLatch (count : Z) (l : list latch_pc) : CountDownLatch := mkLatch None count l.

Definition goto (t : CountDownLatch) (i : nat) (pc : latch_pc) : CountDownLatch :=
  mkLatch (mutex_ t) (count_ t) (<[i := pc]> (callers t)).

(** ** MutexLock and Condition *)

(** [MutexLock::lock], which the constructor of a guard calls: [None] while
    another thread holds it. *)
Definition lock (t : CountDownLatch) (i : nat) : option CountDownLatch :=
  match mutex_ t with
  | None => Some (mkLatch (Some i) (count_ t) (callers t))
  | Some _ => None
  end.

(** [MutexLock::unlock], which the destructor of a guard calls; undefined by
    any other thread than the holder. *)
Definition unlock (t : CountDownLatch) (i : nat) : outcome CountDownLatch :=
  if bool_decide (mutex_ t = Some i) then Ret (mkLatch None (count_ t) (callers t)) else UB.

(** [Condition::wait]: the mutex is released and the thread sleeps. *)
Definition cond_wait (t : CountDownLatch) (i : nat) : outcome CountDownLatch :=
  t ← unlock t i; Ret (goto t i (WSleep false)).

(** [Condition::notifyAll] *)
Definition notifyAll (t : CountDownLatch) : CountDownLatch :=
  mkLatch (mutex_ t) (count_ t) ((fun pc => match pc with WSleep _ => WSleep true | _ => pc end) <$> callers t).

(** [Condition::waitForSeconds]: the absolute time it waits for, in seconds and
    nanoseconds, and what it returns for the result of [pthread_cond_timedwait]. *)
Definition waitForSeconds (now : Z * Z) (seconds rc : Z) : (Z * Z) * bool :=
  ((now.1 + seconds, now.2), 110 =? rc).

(** [~MutexLock]: it takes the mutex and destroys it; to destroy a mutex that is
    held is undefined. *)
Definition mutex_destroy (t : CountDownLatch) : outcome unit :=
  if bool_decide (mutex_ t = None) then Ret tt else UB.

Definition destroy_MutexLock (t : CountDownLatch) (i : nat) : option (outcome unit) :=
  mutex_destroy <$> lock t i.

(** ** The operations *)

(** [int count_] *)
Definition decrement (t : CountDownLatch) : outcome CountDownLatch :=
  if count_ t =? - 2 ^ 31 then UB else Ret (mkLatch (mutex_ t) (count_ t - 1) (callers t)).

(** Thread [i] takes the mutex and goes on to [pc]. *)
Definition enter (t : CountDownLatch) (i : nat) (pc : latch_pc) : option (outcome CountDownLatch) :=
  (fun t => Ret (goto t i pc)) <$> lock t i.

(** One step of [wait]: [while (count_ > 0) condition_.wait();] under a guard. *)
Definition wait_step (t : CountDownLatch) (i : nat) (pc : latch_pc) (spurious : bool) : option (outcome CountDownLatch) :=
  match pc with
  | WEnter => enter t i WTest
  | WTest => Some (if 0 <? count_ t then cond_wait t i else Ret (goto t i WLeave))
  | WSleep notified => if notified || spurious then enter t i WTest else None
  | WLeave => Some (t ← unlock t i; Ret (goto t i WDone))
  | _ => None
  end.

(** One step of [countDown]: [--count_; if (count_ == 0) condition_.notifyAll();]
    under a guard. *)
Definition countDown_step (t : CountDownLatch) (i : nat) (pc : latch_pc) : option (outcome CountDownLatch) :=
  match pc with
  | CEnter => enter t i CDecrement
  | CDecrement => Some (t ← decrement t; Ret (goto t i CNotify))
  | CNotify => Some (Ret (goto (if count_ t =? 0 then notifyAll t else t) i CLeave))
  | CLeave => Some (t ← unlock t i; Ret (goto t i CDone))
  | _ => None
  end.

Definition in_wait (pc : latch_pc) : bool :=
  match pc with WEnter | WTest | WSleep _ | WLeave | WDone => true | _ => false end.

(** [None]: thread [i] cannot step, or there is none. *)
Definition latch_step (t : CountDownLatch) (i : nat) (spurious : bool) : option (outcome CountDownLatch) :=
  match callers t !! i with
  | Some pc => if in_wait pc then wait_step t i pc spurious else countDown_step t i pc
  | None => None
  end.

Fixpoint latch_run (t : CountDownLatch) (l : list (nat * bool)) : option (outcome CountDownLatch) :=
  match l with
  | [] => Some (Ret t)
  | (i, spurious) :: l' =>
      match latch_step t i spurious with
      | Some (Ret t') => latch_run t' l'
      | r => r
      end
  end.

(** * Lemmas *)

Definition in_section (pc : latch_pc) : bool :=
  match pc with WTest | WLeave | CDecrement | CNotify | CLeave => true | _ => false end.

(** Whether a call has decremented the count. *)
Definition counted (pc : latch_pc) : nat := match pc with CNotify | CLeave | CDone => 1 | _ => 0 end.
Definition counts (pc : latch_pc) : nat := if in_wait pc then 0 else 1.

(** How many of the calls. *)
Definition counted_down (t : CountDownLatch) : Z := Z.of_nat (sum_list_with counted (callers t)).
Definition countdowns (t : CountDownLatch) : Z := Z.of_nat (sum_list_with counts (callers t)).

(** The steps a caller has left, spurious ones apart. *)
Definition rank (count : Z) (pc : latch_pc) : nat :=
  match pc with
  | WEnter => if 0 <? count then 5 else 3
  | WTest => if 0 <? count then 4 else 2
  | WSleep _ => 3
  | CEnter => 4 | CDecrement => 3 | CNotify => 2
  | WLeave | CLeave => 1
  | WDone | CDone => 0
  end.
Definition steps_left (t : CountDownLatch) : Z := Z.of_nat (sum_list_with (rank (count_ t)) (callers t)).

(** A caller that is past the test, or was woken up to be. *)
Definition released (pc : latch_pc) : Prop :=
  match pc with WLeave | WDone | WSleep true => True | _ => False end.

Record latch_ok (n k : Z) (t : CountDownLatch) : Prop := mkLatchOk {
  lo_mutex : forall i, mutex_ t = Some i <-> exists pc, callers t !! i = Some pc /\ in_section pc = true;
  lo_count : count_ t = n - counted_down t;
  lo_calls : countdowns t = k;
  lo_range : - 2 ^ 31 <= n - k;
  lo_asleep : forall j, callers t !! j = Some (WSleep false) ->
    0 < count_ t \/ (count_ t = 0 /\ exists i, callers t !! i = Some CNotify);
  lo_left : forall j pc, callers t !! j = Some pc -> released pc -> count_ t <= 0
}.

Lemma sum_list_with_insert {A} (f : A -> nat) (l : list A) i x y :
  l !! i = Some x -> (sum_list_with f (<[i := y]> l) + f x = sum_list_with f l + f y)%nat.
Proof.
  revert i. induction l as [|z l IH]; intros [|i] Hi; cbn [sum_list_with insert list_insert lookup list_lookup] in *; [done|done|simplify_eq; cbn; lia|].
  cbn. rewrite <- !Nat.add_assoc. apply Nat.add_cancel_l. by apply IH.
Qed.

Lemma sum_list_with_le {A} (f g : A -> nat) (l : list A) :
  (forall x, x ∈ l -> (f x <= g x)%nat) -> (sum_list_with f l <= sum_list_with g l)%nat.
Proof.
  induction l as [|x l IH]; intros H; cbn; [done|]. pose proof (H x ltac:(left)).
  specialize (IH ltac:(intros y Hy; apply H; by right)). lia.
Qed.

(** ** Preservation *)

Definition wake (pc : latch_pc) : latch_pc := match pc with WSleep _ => WSleep true | _ => pc end.

(** What a change of all callers by [h] keeps. *)
Definition harmless (h : latch_pc -> latch_pc) : Prop :=
  forall pc, in_section (h pc) = in_section pc /\ counted (h pc) = counted pc /\ counts (h pc) = counts pc.

Lemma harmless_id : harmless (fun pc => pc). Proof. done. Qed.
Lemma harmless_wake : harmless wake. Proof. by intros []. Qed.

Lemma fmap_fun_id (l : list latch_pc) : (fun pc => pc) <$> l = l.
Proof. induction l; cbn; [done|]. by f_equal. Qed.

Lemma sum_list_with_fmap {A B} (f : B -> nat) (h : A -> B) (l : list A) :
  sum_list_with f (h <$> l) = sum_list_with (fun x => f (h x)) l.
Proof. induction l as [|x l IH]; cbn; [done|]. by rewrite IH. Qed.

Lemma sum_list_with_ext {A} (f g : A -> nat) (l : list A) :
  (forall x, f x = g x) -> sum_list_with f l = sum_list_with g l.
Proof. intros H. induction l as [|x l IH]; cbn; [done|]. by rewrite H, IH. Qed.

(** Thread [i], which holds the mutex or finds it free, goes from [p] to [q]. *)
Lemma latch_ok_step n k t i p q h m c :
  latch_ok n k t -> callers t !! i = Some p -> harmless h ->
  (in_section p = true \/ mutex_ t = None) -> m = (if in_section q then Some i else None) ->
  c = count_ t + Z.of_nat (counted p) - Z.of_nat (counted q) -> counts q = counts p ->
  let t' := mkLatch m c (<[i := q]> (h <$> callers t)) in
  (forall j, callers t' !! j = Some (WSleep false) -> 0 < c \/ (c = 0 /\ exists i, callers t' !! i = Some CNotify)) ->
  (forall j pc, callers t' !! j = Some pc -> released pc -> c <= 0) ->
  latch_ok n k t'.
Proof.
  intros [Hm Hc Hk Hr Ha Hl] Hi Hh Hfree -> -> Hq t' Ha' Hl'.
  assert (Hhi : (h <$> callers t) !! i = Some (h p)) by (by rewrite list_lookup_fmap, Hi).
  pose proof (lookup_lt_Some _ _ _ Hhi) as Hlt. constructor; [| | |done|done|done]; cbn.
  - intros j. destruct (decide (j = i)) as [->|Hj].
    + rewrite list_lookup_insert_eq by done. destruct (in_section q) eqn:E.
      * split; [|done]. intros _. by exists q.
      * split; [done|]. intros (pc & [= <-] & Hpc). congruence.
    + rewrite list_lookup_insert_ne by done. split; [by destruct (in_section q); intros [= ->]|].
      rewrite list_lookup_fmap. intros (pc & Hpc & Hin). destruct (callers t !! j) as [pc'|] eqn:Ej; [|done].
      cbn in Hpc. injection Hpc as <-. rewrite (proj1 (Hh pc')) in Hin.
      assert (Hmj : mutex_ t = Some j) by (apply Hm; by exists pc').
      destruct Hfree as [Hp|Hp]; [|congruence]. assert (mutex_ t = Some i) by (apply Hm; by exists p). congruence.
  - unfold counted_down in *. cbn. pose proof (sum_list_with_insert counted _ _ _ q Hhi) as Hs.
    rewrite (proj1 (proj2 (Hh p))), sum_list_with_fmap in Hs.
    rewrite (sum_list_with_ext _ counted (callers t)) in Hs by (intros x; apply Hh). lia.
  - unfold countdowns in *. cbn. pose proof (sum_list_with_insert counts _ _ _ q Hhi) as Hs.
    rewrite (proj2 (proj2 (Hh p))), sum_list_with_fmap in Hs.
    rewrite (sum_list_with_ext _ counts (callers t)) in Hs by (intros x; apply Hh). lia.
Qed.

Lemma holds_mutex n k t i p : latch_ok n k t -> callers t !! i = Some p -> in_section p = true -> mutex_ t = Some i.
Proof. intros H Hi Hp. apply (lo_mutex _ _ _ H). by exists p. Qed.

(** The range of [count_]: a call that has still to decrement it can. *)
Lemma count_range n k t i : latch_ok n k t -> callers t !! i = Some CDecrement -> - 2 ^ 31 < count_ t.
Proof.
  intros [_ Hc Hk Hr _ _] Hi. assert (counted_down t + 1 <= countdowns t); [|lia].
  unfold counted_down, countdowns.
  pose proof (sum_list_with_insert counted _ _ _ CNotify Hi) as H1.
  pose proof (sum_list_with_insert counts _ _ _ CNotify Hi) as H2. cbn in H1, H2.
  assert (sum_list_with counted (<[i:=CNotify]> (callers t)) <= sum_list_with counts (<[i:=CNotify]> (callers t)))%nat; [|lia].
  apply sum_list_with_le. intros [] _; cbn; lia.
Qed.

Lemma lookup_wake (l : list latch_pc) j pc : (wake <$> l) !! j = Some pc -> exists pc', l !! j = Some pc' /\ pc = wake pc'.
Proof. rewrite list_lookup_fmap. destruct (l !! j) as [pc'|]; [|done]. cbn. intros [= <-]. by exists pc'. Qed.

Lemma lookup_goto (l : list latch_pc) i q j pc :
  (<[i := q]> l) !! j = Some pc -> (j = i /\ pc = q) \/ (j <> i /\ l !! j = Some pc).
Proof.
  rewrite list_lookup_insert_Some. intros [(-> & -> & _)|[? ?]]; [by left|by right].
Qed.

(** The sleepers' condition when the count stays and no call leaves [CNotify]. *)
Lemma asleep_same n k t i p q j :
  latch_ok n k t -> callers t !! i = Some p -> p <> CNotify -> q <> WSleep false ->
  (<[i := q]> (callers t)) !! j = Some (WSleep false) ->
  0 < count_ t \/ (count_ t = 0 /\ exists k, (<[i := q]> (callers t)) !! k = Some CNotify).
Proof.
  intros H Hi Hp Hq [[_ Hj]|[_ Hj]]%lookup_goto; [congruence|].
  destruct (lo_asleep _ _ _ H j Hj) as [?|[? [i' Hi']]]; [by left|right]. split; [done|].
  exists i'. rewrite list_lookup_insert_ne; [done|]. intros ->. congruence.
Qed.

Lemma left_same n k t i p q j pc :
  latch_ok n k t -> callers t !! i = Some p -> (released q -> count_ t <= 0) ->
  (<[i := q]> (callers t)) !! j = Some pc -> released pc -> count_ t <= 0.
Proof.
  intros H Hi Hq [[_ ->]|[_ Hj]]%lookup_goto; [done|]. by apply (lo_left _ _ _ H j).
Qed.

(** A step that keeps the count and wakes nobody. *)
Lemma latch_ok_move n k t i p q m :
  latch_ok n k t -> callers t !! i = Some p -> p <> CNotify -> q <> WSleep false ->
  (in_section p = true \/ mutex_ t = None) -> m = (if in_section q then Some i else None) ->
  counted q = counted p -> counts q = counts p -> (released q -> count_ t <= 0) ->
  latch_ok n k (mkLatch m (count_ t) (<[i := q]> (callers t))).
Proof.
  intros H Hi Hp Hq Hfree Hm Hc Hk Hl. rewrite <- (fmap_fun_id (callers t)).
  apply (latch_ok_step n k t i p q); try done; [lia|..]; rewrite fmap_fun_id.
  - intros j. by eapply asleep_same.
  - intros j pc. by eapply left_same.
Qed.

Ltac moved H Hi := eapply (latch_ok_move _ _ _ _ _ _ _ H Hi); auto; try done; try (intros []; (done || lia)).

Lemma latch_step_ok n k t i spurious r :
  latch_ok n k t -> latch_step t i spurious = Some r -> exists t', r = Ret t' /\ latch_ok n k t'.
Proof.
  intros H Hs. unfold latch_step in Hs. destruct (callers t !! i) as [p|] eqn:Hi; [|done].
  assert (Hin : in_section p = true -> unlock t i = Ret (mkLatch None (count_ t) (callers t))).
  { intros Hp. unfold unlock. by rewrite bool_decide_true by by eapply holds_mutex. }
  assert (Hfree : forall q r', enter t i q = Some r' -> mutex_ t = None /\ r' = Ret (mkLatch (Some i) (count_ t) (<[i := q]> (callers t)))).
  { unfold enter, lock. intros q r'. destruct (mutex_ t); [done|]. by intros [= <-]. }
  pose proof (lo_left _ _ _ H i) as Hleft. rewrite Hi in Hleft. specialize (Hleft p eq_refl).
  destruct p; cbn in Hs; try done.
  - apply Hfree in Hs as [Hm ->]. eexists. split; [done|]. moved H Hi.
  - destruct (0 <? count_ t) eqn:Ec; zbool; injection Hs as <-.
    + unfold cond_wait. rewrite (Hin eq_refl). eexists. split; [done|].
      cbn. rewrite <- (fmap_fun_id (callers t)).
      apply (latch_ok_step n k t i WTest (WSleep false)); try done; [by left|cbn; lia|by left|].
      rewrite fmap_fun_id. intros j pc. eapply left_same; [done|done|by intros []].
    + eexists. split; [done|]. unfold goto. moved H Hi. cbn. by eapply holds_mutex.
  - destruct (notified || spurious); [|done]. apply Hfree in Hs as [Hm ->]. eexists. split; [done|]. moved H Hi.
  - rewrite (Hin eq_refl) in Hs. injection Hs as <-. eexists. split; [done|]. unfold goto. cbn. moved H Hi.
  - apply Hfree in Hs as [Hm ->]. eexists. split; [done|]. moved H Hi.
  - unfold decrement in Hs. pose proof (count_range _ _ _ _ H Hi). rewrite (proj2 (Z.eqb_neq _ _)) in Hs by lia.
    injection Hs as <-. eexists. split; [done|]. unfold goto. cbn. rewrite <- (fmap_fun_id (callers t)).
    pose proof (holds_mutex _ _ _ _ _ H Hi eq_refl) as Hm.
    apply (latch_ok_step n k t i CDecrement CNotify); try done; [by left|cbn; lia|..]; rewrite fmap_fun_id.
    + intros j [[_ ?]|[_ Hj]]%lookup_goto; [done|].
      destruct (lo_asleep _ _ _ H j Hj) as [?|[_ [i' Hi']]].
      * destruct (decide (count_ t = 1)); [right|left; lia]. split; [lia|]. exists i.
        apply list_lookup_insert_eq. by eapply lookup_lt_Some.
      * assert (mutex_ t = Some i') by by eapply holds_mutex. congruence.
    + intros j pc [[_ ->]|[_ Hj]]%lookup_goto; [by intros []|]. intros Hpc.
      pose proof (lo_left _ _ _ H j pc Hj Hpc). lia.
  - injection Hs as <-. eexists. split; [done|]. unfold goto.
    pose proof (holds_mutex _ _ _ _ _ H Hi eq_refl) as Hm. destruct (count_ t =? 0) eqn:Ec; zbool; cbn.
    + apply (latch_ok_step n k t i CNotify CLeave wake); try done; [apply harmless_wake|by left|cbn; lia|..].
      * intros j [[_ ?]|[_ Hj]]%lookup_goto; [done|]. apply lookup_wake in Hj as (pc & _ & Hpc). by destruct pc.
      * intros j pc [[_ ->]|[_ Hj]]%lookup_goto; [by intros []|].
        lia.
    + rewrite <- (fmap_fun_id (callers t)).
      apply (latch_ok_step n k t i CNotify CLeave); try done; [by left|cbn; lia|..]; rewrite fmap_fun_id.
      * intros j [[_ ?]|[_ Hj]]%lookup_goto; [done|]. left. destruct (lo_asleep _ _ _ H j Hj) as [?|[? _]]; lia.
      * intros j pc. eapply left_same; [done|done|by intros []].
  - rewrite (Hin eq_refl) in Hs. injection Hs as <-. eexists. split; [done|]. unfold goto. cbn. moved H Hi.
Qed.

(** ** Progress *)

Lemma rank_mono c c' pc : c' <= c -> (rank c' pc <= rank c pc)%nat.
Proof. intros H. destruct pc; cbn; repeat case_if; zbool; lia. Qed.

Lemma rank_wake c pc : rank c (wake pc) = rank c pc.
Proof. by destruct pc. Qed.

Lemma latch_step_rank n k t i spurious t' :
  latch_ok n k t -> latch_step t i spurious = Some (Ret t') ->
  steps_left t' + 1 <= steps_left t + (if spurious then 2 else 0).
Proof.
  intros H Hs. unfold latch_step in Hs. destruct (callers t !! i) as [p|] eqn:Hi; [|done].
  assert (Hgo : forall q m, (rank (count_ t) q + 1 <= rank (count_ t) p + (if spurious then 2 else 0))%nat ->
    steps_left (mkLatch m (count_ t) (<[i := q]> (callers t))) + 1 <= steps_left t + (if spurious then 2 else 0)).
  { intros q m Hq. unfold steps_left. cbn. pose proof (sum_list_with_insert (rank (count_ t)) _ _ _ q Hi).
    destruct spurious; lia. }
  assert (Hen : forall q, enter t i q = Some (Ret t') -> t' = mkLatch (Some i) (count_ t) (<[i := q]> (callers t))).
  { unfold enter, lock. intros q. destruct (mutex_ t); [done|]. by intros [= <-]. }
  assert (Hun : forall q, Some (t1 ← unlock t i; Ret (goto t1 i q)) = Some (Ret t') ->
    t' = mkLatch None (count_ t) (<[i := q]> (callers t))).
  { unfold unlock. intros q. case_bool_decide; [|done]. by intros [= <-]. }
  destruct p; cbn in Hs; try done.
  - apply Hen in Hs as ->. apply Hgo. cbn. destruct (0 <? count_ t), spurious; lia.
  - destruct (0 <? count_ t) eqn:Ec; [apply (Hun (WSleep false)) in Hs as ->|injection Hs as <-];
      apply Hgo; cbn; rewrite Ec; destruct spurious; lia.
  - destruct (notified || spurious) eqn:En; [|done]. apply Hen in Hs as ->. apply Hgo. cbn.
    destruct spurious; [repeat case_if; lia|]. rewrite orb_false_r in En. subst notified.
    pose proof (lo_left _ _ _ H i _ Hi I). rewrite (proj2 (Z.ltb_ge _ _)) by done. lia.
  - apply Hun in Hs as ->. apply Hgo. cbn. destruct spurious; lia.
  - apply Hen in Hs as ->. apply Hgo. cbn. destruct spurious; lia.
  - unfold decrement in Hs. destruct (count_ t =? - 2 ^ 31); [done|]. injection Hs as <-. unfold steps_left, goto. cbn.
    pose proof (sum_list_with_insert (rank (count_ t)) _ _ _ CNotify Hi). cbn in H0.
    assert (sum_list_with (rank (count_ t - 1)) (<[i := CNotify]> (callers t)) <=
      sum_list_with (rank (count_ t)) (<[i := CNotify]> (callers t)))%nat by (apply sum_list_with_le; intros pc _; apply rank_mono; lia).
    destruct spurious; lia.
  - injection Hs as <-. destruct (count_ t =? 0) eqn:Ec; [|apply Hgo; cbn; destruct spurious; lia].
    unfold steps_left, goto. cbn.
    assert (Hi' : (wake <$> callers t) !! i = Some CNotify) by (by rewrite list_lookup_fmap, Hi).
    pose proof (sum_list_with_insert (rank (count_ t)) _ _ _ CLeave Hi') as Hr. cbn in Hr.
    rewrite sum_list_with_fmap, (sum_list_with_ext _ (rank (count_ t)) (callers t)) in Hr by (intros; apply rank_wake).
    fold wake. destruct spurious; lia.
  - apply Hun in Hs as ->. apply Hgo. cbn. destruct spurious; lia.
Qed.

(** If a call has not returned, then one can go on without a spurious wakeup. *)
Lemma latch_progress n k t j pc :
  latch_ok n k t -> n <= k -> callers t !! j = Some pc -> pc <> WDone -> pc <> CDone ->
  exists i r, latch_step t i false = Some r.
Proof.
  intros H Hn Hj HW HC.
  assert (Hin : forall i p, callers t !! i = Some p -> in_section p = true -> exists r, latch_step t i false = Some r).
  { intros i p Hi Hp. unfold latch_step. rewrite Hi. destruct p; try done; cbn; eauto. }
  destruct (mutex_ t) as [i|] eqn:Em.
  { apply (lo_mutex _ _ _ H) in Em as (p & Hi & Hp). destruct (Hin i p Hi Hp). eauto. }
  assert (Hout : forall i p, callers t !! i = Some p -> in_section p = false).
  { intros i p Hi. destruct (in_section p) eqn:E; [|done]. pose proof (holds_mutex _ _ _ _ _ H Hi E). congruence. }
  assert (Hgo : forall i q, callers t !! i = Some q -> q = WEnter \/ q = WSleep true \/ q = CEnter ->
    exists i r, latch_step t i false = Some r).
  { intros i q Hi Hq. exists i. unfold latch_step, wait_step, countDown_step, enter, lock. rewrite Hi, Em.
    destruct Hq as [->|[->| ->]]; cbn; eauto. }
  pose proof (Hout j pc Hj) as Hpc.
  destruct pc as [| |[|]| | | | | | |]; try done; try (apply (Hgo j _ Hj); tauto).
  destruct (lo_asleep _ _ _ H j Hj) as [Hc|[_ [i' Hi']]]; [|by specialize (Hout i' _ Hi')].
  rewrite (lo_count _ _ _ H) in Hc. rewrite <- (lo_calls _ _ _ H) in Hn. unfold counted_down, countdowns in *.
  assert (Hex : exists i, callers t !! i = Some CEnter).
  { destruct (decide (CEnter ∈ callers t)) as [Hc'|Hno]; [by apply list_elem_of_lookup in Hc'|].
    assert (sum_list_with counts (callers t) <= sum_list_with counted (callers t))%nat; [|lia].
    apply sum_list_with_le. intros p [i Hi]%list_elem_of_lookup. specialize (Hout i p Hi).
    destruct p; cbn; try done; try lia. destruct Hno. apply list_elem_of_lookup. by exists i. }
  destruct Hex as [i Hi]. apply (Hgo i _ Hi); tauto.
Qed.

Definition spurious_wakeups (l : list (nat * bool)) : Z := Z.of_nat (sum_list_with (fun x : nat * bool => if x.2 then 1%nat else 0%nat) l).

Lemma latch_run_ok n k l : forall t r,
  latch_ok n k t -> latch_run t l = Some r ->
  exists t', r = Ret t' /\ latch_ok n k t' /\
    Z.of_nat (length l) + steps_left t' <= steps_left t + 2 * spurious_wakeups l.
Proof.
  induction l as [|[i b] l IH]; intros t r H Hr; cbn in Hr.
  { injection Hr as <-. exists t. split_and!; [done..|]. unfold spurious_wakeups. cbn. lia. }
  destruct (latch_step t i b) as [r1|] eqn:E; [|done].
  destruct (latch_step_ok _ _ _ _ _ _ H E) as (t1 & -> & H1).
  destruct (IH t1 r H1 Hr) as (t' & -> & H' & Hl). exists t'. split_and!; [done|done|].
  pose proof (latch_step_rank _ _ _ _ _ _ H E). unfold spurious_wakeups in *. cbn. destruct b; cbn; lia.
Qed.

(** Callers that have not begun: [waiters] calls of [wait] and [downs] of
    [countDown], in any order. *)
Definition fresh_callers (l : list latch_pc) : Prop := Forall (fun pc => pc = WEnter \/ pc = CEnter) l.

Lemma fresh_ok n l :
  fresh_callers l -> - 2 ^ 31 <= n - Z.of_nat (sum_list_with counts l) ->
  latch_ok n (Z.of_nat (sum_list_with counts l)) (new_CountDownLatch n l).
Proof.
  intros Hl Hr. assert (Hpc : forall j pc, l !! j = Some pc -> pc = WEnter \/ pc = CEnter) by by apply Forall_lookup.
  constructor; cbn; try done.
  - intros i. split; [done|]. intros (pc & Hi & Hin). destruct (Hpc i pc Hi) as [->| ->]; done.
  - assert (sum_list_with counted l = 0)%nat as H0; [|unfold counted_down; cbn; lia].
    clear Hr Hpc. induction Hl as [|pc l Hx Hl IH]; [done|]. cbn. rewrite IH. by destruct Hx as [->| ->].
  - intros j Hj. by destruct (Hpc j _ Hj).
  - intros j pc Hj. by destruct (Hpc j _ Hj) as [->| ->].
Qed.

Lemma fresh_steps n l : fresh_callers l -> steps_left (new_CountDownLatch n l) <= 5 * Z.of_nat (length l).
Proof.
  intros Hl. unfold steps_left. cbn. induction Hl as [|pc l Hx Hl IH]; cbn; [lia|].
  destruct Hx as [->| ->]; cbn; [case_if|]; lia.
Qed.

(** * Properties *)

(** C22: the latch opens, and not before. For a latch of [n] with any callers,
    of which at least [n] count down, and any schedule with spurious wakeups:
    the mutex is used by its holder only and held by one thread at a time; a
    call of [wait] returns only after [n] calls have counted down; a schedule
    has at most five steps a caller and two more for each spurious wakeup; and
    as long as a call has not returned, one can go on without a spurious
    wakeup, so that every call returns. *)
Theorem latch_opens n l sched r :
  fresh_callers l -> n <= Z.of_nat (sum_list_with counts l) <= n + 2 ^ 31 ->
  latch_run (new_CountDownLatch n l) sched = Some r ->
  exists t, r = Ret t /\
    (forall i j p q, callers t !! i = Some p -> callers t !! j = Some q ->
       in_section p = true -> in_section q = true -> i = j) /\
    (forall i, callers t !! i = Some WDone -> n <= counted_down t) /\
    Z.of_nat (length sched) <= 5 * Z.of_nat (length l) + 2 * spurious_wakeups sched /\
    ((forall i pc, callers t !! i = Some pc -> pc = WDone \/ pc = CDone) \/
     exists i r', latch_step t i false = Some r').
Proof.
  intros Hl Hn Hr. destruct (latch_run_ok _ _ _ _ _ (fresh_ok n l Hl ltac:(lia)) Hr) as (t & -> & H & Hs).
  exists t. split_and!; [done|..].
  - intros i j p q Hi Hj Hp Hq. pose proof (holds_mutex _ _ _ _ _ H Hi Hp). pose proof (holds_mutex _ _ _ _ _ H Hj Hq). congruence.
  - intros i Hi. pose proof (lo_left _ _ _ H i _ Hi I). rewrite (lo_count _ _ _ H) in *. lia.
  - pose proof (fresh_steps n l Hl). unfold steps_left in *. lia.
  - destruct (decide (Forall (fun pc => pc = WDone \/ pc = CDone) (callers t))) as [Ha|Ha].
    + left. by apply Forall_lookup.
    + right. apply not_Forall_Exists, Exists_exists in Ha as (pc & [j Hj]%list_elem_of_lookup & Hpc); [|solve_decision].
      cbn in Hpc. apply (latch_progress n _ t j pc H); [lia|done|tauto|tauto].
Qed.

(** [Thread::start] waits for the new thread; here two threads wait, one is
    woken up spuriously, and the second call of [countDown] opens the latch. *)
Definition two_waiters : list latch_pc := [WEnter; CEnter; WEnter; CEnter].
Definition two_waiters_schedule : list (nat * bool) :=
  [(0, false); (0, false); (1, false); (1, false); (1, false); (1, false); (0, true); (0, false); (2, false); (2, false);
   (3, false); (3, false); (3, false); (3, false); (0, false); (0, false); (0, false); (2, false); (2, false); (2, false)]%nat.

Lemma latch_opens_witness :
  exists t, latch_run (new_CountDownLatch 2 two_waiters) two_waiters_schedule = Some (Ret t) /\
    callers t = [WDone; CDone; WDone; CDone] /\
  exists t', Ret t = Ret t' /\
    (forall i j p q, callers t' !! i = Some p -> callers t' !! j = Some q ->
       in_section p = true -> in_section q = true -> i = j) /\
    (forall i, callers t' !! i = Some WDone -> 2 <= counted_down t') /\
    Z.of_nat (length two_waiters_schedule) <= 5 * Z.of_nat (length two_waiters) + 2 * spurious_wakeups two_waiters_schedule /\
    ((forall i pc, callers t' !! i = Some pc -> pc = WDone \/ pc = CDone) \/
     exists i r', latch_step t' i false = Some r').
Proof.
  eexists. split; [vm_compute; reflexivity|]. split; [reflexivity|].
  apply (latch_opens 2 two_waiters two_waiters_schedule); [|cbn; lia|vm_compute; reflexivity].
  unfold fresh_callers, two_waiters. rewrite !Forall_cons. split_and!; auto.
Defined.

(** Without enough calls of [countDown] the waiting threads sleep for ever: no
    step but a spurious wakeup is left. *)
Example latch_stays_closed :
  exists t, latch_run (new_CountDownLatch 2 [WEnter; CEnter])
      [(0, false); (0, false); (1, false); (1, false); (1, false); (1, false)]%nat = Some (Ret t) /\
    latch_step t 0 false = None /\ latch_step t 1 false = None.
Proof. eexists. split; [vm_compute; reflexivity|]. by split. Qed.

(** The destructor of a mutex that nobody holds destroys it held. *)
Lemma destroy_MutexLock_undefined n l i : destroy_MutexLock (new_CountDownLatch n l) i = Some UB.
Proof. done. Qed.
