(* ===== verification/Threads.v ===== *)
(** * Threads: class Thread and CurrentThread (WebServer/base/Thread.{h,cpp},
      CurrentThread.h)

    One [Thread] object and the threads it made: [created] and [released] are the
    handles [pthread_create] returned and those that were joined or detached.
    How the new thread and [start] meet in the latch is in ThreadStart.v; here
    [start] returns when the latch is open and [tid_] is set. *)

From S2P Require Export CxxString.

(** ** CurrentThread

    The thread-local variables of one thread. *)
Record CurrentThread := mkCurrent {
  t_cachedTid : Z;
  t_tidString : bytes;
  t_tidStringLength : Z;
  t_threadName : bytes
}.

Definition new_thread_locals : CurrentThread := mkCurrent 0 [] 6 (lit "default").

(** [snprintf] with the format "%5d ". *)
Definition print_tid (n : Z) : bytes :=
  let s := to_string n in repeat " "%char (5 - length s) ++ s ++ lit " ".

(** [cacheTid], where [gettid] returns [g]; the array has 32 bytes, its last one
    for the NUL. *)
Definition cacheTid (c : CurrentThread) (g : Z) : CurrentThread :=
  if t_cachedTid c =? 0
  then mkCurrent g (take 31 (print_tid g)) (size (print_tid g)) (t_threadName c)
  else c.

Definition tid (c : CurrentThread) (g : Z) : CurrentThread * Z :=
  let c := if t_cachedTid c =? 0 then cacheTid c g else c in (c, t_cachedTid c).

Definition set_threadName (c : CurrentThread) (n : bytes) : CurrentThread :=
  mkCurrent (t_cachedTid c) (t_tidString c) (t_tidStringLength c) n.

(** ** Thread *)

Record Thread := mkThread {
  started_ : bool;
  joined_ : bool;
  pthreadId_ : Z;
  tid_ : Z;
  name_ : bytes
}.

Definition setDefaultName (n : bytes) : bytes := match n with [] => lit "Thread" | _ => n end.

Definition new_Thread (n : bytes) : Thread := mkThread false false 0 0 (setDefaultName n).

(** [ThreadData::runInThread] in a new thread: what it stores in [tid_], and its
    names while [func_] runs and after it. *)
Definition runInThread (name : bytes) (g : Z) : Z * CurrentThread * CurrentThread :=
  let '(c, v) := tid new_thread_locals g in
  let running := set_threadName c (match name with [] => lit "Thread" | _ => name end) in
  (v, running, set_threadName running (lit "finished")).

(** A call on a [Thread] object; [rc], [id] and [g] are what [pthread_create]
    and, in the new thread, [gettid] return. *)
Inductive thread_call := Start (rc id g : Z) | Join.

Record ledger := mkLedger { created : list Z; released : list Z }.

(** [start]; a failed assertion ends the process. *)
Definition start (t : Thread) (rc id g : Z) : outcome (Thread * list Z) :=
  if started_ t then UB
  else if rc =? 0 then
    let v := (runInThread (name_ t) g).1.1 in
    if 0 <? v then Ret (mkThread true (joined_ t) id v (name_ t), [id]) else UB
  else Ret (mkThread false (joined_ t) (pthreadId_ t) (tid_ t) (name_ t), []).

Definition join (t : Thread) : outcome (Thread * list Z) :=
  if started_ t && negb (joined_ t)
  then Ret (mkThread (started_ t) true (pthreadId_ t) (tid_ t) (name_ t), [pthreadId_ t])
  else UB.

(** [~Thread]: the handles it detaches. *)
Definition destroy_Thread (t : Thread) : list Z :=
  if started_ t && negb (joined_ t) then [pthreadId_ t] else [].

(** The calls, and the destructor after them. *)
Fixpoint thread_life (t : Thread) (l : ledger) (cs : list thread_call) : outcome ledger :=
  match cs with
  | [] => Ret (mkLedger (created l) (released l ++ destroy_Thread t))
  | Start rc id g :: cs' =>
      '(t, ids) ← start t rc id g; thread_life t (mkLedger (created l ++ ids) (released l)) cs'
  | Join :: cs' =>
      '(t, ids) ← join t; thread_life t (mkLedger (created l) (released l ++ ids)) cs'
  end.

(** * Lemmas *)

(** The handles a [Thread] has not released yet. *)
Lemma thread_life_releases cs : forall t l l',
  created l = released l ++ destroy_Thread t -> (joined_ t = true -> started_ t = true) ->
  thread_life t l cs = Ret l' -> released l' = created l'.
Proof.
  induction cs as [|[rc id g|] cs IH]; intros t l l' Hl Hj Hr; cbn [thread_life] in Hr.
  - by injection Hr as <-.
  - apply bind_Ret_inv in Hr as ([t' ids] & Hs & Hr). unfold start in Hs.
    destruct (started_ t) eqn:Es; [done|].
    assert (Hn : joined_ t = false) by (destruct (joined_ t); [specialize (Hj eq_refl); congruence|done]).
    unfold destroy_Thread in Hl. rewrite Es in Hl. cbn in Hl. rewrite app_nil_r in Hl.
    destruct (rc =? 0); [destruct (0 <? _); [|done]|]; injection Hs as <- <-;
      (eapply IH; [| |exact Hr]); cbn; unfold destroy_Thread; cbn; rewrite ?Hn; cbn; rewrite ?app_nil_r; congruence.
  - apply bind_Ret_inv in Hr as ([t' ids] & Hs & Hr). unfold join in Hs.
    destruct (started_ t && negb (joined_ t)) eqn:Es; [|done]. injection Hs as <- <-.
    unfold destroy_Thread in Hl. rewrite Es in Hl. apply andb_prop in Es as [Es _].
    eapply IH; [| |exact Hr]; cbn; [|done]. unfold destroy_Thread. cbn. rewrite andb_false_r, app_nil_r. done.
Qed.

(** * Properties *)

(** Every thread a [Thread] object created is joined or detached exactly once by
    the time the object is destroyed, whatever calls were made, unless an
    assertion failed. *)
Theorem threads_released_once n cs l :
  thread_life (new_Thread n) (mkLedger [] []) cs = Ret l -> released l = created l.
Proof. by apply thread_life_releases. Qed.

Example thread_restarted_after_failure :
  thread_life (new_Thread []) (mkLedger [] []) [Start 11 0 0; Start 0 7 4242; Join] = Ret (mkLedger [7] [7]) /\
  thread_life (new_Thread []) (mkLedger [] []) [Start 0 7 4242] = Ret (mkLedger [7] [7]) /\
  thread_life (new_Thread []) (mkLedger [] []) [Start 0 7 4242; Start 0 8 4243] = UB.
Proof. by split_and!. Qed.

(** The id of a thread is asked for once: later calls return the cached one,
    whatever [gettid] would return. *)
Lemma tid_cached c g g2 : g <> 0 -> let '(c1, v) := tid c g in tid c1 g2 = (c1, v).
Proof.
  intros Hg. unfold tid, cacheTid. destruct (t_cachedTid c =? 0) eqn:E; cbn; [|by rewrite E].
  by rewrite (proj2 (Z.eqb_neq _ _)).
Qed.
