(* ===== verification/ThreadStart.v ===== *)
(** * ThreadStart: Thread, CountDownLatch and EventLoopThread
      (WebServer/base/{Thread,CountDownLatch}.cpp, WebServer/EventLoopThread.cpp)

    Two threads: the starter, which runs [EventLoopThread::startLoop] (and in
    it [Thread::start] and [CountDownLatch::wait]) and later the destructor,
    and the new thread, which runs [ThreadData::runInThread] and in it
    [EventLoopThread::threadFunc].  A critical section is one step; a wait on
    a condition ends by a notification or spuriously, and tests its condition
    again.  What [EventLoop::loop] does before it ends is in EventLoop.v; here
    it ends when [quit_] is set. *)

From S2P Require Export Prelude.

(** Where the starter is: in [Thread::start], in [latch_.wait()], at the
    assertion on the thread id, in the second half of [startLoop], returned
    with the value of [loop_], or in the destructor. *)
Inductive starter_pc :=
  | SStart
  | SLatch
  | SLatchWait (notified : bool)
  | STid
  | SLoop
  | SLoopWait (notified : bool)
  | SRead
  | SReturned (loop : bool)
  | SQuit
  | SJoin
  | SDone.

(** Where the new thread is: not created; at the statements of [runInThread];
    at those of [threadFunc]; finished. *)
Inductive thread_pc :=
  | TNone
  | TTid
  | TCountDown
  | TConstruct
  | TPublish
  | TEnter
  | TLooping
  | TClear
  | TDestroy
  | TFinished.

(** [EventLoopThread] with its [Thread]: [loop_] is whether the pointer is not
    null, [alive] whether the loop it points to exists. *)
Record EventLoopThread := mkThread {
  started_ : bool;
  joined_ : bool;
  tid_ : Z;
  count_ : Z;                  (** of [latch_] *)
  loop_ : bool;
  exiting_ : bool;
  alive : bool;
  quit_ : bool;                (** of the loop *)
  starter : starter_pc;
  thread : thread_pc
}.

Definition new_EventLoopThread : EventLoopThread :=
  mkThread false false 0 1 false false false false SStart TNone.

Section setters.
Context (t : EventLoopThread).
Definition set_starter (s : starter_pc) := mkThread (started_ t) (joined_ t) (tid_ t) (count_ t) (loop_ t)
  (exiting_ t) (alive t) (quit_ t) s (thread t).
Definition set_thread (c : thread_pc) := mkThread (started_ t) (joined_ t) (tid_ t) (count_ t) (loop_ t)
  (exiting_ t) (alive t) (quit_ t) (starter t) c.
End setters.

(** [Thread::start] up to the wait; [rc] is what [pthread_create] returns. A
    failure is not reported to the caller. *)
Definition Thread_start (t : EventLoopThread) (rc : Z) : EventLoopThread :=
  if rc =? 0 then
    mkThread true (joined_ t) (tid_ t) (count_ t) (loop_ t) (exiting_ t) (alive t) (quit_ t) SLatch TTid
  else mkThread false (joined_ t) (tid_ t) (count_ t) (loop_ t) (exiting_ t) (alive t) (quit_ t) SLoop (thread t).

(** [CountDownLatch::wait], with the lock. *)
Definition latch_wait (t : EventLoopThread) : EventLoopThread :=
  if 0 <? count_ t then set_starter t (SLatchWait false) else set_starter t STid.

(** The [while] loop of [startLoop], with the lock. *)
Definition loop_wait (t : EventLoopThread) : EventLoopThread :=
  if loop_ t then set_starter t SRead else set_starter t (SLoopWait false).

(** [notifyAll] of the latch and [notify] of [cond_]. *)
Definition notify_latch (s : starter_pc) : starter_pc :=
  match s with SLatchWait _ => SLatchWait true | _ => s end.
Definition notify_loop (s : starter_pc) : starter_pc :=
  match s with SLoopWait _ => SLoopWait true | _ => s end.

(** [CountDownLatch::countDown]. *)
Definition countDown (t : EventLoopThread) : EventLoopThread :=
  let count := count_ t - 1 in
  mkThread (started_ t) (joined_ t) (tid_ t) count (loop_ t) (exiting_ t) (alive t) (quit_ t)
    (if count =? 0 then notify_latch (starter t) else starter t) TConstruct.

(** [~EventLoopThread] up to the call of [quit]. *)
Definition destructor (t : EventLoopThread) : EventLoopThread :=
  mkThread (started_ t) (joined_ t) (tid_ t) (count_ t) (loop_ t) true (alive t) (quit_ t)
    (if loop_ t then SQuit else SDone) (thread t).

Definition set_quit (t : EventLoopThread) (b : bool) (s : starter_pc) (c : thread_pc) : EventLoopThread :=
  mkThread (started_ t) (joined_ t) (tid_ t) (count_ t) (loop_ t) (exiting_ t) (alive t) b s c.

(** One step of the starter: [spurious] lets a wait end without a
    notification, [rc] is what [pthread_create] returns. [None]: it waits. A
    failed assertion or a use of the destroyed loop is [UB]. *)
Definition starter_step (t : EventLoopThread) (rc : Z) (spurious : bool) : option (outcome EventLoopThread) :=
  match starter t with
  | SStart => Some (if started_ t then UB else Ret (Thread_start t rc))
  | SLatch => Some (Ret (latch_wait t))
  | SLatchWait notified => if notified || spurious then Some (Ret (latch_wait t)) else None
  | STid => Some (if 0 <? tid_ t then Ret (set_starter t SLoop) else UB)
  | SLoop => Some (Ret (loop_wait t))
  | SLoopWait notified => if notified || spurious then Some (Ret (loop_wait t)) else None
  | SRead => Some (Ret (set_starter t (SReturned (loop_ t))))
  | SReturned _ => Some (Ret (destructor t))
  | SQuit => Some (if alive t then Ret (set_quit t true SJoin (thread t)) else UB)
  | SJoin =>
      if negb (started_ t) || joined_ t then Some UB
      else match thread t with
           | TFinished => Some (Ret (mkThread (started_ t) true (tid_ t) (count_ t) (loop_ t) (exiting_ t)
                                       (alive t) (quit_ t) SDone (thread t)))
           | _ => None
           end
  | SDone => None
  end.

(** One step of the new thread; [tid] is what [gettid] returns. *)
Definition thread_step (t : EventLoopThread) (tid : Z) : option EventLoopThread :=
  match thread t with
  | TNone => None
  | TTid => Some (mkThread (started_ t) (joined_ t) tid (count_ t) (loop_ t) (exiting_ t) (alive t) (quit_ t)
                    (starter t) TCountDown)
  | TCountDown => Some (countDown t)
  | TConstruct => Some (mkThread (started_ t) (joined_ t) (tid_ t) (count_ t) (loop_ t) (exiting_ t) true false
                          (starter t) TPublish)
  | TPublish => Some (mkThread (started_ t) (joined_ t) (tid_ t) (count_ t) true (exiting_ t) (alive t) (quit_ t)
                        (notify_loop (starter t)) TEnter)
  | TEnter => Some (set_quit t false (starter t) TLooping)
  | TLooping => if quit_ t then Some (set_thread t TClear) else None
  | TClear => Some (mkThread (started_ t) (joined_ t) (tid_ t) (count_ t) false (exiting_ t) (alive t) (quit_ t)
                      (starter t) TDestroy)
  | TDestroy => Some (mkThread (started_ t) (joined_ t) (tid_ t) (count_ t) (loop_ t) (exiting_ t) false (quit_ t)
                        (starter t) TFinished)
  | TFinished => None
  end.

Inductive action := Starter (rc : Z) (spurious : bool) | NewThread (tid : Z).

Definition step (t : EventLoopThread) (a : action) : option (outcome EventLoopThread) :=
  match a with
  | Starter rc spurious => starter_step t rc spurious
  | NewThread tid => Ret <$> thread_step t tid
  end.

(** A list of actions that can all happen. *)
Fixpoint run_actions (t : EventLoopThread) (l : list action) : option (outcome EventLoopThread) :=
  match l with
  | [] => Some (Ret t)
  | a :: l' =>
      match step t a with
      | Some (Ret t') => run_actions t' l'
      | r => r
      end
  end.

(** * Lemmas *)

(** [gettid] is positive; [pthread_create] succeeds. *)
Definition action_ok (a : action) : Prop :=
  match a with Starter rc _ => rc = 0 | NewThread tid => 0 < tid end.

(** The progress of each thread, as a number. *)
Definition starter_rank (s : starter_pc) : nat :=
  match s with
  | SStart => 13 | SLatch => 12 | SLatchWait false => 11 | SLatchWait true => 10 | STid => 9
  | SLoop => 8 | SLoopWait false => 7 | SLoopWait true => 6 | SRead => 5 | SReturned _ => 4
  | SQuit => 3 | SJoin => 2 | SDone => 1
  end.
Definition thread_rank (c : thread_pc) : nat :=
  match c with
  | TNone => 10 | TTid => 9 | TCountDown => 8 | TConstruct => 7 | TPublish => 6 | TEnter => 5
  | TLooping => 4 | TClear => 3 | TDestroy => 2 | TFinished => 1
  end.

(** The steps that are left, at most. *)
Definition steps_left (t : EventLoopThread) : nat := starter_rank (starter t) + thread_rank (thread t).

(** The invariant, by where the new thread is. *)
Record thread_ok (t : EventLoopThread) : Prop := mkThreadOk {
  to_created : thread t = TNone <-> starter t = SStart;
  to_started : starter t <> SStart -> started_ t = true;
  to_not_started : starter t = SStart -> started_ t = false;
  to_tid : (thread_rank (thread t) <= 8)%nat -> 0 < tid_ t;
  to_count : count_ t = if decide (8 <= thread_rank (thread t))%nat then 1 else 0;
  to_loop : loop_ t = bool_decide (3 <= thread_rank (thread t) <= 5)%nat;
  to_alive : alive t = bool_decide (2 <= thread_rank (thread t) <= 6)%nat;
  to_latched : (starter_rank (starter t) <= 9)%nat -> (thread_rank (thread t) <= 7)%nat;
  to_read : (starter_rank (starter t) <= 5)%nat -> (thread_rank (thread t) <= 5)%nat;
  to_quit : (2 < starter_rank (starter t))%nat -> quit_ t = false /\ (4 <= thread_rank (thread t))%nat;
  to_returned : forall b, starter t = SReturned b -> b = true;
  to_joined : starter t <> SDone -> joined_ t = false;
  to_latch_wait : starter t = SLatchWait false -> (8 <= thread_rank (thread t))%nat;
  to_latch_told : starter t = SLatchWait true -> (thread_rank (thread t) <= 7)%nat;
  to_loop_wait : starter t = SLoopWait false -> (6 <= thread_rank (thread t))%nat;
  to_loop_told : starter t = SLoopWait true -> (thread_rank (thread t) <= 5)%nat;
  to_done : starter t = SDone -> thread t = TFinished /\ joined_ t = true
}.

Lemma new_thread_ok : thread_ok new_EventLoopThread.
Proof. constructor; cbn; try done; try lia. Qed.

(** Replace the fields that the position of the new thread determines. *)
Ltac compute_fields :=
  repeat match goal with
  | H : ?x = bool_decide ?P |- _ =>
      is_var x; let v := eval vm_compute in (bool_decide P) in change (x = v) in H; subst x
  | H : ?x = (if decide ?P then ?a else ?b) |- _ =>
      is_var x; let v := eval vm_compute in (if decide P then a else b) in change (x = v) in H; subst x
  end.

Ltac solve_thread_ok :=
  constructor; cbn -[Z.lt]; intros; try done; try lia; try (split; first [done|lia]); try congruence; auto with lia;
  try (split; [match goal with H : (_ < _)%nat -> _ = false /\ _ |- _ => apply H; lia end|lia]).

Lemma starter_step_ok t rc spurious r :
  thread_ok t -> rc = 0 -> starter_step t rc spurious = Some r -> exists t', r = Ret t' /\ thread_ok t'.
Proof.
  intros Ht -> Hr. destruct t as [st jo ti co lo ex al qu s c]. destruct Ht. cbn -[Z.lt] in *.
  unfold starter_step in Hr. cbn -[Z.lt] in Hr.
  destruct s as [| |[]| | |[]| |b| | |]; destruct c;
    try (exfalso; cbn -[Z.lt] in *; intuition (try lia; try discriminate); fail);
    compute_fields; cbn -[Z.lt Z.ltb] in *.
  all: try (assert (jo = false) as -> by auto).
  all: try (assert (st = true) as -> by (apply to_started0; discriminate)).
  all: try (assert (st = false) as -> by auto).
  all: try (destruct spurious; cbn in Hr; [|discriminate Hr]).
  all: try (rewrite (proj2 (Z.ltb_lt 0 ti)) in Hr by (apply to_tid0; lia)).
  all: try discriminate Hr.
  all: injection Hr as <-.
  all: eexists; split; [reflexivity|].
  all: solve_thread_ok.
Qed.

Lemma thread_step_ok t tid t' :
  thread_ok t -> 0 < tid -> thread_step t tid = Some t' -> thread_ok t'.
Proof.
  intros Ht Htid Hr. destruct t as [st jo ti co lo ex al qu s c]. destruct Ht. cbn -[Z.lt] in *.
  unfold thread_step in Hr. cbn -[Z.lt] in Hr.
  destruct c; destruct s as [| |[]| | |[]| |b| | |];
    try (exfalso; cbn -[Z.lt] in *; intuition (try lia; try discriminate); fail);
    compute_fields; cbn -[Z.lt Z.ltb] in *.
  all: try (assert (qu = false) as -> by (apply to_quit0; lia)).
  all: try discriminate Hr.
  all: try (destruct qu; [|discriminate Hr]).
  all: injection Hr as <-.
  all: unfold countDown; cbn -[Z.lt]; change (1 - 1 =? 0) with true; cbn -[Z.lt]; solve_thread_ok.
Qed.

Lemma start_step_ok t a r :
  thread_ok t -> action_ok a -> step t a = Some r -> exists t', r = Ret t' /\ thread_ok t'.
Proof.
  intros Ht Ha. destruct a as [rc spurious|tid]; cbn [step].
  - by apply starter_step_ok.
  - destruct (thread_step t tid) as [t'|] eqn:E; [|done]. intros [= <-]. exists t'. split; [done|].
    by eapply thread_step_ok.
Qed.

Lemma start_run_ok l : forall t r,
  thread_ok t -> Forall action_ok l -> run_actions t l = Some r -> exists t', r = Ret t' /\ thread_ok t'.
Proof.
  induction l as [|a l IH]; intros t r Ht Hl Hr; cbn in Hr; [injection Hr as <-; by exists t|].
  apply Forall_cons in Hl as [Ha Hl]. destruct (step t a) as [m|] eqn:E; [|done].
  destruct (start_step_ok _ _ _ Ht Ha E) as (t1 & -> & Ht1). by eapply IH.
Qed.

(** ** Progress *)

(** A wait that is not notified ends and starts again. *)
Definition idle (t : EventLoopThread) (a : action) : Prop :=
  match a, starter t with
  | Starter _ _, (SLatchWait false | SLoopWait false) => True
  | _, _ => False
  end.

Lemma step_progress t a t' :
  thread_ok t -> action_ok a -> ~ idle t a -> step t a = Some (Ret t') ->
  (steps_left t' < steps_left t)%nat.
Proof.
  intros Ht Ha Hi Hr. destruct a as [rc spurious|tid]; cbn [step] in Hr.
  - cbn in Ha. subst rc. unfold idle in Hi. unfold steps_left.
    pose proof (to_latch_told _ Ht) as Hlt. pose proof (to_loop_told _ Ht) as Hot.
    pose proof (to_count _ Ht) as Hc. pose proof (to_loop _ Ht) as Hl. pose proof (to_created _ Ht) as Hcr.
    unfold starter_step, latch_wait, loop_wait, destructor in Hr.
    destruct (starter t) as [| |[]| | |[]| |b| | |] eqn:Es; try (by destruct Hi); try done;
      rewrite ?Es in Hr.
    + case_if_in Hr; [done|]. injection Hr as <-. cbn. rewrite (proj2 Hcr) by done. cbn. lia.
    + case_if_in Hr; injection Hr as <-; cbn; lia.
    + cbn [orb] in Hr. rewrite Hc, decide_False in Hr by (specialize (Hlt eq_refl); lia). cbn in Hr.
      injection Hr as <-. cbn. lia.
    + case_if_in Hr; [|done]. injection Hr as <-. cbn. lia.
    + case_if_in Hr; injection Hr as <-; cbn; lia.
    + cbn [orb] in Hr. pose proof (to_quit _ Ht) as Hq. rewrite Es in Hq. cbn in Hq.
      rewrite Hl, bool_decide_true in Hr by (specialize (Hot eq_refl); specialize (Hq ltac:(lia)); lia).
      injection Hr as <-. cbn. lia.
    + injection Hr as <-. cbn. lia.
    + injection Hr as <-. cbn. case_if; cbn; lia.
    + case_if_in Hr; [|done]. injection Hr as <-. cbn. lia.
    + case_if_in Hr; [done|]. destruct (thread t) eqn:Et; try done. injection Hr as <-. cbn. lia.
  - destruct (thread_step t tid) as [t1|] eqn:E; [|done]. injection Hr as <-. clear Hi Ha Ht.
    unfold thread_step, countDown in E. unfold steps_left.
    destruct (thread t) eqn:Et; try done; try (case_if_in E; [|done]); injection E as <-; cbn;
      try (case_if; cbn); destruct (starter t) as [| |[]| | |[]| |b| | |]; cbn; lia.
Qed.

(** The starter is inside [startLoop]. *)
Definition starting (t : EventLoopThread) : Prop := (5 <= starter_rank (starter t))%nat.

Lemma starting_enabled t :
  thread_ok t -> starting t ->
  exists a t', action_ok a /\ ~ idle t a /\ step t a = Some (Ret t').
Proof.
  intros Ht Hs. unfold starting in Hs.
  assert (Hst : forall m, starter_step t 0 false = Some m ->
    match starter t with SLatchWait false | SLoopWait false => False | _ => True end ->
    exists a t', action_ok a /\ ~ idle t a /\ step t a = Some (Ret t')).
  { intros m Hm Hi. destruct (starter_step_ok t 0 false m Ht eq_refl Hm) as (t' & -> & _).
    exists (Starter 0 false), t'. split; [done|]. split; [|done]. unfold idle.
    by destruct (starter t) as [| |[]| | |[]| |b| | |]; intros H; destruct H. }
  assert (Htt : thread t <> TNone -> (5 < thread_rank (thread t))%nat ->
    exists a t', action_ok a /\ ~ idle t a /\ step t a = Some (Ret t')).
  { intros Hn Hk. exists (NewThread 1). unfold step, thread_step, idle.
    destruct (thread t); cbn in Hk; try lia; try done;
      (eexists; split; [cbn; lia|split; [intros []|reflexivity]]). }
  pose proof (to_latch_wait _ Ht) as Hlw. pose proof (to_loop_wait _ Ht) as How.
  pose proof (to_created _ Ht) as Hcr. unfold starter_step in Hst.
  destruct (starter t) as [| |[]| | |[]| |b| | |] eqn:Es; cbn in Hs; try lia;
    try (by (eapply Hst; [reflexivity|exact I])).
  - apply Htt; [intros Hn; discriminate (proj1 Hcr Hn)|]. specialize (Hlw eq_refl). lia.
  - apply Htt; [intros Hn; discriminate (proj1 Hcr Hn)|]. specialize (How eq_refl). lia.
Qed.

(** ** The destructor of a running thread *)

Record ending (t : EventLoopThread) : Prop := mkEnding {
  en_ok : thread_ok t;
  en_starter : (starter_rank (starter t) <= 4)%nat;
  en_thread : (thread_rank (thread t) <= 4)%nat;
  en_quit : starter t = SJoin -> thread t = TLooping -> quit_ t = true
}.

Lemma ending_step t a t' : ending t -> action_ok a -> step t a = Some (Ret t') -> ending t'.
Proof.
  intros [Ht Hs Hc Hq] Ha Hr. destruct (start_step_ok t a _ Ht Ha Hr) as (t1 & [= <-] & Ht').
  pose proof (to_quit _ Ht) as Hqf. destruct a as [rc spurious|tid]; cbn [step] in Hr.
  - unfold starter_step, destructor in Hr.
    destruct (starter t) as [| |[]| | |[]| |b| | |] eqn:Es; cbn in Hs; try lia; try done;
      repeat (case_if_in Hr; try done); try (destruct (thread t) eqn:Et; try done);
      injection Hr as <-; constructor; cbn in *; try done; try lia.
  - destruct (thread_step t tid) as [t1|] eqn:E; [|done]. injection Hr as <-. unfold thread_step in E.
    destruct (thread t) eqn:Et; cbn in Hc; try lia; try done; try (case_if_in E; [|done]);
      injection E as <-; constructor; cbn in *; try done; try lia.
Qed.

Lemma ending_not_idle t a : ending t -> ~ idle t a.
Proof. intros [_ Hs _ _]. unfold idle. by destruct a, (starter t) as [| |[]| | |[]| |b| | |]; cbn in Hs; try lia. Qed.

Lemma ending_enabled t :
  ending t -> starter t <> SDone -> exists a t', action_ok a /\ step t a = Some (Ret t').
Proof.
  intros [Ht Hs Hc Hq] Hd.
  assert (Hst : forall m, starter_step t 0 false = Some m ->
    exists a t', action_ok a /\ step t a = Some (Ret t')).
  { intros m Hm. destruct (starter_step_ok t 0 false m Ht eq_refl Hm) as (t' & -> & _).
    by exists (Starter 0 false), t'. }
  unfold starter_step in Hst.
  destruct (starter t) as [| |[]| | |[]| |b| | |] eqn:Es; cbn in Hs; try lia; try done;
    try (eapply Hst; reflexivity).
  destruct (thread t) eqn:Et; cbn in Hc; try lia.
  - exists (NewThread 1). eexists. split; [cbn; lia|]. cbn. unfold thread_step. by rewrite Et, (Hq eq_refl eq_refl).
  - exists (NewThread 1). eexists. split; [cbn; lia|]. cbn. unfold thread_step. by rewrite Et.
  - exists (NewThread 1). eexists. split; [cbn; lia|]. cbn. unfold thread_step. by rewrite Et.
  - revert Hst. case_if; intros Hst; by eapply Hst.
Qed.

Lemma ending_run l : forall t t',
  ending t -> Forall action_ok l -> run_actions t l = Some (Ret t') ->
  ending t' /\ (length l + steps_left t' <= steps_left t)%nat.
Proof.
  induction l as [|a l IH]; intros t t' Ht Hl Hr; cbn in Hr; [injection Hr as <-; cbn; auto|].
  apply Forall_cons in Hl as [Ha Hl]. destruct (step t a) as [[t1| | |]|] eqn:E; try done.
  pose proof (step_progress t a t1 (en_ok _ Ht) Ha (ending_not_idle t a Ht) E).
  destruct (IH t1 t') as [? Hle]; [by eapply ending_step|done|done|]. split; [done|]. cbn. lia.
Qed.

(** * Properties *)

(** C23: [startLoop] returns a loop that exists. In every interleaving, with
    spurious wakeups, no assertion fails and no destroyed loop is used; when
    [startLoop] has returned, the pointer it returned is not null, its loop
    exists, its thread has published it and not left it, and its id is known. *)
Theorem startLoop_returns_loop acts r :
  Forall action_ok acts -> run_actions new_EventLoopThread acts = Some r ->
  exists t, r = Ret t /\ forall b, starter t = SReturned b ->
    b = true /\ loop_ t = true /\ alive t = true /\ 0 < tid_ t /\ (thread t = TEnter \/ thread t = TLooping).
Proof.
  intros Ha Hr. destruct (start_run_ok _ _ _ new_thread_ok Ha Hr) as (t & -> & Ht).
  exists t. split; [done|]. intros b Hb.
  pose proof (to_read _ Ht) as H1. pose proof (to_quit _ Ht) as H2. rewrite Hb in H1, H2. cbn in H1, H2.
  specialize (H1 ltac:(lia)). destruct (H2 ltac:(lia)) as [_ H3].
  rewrite (to_loop _ Ht), (to_alive _ Ht), !bool_decide_true by lia.
  split_and!; [by apply (to_returned _ Ht)|done|done|apply (to_tid _ Ht); lia|].
  destruct (thread t); cbn in *; try lia; auto.
Qed.

(** The new thread runs first; both waits are spuriously ended once. *)
Definition start_actions : list action :=
  [Starter 0 false; Starter 0 false; Starter 0 true; NewThread 4321; NewThread 4321; Starter 0 false;
   Starter 0 false; Starter 0 false; NewThread 4321; Starter 0 true; NewThread 4321; Starter 0 false;
   Starter 0 false].

Definition action_ok_b (a : action) : bool :=
  match a with Starter rc _ => rc =? 0 | NewThread tid => 0 <? tid end.

Lemma actions_ok_compute l : forallb action_ok_b l = true -> Forall action_ok l.
Proof.
  intros H. apply Forall_forall. intros a Ha. rewrite forallb_forall in H.
  specialize (H a ltac:(by apply list_elem_of_In)). destruct a; cbn in *; by zbool.
Qed.

Lemma startLoop_returns_loop_witness :
  exists t, run_actions new_EventLoopThread start_actions = Some (Ret t) /\ starter t = SReturned true /\
  exists t', Ret t = Ret t' /\ forall b, starter t' = SReturned b ->
    b = true /\ loop_ t' = true /\ alive t' = true /\ 0 < tid_ t' /\ (thread t' = TEnter \/ thread t' = TLooping).
Proof.
  eexists. split; [vm_compute; reflexivity|]. split; [vm_compute; reflexivity|].
  apply (startLoop_returns_loop start_actions); [by apply actions_ok_compute|vm_compute; reflexivity].
Defined.

(** [startLoop] returns. While it has not returned, in every reachable state
    a step other than a spurious wakeup is possible, and every such step brings
    both threads closer to the end: there are at most 23 of them. *)
Theorem startLoop_terminates acts t :
  Forall action_ok acts -> run_actions new_EventLoopThread acts = Some (Ret t) -> starting t ->
  (exists a t', action_ok a /\ ~ idle t a /\ step t a = Some (Ret t')) /\
  (forall a t', action_ok a -> ~ idle t a -> step t a = Some (Ret t') -> (steps_left t' < steps_left t <= 23)%nat).
Proof.
  intros Ha Hr Hs. destruct (start_run_ok _ _ _ new_thread_ok Ha Hr) as (t' & [= <-] & Ht).
  split; [by apply starting_enabled|]. intros a t' Hok Hi Hst. split; [by eapply step_progress|].
  unfold steps_left. destruct (starter t) as [| |[]| | |[]| |b| | |], (thread t); cbn; lia.
Qed.

Lemma startLoop_terminates_witness :
  exists t, run_actions new_EventLoopThread (take 3 start_actions) = Some (Ret t) /\
  (exists a t', action_ok a /\ ~ idle t a /\ step t a = Some (Ret t')) /\
  (forall a t', action_ok a -> ~ idle t a -> step t a = Some (Ret t') -> (steps_left t' < steps_left t <= 23)%nat).
Proof.
  eexists. split; [vm_compute; reflexivity|]. apply (startLoop_terminates (take 3 start_actions));
    [by apply actions_ok_compute|vm_compute; reflexivity|unfold starting; cbn; lia].
Defined.

(** The destructor of a thread whose loop is running ends. From a state in
    which [startLoop] has returned and [loop()] has begun, every run of the two
    threads has at most 8 steps, some step is possible until the destructor has
    returned, and it has then joined a thread that is finished. *)
Theorem destructor_joins acts t acts' t' :
  Forall action_ok acts -> run_actions new_EventLoopThread acts = Some (Ret t) ->
  starter t = SReturned true -> thread t = TLooping ->
  Forall action_ok acts' -> run_actions t acts' = Some (Ret t') ->
  (length acts' <= 8)%nat /\
  (starter t' <> SDone -> exists a t'', action_ok a /\ step t' a = Some (Ret t'')) /\
  (starter t' = SDone -> thread t' = TFinished /\ joined_ t' = true).
Proof.
  intros Ha Hr Hs Hc Ha' Hr'. destruct (start_run_ok _ _ _ new_thread_ok Ha Hr) as (t1 & [= <-] & Ht).
  assert (He : ending t) by (constructor; [done|by rewrite Hs; cbn; lia|by rewrite Hc; cbn; lia|congruence]).
  destruct (ending_run _ _ _ He Ha' Hr') as [He' Hl]. split_and!.
  - unfold steps_left in Hl. rewrite Hs, Hc in Hl. cbn in Hl. lia.
  - by apply ending_enabled.
  - apply (to_done _ (en_ok _ He')).
Qed.

Lemma destructor_joins_witness :
  exists t t', run_actions new_EventLoopThread (start_actions ++ [NewThread 4321]) = Some (Ret t) /\
  run_actions t [Starter 0 false; Starter 0 false; NewThread 4321; NewThread 4321] = Some (Ret t') /\
  (4 <= 8)%nat /\
  (starter t' <> SDone -> exists a t'', action_ok a /\ step t' a = Some (Ret t'')) /\
  (starter t' = SDone -> thread t' = TFinished /\ joined_ t' = true).
Proof.
  eexists _, _. split; [vm_compute; reflexivity|]. split; [vm_compute; reflexivity|].
  eapply (destructor_joins (start_actions ++ [NewThread 4321]) _
           [Starter 0 false; Starter 0 false; NewThread 4321; NewThread 4321]);
    [by apply actions_ok_compute|vm_compute; reflexivity|vm_compute; reflexivity|vm_compute; reflexivity|by apply actions_ok_compute|vm_compute; reflexivity].
Defined.

(** A [pthread_create] that fails is not reported: [startLoop] then waits for
    ever. *)
Theorem failed_create_hangs rc spurious acts r :
  rc <> 0 -> run_actions new_EventLoopThread (Starter rc spurious :: acts) = Some r ->
  exists t, r = Ret t /\ (starter t = SLoop \/ starter t = SLoopWait false).
Proof.
  intros Hrc. cbn. unfold Thread_start. rewrite (proj2 (Z.eqb_neq _ _) Hrc).
  set (P := fun t : EventLoopThread => thread t = TNone /\ loop_ t = false /\
    (starter t = SLoop \/ starter t = SLoopWait false)).
  assert (H : forall acts t, P t -> run_actions t acts = Some r -> exists t', r = Ret t' /\ P t').
  { clear. induction acts as [|a acts IH]; intros t Ht Hr; cbn in Hr; [injection Hr as <-; by exists t|].
    destruct (step t a) as [m|] eqn:E; [|done].
    assert (exists t', m = Ret t' /\ P t') as (t' & -> & Ht').
    { destruct Ht as (H1 & H2 & H3). destruct a as [rc sp|tid]; cbn [step] in E.
      - unfold starter_step, loop_wait in E. rewrite H2 in E.
        destruct H3 as [H3|H3]; rewrite H3 in E; [|destruct sp; [|done]]; cbn in E; injection E as <-;
          (eexists; split; [done|]); split_and!; cbn; auto.
      - unfold thread_step in E. by rewrite H1 in E. }
    by eapply IH. }
  intros Hr. destruct (fun Hp => H acts _ Hp Hr) as (t & -> & _ & _ & ?); [|by exists t].
  split_and!; [done|done|by left].
Qed.

(** A destructor that comes before the new thread has entered [loop()] waits
    for ever: [loop()] resets [quit_]. *)
Theorem early_destructor_hangs t acts r :
  starter t = SJoin -> started_ t = true -> joined_ t = false -> thread t = TEnter ->
  run_actions t acts = Some r ->
  exists t', r = Ret t' /\ starter t' = SJoin.
Proof.
  intros Hs Hst Hj Hc Hr.
  set (P := fun t : EventLoopThread => starter t = SJoin /\ started_ t = true /\ joined_ t = false /\
    (thread t = TEnter \/ thread t = TLooping /\ quit_ t = false)).
  assert (H : forall acts t, P t -> run_actions t acts = Some r -> exists t', r = Ret t' /\ P t').
  { clear. induction acts as [|a acts IH]; intros t Ht Hr; cbn in Hr; [injection Hr as <-; by exists t|].
    destruct (step t a) as [m|] eqn:E; [|done].
    assert (exists t', m = Ret t' /\ P t') as (t' & -> & Ht').
    { destruct Ht as (H1 & H2 & H3 & H4). destruct a as [rc sp|tid]; cbn [step] in E.
      - unfold starter_step in E. rewrite H1, H2, H3 in E. cbn in E.
        destruct H4 as [H4|[H4 _]]; by rewrite H4 in E.
      - unfold thread_step in E. destruct H4 as [H4|[H4 H5]]; rewrite H4 in E; [|by rewrite H5 in E].
        injection E as <-. eexists. split; [done|]. split_and!; cbn; auto. }
    by eapply IH. }
  destruct (H acts t ltac:(split_and!; auto) Hr) as (t' & -> & ? & _). by exists t'.
Qed.
