(* ===== verification/Lifecycle.v ===== *)
(** * Lifecycle: start, stop and wait of coroutineWebServer/HttpServer.cpp

    The thread that owns the server calls [start], [stop] and [wait]; every
    scheduler has a thread inside [UringScheduler::run].  A call is one step:
    while it runs, the threads only read and write the flag of their own
    scheduler.  What a thread does between entering and leaving [run] is in
    Uring.v; here it is only where it reads and writes the flag. *)

From S2P Require Export Prelude.

(** Where the thread of a scheduler is: created but not yet in [run] (which
    sets the flag), in the loop of [run], or past the end of [run]. *)
Inductive run_pc := Entering | Looping | Returned.

#[export] Instance run_pc_eq_dec : EqDecision run_pc.
Proof. solve_decision. Defined.

Inductive message := MsgStarting | MsgStopping.

(** [acceptor_] and [workers_]: the flag [running_] of each scheduler;
    [accept_loops]: the coroutines enqueued on the acceptor; [threads_] and
    [accept_thread_]: the joinable threads, with the worker each one runs. *)
Record server := mkServer {
  running_ : bool;
  acceptor_ : option bool;
  accept_loops : nat;
  workers_ : list bool;
  threads_ : list (nat * run_pc);
  accept_thread_ : option run_pc;
  messages : list message
}.

Definition new_server : server := mkServer false None 0 [] [] None [].

(** What a call does: it returns, throws, ends the process by
    [std::terminate], is undefined, or does not return yet. *)
Inductive call_result :=
  | Done (s : server)
  | Threw (e : exn) (s : server)
  | Terminates
  | Undefined
  | Blocked.

(** The loop that creates the workers, on the results of
    [io_uring_queue_init]. *)
Fixpoint create_workers (workers : list bool) (rcs : list Z) : list bool * option exn :=
  match rcs with
  | [] => (workers, None)
  | rc :: rcs' =>
      if rc <? 0 then (workers, Some (system_error (- rc)))
      else create_workers (workers ++ [false]) rcs'
  end.

Definition in_run (t : option run_pc) : bool :=
  match t with Some Entering | Some Looping => true | _ => false end.

(** [start]; [rc] and [rcs] are the results of [io_uring_queue_init] for the
    acceptor and the [worker_count] workers.  The acceptor of an earlier start
    is destroyed; a thread object that is joinable cannot be assigned to. *)
Definition start (rc : Z) (rcs : list Z) (s : server) : call_result :=
  if running_ s then Done s
  else
    let log := messages s ++ [MsgStarting] in
    if rc <? 0 then
      Threw (system_error (- rc))
        (mkServer true (acceptor_ s) (accept_loops s) (workers_ s) (threads_ s) (accept_thread_ s) log)
    else if in_run (accept_thread_ s) then Undefined
    else
      match create_workers (workers_ s) rcs with
      | (workers, Some e) =>
          Threw e (mkServer true (Some false) 0 workers (threads_ s) (accept_thread_ s) log)
      | (workers, None) =>
          let threads := threads_ s ++ imap (fun i _ => (i, Entering)) workers in
          if bool_decide (is_Some (accept_thread_ s)) then Terminates
          else Done (mkServer true (Some false) 1 workers threads (Some Entering) log)
      end.

(** [stop]: [UringScheduler::stop] clears the flag of each scheduler. *)
Definition stop (s : server) : server :=
  if negb (running_ s) then s
  else mkServer false ((fun _ => false) <$> acceptor_ s) (accept_loops s) ((fun _ => false) <$> workers_ s)
         (threads_ s) (accept_thread_ s) (messages s ++ [MsgStopping]).

Definition returned (t : nat * run_pc) : bool := bool_decide (t.2 = Returned).

(** [wait]: the joins of the joinable threads. *)
Definition wait (s : server) : call_result :=
  if negb (in_run (accept_thread_ s)) && forallb returned (threads_ s) then
    Done (mkServer (running_ s) (acceptor_ s) (accept_loops s) (workers_ s) [] None (messages s))
  else Blocked.

(** The destructor: [stop], then [wait]. *)
Definition destroy (s : server) : call_result := wait (stop s).

Definition set_worker (s : server) (k i : nat) (pc : run_pc) (flag : bool) : server :=
  mkServer (running_ s) (acceptor_ s) (accept_loops s) (<[i := flag]> (workers_ s))
    (<[k := (i, pc)]> (threads_ s)) (accept_thread_ s) (messages s).

Definition set_acceptor (s : server) (pc : run_pc) (flag : bool) : server :=
  mkServer (running_ s) (Some flag) (accept_loops s) (workers_ s) (threads_ s) (Some pc) (messages s).

(** [run] of the [k]-th worker thread and of the accept thread: entering sets
    the flag, a loaded flag that is clear ends it. *)
Definition worker_thread (s : server) (k : nat) : call_result :=
  match threads_ s !! k with
  | Some (i, Entering) => Done (set_worker s k i Looping true)
  | Some (i, Looping) =>
      match workers_ s !! i with
      | Some false => Done (set_worker s k i Returned false)
      | _ => Blocked
      end
  | _ => Blocked
  end.

Definition acceptor_thread (s : server) : call_result :=
  match accept_thread_ s with
  | Some Entering => Done (set_acceptor s Looping true)
  | Some Looping =>
      match acceptor_ s with
      | Some false => Done (set_acceptor s Returned false)
      | _ => Blocked
      end
  | _ => Blocked
  end.

Inductive event :=
  | Start (rc : Z) (rcs : list Z)
  | Stop
  | Wait
  | WorkerThread (k : nat)
  | AcceptorThread.

Definition step (s : server) (e : event) : call_result :=
  match e with
  | Start rc rcs => start rc rcs s
  | Stop => Done (stop s)
  | Wait => wait s
  | WorkerThread k => worker_thread s k
  | AcceptorThread => acceptor_thread s
  end.

(** The state after events that all happened; a call that threw has returned
    to its caller. *)
Fixpoint run_events (s : server) (l : list event) : option server :=
  match l with
  | [] => Some s
  | e :: l' =>
      match step s e with
      | Done s' | Threw _ s' => run_events s' l'
      | _ => None
      end
  end.

(** * Lemmas *)

(** The use [CoroutineMain.cpp] makes of the server: a server that was stopped
    is waited for before it is started again. *)
Definition joined (s : server) : Prop := threads_ s = [] /\ accept_thread_ s = None.

Definition may_happen (s : server) (e : event) : Prop :=
  match e with Start _ _ => running_ s = true \/ joined s | _ => True end.

Inductive used : server -> Prop :=
  | used_new : used new_server
  | used_done s e s' : used s -> may_happen s e -> step s e = Done s' -> used s'
  | used_threw s e x s' : used s -> may_happen s e -> step s e = Threw x s' -> used s'.

(** Each scheduler is run by at most one thread, which finds it alive. *)
Record server_ok (s : server) : Prop := mkServerOk {
  so_nodup : NoDup (threads_ s).*1;
  so_range : forall i pc, (i, pc) ∈ threads_ s -> (i < length (workers_ s))%nat;
  so_acceptor : is_Some (accept_thread_ s) -> is_Some (acceptor_ s) /\ accept_loops s = 1%nat
}.

Lemma create_workers_length rcs : forall w w' e,
  create_workers w rcs = (w', e) -> (length w <= length w')%nat.
Proof.
  induction rcs as [|rc rcs IH]; intros w w' e; cbn; [by intros [= <- _]|].
  case_if; [by intros [= <- _]|]. intros H%IH. rewrite length_app in H. cbn in H. lia.
Qed.

Lemma imap_index_fst (l : list bool) : (imap (fun i _ => (i, Entering)) l).*1 = seq 0 (length l).
Proof.
  rewrite fmap_imap. apply list_eq. intros i. rewrite list_lookup_imap.
  destruct (decide (i < length l)%nat) as [Hi|Hi].
  - destruct (lookup_lt_is_Some_2 l i Hi) as [b ->]. cbn. by rewrite lookup_seq_lt.
  - rewrite lookup_ge_None_2 by lia. cbn. symmetry. apply lookup_seq_ge. lia.
Qed.

Lemma imap_index_elem (l : list bool) i pc :
  (i, pc) ∈ imap (fun i _ => (i, Entering)) l -> (i < length l)%nat.
Proof.
  intros (j & Hj)%list_elem_of_lookup. rewrite list_lookup_imap in Hj.
  destruct (l !! j) eqn:E; [|done]. cbn in Hj. injection Hj as <- _. by eapply lookup_lt_Some.
Qed.

Lemma start_ok rc rcs s :
  server_ok s -> running_ s = true \/ joined s ->
  match start rc rcs s with
  | Done s' | Threw _ s' => server_ok s'
  | _ => False
  end.
Proof.
  intros Hs Hj. unfold start. destruct (running_ s) eqn:Er; [done|].
  destruct Hj as [[=]|[Ht Ha]]. destruct Hs as [Hn Hr Hc]. rewrite Ht, Ha in *. cbn [in_run].
  case_if; [by constructor|]. destruct (create_workers (workers_ s) rcs) as [w [e|]] eqn:Ew; cbn.
  - constructor; cbn; [done|by intros i pc ?%not_elem_of_nil|by intros [? ?]].
  - constructor; cbn.
    + rewrite imap_index_fst. apply NoDup_seq.
    + apply imap_index_elem.
    + intros _. by split; [eexists|].
Qed.

Lemma set_worker_ok s k i pc pc' flag :
  server_ok s -> threads_ s !! k = Some (i, pc') -> server_ok (set_worker s k i pc flag).
Proof.
  intros [Hn Hr Hc] Hk. constructor; cbn; [| |done].
  - rewrite list_fmap_insert. cbn. rewrite list_insert_id; [done|]. by rewrite list_lookup_fmap, Hk.
  - intros j pc1. rewrite length_insert. intros (k1 & Hk1)%list_elem_of_lookup.
    destruct (decide (k = k1)) as [<-|Hne].
    + assert (k < length (threads_ s))%nat by (by eapply lookup_lt_Some).
      rewrite list_lookup_insert_eq in Hk1 by done. injection Hk1 as <- <-.
      apply (Hr i pc'). by eapply list_elem_of_lookup_2.
    + rewrite list_lookup_insert_ne in Hk1 by done. apply (Hr j pc1). by eapply list_elem_of_lookup_2.
Qed.

Lemma lifecycle_step_ok s e :
  server_ok s -> may_happen s e ->
  match step s e with
  | Done s' | Threw _ s' => server_ok s'
  | Terminates | Undefined => False
  | Blocked => True
  end.
Proof.
  intros Hs He. destruct e as [rc rcs| | |k|]; cbn [step].
  - pose proof (start_ok rc rcs s Hs He). by destruct (start rc rcs s).
  - unfold stop. case_if; [done|]. destruct Hs as [Hn Hr Hc]. constructor; cbn; [done| |].
    + intros. rewrite length_fmap. by eapply Hr.
    + intros [[b ->] ?]%Hc. split; [by eexists|done].
  - unfold wait. case_if; [|done]. constructor; cbn;
      [apply NoDup_nil_2|by intros ? ? ?%not_elem_of_nil|by intros [? ?]].
  - unfold worker_thread. destruct (threads_ s !! k) as [[i []]|] eqn:Ek; try done.
    + by eapply set_worker_ok.
    + destruct (workers_ s !! i) as [[]|]; try done. by eapply set_worker_ok.
  - unfold acceptor_thread. destruct Hs as [Hn Hr Hc].
    assert (Ha : forall pc flag, is_Some (accept_thread_ s) -> server_ok (set_acceptor s pc flag))
      by (intros pc flag [_ ?]%Hc; constructor; cbn; [done|done|by split; [eexists|]]).
    destruct (accept_thread_ s) as [[]|]; try done; [apply Ha; by eexists|].
    destruct (acceptor_ s) as [[]|]; try done. apply Ha. by eexists.
Qed.

Lemma used_ok s : used s -> server_ok s.
Proof.
  induction 1 as [|s e s' _ Hs He Hstep|s e x s' _ Hs He Hstep].
  - constructor; cbn; [apply NoDup_nil_2|by intros ? ? ?%not_elem_of_nil|by intros [? ?]].
  - pose proof (lifecycle_step_ok s e Hs He) as H. by rewrite Hstep in H.
  - pose proof (lifecycle_step_ok s e Hs He) as H. by rewrite Hstep in H.
Qed.

(** ** Shutting down *)

Definition thread_event (e : event) : Prop :=
  match e with WorkerThread _ | AcceptorThread => True | _ => False end.

(** The threads that have not left [run]. *)
Definition active (s : server) : nat :=
  length (filter (fun t => t.2 <> Returned) (threads_ s)) + (if in_run (accept_thread_ s) then 1 else 0).

(** Every thread has entered [run]. *)
Definition entered (s : server) : Prop :=
  Forall (fun t => t.2 <> Entering) (threads_ s) /\ accept_thread_ s <> Some Entering.

(** A server that was stopped after that. *)
Record stopping (s : server) : Prop := mkStopping {
  sp_ok : server_ok s;
  sp_entered : entered s;
  sp_workers : Forall (fun b => b = false) (workers_ s);
  sp_acceptor : acceptor_ s <> Some true
}.

Lemma stop_stopping s : server_ok s -> running_ s = true -> entered s -> stopping (stop s).
Proof.
  intros Hs Hr [He Ha]. pose proof (lifecycle_step_ok s Stop Hs I) as Hok. cbn in Hok.
  unfold stop in *. rewrite Hr in *. cbn in *. constructor; cbn; [done|done| |].
  - apply Forall_fmap, Forall_true. done.
  - by destruct (acceptor_ s).
Qed.

Lemma active_insert (l : list (nat * run_pc)) k i pc :
  l !! k = Some (i, pc) -> pc <> Returned ->
  S (length (filter (fun t => t.2 <> Returned) (<[k := (i, Returned)]> l)))
  = length (filter (fun t => t.2 <> Returned) l).
Proof.
  revert k; induction l as [|t l IH]; intros [|k] Hk Hpc; try done; cbn in Hk.
  - injection Hk as ->. change (<[O := ?x]> (?t :: ?l)) with (x :: l). rewrite !filter_cons. by rewrite decide_False, decide_True by (cbn; auto).
  - change (<[S k := ?x]> (t :: l)) with (t :: <[k := x]> l). rewrite !filter_cons.
    case_decide; cbn [length]; rewrite (IH k) by done; done.
Qed.

(** Once it has entered [run], a thread can only leave it. *)
Lemma entered_step s e s' :
  server_ok s -> entered s -> thread_event e -> step s e = Done s' ->
  server_ok s' /\ entered s' /\ running_ s' = running_ s /\ S (active s') = active s.
Proof.
  intros Hs [Hen Hea] He Hstep. pose proof (lifecycle_step_ok s e Hs) as Hok. rewrite Hstep in Hok.
  specialize (Hok ltac:(by destruct e)). split; [done|]. clear Hok.
  destruct e as [| | |k|]; try done; cbn [step] in Hstep.
  - unfold worker_thread in Hstep. destruct (threads_ s !! k) as [[i pc]|] eqn:Ek; [|done].
    pose proof (Forall_lookup_1 _ _ _ _ Hen Ek) as Hne. cbn in Hne. destruct pc; try done.
    destruct (workers_ s !! i) as [[]|]; try done. injection Hstep as <-.
    split_and!; [split; cbn; [by apply Forall_insert|done]|done|].
    unfold active. cbn. by rewrite <- (active_insert _ _ _ _ Ek).
  - unfold acceptor_thread in Hstep. destruct (accept_thread_ s) as [[]|] eqn:Ea; try done.
    destruct (acceptor_ s) as [[]|]; try done. injection Hstep as <-.
    split_and!; [by split|done|]. unfold active. cbn. rewrite Ea. cbn. lia.
Qed.

Lemma stopping_step s e s' :
  stopping s -> thread_event e -> step s e = Done s' -> stopping s' /\ S (active s') = active s.
Proof.
  intros [Hok Hent Hw Hac] He Hstep.
  destruct (entered_step s e s' Hok Hent He Hstep) as (Hok' & Hent' & _ & Ha). split; [|done].
  destruct Hent as [Hen Hea]. constructor; [done|done| |]; destruct e as [| | |k|]; try done; cbn [step] in Hstep;
    unfold worker_thread, acceptor_thread in Hstep; repeat case_match; try done; injection Hstep as <-; cbn;
    try done; try (by apply Forall_insert);
    match goal with H : threads_ s !! k = Some _ |- _ => by destruct (Forall_lookup_1 _ _ _ _ Hen H) end.
Qed.

Lemma stopping_run evs : forall s s',
  stopping s -> Forall thread_event evs -> run_events s evs = Some s' ->
  stopping s' /\ (length evs + active s' = active s)%nat.
Proof.
  induction evs as [|e evs IH]; intros s s' Hst Hev Hr; cbn in Hr; [by injection Hr as <-|].
  apply Forall_cons in Hev as [He Hev].
  destruct (step s e) as [s1|x s1| | |] eqn:Es; try done.
  - destruct (stopping_step _ _ _ Hst He Es) as [Hst1 Ha].
    destruct (IH _ _ Hst1 Hev Hr) as [? Hl]. split; [done|]. cbn. lia.
  - exfalso. clear -He Es. destruct e; try done; cbn in Es; unfold worker_thread, acceptor_thread in Es;
      by repeat case_match.
Qed.

Lemma forallb_returned l : filter (fun t => t.2 <> Returned) l = [] -> forallb returned l = true.
Proof.
  induction l as [|[i pc] l IH]; [done|]. rewrite filter_cons. case_decide as Hd; [done|].
  intros H. cbn. rewrite (IH H), andb_true_r. unfold returned. apply bool_decide_true.
  by destruct pc; [destruct Hd|destruct Hd|].
Qed.

Lemma active_zero_wait s : active s = O -> exists s', wait s = Done s' /\ joined s'.
Proof.
  unfold active. intros H. unfold wait. destruct (in_run (accept_thread_ s)); [lia|].
  rewrite forallb_returned by (apply length_zero_iff_nil; lia). by eexists.
Qed.

Lemma active_enabled s :
  stopping s -> active s <> O -> exists e s', thread_event e /\ step s e = Done s'.
Proof.
  intros [[_ Hrange Hacc] [Hen Hea] Hw Hac] Hne. unfold active in Hne.
  destruct (accept_thread_ s) as [[]|] eqn:Ea; try done.
  { destruct (Hacc ltac:(by eexists)) as [[b Hb] _]. destruct b; [done|].
    exists AcceptorThread, (set_acceptor s Returned false). split; [done|]. cbn. unfold acceptor_thread.
    by rewrite Ea, Hb. }
  all: cbn in Hne; rewrite Nat.add_0_r in Hne;
    destruct (filter (fun t => t.2 <> Returned) (threads_ s)) as [|[i pc] l] eqn:Ef; [done|];
    assert (Hin : (i, pc) ∈ filter (fun t => t.2 <> Returned) (threads_ s)) by (rewrite Ef; left);
    apply list_elem_of_filter in Hin as [Hpc Hin]; cbn in Hpc;
    apply list_elem_of_lookup in Hin as [k Hk];
    pose proof (Forall_lookup_1 _ _ _ _ Hen Hk) as Hne'; cbn in Hne';
    (destruct pc; [done| |done]);
    destruct (lookup_lt_is_Some_2 (workers_ s) i) as [b Hb];
      [apply (Hrange i Looping); by eapply list_elem_of_lookup_2|];
    pose proof (Forall_lookup_1 _ _ _ _ Hw Hb) as Hf; cbn in Hf; subst b;
    exists (WorkerThread k), (set_worker s k i Returned false); (split; [done|]);
    cbn; unfold worker_thread; by rewrite Hk, Hb.
Qed.

(** ** A stop that comes too early *)

(** The [k]-th worker thread is in its loop and its flag is set, while the
    server counts as stopped. *)
Record stuck (s : server) (k i : nat) : Prop := mkStuck {
  sk_running : running_ s = false;
  sk_thread : threads_ s !! k = Some (i, Looping);
  sk_flag : workers_ s !! i = Some true;
  sk_ok : server_ok s
}.

Definition is_start (e : event) : Prop := match e with Start _ _ => True | _ => False end.

Lemma stuck_wait s k i : stuck s k i -> wait s = Blocked.
Proof.
  intros [_ Hk _ _]. unfold wait. destruct (forallb returned (threads_ s)) eqn:E; [|by rewrite andb_false_r].
  rewrite forallb_forall in E. specialize (E _ ltac:(apply list_elem_of_In; by eapply list_elem_of_lookup_2)).
  by apply bool_decide_eq_true in E.
Qed.

Lemma nodup_fst (l : list (nat * run_pc)) k1 k2 i pc1 pc2 :
  NoDup l.*1 -> l !! k1 = Some (i, pc1) -> l !! k2 = Some (i, pc2) -> k1 = k2.
Proof.
  intros Hn H1 H2. eapply (NoDup_lookup l.*1); [done| |]; by rewrite list_lookup_fmap, ?H1, ?H2.
Qed.

Lemma stuck_step s k i e s' : stuck s k i -> ~ is_start e -> step s e = Done s' -> stuck s' k i.
Proof.
  intros Hst He Hstep. pose proof (lifecycle_step_ok s e (sk_ok _ _ _ Hst)) as Hok. rewrite Hstep in Hok.
  specialize (Hok ltac:(by destruct e)). pose proof (stuck_wait _ _ _ Hst) as Hw.
  destruct Hst as [Hr Hk Hf Hs]. destruct e as [| | |k'|]; cbn [step] in Hstep; try by exfalso.
  - injection Hstep as <-. unfold stop in *. rewrite Hr in *. by constructor.
  - congruence.
  - unfold worker_thread in Hstep. destruct (threads_ s !! k') as [[i' pc]|] eqn:Ek'; [|done].
    assert (Hne : k' <> k -> i' <> i) by (intros Hne ->; apply Hne; by eapply nodup_fst; [apply Hs|..]).
    destruct (decide (k' = k)) as [->|Hkk].
    + rewrite Hk in Ek'. injection Ek' as <- <-. by rewrite Hf in Hstep.
    + specialize (Hne Hkk).
      destruct pc; [|destruct (workers_ s !! i') as [[]|]; try done|done]; injection Hstep as <-;
        (constructor; cbn; [done|by rewrite list_lookup_insert_ne|by rewrite list_lookup_insert_ne|done]).
  - unfold acceptor_thread in Hstep.
    destruct (accept_thread_ s) as [[]|]; try done; [|destruct (acceptor_ s) as [[]|]; try done];
      injection Hstep as <-; by constructor.
Qed.

Lemma stuck_run evs : forall s k i s',
  stuck s k i -> Forall (fun e => ~ is_start e) evs -> run_events s evs = Some s' -> stuck s' k i.
Proof.
  induction evs as [|e evs IH]; intros s k i s' Hst Hev Hr; cbn in Hr; [by injection Hr as <-|].
  apply Forall_cons in Hev as [He Hev]. destruct (step s e) as [s1|x s1| | |] eqn:Es; try done.
  - eapply IH; [by eapply stuck_step|done|done].
  - exfalso. clear -He Es. destruct e; cbn in *; try done; unfold wait, worker_thread, acceptor_thread in Es;
      by repeat case_match.
Qed.

(** [run] sets the flag that [stop] cleared. *)
Lemma early_stop_stuck s k i s1 :
  used s -> running_ s = true -> threads_ s !! k = Some (i, Entering) ->
  step (stop s) (WorkerThread k) = Done s1 -> stuck s1 k i.
Proof.
  intros Hu Hr Hk Hstep. pose proof (used_ok s Hu) as Hs.
  pose proof (lifecycle_step_ok (stop s) (WorkerThread k) (lifecycle_step_ok s Stop Hs I) I) as Hok. rewrite Hstep in Hok.
  cbn in Hstep. unfold worker_thread, stop in Hstep. rewrite Hr in Hstep. cbn in Hstep. rewrite Hk in Hstep.
  injection Hstep as <-. constructor; cbn; [done| | |done].
  - rewrite list_lookup_insert_eq; [done|by eapply lookup_lt_Some].
  - rewrite list_lookup_insert_eq; [done|]. rewrite length_fmap.
    apply (so_range _ Hs i Entering). by eapply list_elem_of_lookup_2.
Qed.

(** * Properties *)

(** C12: stopping ends the server. When every thread has entered [run], after
    [stop] and whatever the order in which the threads go on, each step of a
    thread is its last one, some thread can step as long as one is in [run],
    and once none is [wait] returns with every thread joined. *)
Theorem stop_ends_all_threads s evs s' :
  used s -> running_ s = true -> entered s ->
  Forall thread_event evs -> run_events (stop s) evs = Some s' ->
  (length evs + active s' = active (stop s))%nat /\
  (active s' = O -> exists s'', wait s' = Done s'' /\ joined s'') /\
  (active s' <> O -> exists e s'', thread_event e /\ step s' e = Done s'').
Proof.
  intros Hu Hr He Hev Hrun. pose proof (stop_stopping s (used_ok s Hu) Hr He) as Hst.
  destruct (stopping_run _ _ _ Hst Hev Hrun) as [Hst' Hl].
  split_and!; [done|apply active_zero_wait|by apply active_enabled].
Qed.

(** A started server with two workers, all threads in [run]. *)
Definition started_server : server :=
  match run_events new_server
    [Start 0 [0; 0]; WorkerThread 1; AcceptorThread; WorkerThread 0] with
  | Some s => s | None => new_server end.

Lemma used_run evs : forall s s', used s -> Forall (may_happen new_server) evs ->
  Forall (fun e => ~ is_start e) evs -> run_events s evs = Some s' -> used s'.
Proof.
  induction evs as [|e evs IH]; intros s s' Hu Hm Hev Hr; cbn in Hr; [by injection Hr as <-|].
  apply Forall_cons in Hm as [_ Hm]. apply Forall_cons in Hev as [He Hev].
  assert (may_happen s e) by (by destruct e; [destruct He|..]).
  destruct (step s e) as [s1|x s1| | |] eqn:Es; try done; (eapply IH; [|done..|exact Hr]);
    solve [by eapply used_done|by eapply used_threw].
Qed.

Lemma started_server_used : used started_server.
Proof.
  assert (H : exists s, step new_server (Start 0 [0; 0]) = Done s) by (by eexists).
  destruct H as [s Hs]. apply (used_run [WorkerThread 1; AcceptorThread; WorkerThread 0] s).
  - eapply used_done; [apply used_new| |exact Hs]. by right.
  - repeat constructor.
  - repeat constructor; intros [].
  - injection Hs as <-. reflexivity.
Qed.

Lemma stop_ends_all_threads_witness :
  exists s', run_events (stop started_server) [WorkerThread 0; AcceptorThread] = Some s' /\
  (2 + active s' = active (stop started_server))%nat /\
  (active s' = O -> exists s'', wait s' = Done s'' /\ joined s'') /\
  (active s' <> O -> exists e s'', thread_event e /\ step s' e = Done s'').
Proof.
  eexists. split; [reflexivity|].
  apply (stop_ends_all_threads started_server [WorkerThread 0; AcceptorThread]);
    [apply started_server_used|reflexivity| |by repeat constructor|reflexivity].
  split; [repeat constructor; discriminate|discriminate].
Defined.

(** C11: the life of a server is safe. In every use that waits for a stopped
    server before it starts it again, no call of any thread is undefined or
    ends the process, every scheduler is run by at most one thread, and a
    running accept thread has its scheduler and exactly one accept loop. *)
Theorem lifecycle_safe s e :
  used s -> may_happen s e ->
  step s e <> Undefined /\ step s e <> Terminates /\
  NoDup (threads_ s).*1 /\ (forall i pc, (i, pc) ∈ threads_ s -> (i < length (workers_ s))%nat) /\
  (is_Some (accept_thread_ s) -> is_Some (acceptor_ s) /\ accept_loops s = 1%nat).
Proof.
  intros Hu He. pose proof (used_ok s Hu) as Hs. pose proof (lifecycle_step_ok s e Hs He) as Hst.
  destruct Hs as [Hn Hr Ha]. split_and!; [intros E|intros E|done|done|done]; by rewrite E in Hst.
Qed.

Lemma lifecycle_safe_witness :
  step started_server Stop <> Undefined /\ step started_server Stop <> Terminates /\
  NoDup (threads_ started_server).*1 /\
  (forall i pc, (i, pc) ∈ threads_ started_server -> (i < length (workers_ started_server))%nat) /\
  (is_Some (accept_thread_ started_server) ->
     is_Some (acceptor_ started_server) /\ accept_loops started_server = 1%nat).
Proof. apply (lifecycle_safe started_server Stop); [apply started_server_used|exact I]. Defined.

(** A stop that comes before a worker thread has entered [run] is lost.
    [run] sets the flag that [stop] cleared: whatever follows, short of another
    [start], the thread stays in its loop and [wait], hence the destructor,
    does not return. *)
Theorem stop_before_run_is_lost s k i s1 evs s2 :
  used s -> running_ s = true -> threads_ s !! k = Some (i, Entering) ->
  step (stop s) (WorkerThread k) = Done s1 ->
  Forall (fun e => ~ is_start e) evs -> run_events s1 evs = Some s2 ->
  threads_ s2 !! k = Some (i, Looping) /\ wait s2 = Blocked /\ destroy s2 = Blocked.
Proof.
  intros Hu Hr Hk Hstep Hev Hrun. pose proof (early_stop_stuck _ _ _ _ Hu Hr Hk Hstep) as Hstuck.
  pose proof (stuck_run _ _ _ _ _ Hstuck Hev Hrun) as Hst2. pose proof (stuck_wait _ _ _ Hst2) as Hw.
  split_and!; [by apply Hst2|done|]. unfold destroy, stop. by rewrite (sk_running _ _ _ Hst2).
Qed.

(** The signal arrives while the second worker thread is not in [run] yet. *)
Lemma stop_before_run_is_lost_witness :
  let s := match step new_server (Start 0 [0; 0]) with Done s => s | _ => new_server end in
  exists s1 s2, step (stop s) (WorkerThread 1) = Done s1 /\
    run_events s1 [WorkerThread 0; AcceptorThread; Stop] = Some s2 /\
    threads_ s2 !! 1%nat = Some (1%nat, Looping) /\ wait s2 = Blocked /\ destroy s2 = Blocked.
Proof.
  intros s. eexists _, _. split; [reflexivity|]. split; [reflexivity|].
  eapply (stop_before_run_is_lost s 1 1 _ [WorkerThread 0; AcceptorThread; Stop]);
    [|reflexivity|reflexivity|reflexivity| |reflexivity].
  - eapply (used_done _ (Start 0 [0; 0])); [apply used_new|by right|reflexivity].
  - repeat constructor; intros [].
Defined.

(** A server that is stopped and started again without a [wait] in between
    ends the process or uses a destroyed scheduler. *)
Theorem restart_without_wait s rc rcs :
  used s -> running_ s = true -> is_Some (accept_thread_ s) ->
  0 <= rc -> Forall (fun rc => 0 <= rc) rcs ->
  start rc rcs (stop s) = Undefined \/ start rc rcs (stop s) = Terminates.
Proof.
  intros Hu Hr Ha Hrc Hrcs. unfold start, stop. rewrite Hr. cbn. rewrite (proj2 (Z.ltb_ge _ _) Hrc).
  case_if; [by left|right]. assert (Hw : forall w, (create_workers w rcs).2 = None).
  { induction Hrcs as [|x l Hx _ IH]; intros w; cbn; [done|]. by rewrite (proj2 (Z.ltb_ge _ _) Hx). }
  match goal with |- context [create_workers ?w rcs] => specialize (Hw w); destruct (create_workers w rcs) as [w' o] end.
  cbn in Hw. subst o. by rewrite bool_decide_true.
Qed.
