(* ===== verification/Program.v ===== *)
(** * Program: [main] of coroutineWebServer/CoroutineMain.cpp

    The whole run of the program: the arguments and the constructor of the
    server (Startup.v), then [start], the loop that waits for a signal, [stop],
    [wait] and the destructors, interleaved with the threads of the schedulers
    (Lifecycle.v) and with signals.  The logger is only on or off here; what
    its [start] and [stop] do is in AsyncLogger.v. *)

From S2P Require Import HttpServer Startup Lifecycle.

(** ** The program *)

(** Where [main] is: about to call [server.start()]; in the loop that tests
    [g_stop]; at each call after it; in the destructors; ended. [Terminated]: an
    exception left [main]. *)
Inductive main_pc :=
  | MStart | MSleep | MStop | MWait | MLogStop | MDestroy | MReturned (code : Z) | MTerminated.

Record program := mkProgram {
  pc : main_pc;
  g_stop : bool;
  srv : server;
  logger_on : bool
}.

Definition set_pc (p : program) (c : main_pc) : program := mkProgram c (g_stop p) (srv p) (logger_on p).
Definition set_srv (p : program) (c : main_pc) (s : server) : program := mkProgram c (g_stop p) s (logger_on p).

(** [main] up to [server.start()]. The logger is started before the server is
    constructed, and stopped by its destructor when that throws. *)
Definition main_begin (hardware_concurrency : Z) (args : list bytes) (fs : FileSystem) (current : option bytes)
    (retry : outcome bytes) (sock_fd bind_rc listen_rc : Z) : program :=
  match parse_args (default_options hardware_concurrency) args with
  | Ret None => mkProgram (MReturned 0) false new_server false
  | Ret (Some o) =>
      match (new_HttpServer fs current retry o sock_fd bind_rc listen_rc).1 with
      | Ret _ => mkProgram MStart false new_server true
      | _ => mkProgram MTerminated false new_server false
      end
  | _ => mkProgram MTerminated false new_server false
  end.

(** One step of [main]; [rc] and [rcs] are what [io_uring_queue_init] returns
    in [start]. [None]: the call has not returned. *)
Definition main_step (p : program) (rc : Z) (rcs : list Z) : option program :=
  match pc p with
  | MStart =>
      match Lifecycle.start rc rcs (srv p) with
      | Done s => Some (set_srv p MSleep s)
      | _ => Some (set_pc p MTerminated)
      end
  | MSleep => Some (set_pc p (if g_stop p then MStop else MSleep))
  | MStop => Some (set_srv p MWait (Lifecycle.stop (srv p)))
  | MWait => match wait (srv p) with Done s => Some (set_srv p MLogStop s) | _ => None end
  | MLogStop => Some (mkProgram MDestroy (g_stop p) (srv p) false)
  | MDestroy => match Lifecycle.destroy (srv p) with Done s => Some (set_srv p (MReturned 0) s) | _ => None end
  | MReturned _ | MTerminated => None
  end.

(** [on_signal] *)
Definition on_signal (p : program) : program := mkProgram (pc p) true (srv p) (logger_on p).

Inductive program_event := Main (rc : Z) (rcs : list Z) | Signal | ThreadStep (e : event).

Definition program_step (p : program) (e : program_event) : option program :=
  match e with
  | Main rc rcs => main_step p rc rcs
  | Signal => Some (on_signal p)
  | ThreadStep e =>
      match e with
      | WorkerThread _ | AcceptorThread =>
          match Lifecycle.step (srv p) e with
          | Done s => Some (set_srv p (pc p) s)
          | _ => None
          end
      | _ => None
      end
  end.

Fixpoint program_run (p : program) (l : list program_event) : option program :=
  match l with
  | [] => Some p
  | e :: l' => p' ← program_step p e; program_run p' l'
  end.

(** * Lemmas *)

(** The events of [main] and of the threads. *)
Definition own_steps (l : list program_event) : nat :=
  sum_list_with (fun e => match e with Signal => 0%nat | _ => 1%nat end) l.

Definition main_rank (c : main_pc) : nat :=
  match c with
  | MStart => 6 | MSleep => 5 | MStop => 4 | MWait => 3 | MLogStop => 2 | MDestroy => 1
  | MReturned _ | MTerminated => 0
  end.

(** The steps left after a signal. *)
Definition left (p : program) : nat := main_rank (pc p) + active (srv p).

(** The state after a signal, by where [main] is. *)
Definition ending (p : program) : Prop :=
  g_stop p = true /\
  match pc p with
  | MSleep | MStop => server_ok (srv p) /\ entered (srv p) /\ running_ (srv p) = true
  | MWait => stopping (srv p) /\ running_ (srv p) = false
  | MLogStop => joined (srv p) /\ running_ (srv p) = false
  | MDestroy => joined (srv p) /\ running_ (srv p) = false /\ logger_on p = false
  | MReturned code => code = 0 /\ joined (srv p) /\ logger_on p = false
  | MStart | MTerminated => False
  end.

Lemma joined_active s : joined s -> active s = O.
Proof. intros [Ht Ha]. unfold active. by rewrite Ht, Ha. Qed.

Lemma joined_wait s : joined s -> exists s', wait s = Done s' /\ joined s' /\ running_ s' = running_ s.
Proof. intros [Ht Ha]. unfold wait. rewrite Ht, Ha. cbn. by eexists. Qed.

Lemma returned_filter l : forallb returned l = true -> filter (fun t => t.2 <> Returned) l = [].
Proof.
  induction l as [|t l IH]; [done|]. intros [Ht Hl]%andb_prop. rewrite filter_cons.
  apply bool_decide_eq_true in Ht. by rewrite decide_False, IH by auto.
Qed.

Lemma wait_done s s' : wait s = Done s' -> joined s' /\ active s = O /\ running_ s' = running_ s.
Proof.
  unfold wait. destruct (negb (in_run (accept_thread_ s)) && forallb returned (threads_ s)) eqn:E; [|done].
  intros [= <-]. split; [done|]. split; [|done]. apply andb_prop in E as [Ea Et]. unfold active.
  destruct (in_run (accept_thread_ s)); [done|]. rewrite Nat.add_0_r. by rewrite returned_filter.
Qed.

Lemma joined_no_step s e : joined s -> thread_event e -> forall s', Lifecycle.step s e <> Done s'.
Proof.
  intros [Ht Ha] He s'. destruct e; try done; cbn; unfold worker_thread, acceptor_thread.
  - by rewrite Ht.
  - by rewrite Ha.
Qed.

Lemma own_steps_cons e l :
  own_steps (e :: l) = (match e with Signal => 0 | _ => 1 end + own_steps l)%nat.
Proof. done. Qed.

(** A step after a signal, unless it is one more signal, is one step less. *)
Lemma signal_ending_step p e p' :
  ending p -> program_step p e = Some p' ->
  ending p' /\ (left p' + match e with Signal => 0 | _ => 1 end <= left p)%nat.
Proof.
  intros [Hg Hp] Hs. destruct e as [rc rcs| |e]; cbn [program_step] in Hs.
  - unfold main_step in Hs. destruct (pc p) eqn:Ec; try done.
    + rewrite Hg in Hs. injection Hs as <-. split; [by split|]. unfold left. cbn. rewrite Ec. cbn. lia.
    + injection Hs as <-. destruct Hp as (Hok & Hent & Hr). pose proof (stop_stopping _ Hok Hr Hent) as Hst.
      assert (Hrun : running_ (Lifecycle.stop (srv p)) = false) by (unfold Lifecycle.stop; by rewrite Hr).
      split; [by split|]. unfold left. cbn. rewrite Ec. cbn.
      unfold active, Lifecycle.stop. rewrite Hr. cbn. lia.
    + destruct (wait (srv p)) as [s| | | |] eqn:Ew; try done. injection Hs as <-.
      apply wait_done in Ew as (Hj & Ha & Hrr). destruct Hp as [_ Hr].
      split; [split; cbn; [done|by rewrite Hrr]|]. unfold left. cbn. rewrite Ec, (joined_active _ Hj). cbn. lia.
    + injection Hs as <-. destruct Hp as [Hj Hr]. split; [by split|]. unfold left. cbn. rewrite Ec. cbn. lia.
    + destruct Hp as (Hj & Hr & Hl). unfold destroy, Lifecycle.stop in Hs. rewrite Hr in Hs. cbn in Hs.
      destruct (joined_wait _ Hj) as (s & Hw & Hj' & _). rewrite Hw in Hs. injection Hs as <-.
      split; [by split|]. unfold left. cbn. rewrite Ec, (joined_active _ Hj). cbn. rewrite (joined_active _ Hj'). lia.
  - injection Hs as <-. split; [|unfold left; cbn; lia]. by split.
  - assert (He : thread_event e) by (by destruct e).
    assert (exists s, Lifecycle.step (srv p) e = Done s /\ p' = set_srv p (pc p) s) as (s & Hst & ->).
    { destruct e; try done; destruct (Lifecycle.step (srv p) _) as [s| | | |]; try done; injection Hs as <-; by exists s. }
    clear Hs. destruct (pc p) eqn:Ec; try (exfalso; tauto).
    1-2: destruct Hp as (Hok & Hent & Hr); destruct (entered_step _ _ _ Hok Hent He Hst) as (Hok' & Hent' & Hr' & Ha);
      (split; [split; cbn; [done|by rewrite Hr']|unfold left; cbn; rewrite Ec; cbn; lia]).
    + destruct Hp as [Hsp Hr]. destruct (stopping_step _ _ _ Hsp He Hst) as [Hsp' Ha].
      destruct (entered_step _ _ _ (sp_ok _ Hsp) (sp_entered _ Hsp) He Hst) as (_ & _ & Hr' & _).
      split; [split; cbn; [done|by rewrite Hr']|unfold left; cbn; rewrite Ec; cbn; lia].
    + by destruct (joined_no_step _ _ (proj1 Hp) He s).
    + by destruct (joined_no_step _ _ (proj1 Hp) He s).
    + by destruct (joined_no_step _ _ (proj1 (proj2 Hp)) He s).
Qed.

Lemma signal_ending_run l : forall p p',
  ending p -> program_run p l = Some p' -> ending p' /\ (left p' + own_steps l <= left p)%nat.
Proof.
  induction l as [|e l IH]; intros p p' Hp Hr; cbn in Hr; [injection Hr as <-; split; [done|cbn; lia]|].
  destruct (program_step p e) as [p1|] eqn:E; [|done]. cbn in Hr.
  destruct (signal_ending_step _ _ _ Hp E) as [Hp1 H1]. destruct (IH _ _ Hp1 Hr) as [Hp' H'].
  split; [done|]. rewrite own_steps_cons. lia.
Qed.

Lemma ending_progress p :
  ending p -> (forall code, pc p <> MReturned code) -> exists e p', e <> Signal /\ program_step p e = Some p'.
Proof.
  intros [Hg Hp] Hn. destruct (pc p) eqn:Ec; try done.
  1-2,4-5: exists (Main 0 []); cbn; unfold main_step; rewrite Ec; try by eexists.
  - unfold destroy, Lifecycle.stop. destruct Hp as (Hj & Hr & _). rewrite Hr. cbn.
    destruct (joined_wait _ Hj) as (s & -> & _). by eexists.
  - destruct Hp as [Hsp _]. destruct (decide (active (srv p) = O)) as [Ha|Ha].
    + exists (Main 0 []). cbn. unfold main_step. rewrite Ec. destruct (active_zero_wait _ Ha) as (s & -> & _). by eexists.
    + destruct (active_enabled _ Hsp Ha) as (e & s & He & Hs). exists (ThreadStep e).
      destruct e; try done; cbn [program_step]; rewrite Hs; by eexists.
  - by destruct (Hn code).
Qed.

(** A server one of whose threads missed the stop. *)
Lemma stuck_program l : forall p k i p',
  pc p = MWait -> stuck (srv p) k i -> program_run p l = Some p' -> pc p' = MWait.
Proof.
  induction l as [|e l IH]; intros p k i p' Hc Hst Hr; cbn in Hr; [by injection Hr as <-|].
  destruct (program_step p e) as [p1|] eqn:E; [|done]. cbn in Hr.
  destruct e as [rc rcs| |e]; cbn [program_step] in E.
  - unfold main_step in E. by rewrite Hc, (stuck_wait _ _ _ Hst) in E.
  - injection E as <-. by apply (IH (on_signal p) k i p').
  - assert (exists s, Lifecycle.step (srv p) e = Done s /\ ~ is_start e /\ p1 = set_srv p (pc p) s) as (s & Hs & He & ->).
    { destruct e; try done; destruct (Lifecycle.step (srv p) _) as [s| | | |]; try done; injection E as <-; exists s;
        (split_and!; [done|by intros []|done]). }
    apply (IH (set_srv p (pc p) s) k i p'); [done| |done]. by eapply stuck_step.
Qed.

(** * Properties *)

(** C13: a signal ends the program. Once the server is started and its threads
    have entered their schedulers, after a signal the program is not
    terminated by an exception; [main] and the threads have at most five steps
    and one for each thread left, whatever their order and however many signals
    follow; until [main] has returned one of them can step; and when it has, its
    value is 0, every thread is joined and the logger is stopped. *)
Theorem signal_ends_program p l p' :
  used (srv p) -> running_ (srv p) = true -> entered (srv p) -> pc p = MSleep -> g_stop p = true ->
  program_run p l = Some p' ->
  (own_steps l <= 5 + active (srv p))%nat /\ pc p' <> MTerminated /\
  (forall code, pc p' = MReturned code -> code = 0 /\ joined (srv p') /\ logger_on p' = false) /\
  ((forall code, pc p' <> MReturned code) -> exists e p'', e <> Signal /\ program_step p' e = Some p'').
Proof.
  intros Hu Hr Hent Hc Hg Hrun.
  assert (Hp : ending p) by (split; [done|]; rewrite Hc; split_and!; [by apply used_ok|done|done]).
  destruct (signal_ending_run _ _ _ Hp Hrun) as [Hp' Hl]. split_and!.
  - unfold left in Hl. rewrite Hc in Hl. cbn in Hl. lia.
  - intros Ht. destruct Hp' as [_ Hp']. by rewrite Ht in Hp'.
  - intros code Ht. destruct Hp' as [_ Hp']. by rewrite Ht in Hp'.
  - by apply ending_progress.
Qed.

(** The program with two workers, started and signalled. *)
Definition signalled : program := mkProgram MSleep true started_server true.

Lemma signal_ends_program_witness :
  exists p', program_run signalled
      [Main 0 []; Main 0 []; ThreadStep (WorkerThread 0); Signal; ThreadStep AcceptorThread; ThreadStep (WorkerThread 1);
       Main 0 []; Main 0 []; Main 0 []] = Some p' /\ pc p' = MReturned 0 /\
  (8 <= 5 + active started_server)%nat /\ pc p' <> MTerminated /\
  (forall code, pc p' = MReturned code -> code = 0 /\ joined (srv p') /\ logger_on p' = false) /\
  ((forall code, pc p' <> MReturned code) -> exists e p'', e <> Signal /\ program_step p' e = Some p'').
Proof.
  eexists. split; [reflexivity|]. split; [reflexivity|].
  apply (signal_ends_program signalled
    [Main 0 []; Main 0 []; ThreadStep (WorkerThread 0); Signal; ThreadStep AcceptorThread; ThreadStep (WorkerThread 1);
       Main 0 []; Main 0 []; Main 0 []]); [apply started_server_used|reflexivity| |reflexivity|reflexivity|reflexivity].
  split; [repeat constructor; discriminate|discriminate].
Defined.

(** A signal that comes while a worker thread has not entered its scheduler can
    be lost on it: [main] then waits for ever. *)
Theorem early_signal_hangs p k i :
  used (srv p) -> running_ (srv p) = true -> threads_ (srv p) !! k = Some (i, Entering) ->
  pc p = MSleep -> g_stop p = true ->
  exists p1, program_run p [Main 0 []; Main 0 []; ThreadStep (WorkerThread k)] = Some p1 /\
    forall l p', program_run p1 l = Some p' -> pc p' = MWait.
Proof.
  intros Hu Hr Hk Hc Hg. set (s1 := set_worker (Lifecycle.stop (srv p)) k i Looping true).
  assert (Hs : Lifecycle.step (Lifecycle.stop (srv p)) (WorkerThread k) = Done s1).
  { cbn. unfold worker_thread. replace (threads_ (Lifecycle.stop (srv p))) with (threads_ (srv p)); [by rewrite Hk|].
    unfold Lifecycle.stop. by rewrite Hr. }
  exists (set_srv (set_srv (set_pc p MStop) MWait (Lifecycle.stop (srv p))) MWait s1). split.
  - assert (E1 : program_step p (Main 0 []) = Some (set_pc p MStop)) by (cbn; unfold main_step; by rewrite Hc, Hg).
    assert (E2 : program_step (set_pc p MStop) (Main 0 []) = Some (set_srv (set_pc p MStop) MWait (Lifecycle.stop (srv p)))) by done.
    cbn [program_run]. rewrite E1. cbn [mbind option_bind]. rewrite E2. cbn [mbind option_bind program_step set_srv srv].
    by rewrite Hs.
  - intros l p' Hrun. eapply (stuck_program l); [| |exact Hrun]; [done|]. cbn. by eapply early_stop_stuck.
Qed.

(** Before the server: the usage ends the program with 0; an argument that is
    no number, or a port in use, ends it by an exception. *)
Definition no_files : FileSystem := mkFileSystem (fun _ => false) (fun _ => None) (fun _ => None).

Example main_begins :
  let run args bind_rc := pc (main_begin 8 args no_files (Some (lit "/srv")) (Ret []) 5 bind_rc 0) in
  run [] 0 = MStart /\ run [lit "--help"] 0 = MReturned 0 /\ run [lit "-p"; lit "x"] 0 = MTerminated /\ run [] (-1) = MTerminated.
Proof. by split_and!; vm_compute. Qed.
